(** * agentpy.output: the [DataDict] result store

    A shallow embedding of [agentpy/output.py] (class [DataDict], the helper
    [_last_exp_id], the encoder [NpEncoder] and [load]) together with the
    properties of the result store that the specification states.

    Layout of the development:
    - exceptions and a state-and-exception monad;
    - Python values, tables ([DataFrame]) and the object heap;
    - the part of pandas the module calls, on heap-allocated tables;
    - the methods of [DataDict], in the order of the source;
    - the theorems. *)

From Stdlib Require Import ZArith QArith_base List String Ascii Bool Lia Arith.
From Stdlib Require Import Permutation.
From Stdlib Require Import DecimalString.
From Stdlib Require DecimalPos.
Import ListNotations.
Local Close Scope Q_scope.
Local Open Scope string_scope.
Local Open Scope list_scope.

Set Implicit Arguments.
Set Warnings "-register-all".

(** ** Exceptions and the monad *)

(** The Python exceptions the module can meet, and two answers that are no
    Python exceptions.  [DanglingRef] is the answer of the heap to a
    reference it never handed out; no run from a well-formed heap produces
    it.  [Unmodelled] is the answer of the model where it does not follow
    pandas (see [read_csv] and [column_values]): a run that ends in it says
    nothing about the program. *)
Inductive exn : Type :=
| KeyError
| ValueError
| TypeError
| AttributeError
| FileExistsError
| FileNotFoundError
| IsADirectoryError
| NotADirectoryError
| AssertionError
| DanglingRef
| Unmodelled.

(** The exceptions of Python among them, which [except Exception] catches. *)
Definition python_exn (e : exn) : bool :=
  match e with
  | DanglingRef | Unmodelled => false
  | _ => true
  end.

Inductive result (A : Type) : Type :=
| Ok (a : A)
| Raise (e : exn).
Arguments Ok {A} a.
Arguments Raise {A} e.

(** A computation over a state [St] that returns or raises.  The state at the
    point of the exception stays observable. *)
Definition M (St A : Type) : Type := St -> result A * St.

Definition ret {St A} (a : A) : M St A := fun s => (Ok a, s).
Definition raise {St A} (e : exn) : M St A := fun s => (Raise e, s).
Definition bind {St A B} (c : M St A) (k : A -> M St B) : M St B :=
  fun s => match c s with
           | (Ok a, s') => k a s'
           | (Raise e, s') => (Raise e, s')
           end.

Notation "x <- c ;; k" := (bind c (fun x => k))
  (at level 61, c at next level, right associativity).
Notation "c ;;; k" := (bind c (fun _ => k))
  (at level 61, right associativity).

(** A [for] loop over a list, threading an accumulator. *)
Fixpoint for_each {St A B} (xs : list A) (acc : B) (body : B -> A -> M St B)
  : M St B :=
  match xs with
  | [] => ret acc
  | x :: xs' => acc' <- body acc x ;; for_each xs' acc' body
  end.

(** ** Python values *)

Definition loc : Type := nat.

(** The values a result store holds.  Finite floats are the rationals they
    denote; [PNaN] is the float NaN.  An [ndarray] is represented by the list
    its [tolist()] returns.  [PDict] stands for [dict] and for [AttrDict]
    (a [dict] subclass that compares equal to the [dict] with the same
    items); a [DataFrame] is a reference into the heap, since the module
    shares and mutates tables. *)
Inductive pyobj : Type :=
| PNone
| PBool (b : bool)
| PInt (z : Z)
| PFloat (q : Q)
| PNaN
| PStr (s : string)
| PList (xs : list pyobj)
| PDict (kvs : list (string * pyobj))
| PNpInt (z : Z)
| PNpFloat (q : Q)
| PNdArray (xs : list pyobj)
| PFrame (r : loc)
| PDataDict (kvs : list (string * pyobj))
| PObject (tag : string).

(** Insertion-ordered dictionaries with string keys. *)
Definition dict (A : Type) : Type := list (string * A).

Fixpoint dict_get {A} (k : string) (d : dict A) : option A :=
  match d with
  | [] => None
  | (k', v) :: d' => if String.eqb k k' then Some v else dict_get k d'
  end.

Definition dict_has {A} (k : string) (d : dict A) : bool :=
  match dict_get k d with Some _ => true | None => false end.

(** [d[k] = v]: an existing key keeps its position. *)
Fixpoint dict_set {A} (k : string) (v : A) (d : dict A) : dict A :=
  match d with
  | [] => [(k, v)]
  | (k', v') :: d' =>
      if String.eqb k k' then (k, v) :: d' else (k', v') :: dict_set k v d'
  end.

Definition dict_keys {A} (d : dict A) : list string := map fst d.

(** The result store itself: the items of a [DataDict]. *)
Definition DataDict : Type := dict pyobj.

(** Modelled from the spec: [AttrDict] (agentpy/tools.py, the attribute-style
    dictionary container) is a [dict] whose items can be read as attributes;
    a missing item is an [AttributeError]. *)
Definition getattr (self : DataDict) (name : string) : result pyobj :=
  match dict_get name self with
  | Some v => Ok v
  | None => Raise AttributeError
  end.

Definition lift {St A} (r : result A) : M St A :=
  match r with
  | Ok a => ret a
  | Raise e => raise e
  end.

(** [s1 in s2] on strings *)
Fixpoint prefix (p s : string) : bool :=
  match p, s with
  | EmptyString, _ => true
  | String a p', String b s' => Ascii.eqb a b && prefix p' s'
  | String _ _, EmptyString => false
  end.

Fixpoint contains (p s : string) : bool :=
  prefix p s ||
  match s with
  | EmptyString => false
  | String _ s' => contains p s'
  end.

(** ** Tables *)

(** A table has named columns and a row index of one or more levels, each
    level with an optional name.  A row is its index key and its cells. *)
Record DataFrame : Type := mkDF {
  index_names : list (option string);
  columns : list string;
  rows : list (list pyobj * list pyobj)
}.

Definition heap : Type := list DataFrame.

(** [pd.DataFrame()] *)
Definition empty_frame : DataFrame := mkDF [None] [] [].

Definition shape (df : DataFrame) : nat * nat :=
  (List.length (rows df), List.length (columns df)).

Definition range (n : nat) : list pyobj := map (fun i => PInt (Z.of_nat i)) (seq 0 n).

(** The default index of pandas: one unnamed level counting the rows. *)
Definition range_index (cells : list (list pyobj)) : list (list pyobj * list pyobj) :=
  combine (map (fun i => [i]) (range (List.length cells))) cells.

(** *** Heap access *)

Definition alloc (df : DataFrame) : M heap loc :=
  fun h => (Ok (List.length h), h ++ [df]).

Definition deref (r : loc) : M heap DataFrame :=
  fun h => match nth_error h r with
           | Some df => (Ok df, h)
           | None => (Raise DanglingRef, h)
           end.

Fixpoint list_update {A} (n : nat) (a : A) (l : list A) : list A :=
  match l, n with
  | [], _ => []
  | _ :: l', O => a :: l'
  | x :: l', S n' => x :: list_update n' a l'
  end.

Definition store (r : loc) (df : DataFrame) : M heap unit :=
  fun h => match nth_error h r with
           | Some _ => (Ok tt, list_update r df h)
           | None => (Raise DanglingRef, h)
           end.

(** An operation that reads a table and returns a new object. *)
Definition fresh (r : loc) (f : DataFrame -> result DataFrame) : M heap loc :=
  df <- deref r ;;
  match f df with
  | Ok df' => alloc df'
  | Raise e => raise e
  end.

(** An operation that changes a table in place. *)
Definition in_place (r : loc) (f : DataFrame -> result DataFrame) : M heap unit :=
  df <- deref r ;;
  match f df with
  | Ok df' => store r df'
  | Raise e => raise e
  end.

(** ** The pandas operations used by the module *)

Fixpoint index_of (k : string) (l : list string) : option nat :=
  match l with
  | [] => None
  | x :: l' => if String.eqb k x then Some O
               else option_map S (index_of k l')
  end.

Definition mem (k : string) (l : list string) : bool :=
  existsb (String.eqb k) l.

(** The values an assignment [df[k] = v] gives the rows of a table with
    [n] rows.  A scalar is broadcast; a list or array must have one item per
    row.  Two cases are outside the model: items assigned to a table
    without rows, which pandas takes for new rows, and a mapping or a
    table, which pandas aligns with the index in a way that depends on its
    version. *)
Definition column_values (n : nat) (v : pyobj) : result (list pyobj) :=
  let fit (xs : list pyobj) :=
    if Nat.eqb (List.length xs) n then Ok xs
    else if Nat.eqb n 0 then Raise Unmodelled
    else Raise ValueError in
  match v with
  | PList xs | PNdArray xs => fit xs
  | PDict _ | PDataDict _ | PFrame _ => Raise Unmodelled
  | _ => Ok (repeat v n)
  end.

(** [df[k] = ...] with one value per row: an existing column is overwritten
    where it stands, a new one is appended. *)
Definition set_column (k : string) (vals : list pyobj) (df : DataFrame) : DataFrame :=
  match index_of k (columns df) with
  | Some i =>
      mkDF (index_names df) (columns df)
           (map (fun rv => (fst (fst rv), list_update i (snd rv) (snd (fst rv))))
                (combine (rows df) vals))
  | None =>
      mkDF (index_names df) (columns df ++ [k])
           (map (fun rv => (fst (fst rv), snd (fst rv) ++ [snd rv]))
                (combine (rows df) vals))
  end.

Definition setitem (k : string) (v : pyobj) (df : DataFrame) : result DataFrame :=
  match column_values (List.length (rows df)) v with
  | Ok vals => Ok (set_column k vals df)
  | Raise e => Raise e
  end.

(** [pd.DataFrame({k: [v] for k, v in d.items()})] *)
Definition frame_of_dict (d : dict pyobj) : DataFrame :=
  match d with
  | [] => empty_frame
  | _ => mkDF [None] (dict_keys d) [([PInt 0], map snd d)]
  end.

(** [pd.concat([df] * n)] for [n > 0]: the whole table, [n] times over. *)
Definition concat_copies (n : nat) (df : DataFrame) : DataFrame :=
  mkDF (index_names df) (columns df) (List.concat (repeat (rows df) n)).

(** [df.reset_index(drop=True)] *)
Definition reset_index_drop (df : DataFrame) : DataFrame :=
  mkDF [None] (columns df) (range_index (map snd (rows df))).

(** [df.index.name = name] *)
Definition set_index_name (name : string) (df : DataFrame) : DataFrame :=
  mkDF [Some name] (columns df) (rows df).


(** *** Comparing cells *)

(** Same value, as pandas compares the cells of two tables: NaN matches NaN
    and a numpy scalar matches the Python number of the same kind. *)
Fixpoint pyobj_eqb (a b : pyobj) {struct a} : bool :=
  let fix list_eqb (xs ys : list pyobj) {struct xs} : bool :=
    match xs, ys with
    | [], [] => true
    | x :: xs', y :: ys' => pyobj_eqb x y && list_eqb xs' ys'
    | _, _ => false
    end in
  let fix items_eqb (xs ys : list (string * pyobj)) {struct xs} : bool :=
    match xs, ys with
    | [], [] => true
    | (k, x) :: xs', (k', y) :: ys' =>
        String.eqb k k' && pyobj_eqb x y && items_eqb xs' ys'
    | _, _ => false
    end in
  match a, b with
  | PNone, PNone => true
  | PBool x, PBool y => Bool.eqb x y
  | PInt x, PInt y | PInt x, PNpInt y
  | PNpInt x, PInt y | PNpInt x, PNpInt y => Z.eqb x y
  | PFloat x, PFloat y | PFloat x, PNpFloat y
  | PNpFloat x, PFloat y | PNpFloat x, PNpFloat y => Qeq_bool x y
  | PNaN, PNaN => true
  | PStr x, PStr y => String.eqb x y
  | PList xs, PList ys => list_eqb xs ys
  | PNdArray xs, PNdArray ys => list_eqb xs ys
  | PDict xs, PDict ys => items_eqb xs ys
  | PDataDict xs, PDataDict ys => items_eqb xs ys
  | PFrame r, PFrame r' => Nat.eqb r r'
  | PObject t, PObject t' => String.eqb t t'
  | _, _ => false
  end.

Fixpoint key_eqb (xs ys : list pyobj) : bool :=
  match xs, ys with
  | [], [] => true
  | x :: xs', y :: ys' => pyobj_eqb x y && key_eqb xs' ys'
  | _, _ => false
  end.

Fixpoint keys_eqb (xs ys : list (list pyobj)) : bool :=
  match xs, ys with
  | [], [] => true
  | x :: xs', y :: ys' => key_eqb x y && keys_eqb xs' ys'
  | _, _ => false
  end.

Fixpoint unique_keys (xs : list (list pyobj)) : bool :=
  match xs with
  | [] => true
  | x :: xs' => negb (existsb (key_eqb x) xs') && unique_keys xs'
  end.

(** *** Index levels and columns *)

Definition string_of_nat (n : nat) : string :=
  NilEmpty.string_of_uint (Nat.to_uint n).

Definition indexed {A} (l : list A) : list (nat * A) :=
  combine (seq 0 (List.length l)) l.

Fixpoint nodupb (l : list string) : bool :=
  match l with
  | [] => true
  | x :: l' => negb (mem x l') && nodupb l'
  end.

Definition name_eqb (a b : option string) : bool :=
  match a, b with
  | Some x, Some y => String.eqb x y
  | None, None => true
  | _, _ => false
  end.

Fixpoint level_pos (name : string) (names : list (option string)) : option nat :=
  match names with
  | [] => None
  | n :: names' => if name_eqb n (Some name) then Some O
                   else option_map S (level_pos name names')
  end.

(** The column labels [reset_index] gives the index levels: the level's
    name, or [index] (or [level_0]) for a single unnamed level and
    [level_i] for an unnamed level among several. *)
Definition level_names (df : DataFrame) : list string :=
  match index_names df with
  | [None] => [if mem "index" (columns df) then "level_0" else "index"]
  | names =>
      map (fun inm => match snd inm with
                      | Some s => s
                      | None => ("level_" ++ string_of_nat (fst inm))%string
                      end) (indexed names)
  end.

(** [df.reset_index()]: the index levels become the leading columns; a label
    that is already a column cannot be inserted. *)
Definition reset_index (df : DataFrame) : result DataFrame :=
  let names := level_names df in
  if nodupb names && forallb (fun n => negb (mem n (columns df))) names
  then Ok (mkDF [None] (names ++ columns df)
                (range_index (map (fun r => fst r ++ snd r) (rows df))))
  else Raise ValueError.

(** The cell of a row under a column label; NaN where the row has none. *)
Definition cell (cols : list string) (vals : list pyobj) (k : string) : pyobj :=
  match index_of k cols with
  | Some i => nth i vals PNaN
  | None => PNaN
  end.

Definition drop_cells (ks cols : list string) (vals : list pyobj) : list pyobj :=
  map snd (filter (fun cv => negb (mem (fst cv) ks)) (combine cols vals)).

Fixpoint all_some {A} (l : list (option A)) : option (list A) :=
  match l with
  | [] => Some []
  | Some a :: l' => option_map (cons a) (all_some l')
  | None :: _ => None
  end.

(** [df.set_index(keys)]: the named columns become the index levels, in the
    order given.  Every key has to be a column label. *)
Definition set_index (keys : list (option string)) (df : DataFrame)
  : result DataFrame :=
  match all_some keys with
  | Some [] => Raise ValueError
  | None => Raise KeyError
  | Some ks =>
      if forallb (fun k => mem k (columns df)) ks
      then Ok (mkDF (map Some ks)
                    (filter (fun c => negb (mem c ks)) (columns df))
                    (map (fun r => (map (cell (columns df) (snd r)) ks,
                                    drop_cells ks (columns df) (snd r)))
                         (rows df)))
      else Raise KeyError
  end.

(** [df[keys]] with a list of column labels *)
Definition select_columns (ks : list string) (df : DataFrame)
  : result DataFrame :=
  if forallb (fun k => mem k (columns df)) ks
  then Ok (mkDF (index_names df) ks
                (map (fun r => (fst r, map (cell (columns df) (snd r)) ks))
                     (rows df)))
  else Raise KeyError.

(** [l.insert(-1, x)] *)
Fixpoint insert_before_last {A} (x : A) (l : list A) : list A :=
  match l with
  | [] => [x]
  | [a] => [x; a]
  | a :: l' => a :: insert_before_last x l'
  end.

(** *** Concatenation *)

(** The columns of a concatenation: every label, in order of appearance. *)
Definition union_columns (dfs : list DataFrame) : list string :=
  fold_left (fun acc df => acc ++ filter (fun c => negb (mem c acc)) (columns df))
            dfs [].

(** A level keeps its name where all the tables agree on it. *)
Definition unanimous_names (names : list (list (option string)))
  : list (option string) :=
  match names with
  | [] => []
  | n0 :: others =>
      map (fun inm =>
             if forallb (fun ns => name_eqb (nth (fst inm) ns None) (snd inm))
                        others
             then snd inm else None) (indexed n0)
  end.

(** [pd.concat(dfs)]: the rows of the tables one after the other, cells
    aligned by column label and NaN where a table lacks a column.  pandas
    refuses indexes with different numbers of levels when it builds a
    multi-level index.  The cells keep their kind: where pandas turns the
    integers of a column that it fills with NaN into floats of the same
    value, the model shows the integers. *)
Definition concat_frames (dfs : list DataFrame) : result DataFrame :=
  match dfs with
  | [] => Raise ValueError
  | d0 :: others =>
      if forallb (fun d => Nat.eqb (List.length (index_names d))
                                   (List.length (index_names d0))) others
      then
        let cols := union_columns dfs in
        Ok (mkDF (unanimous_names (map index_names dfs)) cols
                 (flat_map
                    (fun d => map (fun r => (fst r, map (cell (columns d) (snd r)) cols))
                                  (rows d))
                    dfs))
      else Raise AssertionError
  end.

(** The table with its dictionary key as a new outermost index level. *)
Definition add_key_level (k : string) (df : DataFrame) : DataFrame :=
  mkDF (None :: index_names df) (columns df)
       (map (fun r => (PStr k :: fst r, snd r)) (rows df)).

(** [pd.concat(d)] for a dictionary [d] of tables *)
Definition concat_keys (d : dict DataFrame) : result DataFrame :=
  concat_frames (map (fun kv => add_key_level (fst kv) (snd kv)) d).

(** [df.index = df.index.set_names(name, level=0)] *)
Definition set_level0_name (name : string) (df : DataFrame) : DataFrame :=
  mkDF (match index_names df with
        | [] => []
        | _ :: names => Some name :: names
        end) (columns df) (rows df).

Definition nan_row (df : DataFrame) : list pyobj :=
  repeat PNaN (List.length (columns df)).

Definition row_at (key : list pyobj) (df : DataFrame) : list pyobj :=
  match find (fun r => key_eqb (fst r) key) (rows df) with
  | Some r => snd r
  | None => nan_row df
  end.

(** [dfp.reindex(target.index, level=level)]: the rows of [dfp] spread over
    the index of [target], matched on one of its levels. *)
Definition reindex_level (level : string) (target dfp : DataFrame)
  : result DataFrame :=
  match level_pos level (index_names target) with
  | None => Raise KeyError
  | Some i =>
      Ok (mkDF (index_names target) (columns dfp)
               (map (fun r => (fst r, row_at [nth i (fst r) PNaN] dfp))
                    (rows target)))
  end.

(** [pd.concat([a, b], axis=1)]: the columns side by side, rows aligned on
    the index (an outer join, which needs unique keys unless the two
    indexes are the same). *)
Definition concat_axis1 (a b : DataFrame) : result DataFrame :=
  let ka := map fst (rows a) in
  let kb := map fst (rows b) in
  let names := if Nat.eqb (List.length (index_names a)) (List.length (index_names b))
               then unanimous_names [index_names a; index_names b]
               else index_names a in
  if keys_eqb ka kb
  then Ok (mkDF names (columns a ++ columns b)
                (map (fun ab => (fst (fst ab), snd (fst ab) ++ snd (snd ab)))
                     (combine (rows a) (rows b))))
  else if unique_keys ka && unique_keys kb
  then Ok (mkDF names (columns a ++ columns b)
                (map (fun r => (fst r, snd r ++ row_at (fst r) b)) (rows a)
                 ++ map (fun r => (fst r, nan_row a ++ snd r))
                        (filter (fun r => negb (existsb (key_eqb (fst r)) ka))
                                (rows b))))
  else Raise ValueError.

(** [df.query("scenario in @scenarios")] *)
Definition query_scenario (scenarios : list string) (df : DataFrame)
  : result DataFrame :=
  match level_pos "scenario" (index_names df) with
  | None => Raise KeyError
  | Some i =>
      Ok (mkDF (index_names df) (columns df)
               (filter (fun r => match nth i (fst r) PNaN with
                                 | PStr s => mem s scenarios
                                 | _ => false
                                 end) (rows df)))
  end.

(** [a.equals(b)]: same shape, same labels and keys, same cells.  The names
    of the index levels take no part in it.  A table of the model has no
    column types beside the kinds of its cells, so that two tables without
    rows are told apart by their labels only. *)
Definition equals (a b : DataFrame) : bool :=
  forallb (fun ab => String.eqb (fst ab) (snd ab)) (combine (columns a) (columns b))
  && Nat.eqb (List.length (columns a)) (List.length (columns b))
  && keys_eqb (map fst (rows a)) (map fst (rows b))
  && keys_eqb (map snd (rows a)) (map snd (rows b)).

(** ** [DataDict.__eq__] *)

Section Equality.

(** The heap in which both operands live. *)
Variable h : heap.

Definition num_of (v : pyobj) : option Q :=
  match v with
  | PBool b => Some (Qmake (if b then 1 else 0) 1)
  | PInt z | PNpInt z => Some (Qmake z 1)
  | PFloat q | PNpFloat q => Some q
  | _ => None
  end.

(** [a == b] between two values that are not containers: numbers compare by
    value across their types, NaN equals nothing, an object only itself. *)
Definition atom_eq (a b : pyobj) : bool :=
  match num_of a, num_of b with
  | Some x, Some y => Qeq_bool x y
  | _, _ =>
      match a, b with
      | PNone, PNone => true
      | PStr s, PStr t => String.eqb s t
      | PObject s, PObject t => String.eqb s t
      | _, _ => false
      end
  end.

(** Containers compare their items by identity first.  Only heap objects
    have an identity in the model: a NaN held in a list is taken for
    another object than the NaN of the list it is compared with. *)
Definition same_object (x y : pyobj) : bool :=
  match x, y with
  | PFrame r, PFrame r' => Nat.eqb r r'
  | PObject s, PObject t => String.eqb s t
  | _, _ => false
  end.

(** The truth value of an element-wise comparison. *)
Definition truth (bs : list bool) : result bool :=
  match bs with
  | [] => Ok false
  | [b] => Ok b
  | _ => Raise ValueError
  end.

(** The truth value of [a == b].  A comparison with a table is element-wise
    and has no truth value; so is one with an array of several items.  A
    [DataDict] operand is compared by [DataDict.__eq__], whose loop is the
    inner [entries_eq]. *)
Fixpoint py_eq (a b : pyobj) {struct a} : result bool :=
  let fix all_eq (xs ys : list pyobj) {struct xs} : result bool :=
    match xs, ys with
    | x :: xs', y :: ys' =>
        if same_object x y then all_eq xs' ys'
        else match py_eq x y with
             | Ok true => all_eq xs' ys'
             | r => r
             end
    | _, _ => Ok true
    end in
  let fix each_eq (xs ys : list pyobj) {struct xs} : result (list bool) :=
    match xs, ys with
    | x :: xs', y :: ys' =>
        match py_eq x y with
        | Ok b => match each_eq xs' ys' with
                  | Ok bs => Ok (b :: bs)
                  | Raise e => Raise e
                  end
        | Raise e => Raise e
        end
    | _, _ => Ok []
    end in
  let fix items_eq (xs : list (string * pyobj)) (ys : dict pyobj) {struct xs}
    : result bool :=
    match xs with
    | [] => Ok true
    | (k, x) :: xs' =>
        match dict_get k ys with
        | None => Ok false
        | Some y =>
            if same_object x y then items_eq xs' ys
            else match py_eq x y with
                 | Ok true => items_eq xs' ys
                 | r => r
                 end
        end
    end in
  let fix entries_eq (xs : list (string * pyobj)) (ys : dict pyobj) {struct xs}
    : result bool :=
    match xs with
    | [] => Ok true
    | (k, item) :: xs' =>
        match dict_get k ys with
        | None => Ok false
        | Some o =>
            match item with
            | PFrame r =>
                match o with
                | PFrame r' =>
                    match nth_error h r, nth_error h r' with
                    | Some d, Some d' =>
                        if equals d d' then entries_eq xs' ys else Ok false
                    | _, _ => Raise DanglingRef
                    end
                | _ => Ok false
                end
            | _ =>
                match py_eq item o with
                | Ok true => entries_eq xs' ys
                | r => r
                end
            end
        end
    end in
  match a, b with
  | PDataDict xs, PDataDict ys => entries_eq xs ys
  | PDataDict _, _ => Ok false
  | PFrame _, _ => Raise ValueError
  | PNdArray _, PFrame _ => Raise ValueError
  | PNdArray xs, PNdArray ys | PNdArray xs, PList ys | PList xs, PNdArray ys =>
      if Nat.eqb (List.length xs) (List.length ys)
      then match each_eq xs ys with
           | Ok bs => truth bs
           | Raise e => Raise e
           end
      else Raise ValueError
  | PNdArray xs, _ => truth (map (fun x => atom_eq x b) xs)
  | _, PNdArray ys => truth (map (atom_eq a) ys)
  | _, PDataDict _ => Ok false
  | _, PFrame _ => Raise ValueError
  | PList xs, PList ys =>
      if Nat.eqb (List.length xs) (List.length ys) then all_eq xs ys
      else Ok false
  | PDict xs, PDict ys =>
      if Nat.eqb (List.length xs) (List.length ys) then items_eq xs ys
      else Ok false
  | _, _ => Ok (atom_eq a b)
  end.

(** The loop of [__eq__] over [self.items()]. *)
Fixpoint entries_equal (items : list (string * pyobj)) (other : dict pyobj)
  : result bool :=
  match items with
  | [] => Ok true
  | (key, item) :: items' =>
      match dict_get key other with
      | None => Ok false                      (* key not in other *)
      | Some o =>
          match item with
          | PFrame r =>                       (* self[key].equals(other[key]) *)
              match o with
              | PFrame r' =>
                  match nth_error h r, nth_error h r' with
                  | Some d, Some d' =>
                      if equals d d' then entries_equal items' other
                      else Ok false
                  | _, _ => Raise DanglingRef
                  end
              | _ => Ok false
              end
          | _ =>                              (* not self[key] == other[key] *)
              match py_eq item o with
              | Ok true => entries_equal items' other
              | r => r
              end
          end
      end
  end.

(** [self == other] *)
Definition __eq__ (self : DataDict) (other : pyobj) : result bool :=
  match other with
  | PDataDict o => entries_equal self o
  | _ => Ok false                             (* not isinstance(other, DataDict) *)
  end.

Definition __ne__ (self : DataDict) (other : pyobj) : result bool :=
  match __eq__ self other with
  | Ok b => Ok (negb b)
  | Raise e => Raise e
  end.

End Equality.

(** ** [DataDict._combine_vars] *)

(** Modelled from the spec: [make_list] (agentpy/tools.py) turns a single
    name into a one-item list and leaves a list as it is.  A selector is the
    string ['all'] or the list of names [make_list] answers. *)
Inductive selector : Type :=
| All
| Names (l : list string).

(** The table behind a value, for an operation that only tables have. *)
Definition as_frame (e : exn) (v : pyobj) : M heap loc :=
  match v with
  | PFrame r => ret r
  | _ => raise e
  end.

Fixpoint filter_m {St A} (f : A -> M St bool) (l : list A) : M St (list A) :=
  match l with
  | [] => ret []
  | x :: l' =>
      b <- f x ;;
      l'' <- filter_m f l' ;;
      ret (if b : bool then x :: l'' else l'')
  end.

(** [any(x in v.columns for x in var_keys)]: the columns are only asked for
    when there is a name to look up. *)
Definition has_any_column (ks : list string) (v : pyobj) : M heap bool :=
  match ks with
  | [] => ret false
  | _ =>
      r <- as_frame AttributeError v ;;
      df <- deref r ;;
      ret (existsb (fun x => mem x (columns df)) ks)
  end.

(** [self.log['model_type']] *)
Definition model_type_of (self : DataDict) : result pyobj :=
  match getattr self "log" with
  | Ok (PDict d) | Ok (PDataDict d) =>
      match dict_get "model_type" d with
      | Some v => Ok v
      | None => Raise KeyError
      end
  | Ok _ => Raise TypeError
  | Raise e => Raise e
  end.

(** The tables [pd.concat] is given: [None] entries are dropped, anything
    else that is not a table is refused. *)
Fixpoint tables_of (d : dict pyobj) : M heap (dict DataFrame) :=
  match d with
  | [] => ret []
  | (k, PFrame r) :: d' =>
      df <- deref r ;;
      rest <- tables_of d' ;;
      ret ((k, df) :: rest)
  | (_, PNone) :: d' => tables_of d'
  | _ :: _ => raise TypeError
  end.

(** "Add 'obj_id' before 't' for model df".  The column is written into the
    table the store holds ([df] is that very object); the re-indexed table
    is a new one and replaces it in [df_dict] only. *)
Definition add_obj_id (model_type : pyobj) (df_dict : dict pyobj)
  : M heap (dict pyobj) :=
  match model_type with
  | PStr m =>
      match dict_get m df_dict with
      | Some v =>
          df <- as_frame (match v with
                          | PDict _ | PDataDict _ => AttributeError
                          | _ => TypeError
                          end) v ;;
          in_place df (setitem "obj_id" (PInt 0)) ;;;
          d <- deref df ;;
          let indexes := insert_before_last (Some "obj_id") (index_names d) in
          df1 <- fresh df reset_index ;;
          df2 <- fresh df1 (set_index indexes) ;;
          ret (dict_set m (PFrame df2) df_dict)
      | None => ret df_dict
      end
  | _ => ret df_dict
  end.

(** The path of the source for a mapping of several tables. *)
Definition combine_tables (self : DataDict) (vs : dict pyobj)
           (obj_types var_keys : selector) : M heap pyobj :=
  (* Remove dataframes that don't include any of the selected var_keys *)
  d1 <- match var_keys with
        | All => ret vs
        | Names ks => filter_m (fun kv => has_any_column ks (snd kv)) vs
        end ;;
  (* Select object types *)
  let d2 := match obj_types with
            | All => d1
            | Names ts => filter (fun kv => mem (fst kv) ts) d1
            end in
  (* Add 'obj_id' before 't' for model df *)
  model_type <- lift (model_type_of self) ;;
  d3 <- add_obj_id model_type d2 ;;
  (* Return none if empty *)
  match d3 with
  | [] => ret PNone
  | _ =>
      (* Create dataframe *)
      tables <- tables_of d3 ;;
      joined <- lift (concat_keys tables) ;;
      df <- alloc joined ;;
      in_place df (fun d => Ok (set_level0_name "obj_type" d)) ;;;
      (* Select var_keys *)
      match var_keys with
      | All => ret (PFrame df)
      | Names ks => df' <- fresh df (select_columns ks) ;; ret (PFrame df')
      end
  end.

Definition _combine_vars (self : DataDict) (obj_types var_keys : selector)
  : M heap pyobj :=
  match dict_get "variables" self with
  | None => ret PNone
  | Some (PFrame r) => ret (PFrame r)         (* vs is already a df *)
  | Some (PDataDict [(_, v)]) => ret v        (* vs has only one entry *)
  | Some (PDataDict vs) | Some (PDict vs) =>
      combine_tables self vs obj_types var_keys
  | Some _ => raise TypeError
  end.
(** ** Reading the run's log *)

(** [v > 1] *)
Definition gt_one (v : pyobj) : result bool :=
  match v with
  | PBool _ | PNaN => Ok false
  | PInt z | PNpInt z => Ok (1 <? z)%Z
  | PFloat q | PNpFloat q => Ok (negb (Qle_bool q (1 # 1)))
  | PNdArray _ | PFrame _ => Raise ValueError
  | _ => Raise TypeError
  end.

(** [[dfp] * v]: a list can be repeated by an integer only. *)
Definition times (v : pyobj) : result nat :=
  match v with
  | PInt z | PNpInt z => Ok (Z.to_nat z)
  | PBool b => Ok (if b then 1 else 0)
  | _ => Raise TypeError
  end.

(** ['iterations' in self.log and self.log['iterations'] > 1], with the
    number of copies when it holds.  A log that is a list or a string
    answers the membership test but cannot be subscripted by a name. *)
Definition iterations_of (self : DataDict) : M heap (option nat) :=
  log <- lift (getattr self "log") ;;
  match log with
  | PDict d | PDataDict d =>
      match dict_get "iterations" d with
      | None => ret None
      | Some v =>
          b <- lift (gt_one v) ;;
          if b : bool then n <- lift (times v) ;; ret (Some n) else ret None
      end
  | PList xs =>
      if existsb (fun x => match x with
                           | PStr s => String.eqb s "iterations"
                           | _ => false
                           end) xs
      then raise TypeError else ret None
  | PStr s => if contains "iterations" s then raise TypeError else ret None
  | PFrame r =>
      df <- deref r ;;
      if mem "iterations" (columns df) then raise ValueError else ret None
  | _ => raise TypeError
  end.

(** ** [DataDict._combine_pars] *)

(** Cases 0 to 4 of the source: the table assembled from the [parameters]
    entry, or nothing.  Where [varied] is not a table, [.copy()] or the later
    [.shape] fails; the model raises [AttributeError] at once.  [fixed] is
    read through [.items()] and has to be a mapping. *)
Definition assemble_pars (self : DataDict) (varied fixed : bool)
  : M heap (option loc) :=
  match dict_get "parameters" self with
  | None => ret None
  | Some (PDataDict p) =>
      dfp0 <- alloc empty_frame ;;
      dfp <- (if varied then
                match dict_get "varied" p with
                | Some (PFrame r) => fresh r (@Ok _)
                | _ => raise AttributeError
                end
              else ret dfp0) ;;
      (if fixed then
         match dict_get "fixed" p with
         | Some (PDict f) | Some (PDataDict f) =>
             for_each f tt
               (fun _ kv => in_place dfp (setitem (fst kv) (snd kv)))
         | _ => raise AttributeError
         end
       else ret tt) ;;;
      ret (Some dfp)
  | Some (PDict p) =>
      if fixed then r <- alloc (frame_of_dict p) ;; ret (Some r)
      else ret None
  | Some (PFrame r) =>
      if varied then r' <- fresh r (@Ok _) ;; ret (Some r')
      else ret None
  | Some _ => raise TypeError
  end.

Definition is_0_0 (df : DataFrame) : bool :=
  match shape df with
  | (O, O) => true
  | _ => false
  end.

(** Case 5 and the common tail: cancel, or repeat for the iterations and
    number the runs afresh. *)
Definition _combine_pars (self : DataDict) (varied fixed : bool)
  : M heap pyobj :=
  dfp <- assemble_pars self varied fixed ;;
  match dfp with
  | None => ret PNone
  | Some r =>
      df <- deref r ;;
      if is_0_0 df then ret PNone
      else
        n <- iterations_of self ;;
        r1 <- match n with
              | Some n => fresh r (fun d => Ok (concat_copies n d))
              | None => ret r
              end ;;
        r2 <- fresh r1 (fun d => Ok (reset_index_drop d)) ;;
        in_place r2 (fun d => Ok (set_index_name "run_id" d)) ;;;
        ret (PFrame r2)
  end.


(** ** [DataDict.arrange] *)

(** The [parameters] argument: one of the keywords, or names.  (The keyword
    is ['static']; any other string, ['fixed'] too, is a name.) *)
Inductive par_selector : Type :=
| ParAll
| ParVaried
| ParStatic
| ParNames (l : list string).

(** Step 4, first half: variables and measures. *)
Definition combine_vars_measures (dfv dfm : pyobj) : M heap pyobj :=
  match dfv, dfm with
  | PNone, PNone => ret PNone
  | PNone, _ => ret dfm
  | _, PNone => ret dfv
  | _, _ =>
      rv <- as_frame AttributeError dfv ;;
      v <- deref rv ;;
      let index_keys := index_names v in
      rm <- as_frame AttributeError dfm ;;
      rm' <- fresh rm reset_index ;;
      rv' <- fresh rv reset_index ;;
      m' <- deref rm' ;;
      v' <- deref rv' ;;
      joined <- lift (concat_frames [m'; v']) ;;
      df <- alloc joined ;;
      df' <- fresh df (set_index index_keys) ;;
      ret (PFrame df')
  end.

(** Step 4, second half: the parameters.  For a single run the parameter
    values are written into [df] itself, whichever table that is. *)
Definition combine_with_pars (df dfp : pyobj) : M heap pyobj :=
  match dfp, df with
  | PNone, _ => ret df
  | _, PNone => ret dfp
  | _, _ =>
      rp <- as_frame TypeError dfp ;;
      p <- deref rp ;;
      if (1 <? List.length (rows p))%nat
      then
        r <- as_frame AttributeError df ;;
        d <- deref r ;;
        rp' <- (if (1 <? List.length (index_names d))%nat
                then fresh rp (reindex_level "run_id" d)
                else ret rp) ;;
        p' <- deref rp' ;;
        joined <- lift (concat_axis1 d p') ;;
        r' <- alloc joined ;;
        ret (PFrame r')
      else
        for_each (indexed (columns p)) tt
          (fun _ jk =>
             match rows p with
             | [] => raise KeyError                       (* v[0] *)
             | row0 :: _ =>
                 r <- as_frame TypeError df ;;
                 in_place r (setitem (snd jk) (nth (fst jk) (snd row0) PNaN))
             end) ;;;
        ret df
  end.

Definition arrange (self : DataDict)
           (variables measures : option selector)
           (parameters : option par_selector)
           (obj_types scenarios : selector) (index : bool) : M heap pyobj :=
  (* Step 1: Variables *)
  dfv <- match variables with
         | Some var_keys => _combine_vars self obj_types var_keys
         | None => ret PNone
         end ;;
  (* Step 2: Measures *)
  dfm <- match measures with
         | None => ret PNone
         | Some sel =>
             m <- lift (getattr self "measures") ;;
             match sel with
             | All => ret m
             | Names ks =>
                 r <- as_frame TypeError m ;;
                 r' <- fresh r (select_columns ks) ;;
                 ret (PFrame r')
             end
         end ;;
  (* Step 3: Parameters *)
  dfp <- match parameters with
         | None => ret PNone
         | Some sel =>
             let varied := match sel with ParStatic => false | _ => true end in
             let static := match sel with ParVaried => false | _ => true end in
             p <- _combine_pars self varied static ;;
             match sel with
             | ParNames ks =>
                 r <- as_frame TypeError p ;;
                 r' <- fresh r (select_columns ks) ;;
                 ret (PFrame r')
             | _ => ret p
             end
         end ;;
  (* Step 4: Combine dataframes *)
  df0 <- combine_vars_measures dfv dfm ;;
  df1 <- combine_with_pars df0 dfp ;;
  match df1 with
  | PNone => ret PNone
  | _ =>
      (* Step 5: Select scenarios *)
      df2 <- match scenarios with
             | All => ret df1
             | Names scs =>
                 r <- as_frame AttributeError df1 ;;
                 d <- deref r ;;
                 if existsb (name_eqb (Some "scenario")) (index_names d)
                 then r' <- fresh r (query_scenario scs) ;; ret (PFrame r')
                 else ret df1
             end ;;
      (* Step 6: Reset index *)
      if index then ret df2
      else
        r <- as_frame AttributeError df2 ;;
        r' <- fresh r reset_index ;;
        ret (PFrame r')
  end.

(** The two wrappers hand every argument on to [arrange]; they differ from it
    in the defaults only ([measures='all', parameters='varied'] and
    [variables='all', parameters='varied']), which a call in this model
    writes out. *)
Definition arrange_measures (self : DataDict)
           (variables measures : option selector)
           (parameters : option par_selector)
           (obj_types scenarios : selector) (index : bool) : M heap pyobj :=
  arrange self variables measures parameters obj_types scenarios index.

Definition arrange_variables (self : DataDict)
           (variables measures : option selector)
           (parameters : option par_selector)
           (obj_types scenarios : selector) (index : bool) : M heap pyobj :=
  arrange self variables measures parameters obj_types scenarios index.

(** ** Strings *)

(** [s.split(c)] for a one-character separator *)
Fixpoint split_on (c : ascii) (s : string) : list string :=
  match s with
  | EmptyString => [EmptyString]
  | String a s' =>
      if Ascii.eqb a c then EmptyString :: split_on c s'
      else match split_on c s' with
           | [] => [String a EmptyString]
           | w :: ws => String a w :: ws
           end
  end.

(** [s.split(c)[-1]] *)
Definition last_part (c : ascii) (s : string) : string :=
  last (split_on c s) EmptyString.

(** [s.rsplit(c, 1)[0]] *)
Definition before_last (c : ascii) (s : string) : string :=
  match rev (split_on c s) with
  | _ :: ((_ :: _) as front) =>
      String.concat (String c EmptyString) (rev front)
  | _ => s
  end.

(** [s[:-n]] for [n > 0] *)
Definition drop_last (n : nat) (s : string) : string :=
  String.substring 0 (String.length s - n) s.

(** [s.replace(old, new)], for the non-empty patterns of the module: matches
    are found left to right and do not overlap. *)
Fixpoint replace_from (old new : string) (skip : nat) (s : string) : string :=
  match s with
  | EmptyString => EmptyString
  | String a s' =>
      match skip with
      | S k => replace_from old new k s'
      | O =>
          if prefix old s
          then String.append new (replace_from old new (String.length old - 1) s')
          else String a (replace_from old new 0 s')
      end
  end.

Definition replace (old new s : string) : string := replace_from old new 0 s.

Definition is_digit (a : ascii) : bool :=
  let n := nat_of_ascii a in (48 <=? n)%nat && (n <=? 57)%nat.

(** [str.isspace] on an ASCII character: the blanks 9 to 13, the separators
    28 to 31 and the space *)
Definition is_space (a : ascii) : bool :=
  let n := nat_of_ascii a in
  ((9 <=? n)%nat && (n <=? 13)%nat) || ((28 <=? n)%nat && (n <=? 32)%nat).

Fixpoint lstrip (s : string) : string :=
  match s with
  | String a s' => if is_space a then lstrip s' else s
  | EmptyString => EmptyString
  end.

Fixpoint rstrip (s : string) : string :=
  match s with
  | EmptyString => EmptyString
  | String a s' =>
      match rstrip s' with
      | EmptyString => if is_space a then EmptyString else String a EmptyString
      | t => String a t
      end
  end.

Fixpoint digits (acc : Z) (s : string) : option Z :=
  match s with
  | EmptyString => Some acc
  | String a s' =>
      if is_digit a
      then digits (10 * acc + Z.of_nat (nat_of_ascii a - 48)) s'
      else None
  end.

Definition number (s : string) : option Z :=
  match s with
  | EmptyString => None
  | _ => digits 0 s
  end.

(** [int(s)] for a string of ASCII characters without underscore, as the
    parts of [s.split('_')] are: blanks around, a sign, decimal digits;
    [None] is the [ValueError].  Python also reads the digits and blanks of
    other scripts; a string with a character outside ASCII is not covered
    by the statements that rest on a [None] here. *)
Definition py_int (s : string) : option Z :=
  match lstrip (rstrip s) with
  | String "+" r => number r
  | String "-" r => option_map Z.opp (number r)
  | r => number r
  end.

(** [str(z)], as an f-string prints an integer *)
Definition string_of_Z (z : Z) : string :=
  NilZero.string_of_int (Z.to_int z).

(** ** JSON *)

Inductive json : Type :=
| JNull
| JBool (b : bool)
| JInt (z : Z)
| JFloat (q : Q)
| JNaN
| JStr (s : string)
| JArr (xs : list json)
| JObj (kvs : list (string * json)).

(** [json.dump(v, fp, cls=NpEncoder)]: the document written, or [None] for
    the [TypeError] of a value that cannot be serialised.
    [NpEncoder.default] turns [np.integer] into [int], [np.floating] into
    [float] and [np.ndarray] into a list; everything else it hands back to
    the base class, which refuses it. *)
Fixpoint json_encode (v : pyobj) {struct v} : option json :=
  let fix enc_list (xs : list pyobj) {struct xs} : option (list json) :=
    match xs with
    | [] => Some []
    | x :: xs' =>
        match json_encode x, enc_list xs' with
        | Some j, Some js => Some (j :: js)
        | _, _ => None
        end
    end in
  let fix enc_items (kvs : list (string * pyobj)) {struct kvs}
    : option (list (string * json)) :=
    match kvs with
    | [] => Some []
    | (k, x) :: kvs' =>
        match json_encode x, enc_items kvs' with
        | Some j, Some js => Some ((k, j) :: js)
        | _, _ => None
        end
    end in
  match v with
  | PNone => Some JNull
  | PBool b => Some (JBool b)
  | PInt z => Some (JInt z)
  | PFloat q => Some (JFloat q)
  | PNaN => Some JNaN
  | PStr s => Some (JStr s)
  | PList xs => option_map JArr (enc_list xs)
  | PDict kvs | PDataDict kvs => option_map JObj (enc_items kvs)
  | PNpInt z => Some (JInt z)                    (* int(obj) *)
  | PNpFloat q => Some (JFloat q)                (* float(obj) *)
  | PNdArray xs => option_map JArr (enc_list xs) (* obj.tolist() *)
  | PFrame _ | PObject _ => None
  end.

(** [json.load(fp)] on a well-formed document.  (A document written by
    [json.dump] has no repeated key; the model keeps the items as listed.) *)
Fixpoint json_decode (j : json) {struct j} : pyobj :=
  let fix dec_list (xs : list json) {struct xs} : list pyobj :=
    match xs with
    | [] => []
    | x :: xs' => json_decode x :: dec_list xs'
    end in
  let fix dec_items (kvs : list (string * json)) {struct kvs}
    : list (string * pyobj) :=
    match kvs with
    | [] => []
    | (k, x) :: kvs' => (k, json_decode x) :: dec_items kvs'
    end in
  match j with
  | JNull => PNone
  | JBool b => PBool b
  | JInt z => PInt z
  | JFloat q => PFloat q
  | JNaN => PNaN
  | JStr s => PStr s
  | JArr xs => PList (dec_list xs)
  | JObj kvs => PDict (dec_items kvs)
  end.

(** ** The file system *)

(** The text of a field of a delimited file, without the quotes the writer
    puts around it where it has to.  What Python prints for a float, a
    container or another object is not modelled: such a field stands for
    the value it was printed from. *)
Inductive field : Type :=
| Text (s : string)
| Repr (v : pyobj).

(** A file is represented by what its text parses to: a delimited table
    (the fields of its header and of its rows), a JSON document, or other
    text. *)
Inductive content : Type :=
| Csv (header : list string) (fields : list (list field))
| Json (j : json)
| Raw (text : string).

Inductive kind : Type :=
| Dir
| File (c : content).

(** A path is the list of its components, relative to the working
    directory; [.] and [..] are not interpreted. *)
Definition path : Type := list string.

Record node : Type := mkNode {
  node_path : path;
  node_kind : kind;
  mtime : nat
}.

(** The nodes in the order a directory listing shows them, and a clock for
    the modification times. *)
Record FS : Type := mkFS {
  clock : nat;
  nodes : list node
}.

Fixpoint path_eqb (p q : path) : bool :=
  match p, q with
  | [], [] => true
  | a :: p', b :: q' => String.eqb a b && path_eqb p' q'
  | _, _ => false
  end.

Definition components (s : string) : path :=
  filter (fun c => negb (String.eqb c EmptyString)) (split_on "/" s).

Definition find_node (p : path) (fs : FS) : option node :=
  find (fun n => path_eqb (node_path n) p) (nodes fs).

(** The working directory is always there. *)
Definition kind_of (p : path) (fs : FS) : option kind :=
  match p with
  | [] => Some Dir
  | _ => option_map node_kind (find_node p fs)
  end.

Definition is_dir (p : path) (fs : FS) : bool :=
  match kind_of p fs with
  | Some Dir => true
  | _ => false
  end.

Definition parent (p : path) : path := removelast p.

(** Write a node and stamp it: an existing node keeps its place in the
    listing, a new one comes last. *)
Fixpoint put_node (n : node) (l : list node) : list node :=
  match l with
  | [] => [n]
  | m :: l' => if path_eqb (node_path m) (node_path n) then n :: l'
               else m :: put_node n l'
  end.

Definition touch (p : path) (t : nat) (l : list node) : list node :=
  map (fun m => if path_eqb (node_path m) p
                then mkNode (node_path m) (node_kind m) t else m) l.

Definition tick (fs : FS) : nat := S (clock fs).

(** [os.listdir(p)].  Python promises no order for the listing; the model
    shows the entries in the order of their creation. *)
Definition listdir (p : path) : M FS (list string) :=
  fun fs =>
    match kind_of p fs with
    | Some Dir =>
        (Ok (flat_map (fun n => match rev (node_path n) with
                                | name :: rp =>
                                    if path_eqb (rev rp) p then [name] else []
                                | [] => []
                                end) (nodes fs)), fs)
    | Some (File _) => (Raise NotADirectoryError, fs)
    | None => (Raise FileNotFoundError, fs)
    end.

(** One level of [makedirs]: the directory [p] inside an existing parent. *)
Definition mkdir (p : path) : M FS unit :=
  fun fs =>
    match kind_of p fs with
    | Some _ => (Raise FileExistsError, fs)
    | None =>
        if is_dir (parent p) fs
        then (Ok tt, mkFS (tick fs)
                          (put_node (mkNode p Dir (tick fs))
                                    (touch (parent p) (tick fs) (nodes fs))))
        else (Raise FileNotFoundError, fs)
    end.

(** The leading directories of [makedirs]: made where missing. *)
Fixpoint make_parents (done todo : path) : M FS unit :=
  match todo with
  | [] => ret tt
  | c :: todo' =>
      let p := done ++ [c] in
      (fun fs => match kind_of p fs with
                 | Some Dir => (Ok tt, fs)
                 | Some (File _) => (Raise NotADirectoryError, fs)
                 | None => mkdir p fs
                 end) ;;;
      make_parents p todo'
  end.

(** [os.makedirs(s)]: the leaf must not exist. *)
Definition makedirs (s : string) : M FS unit :=
  let p := components s in
  match p with
  | [] => raise FileNotFoundError
  | _ =>
      fun fs =>
        match kind_of p fs with
        | Some _ => (Raise FileExistsError, fs)
        | None => (make_parents [] (parent p) ;;; mkdir p) fs
        end
  end.

(** Opening [s] for writing and leaving [c] in it. *)
Definition write_file (s : string) (c : content) : M FS unit :=
  fun fs =>
    let p := components s in
    match kind_of p fs with
    | Some Dir => (Raise IsADirectoryError, fs)
    | Some (File _) =>
        (Ok tt, mkFS (tick fs) (put_node (mkNode p (File c) (tick fs)) (nodes fs)))
    | None =>
        if is_dir (parent p) fs
        then (Ok tt, mkFS (tick fs)
                          (put_node (mkNode p (File c) (tick fs))
                                    (touch (parent p) (tick fs) (nodes fs))))
        else (Raise FileNotFoundError, fs)
    end.

(** [os.remove(s)] *)
Definition remove_file (s : string) : M FS unit :=
  fun fs =>
    let p := components s in
    match kind_of p fs with
    | Some (File _) =>
        (Ok tt, mkFS (tick fs)
                     (touch (parent p) (tick fs)
                            (filter (fun n => negb (path_eqb (node_path n) p))
                                    (nodes fs))))
    | Some Dir => (Raise IsADirectoryError, fs)
    | None => (Raise FileNotFoundError, fs)
    end.

Definition read_file (s : string) (fs : FS) : result content :=
  match kind_of (components s) fs with
  | Some (File c) => Ok c
  | Some Dir => Raise IsADirectoryError
  | None => Raise FileNotFoundError
  end.

(** [os.path.getmtime(s)] *)
Definition getmtime (s : string) (fs : FS) : result nat :=
  match components s with
  | [] => Ok 0
  | p => match find_node p fs with
         | Some n => Ok (mtime n)
         | None => Raise FileNotFoundError
         end
  end.

(** ** [_last_exp_id] *)

Fixpoint ints (l : list string) : result (list Z) :=
  match l with
  | [] => Ok []
  | s :: l' =>
      match py_int (last_part "_" s), ints l' with
      | Some z, Ok zs => Ok (z :: zs)
      | None, _ => Raise ValueError
      | _, Raise e => Raise e
      end
  end.

Definition maximum (z : Z) (zs : list Z) : Z := fold_left Z.max zs z.

(** "Identifies existing experiment data and return highest id." *)
Definition _last_exp_id (name path : string) : M FS Z :=
  output_dirs <- listdir (components path) ;;
  let exp_dirs := filter (contains name) output_dirs in
  match exp_dirs with
  | [] => ret 0%Z
  | _ =>
      ids <- lift (ints exp_dirs) ;;
      match ids with
      | [] => ret 0%Z
      | i :: ids' => ret (maximum i ids')
      end
  end.

(** ** [DataDict.save] *)

(** What [to_csv] writes for a cell: nothing for a missing value, [True] or
    [False], the decimal digits of an integer, the characters of a
    string. *)
Definition cell_field (v : pyobj) : field :=
  match v with
  | PNone | PNaN => Text EmptyString
  | PBool b => Text (if b then "True" else "False")
  | PInt z | PNpInt z => Text (string_of_Z z)
  | PStr s => Text s
  | _ => Repr v
  end.

(** [df.to_csv(path)]: the index levels are written as the leading columns,
    an unnamed level under an empty label. *)
Definition to_csv (df : DataFrame) : content :=
  Csv (map (fun nm => match nm with
                      | Some s => s
                      | None => EmptyString
                      end) (index_names df) ++ columns df)
      (map (fun r => map cell_field (fst r ++ snd r)) (rows df)).

Definition fmt_file (dir key ext : string) : string :=
  (dir ++ "/" ++ key ++ ext)%string.

Definition fmt_dir (path exp_name : string) (exp_id : Z) : string :=
  (path ++ "/" ++ exp_name ++ "_" ++ string_of_Z exp_id)%string.

Definition frame_at (h : heap) (r : loc) : M FS DataFrame :=
  match nth_error h r with
  | Some df => ret df
  | None => raise DanglingRef
  end.

(** [with open(file, 'w') as fp: json.dump(v, fp, cls=NpEncoder)]: the file
    is there as soon as it is opened; a value that cannot be serialised
    leaves it unfinished and raises [TypeError]. *)
Definition dump_json (file : string) (v : pyobj) : M FS unit :=
  write_file file (Raw EmptyString) ;;;
  match json_encode v with
  | Some j => write_file file (Json j)
  | None => raise TypeError
  end.

(** [try: ... except TypeError: ...] *)
Definition except_TypeError {St} (c handler : M St unit) : M St unit :=
  fun s => match c s with
           | (Raise TypeError, s') => handler s'
           | r => r
           end.

(** The body of the loop over [self.items()].  The second [if] is not an
    [elif]: a table is written as CSV and then goes through the JSON branch
    as well, where it cannot be serialised and its file is removed again. *)
Definition save_entry (h : heap) (dir key : string) (output : pyobj)
  : M FS unit :=
  match output with
  | PFrame r =>
      df <- frame_at h r ;;
      write_file (fmt_file dir key ".csv") (to_csv df)
  | _ => ret tt
  end ;;;
  match output with
  | PDataDict d =>
      for_each d tt
        (fun _ ko =>
           let file := (key ++ "_" ++ fst ko)%string in
           match snd ko with
           | PFrame r =>
               df <- frame_at h r ;;
               write_file (fmt_file dir file ".csv") (to_csv df)
           | PDict _ | PDataDict _ =>
               dump_json (fmt_file dir file ".json") (snd ko)
           | _ => ret tt
           end)
  | _ =>
      except_TypeError
        (dump_json (fmt_file dir key ".json") output)
        (remove_file (fmt_file dir key ".json"))
  end.

(** ['log' in self and 'name' in self.log], then [self.log['name']]; the
    name has to be a string, for [.replace]. *)
Definition log_name (h : heap) (self : DataDict) : result string :=
  match dict_get "log" self with
  | None => Ok "Unnamed"
  | Some (PDict d) | Some (PDataDict d) =>
      match dict_get "name" d with
      | None => Ok "Unnamed"
      | Some (PStr s) => Ok s
      | Some _ => Raise AttributeError
      end
  | Some (PList xs) | Some (PNdArray xs) =>
      if existsb (fun x => match x with
                           | PStr s => String.eqb s "name"
                           | _ => false
                           end) xs
      then Raise TypeError else Ok "Unnamed"
  | Some (PStr s) => if contains "name" s then Raise TypeError else Ok "Unnamed"
  | Some (PFrame r) =>
      match nth_error h r with
      | Some df => if mem "name" (columns df) then Raise TypeError
                   else Ok "Unnamed"
      | None => Raise DanglingRef
      end
  | Some _ => Raise TypeError
  end.

(** [self.save(exp_name, exp_id, path)], the tables of [self] read from the
    heap [h].  (The progress messages are left out.) *)
Definition save (h : heap) (self : DataDict) (exp_name : option string)
           (exp_id : option Z) (path : string) : M FS unit :=
  (* Create output directory if it doesn't exist *)
  here <- listdir [] ;;
  (if mem path here then ret tt else makedirs path) ;;;
  (* Set exp_name *)
  name <- match exp_name with
          | Some n => ret n
          | None => lift (log_name h self)
          end ;;
  let exp_name := replace " " "_" name in
  (* Set exp_id *)
  exp_id <- match exp_id with
            | Some i => ret i
            | None => i <- _last_exp_id exp_name path ;; ret (i + 1)%Z
            end ;;
  (* Create new directory for output *)
  let dir := fmt_dir path exp_name exp_id in
  makedirs dir ;;;
  (* Save experiment data *)
  for_each self tt (fun _ kv => save_entry h dir (fst kv) (snd kv)).

(** ** [DataDict._load] and [load] *)

Definition i_cols : list string :=
  ["sample_id"; "run_id"; "scenario"; "env_key"; "agent_id"; "obj_id"; "t"].

(** The labels [read_csv] gives the columns: a column without a label is
    called [Unnamed: i], and a label met before gets a running number. *)
Fixpoint dedup_labels (seen l : list string) : list string :=
  match l with
  | [] => []
  | x :: l' =>
      match List.length (filter (String.eqb x) seen) with
      | O => x
      | n => (x ++ "." ++ string_of_nat n)%string
      end :: dedup_labels (x :: seen) l'
  end.

Definition csv_labels (header : list string) : list string :=
  dedup_labels []
    (map (fun ih => if String.eqb (snd ih) EmptyString
                    then ("Unnamed: " ++ string_of_nat (fst ih))%string
                    else snd ih) (indexed header)).

(** *** The types [read_csv] gives the columns *)

(** pandas reads a column as a whole: as integers where every field is one,
    as booleans where every field is [True] or [False], as text otherwise,
    with floats and missing values in between.  The model follows it for
    three kinds of columns on which this does not depend on the version of
    pandas or on how a float is printed and parsed: the integers of 64 bits
    in the form [str] prints, the booleans, and the words below. *)
Inductive dtype : Type :=
| DInt
| DBool
| DText.

Definition int64 (z : Z) : bool :=
  ((- 9223372036854775808) <=? z)%Z && (z <=? 9223372036854775807)%Z.

Definition is_letter (a : ascii) : bool :=
  let n := nat_of_ascii a in
  ((65 <=? n)%nat && (n <=? 90)%nat) || ((97 <=? n)%nat && (n <=? 122)%nat).

Definition lower_char (a : ascii) : ascii :=
  let n := nat_of_ascii a in
  if ((65 <=? n)%nat && (n <=? 90)%nat) then ascii_of_nat (n + 32) else a.

Fixpoint lower (s : string) : string :=
  match s with
  | EmptyString => EmptyString
  | String a s' => String (lower_char a) (lower s')
  end.

(** The words that pandas takes for a missing value, a boolean or a float,
    whatever their case. *)
Definition reserved_words : list string :=
  ["nan"; "na"; "n/a"; "null"; "none"; "true"; "false"; "inf"; "infinity"].

(** Printable ASCII characters only: the text that the writer and the
    reader of a delimited file treat alike in every version, quoted or
    not. *)
Fixpoint printable (s : string) : bool :=
  match s with
  | EmptyString => true
  | String a s' =>
      let n := nat_of_ascii a in
      (32 <=? n)%nat && (n <=? 126)%nat && printable s'
  end.

(** A field that stays text in every column: printable, it begins with an
    ASCII letter and is none of the reserved words. *)
Definition wordy (s : string) : bool :=
  match s with
  | EmptyString => false
  | String a _ =>
      is_letter a && printable s
      && negb (existsb (String.eqb (lower s)) reserved_words)
  end.

Definition int_field (f : field) : option Z :=
  match f with
  | Text s =>
      match py_int s with
      | Some z => if String.eqb (string_of_Z z) s && int64 z then Some z
                  else None
      | None => None
      end
  | Repr _ => None
  end.

Definition bool_field (f : field) : option bool :=
  match f with
  | Text s => if String.eqb s "True" then Some true
              else if String.eqb s "False" then Some false
              else None
  | Repr _ => None
  end.

Definition text_field (f : field) : option string :=
  match f with
  | Text s => if wordy s then Some s else None
  | Repr _ => None
  end.

Definition is_some {A} (o : option A) : bool :=
  match o with Some _ => true | None => false end.

(** The type of a column, where the model has one. *)
Definition column_dtype (col : list field) : option dtype :=
  if forallb (fun f => is_some (int_field f)) col then Some DInt
  else if forallb (fun f => is_some (bool_field f)) col then Some DBool
  else if forallb (fun f => is_some (text_field f)) col then Some DText
  else None.

Definition read_field (d : dtype) (f : field) : pyobj :=
  match d with
  | DInt => match int_field f with Some z => PInt z | None => PNaN end
  | DBool => match bool_field f with Some b => PBool b | None => PNaN end
  | DText => match text_field f with Some s => PStr s | None => PNaN end
  end.

Definition column_at (j : nat) (fields : list (list field)) : list field :=
  map (fun row => nth j row (Text EmptyString)) fields.

(** [pd.read_csv(path)]: every field is a column, under the default
    index.  A file without a header is refused ([EmptyDataError], a
    [ValueError]).  A file with a row that has not one field per label, or
    with a column of another kind than the three above, is outside the
    model. *)
Definition read_csv (c : content) : result DataFrame :=
  match c with
  | Csv [] _ => Raise ValueError
  | Csv header fields =>
      let n := List.length header in
      if forallb (fun row => Nat.eqb (List.length row) n) fields
      then
        match all_some (map (fun j => column_dtype (column_at j fields))
                            (seq 0 n)) with
        | Some dtypes =>
            Ok (mkDF [None] (csv_labels header)
                     (range_index
                        (map (fun row =>
                                map (fun df => read_field (fst df) (snd df))
                                    (combine dtypes row))
                             fields)))
        | None => Raise Unmodelled
        end
      else Raise Unmodelled
  | _ => Raise ValueError
  end.

(** [json.load(fp)] *)
Definition json_load (c : content) : result pyobj :=
  match c with
  | Json j => Ok (json_decode j)
  | _ => Raise ValueError
  end.

(** [try: ... except Exception: ...] *)
Definition try_except {St A} (c : M St A) (handler : exn -> M St A) : M St A :=
  fun s => match c s with
           | (Raise e, s') => if python_exn e then handler e s'
                              else (Raise e, s')
           | r => r
           end.

(** The [try] block of the inner function [load_file]. *)
Definition parse_file (fs : FS) (path file : string) : M heap pyobj :=
  let ext := last_part "." file in
  let path := (path ++ file)%string in
  if String.eqb ext "csv" then
    c <- lift (read_file path fs) ;;
    df <- lift (read_csv c) ;;
    obj <- alloc df ;;
    match filter (fun i => mem i (columns df)) i_cols with
    | [] => ret (PFrame obj)
    | index => obj' <- fresh obj (set_index (map Some index)) ;;
               ret (PFrame obj')
    end
  else if String.eqb ext "json" then
    c <- lift (read_file path fs) ;;
    lift (json_load c)
  else raise ValueError.

(** The inner function [load_file].  An exception is printed and swallowed,
    and the function then returns nothing, that is [None]. *)
Definition load_file (fs : FS) (path file : string) : M heap pyobj :=
  try_except (parse_file fs path file) (fun _ => ret PNone).

Definition ls (p : path) (fs : FS) : result (list string) := fst (listdir p fs).

(** [self[name][key] = v] *)
Definition set_sub_item (self : DataDict) (name key : string) (v : pyobj)
  : M heap DataDict :=
  match dict_get name self with
  | Some (PDataDict d) => ret (dict_set name (PDataDict (dict_set key v d)) self)
  | Some (PDict d) => ret (dict_set name (PDict (dict_set key v d)) self)
  | Some (PFrame r) => in_place r (setitem key v) ;;; ret self
  | Some _ => raise TypeError
  | None => raise KeyError
  end.

Definition stem (file : string) : string :=
  drop_last (String.length (last_part "." file) + 1) file.

(** The body of the loop over the files of the directory. *)
Definition load_step (fs : FS) (path : string) (self : DataDict) (file : string)
  : M heap DataDict :=
  if contains "variables_" file then
    let self := if dict_has "variables" self then self
                else dict_set "variables" (PDataDict []) self in
    let key := replace "variables_" "" (stem file) in
    v <- load_file fs path file ;;
    set_sub_item self "variables" key v
  else if contains "parameters_" file then
    let key := replace "parameters_" "" (stem file) in
    let self := if dict_has "parameters" self then self
                else dict_set "parameters" (PDataDict []) self in
    v <- load_file fs path file ;;
    set_sub_item self "parameters" key v
  else
    let key := stem file in
    v <- load_file fs path file ;;
    ret (dict_set key v self).

(** [max(paths, key=getmtime)], as the name it stands for: the first of the
    most recently modified entries. *)
Fixpoint latest (best : string * nat) (l : list (string * nat)) : string :=
  match l with
  | [] => fst best
  | x :: l' => latest (if (snd best <? snd x)%nat then x else best) l'
  end.

Fixpoint mtimes (fs : FS) (path : string) (names : list string)
  : result (list (string * nat)) :=
  match names with
  | [] => Ok []
  | d :: names' =>
      match getmtime (path ++ "/" ++ d)%string fs, mtimes fs path names' with
      | Ok t, Ok l => Ok ((d, t) :: l)
      | Raise e, _ => Raise e
      | _, Raise e => Raise e
      end
  end.

(** "Choose latest modified experiment" *)
Definition latest_experiment (fs : FS) (path : string) : result string :=
  match ls (components path) fs with
  | Raise e => Raise e
  | Ok exp_names =>
      match mtimes fs path exp_names with
      | Raise e => Raise e
      | Ok [] => Raise ValueError
      | Ok (x :: l) => Ok (before_last "_" (latest x l))
      end
  end.

(** [self._load(exp_name, exp_id, path)] on the file system [fs].  (The
    progress messages are left out.) *)
Definition _load (fs : FS) (self : DataDict) (exp_name : option string)
           (exp_id : option Z) (path : string) : M heap DataDict :=
  (* Prepare for loading *)
  name <- match exp_name with
          | Some n => ret n
          | None => lift (latest_experiment fs path)
          end ;;
  let exp_name := replace " " "_" name in
  exp_id <- match exp_id with
            | Some (Zpos _ as i) | Some (Zneg _ as i) => ret i
            | _ =>
                i <- lift (fst (_last_exp_id exp_name path fs)) ;;
                if (i =? 0)%Z then raise FileNotFoundError else ret i
            end ;;
  let dir := (fmt_dir path exp_name exp_id ++ "/")%string in
  files <- lift (ls (components dir) fs) ;;
  (* Loading data *)
  for_each files self (load_step fs dir).

Definition load (fs : FS) (exp_name : option string) (exp_id : option Z)
           (path : string) : M heap DataDict :=
  _load fs [] exp_name exp_id path.

(** ** Reference readings and example data *)

(** The reading of the specification for the iterations: every row repeated
    [n] times in place. *)
Definition each_row_repeated {A} (n : nat) (l : list A) : list A :=
  flat_map (fun r => repeat r n) l.

(** A table of the model's variables, indexed by time step, and a table of
    the agents' variables, indexed by agent and time step. *)
Definition model_vars : DataFrame :=
  mkDF [Some "t"] ["pop"]
       [([PInt 0], [PInt 5]); ([PInt 1], [PInt 6])].

Definition agent_vars : DataFrame :=
  mkDF [Some "obj_id"; Some "t"] ["x"; "y"]
       [([PInt 1; PInt 0], [PInt 7; PInt 70]);
        ([PInt 2; PInt 0], [PInt 8; PInt 80])].

Definition run_measures : DataFrame :=
  mkDF [Some "run_id"] ["final"] [([PInt 0], [PInt 9])].

(** Two parameter combinations, one row each. *)
Definition varied_pars : DataFrame :=
  mkDF [None] ["a"; "b"]
       [([PInt 0], [PInt 10; PStr "x"]); ([PInt 1], [PInt 20; PStr "y"])].

(** A table with a column and no row. *)
Definition no_rows : DataFrame := mkDF [None] ["a"] [].

Definition example_heap : heap :=
  [model_vars; agent_vars; run_measures; varied_pars; no_rows].

Definition example_log : pyobj :=
  PDict [("name", PStr "test"); ("model_type", PStr "Model");
         ("iterations", PInt 3)].

(** A store with two categories of variables. *)
Definition two_categories : DataDict :=
  [("log", example_log);
   ("variables", PDataDict [("Model", PFrame 0); ("Agent", PFrame 1)])].

(** A store with one category of variables. *)
Definition one_category : DataDict :=
  [("log", example_log);
   ("variables", PDataDict [("Agent", PFrame 1)])].

(** A store with a table of varied parameters and three iterations. *)
Definition three_iterations : DataDict :=
  [("log", example_log); ("parameters", PFrame 3)].

(** A store whose parameter table has no row. *)
Definition empty_pars : DataDict :=
  [("log", example_log); ("parameters", PFrame 4)].

(** A single run with fixed parameters and a table of measures. *)
Definition single_run : DataDict :=
  [("log", PDict [("name", PStr "test"); ("model_type", PStr "Model");
                  ("iterations", PInt 1)]);
   ("parameters", PDict [("x", PInt 1)]);
   ("measures", PFrame 2)].

(** The output of an experiment: the log, a nested store of parameters,
    two categories of variables and the measures. *)
Definition whole_run : DataDict :=
  [("log", example_log);
   ("parameters", PDataDict [("fixed", PDict [("x", PNpInt 1)])]);
   ("variables", PDataDict [("Model", PFrame 0); ("Agent", PFrame 1)]);
   ("measures", PFrame 2)].

(** A store with a nested store under a key of its own. *)
Definition other_nested : DataDict :=
  [("reporters", PDataDict [("a", PDict [("x", PInt 1)])])].

(** A store with a table under the default index. *)
Definition default_index : DataDict := [("parameters", PFrame 3)].

(** ** Notions used in the statements about the file system *)

Fixpoint has_char (c : ascii) (s : string) : bool :=
  match s with
  | EmptyString => false
  | String a s' => Ascii.eqb a c || has_char c s'
  end.

(** A node of the working directory with the name [x]. *)
Definition listed (x : string) (fs : FS) : Prop :=
  exists n, In n (nodes fs) /\ node_path n = [x].

(** What no operation of [save] undoes: a directory stays a directory, and
    an entry of the working directory whose name is no path component (it
    is empty or made of slashes) stays where it is. *)
Definition grows (fs fs' : FS) : Prop :=
  (forall q, is_dir q fs = true -> is_dir q fs' = true) /\
  (forall x, components x = [] -> listed x fs -> listed x fs').

Definition preserving {A} (c : M FS A) : Prop :=
  forall fs r fs', c fs = (r, fs') -> grows fs fs'.

(** A base directory [out] that holds the directory [abc_5]. *)
Definition other_experiment : FS :=
  mkFS 1 [mkNode ["out"] Dir 1; mkNode ["out"; "abc_5"] Dir 1].

(** ** Notions used in the statements about loading *)

(** Where the loader puts what it reads from a file: under a key of the
    store, or under a key of the nested store [variables] or
    [parameters]. *)
Inductive slot : Type :=
| Top (key : string)
| Sub (name key : string).

Definition slot_of (file : string) : slot :=
  if contains "variables_" file
  then Sub "variables" (replace "variables_" "" (stem file))
  else if contains "parameters_" file
  then Sub "parameters" (replace "parameters_" "" (stem file))
  else Top (stem file).

(** The assignment of the loop body, for a value already read. *)
Definition put_loaded (self : DataDict) (file : string) (v : pyobj)
  : M heap DataDict :=
  match slot_of file with
  | Top key => ret (dict_set key v self)
  | Sub name key =>
      set_sub_item (if dict_has name self then self
                    else dict_set name (PDataDict []) self) name key v
  end.

Definition slot_get (self : DataDict) (s : slot) : option pyobj :=
  match s with
  | Top key => dict_get key self
  | Sub name key =>
      match dict_get name self with
      | Some (PDataDict d) | Some (PDict d) => dict_get key d
      | _ => None
      end
  end.

(** Two files clash when the loader writes them under the same key, or one
    of them under a key of a nested store that the other replaces. *)
Definition clashes (s t : slot) : bool :=
  match s, t with
  | Top k, Top k' => String.eqb k k'
  | Top k, Sub n _ | Sub n _, Top k => String.eqb k n
  | Sub n k, Sub n' k' => String.eqb n n' && String.eqb k k'
  end.

(** A directory with a file of an unsupported type beside a JSON file. *)
Definition mixed_directory : FS :=
  mkFS 3 [mkNode ["out"] Dir 1;
          mkNode ["out"; "test_1"] Dir 3;
          mkNode ["out"; "test_1"; "notes.txt"] (File (Raw "hello")) 2;
          mkNode ["out"; "test_1"; "info.json"] (File (Json (JInt 7))) 3].

(** ** Notions used in the statements about combined variables *)

(** Every row has one index cell per level and one cell per column. *)
Definition well_shaped (df : DataFrame) : Prop :=
  Forall (fun r => List.length (fst r) = List.length (index_names df) /\
                   List.length (snd r) = List.length (columns df)) (rows df).

(** The tables a mapping refers to are in the heap. *)
Definition tables_in_heap (h : heap) (d : dict pyobj) : Prop :=
  forall k r, In (k, PFrame r) d ->
              exists df, nth_error h r = Some df /\ well_shaped df.

Definition has_column_of (h : heap) (ks : list string) (v : pyobj) : bool :=
  match v with
  | PFrame r =>
      match nth_error h r with
      | Some df => existsb (fun x => mem x (columns df)) ks
      | None => false
      end
  | _ => false
  end.

(** The categories that pass the two filters. *)
Definition selected (h : heap) (vs : dict pyobj) (obj_types var_keys : selector)
  : dict pyobj :=
  let d1 := match var_keys with
            | All => vs
            | Names ks => filter (fun kv => has_column_of h ks (snd kv)) vs
            end in
  match obj_types with
  | All => d1
  | Names ts => filter (fun kv => mem (fst kv) ts) d1
  end.

(** The index keys the combined table is to show: for each category in
    turn and each row of its stored table, the category key followed by the
    row's own key, with a [0] put before the last level for the category of
    the model. *)
Definition expected_keys (h : heap) (model_type : string) (d : dict pyobj)
  : list (list pyobj) :=
  flat_map
    (fun kv =>
       match snd kv with
       | PFrame r =>
           match nth_error h r with
           | Some df =>
               map (fun row =>
                      PStr (fst kv)
                      :: (if String.eqb (fst kv) model_type
                          then insert_before_last (PInt 0) (fst row)
                          else fst row))
                   (rows df)
           | None => []
           end
       | _ => []
       end) d.

(** The keys of a category's rows as its table in the heap has them. *)
Definition plain_keys (h : heap) (kv : string * pyobj) : list (list pyobj) :=
  match snd kv with
  | PFrame r =>
      match nth_error h r with
      | Some df => map (fun row => PStr (fst kv) :: fst row) (rows df)
      | None => []
      end
  | _ => []
  end.


(** ** Notions used in the statements about saving and loading *)

Fixpoint last_char (p : string) : option ascii :=
  match p with
  | EmptyString => None
  | String a EmptyString => Some a
  | String _ p' => last_char p'
  end.


(** A key that the loader reads back from a file name. *)
Definition plain_key (k : string) : bool :=
  negb (has_char "/" k)
  && negb (contains "variables_" k)
  && negb (contains "parameters_" k).


Definition top_key (s : slot) : string :=
  match s with
  | Top k => k
  | Sub n _ => n
  end.

(** The entries of a directory, in the order of the listing. *)
Definition child_name (D : path) (n : node) : option string :=
  match rev (node_path n) with
  | name :: rp => if path_eqb (rev rp) D then Some name else None
  | [] => None
  end.

Definition children (D : path) (fs : FS) : dict kind :=
  flat_map (fun n => match child_name D n with
                     | Some name => [(name, node_kind n)]
                     | None => []
                     end) (nodes fs).

(** Every node lies in a directory. *)
Definition closed (fs : FS) : Prop :=
  forall n, In n (nodes fs) -> is_dir (parent (node_path n)) fs = true.

Definition as_files (l : list (string * content)) : dict kind :=
  map (fun fc => (fst fc, File (snd fc))) l.

(** A table that comes back from its CSV file as it was: its rows are
    well shaped, its index levels are named, the names of its index levels
    are exactly the names of the loader's vocabulary found among its labels
    (in the order of the vocabulary), and its labels are distinct and not
    empty. *)
Definition shaped (df : DataFrame) : bool :=
  forallb (fun r => Nat.eqb (List.length (fst r)) (List.length (index_names df))
                    && Nat.eqb (List.length (snd r)) (List.length (columns df)))
          (rows df).

Definition csv_stable (df : DataFrame) : bool :=
  match all_some (index_names df) with
  | Some (n :: ns) =>
      shaped df
      && path_eqb (filter (fun i => mem i ((n :: ns) ++ columns df)) i_cols)
                  (n :: ns)
      && forallb (fun c => negb (String.eqb c EmptyString)) (columns df)
      && nodupb ((n :: ns) ++ columns df)
  | _ => false
  end.

Definition stored_table (h : heap) (r : loc) : Prop :=
  exists df, nth_error h r = Some df /\ csv_stable df = true.

(** The cells of a column that come back from the file as they were:
    integers of 64 bits, booleans, or words (see [read_csv]). *)
Definition typed_column (col : list pyobj) : bool :=
  forallb (fun v => match v with PInt z => int64 z | _ => false end) col
  || forallb (fun v => match v with PBool _ => true | _ => false end) col
  || forallb (fun v => match v with PStr s => wordy s | _ => false end) col.

Definition cells_at (j : nat) (df : DataFrame) : list pyobj :=
  map (fun r => nth j (fst r ++ snd r) PNone) (rows df).

(** A table whose cells the CSV text renders faithfully: its labels are
    printable, it has a row (the types of the columns of a table without
    rows are lost in the file), and each of its columns, the levels of the
    index included, holds integers of 64 bits only, booleans only, or words
    only.  A column stands for the pandas column of the type inferred from
    such cells ([int64], [bool], [object]). *)
Definition csv_faithful (df : DataFrame) : bool :=
  match rows df with
  | [] => false
  | _ :: _ =>
      forallb printable (columns df)
      && forallb (fun j => typed_column (cells_at j df))
                 (seq 0 (List.length (index_names df)
                         + List.length (columns df)))
  end.

(** The same for the tables of a store, those of its nested stores
    included. *)
Definition faithful_table (h : heap) (v : pyobj) : Prop :=
  match v with
  | PFrame r => exists df, nth_error h r = Some df /\ csv_faithful df = true
  | _ => True
  end.

Definition faithful_entry (h : heap) (kv : string * pyobj) : Prop :=
  match snd kv with
  | PDataDict d => Forall (fun io => faithful_table h (snd io)) d
  | v => faithful_table h v
  end.

Definition faithful_cells (h : heap) (S : DataDict) : Prop :=
  Forall (faithful_entry h) S.

Definition jsonable (v : pyobj) : Prop := json_encode v <> None.

(** An entry of a nested store that [save] writes to a file: a table or a
    plain mapping. *)
Definition persistable_inner (h : heap) (io : string * pyobj) : Prop :=
  plain_key (fst io) = true /\
  match snd io with
  | PFrame r => stored_table h r
  | PDict _ => jsonable (snd io)
  | _ => False
  end.

(** An entry that [load] finds again: a table, a value that JSON can hold,
    or, under the key [variables] or [parameters], a nested store that is
    not empty. *)
Definition persistable_entry (h : heap) (kv : string * pyobj) : Prop :=
  match snd kv with
  | PFrame r => plain_key (fst kv) = true /\ stored_table h r
  | PDataDict d =>
      (fst kv = "variables" \/ fst kv = "parameters") /\
      d <> [] /\ NoDup (dict_keys d) /\ Forall (persistable_inner h) d
  | v => plain_key (fst kv) = true /\ jsonable v
  end.

Definition persistable (h : heap) (S : DataDict) : Prop :=
  NoDup (dict_keys S) /\ Forall (persistable_entry h) S.

(** The files [save] leaves in the directory of the experiment. *)
Definition file_of_table (h : heap) (name : string) (r : loc)
  : list (string * content) :=
  match nth_error h r with
  | Some df => [((name ++ ".csv")%string, to_csv df)]
  | None => []
  end.

Definition file_of_value (name : string) (v : pyobj) : list (string * content) :=
  match json_encode v with
  | Some j => [((name ++ ".json")%string, Json j)]
  | None => []
  end.

Definition inner_files (h : heap) (key : string) (io : string * pyobj)
  : list (string * content) :=
  match snd io with
  | PFrame r => file_of_table h (key ++ "_" ++ fst io) r
  | PDict _ | PDataDict _ => file_of_value (key ++ "_" ++ fst io) (snd io)
  | _ => []
  end.

Definition entry_files (h : heap) (kv : string * pyobj)
  : list (string * content) :=
  match snd kv with
  | PFrame r => file_of_table h (fst kv) r
  | PDataDict d => flat_map (inner_files h (fst kv)) d
  | v => file_of_value (fst kv) v
  end.

Definition store_files (h : heap) (S : DataDict) : list (string * content) :=
  flat_map (entry_files h) S.

(** What JSON makes of a value: numpy numbers become Python numbers, arrays
    become lists, and every mapping a plain one. *)
Fixpoint normalize (v : pyobj) : pyobj :=
  let fix norm_list (xs : list pyobj) : list pyobj :=
    match xs with
    | [] => []
    | x :: xs' => normalize x :: norm_list xs'
    end in
  let fix norm_items (kvs : list (string * pyobj)) : list (string * pyobj) :=
    match kvs with
    | [] => []
    | (k, x) :: kvs' => (k, normalize x) :: norm_items kvs'
    end in
  match v with
  | PNpInt z => PInt z
  | PNpFloat q => PFloat q
  | PList xs | PNdArray xs => PList (norm_list xs)
  | PDict kvs | PDataDict kvs => PDict (norm_items kvs)
  | _ => v
  end.

(** A loaded entry renders the saved one: a table is a table of the same
    content (a new object), any other value is the saved value
    normalized. *)
Definition value_matches (h h1 : heap) (v v' : pyobj) : Prop :=
  match v with
  | PFrame r =>
      exists r' df, v' = PFrame r' /\ nth_error h r = Some df /\
                    nth_error h1 r' = Some df
  | _ => v' = normalize v
  end.

(** The loaded store renders the saved one: it has the keys of the saved
    store and no other, in whatever order, and under each key an entry that
    renders the saved one; a nested store likewise, key by key. *)
Definition items_agree {A} (R : A -> A -> Prop) (d d' : dict A) : Prop :=
  forall k, match dict_get k d with
            | Some v => exists v', dict_get k d' = Some v' /\ R v v'
            | None => dict_get k d' = None
            end.

Definition entry_agrees (h h1 : heap) (v v' : pyobj) : Prop :=
  match v with
  | PDataDict d =>
      exists d', v' = PDataDict d' /\ items_agree (value_matches h h1) d d'
  | _ => value_matches h h1 v v'
  end.

Definition same_entries (h : heap) (S : DataDict) (h1 : heap) (S' : DataDict)
  : Prop :=
  items_agree (entry_agrees h h1) S S'.

(** The file names of an entry without their extensions. *)
Definition stems_of (kv : string * pyobj) : list string :=
  match snd kv with
  | PDataDict d => map (fun io => (fst kv ++ "_" ++ fst io)%string) d
  | _ => [fst kv]
  end.

(** ** Induction on values, through lists and mappings *)

Section PyobjInduction.
Variable P : pyobj -> Prop.
Hypothesis P_atom :
  forall v, match v with
            | PList _ | PNdArray _ | PDict _ | PDataDict _ => False
            | _ => True
            end -> P v.
Hypothesis P_list : forall xs, Forall P xs -> P (PList xs).
Hypothesis P_array : forall xs, Forall P xs -> P (PNdArray xs).
Hypothesis P_dict :
  forall kvs, Forall (fun kv => P (snd kv)) kvs -> P (PDict kvs).
Hypothesis P_store :
  forall kvs, Forall (fun kv => P (snd kv)) kvs -> P (PDataDict kvs).

Fixpoint pyobj_nested_ind (v : pyobj) : P v :=
  let fix all (xs : list pyobj) : Forall P xs :=
    match xs with
    | [] => @Forall_nil _ P
    | x :: xs' => @Forall_cons _ P x xs' (pyobj_nested_ind x) (all xs')
    end in
  let fix all_items (kvs : list (string * pyobj))
    : Forall (fun kv => P (snd kv)) kvs :=
    match kvs with
    | [] => @Forall_nil _ (fun kv => P (snd kv))
    | (k, x) :: kvs' =>
        @Forall_cons _ (fun kv => P (snd kv)) (k, x) kvs'
                     (pyobj_nested_ind x) (all_items kvs')
    end in
  match v with
  | PList xs => P_list (all xs)
  | PNdArray xs => P_array (all xs)
  | PDict kvs => P_dict (all_items kvs)
  | PDataDict kvs => P_store (all_items kvs)
  | PNone => P_atom PNone I
  | PBool b => P_atom (PBool b) I
  | PInt z => P_atom (PInt z) I
  | PFloat q => P_atom (PFloat q) I
  | PNaN => P_atom PNaN I
  | PStr s => P_atom (PStr s) I
  | PNpInt z => P_atom (PNpInt z) I
  | PNpFloat q => P_atom (PNpFloat q) I
  | PFrame r => P_atom (PFrame r) I
  | PObject t => P_atom (PObject t) I
  end.
End PyobjInduction.

(** ** Notions used in the proof of the round trip *)

(** A single value that [save] writes to a file of its own, and that file. *)
Definition storable (h : heap) (v : pyobj) : Prop :=
  match v with
  | PFrame r => stored_table h r
  | _ => jsonable v
  end.

Definition files_of (h : heap) (name : string) (v : pyobj)
  : list (string * content) :=
  match v with
  | PFrame r => file_of_table h name r
  | _ => file_of_value name v
  end.

(** Running a computation on the heap one step further. *)
Ltac run_heap :=
  cbv beta iota zeta delta [bind lift ret raise alloc fresh deref].


(** ** Notions used in the statements about the heap *)

(** A computation started on a heap of at least [n] tables keeps the first
    [n] of them as they are, up to those that [P] singles out, and what it
    returns satisfies [Q]. *)
Definition keeps (n : nat) (P : loc -> Prop) {A : Type} (Q : A -> Prop)
           (c : M heap A) : Prop :=
  forall h res h',
    (n <= List.length h)%nat -> c h = (res, h') ->
    (n <= List.length h')%nat /\
    (forall r, (r < n)%nat -> ~ P r -> nth_error h' r = nth_error h r) /\
    (forall a, res = Ok a -> Q a).

(** The categories of the [variables] entry, where it is a mapping. *)
Definition categories (self : DataDict) : dict pyobj :=
  match dict_get "variables" self with
  | Some (PDataDict vs) | Some (PDict vs) => vs
  | _ => []
  end.

(** Measures of two scenarios, one run each. *)
Definition scenario_measures : DataFrame :=
  mkDF [Some "scenario"; Some "run_id"] ["final"]
       [([PStr "base"; PInt 0], [PInt 1]); ([PStr "alt"; PInt 1], [PInt 2])].

(** ** Notions used in the statements about what [save] leaves alone *)

(** Every node of [fs] is a node of [fs'], of the same kind and, for a
    file, of the same content. *)
Definition kept (fs fs' : FS) : Prop :=
  forall q k, kind_of q fs = Some k -> kind_of q fs' = Some k.

(** The same for the nodes that are no entry of the directory [D]. *)
Definition kept_outside (D : path) (fs fs' : FS) : Prop :=
  forall q k, (forall f, q <> D ++ [f]) ->
              kind_of q fs = Some k -> kind_of q fs' = Some k.

Definition respects (R : FS -> FS -> Prop) {A : Type} (c : M FS A) : Prop :=
  forall fs r fs', c fs = (r, fs') -> R fs fs'.

(** Keys that name a file of the directory itself. *)
Definition flat_keys (S : DataDict) : Prop :=
  Forall (fun kv => has_char "/" (fst kv) = false /\
                    match snd kv with
                    | PDataDict d =>
                        Forall (fun io => has_char "/" (fst io) = false) d
                    | _ => True
                    end) S.

(** A base directory with the output of an earlier experiment. *)
Definition earlier_output : FS :=
  mkFS 3 [mkNode ["ap_output"] Dir 1;
          mkNode ["ap_output"; "test_run_1"] Dir 3;
          mkNode ["ap_output"; "test_run_1"; "log.json"]
                 (File (Json (JObj [("name", JStr "test run")]))) 3].

(** The directory [P] lists the same entries. *)
Definition same_children (P : path) (fs fs' : FS) : Prop :=
  children P fs' = children P fs.

(** ** Notions used in the statements about the latest experiment *)

(** No node was modified after the time the clock shows. *)
Definition stamped (fs : FS) : Prop :=
  forall n, In n (nodes fs) -> (mtime n <= clock fs)%nat.

(** The node at [q] is the same, with the time it was modified. *)
Definition same_node (q : path) (fs fs' : FS) : Prop :=
  find_node q fs' = find_node q fs.

(** The node at [D] was modified after the time [T], which has passed. *)
Definition newer_than (T : nat) (D : path) (fs : FS) : Prop :=
  (T <= clock fs)%nat /\
  exists n, find_node D fs = Some n /\ (T < mtime n)%nat.

Definition stays_newer (T : nat) (D : path) (fs fs' : FS) : Prop :=
  newer_than T D fs -> newer_than T D fs'.

(** ** File systems used in the statements about the new id *)

(** A base directory [out] that holds the directory [latest_results]. *)
Definition results_directory : FS :=
  mkFS 1 [mkNode ["out"] Dir 1; mkNode ["out"; "latest_results"] Dir 1].

(** A base directory [out] with the experiments [abc_5] and [b_1]. *)
Definition two_experiments : FS :=
  mkFS 3 [mkNode ["out"] Dir 2;
          mkNode ["out"; "abc_5"] Dir 1;
          mkNode ["out"; "b_1"] Dir 3;
          mkNode ["out"; "b_1"; "info.json"] (File (Json (JInt 7))) 3].

(** ** Notions used in the statements about [_last_exp_id] *)

(** A string of ASCII characters only.  On such a string [py_int] reads
    what [int()] reads. *)
Fixpoint is_ascii (s : string) : bool :=
  match s with
  | EmptyString => true
  | String a s' => (nat_of_ascii a <? 128)%nat && is_ascii s'
  end.

(** ** Notions used in the statement about the levels of combined variables *)

(** The names of the index levels of a category's table, under the level of
    the dictionary keys that [pd.concat] adds. *)
Definition plain_names (h : heap) (kv : string * pyobj)
  : list (list (option string)) :=
  match snd kv with
  | PFrame r =>
      match nth_error h r with
      | Some df => [None :: index_names df]
      | None => []
      end
  | _ => []
  end.

(** The same for every category in turn, with [obj_id] put before the last
    level of the table of the model. *)
Definition level_names_of (h : heap) (model_type : string) (d : dict pyobj)
  : list (list (option string)) :=
  flat_map
    (fun kv =>
       match snd kv with
       | PFrame r =>
           match nth_error h r with
           | Some df =>
               [None :: (if String.eqb (fst kv) model_type
                         then insert_before_last (Some "obj_id") (index_names df)
                         else index_names df)]
           | None => []
           end
       | _ => []
       end) d.

(** The names of the levels of the combined table as [concat_keys] gives
    them: [obj_type] on top, and below it a level keeps its name where the
    tables of all the categories agree on it. *)
Definition expected_names (h : heap) (model_type : string) (d : dict pyobj)
  : list (option string) :=
  match unanimous_names (level_names_of h model_type d) with
  | [] => []
  | _ :: names => Some "obj_type" :: names
  end.

(** The tables of the categories [d] all have the index levels [ns], the
    table of the model counted with [obj_id] before its last level. *)
Definition levels_agree (h : heap) (model_type : string) (d : dict pyobj)
           (ns : list (option string)) : Prop :=
  forall k r df,
    In (k, PFrame r) d -> nth_error h r = Some df ->
    (if String.eqb k model_type
     then insert_before_last (Some "obj_id") (index_names df)
     else index_names df) = ns.

(** Agents' variables whose first index level is called [agent_id], and a
    store that holds them beside the variables of the model. *)
Definition vars_by_agent_id : DataFrame :=
  mkDF [Some "agent_id"; Some "t"] ["x"]
       [([PInt 1; PInt 0], [PInt 7]); ([PInt 2; PInt 0], [PInt 8])].

Definition agent_id_heap : heap := [model_vars; vars_by_agent_id].

(** ** Notions used in the statements about the order of a listing *)

(** The same directories and files, whatever the order in which a listing
    shows them. *)
Definition same_tree (fs fs' : FS) : Prop :=
  (forall p, kind_of p fs' = kind_of p fs) /\
  (forall p l, ls p fs = Ok l ->
               exists l', ls p fs' = Ok l' /\ Permutation l l').

(** The name of the file of a slot, without its extension. *)
Definition slot_name (s : slot) : string :=
  match s with
  | Top k => k
  | Sub n k => (n ++ "_" ++ k)%string
  end.

(** The value a store holds in a slot. *)
Definition slot_lookup (S : DataDict) (s : slot) : option pyobj :=
  match s with
  | Top k =>
      match dict_get k S with
      | Some (PDataDict _) => None
      | o => o
      end
  | Sub n k =>
      match dict_get n S with
      | Some (PDataDict d) => dict_get k d
      | _ => None
      end
  end.

(** The state of the loop of [load] when the files of the slots [D] have
    been read: the store [acc] holds what was saved in these slots and
    nothing else. *)
Definition plain_done (h : heap) (D : list slot) (acc : DataDict) (hh : heap)
           (k : string) (v : pyobj) : Prop :=
  (In (Top k) D /\
   exists v', dict_get k acc = Some v' /\ value_matches h hh v v')
  \/ (~ In (Top k) D /\ dict_get k acc = None).

Definition inner_done (h : heap) (D : list slot) (d' : dict pyobj) (hh : heap)
           (k : string) (d : dict pyobj) : Prop :=
  forall i,
    match dict_get i d with
    | None => dict_get i d' = None
    | Some v =>
        (In (Sub k i) D /\
         exists v', dict_get i d' = Some v' /\ value_matches h hh v v')
        \/ (~ In (Sub k i) D /\ dict_get i d' = None)
    end.

Definition nested_done (h : heap) (D : list slot) (acc : DataDict) (hh : heap)
           (k : string) (d : dict pyobj) : Prop :=
  match dict_get k acc with
  | None => forall i, ~ In (Sub k i) D
  | Some (PDataDict d') => inner_done h D d' hh k d
  | Some _ => False
  end.

Definition loaded_so_far (h : heap) (S : DataDict) (D : list slot)
           (acc : DataDict) (hh : heap) : Prop :=
  forall k,
    match dict_get k S with
    | None => dict_get k acc = None
    | Some (PDataDict d) => nested_done h D acc hh k d
    | Some v => plain_done h D acc hh k v
    end.

(** * Properties *)

Unset Implicit Arguments.

(** ** The monad *)

Lemma bind_Ok {St A B} (c : M St A) (k : A -> M St B) s a s' :
  c s = (Ok a, s') -> bind c k s = k a s'.
Proof. unfold bind. intros ->. reflexivity. Qed.

Lemma bind_Raise {St A B} (c : M St A) (k : A -> M St B) s e s' :
  c s = (Raise e, s') -> bind c k s = (Raise e, s').
Proof. unfold bind. intros ->. reflexivity. Qed.

Lemma bind_inv {St A B} (c : M St A) (k : A -> M St B) s b s'' :
  bind c k s = (Ok b, s'') ->
  exists a s', c s = (Ok a, s') /\ k a s' = (Ok b, s'').
Proof.
  unfold bind. destruct (c s) as [[a|e] s']; intros H.
  - exists a, s'. split; [reflexivity | exact H].
  - discriminate.
Qed.

Lemma for_each_app {St A B} (xs ys : list A) (acc : B) (body : B -> A -> M St B) s :
  for_each (xs ++ ys) acc body s =
  match for_each xs acc body s with
  | (Ok acc', s') => for_each ys acc' body s'
  | (Raise e, s') => (Raise e, s')
  end.
Proof.
  revert acc s. induction xs as [|x xs IH]; intros acc s; simpl.
  - reflexivity.
  - unfold bind. destruct (body acc x s) as [[a|e] s1].
    + apply IH.
    + reflexivity.
Qed.

(** ** The heap *)

Lemma nth_error_alloc (h : heap) (df : DataFrame) :
  nth_error (h ++ [df]) (List.length h) = Some df.
Proof. rewrite nth_error_app2, Nat.sub_diag by lia. reflexivity. Qed.

Lemma nth_error_old (h extra : heap) r df :
  nth_error h r = Some df -> nth_error (h ++ extra) r = Some df.
Proof.
  intros H. rewrite nth_error_app1; [exact H|].
  apply nth_error_Some. congruence.
Qed.

Lemma nth_error_list_update_same {A} (l : list A) n a :
  (n < List.length l)%nat -> nth_error (list_update n a l) n = Some a.
Proof.
  revert n. induction l as [|x l IH]; intros [|n] H; simpl in *; try lia.
  - reflexivity.
  - apply IH. lia.
Qed.

Lemma nth_error_list_update_other {A} (l : list A) n m a :
  n <> m -> nth_error (list_update n a l) m = nth_error l m.
Proof.
  revert n m. induction l as [|x l IH]; intros [|n] [|m] H; simpl; try reflexivity.
  - congruence.
  - apply IH. congruence.
Qed.

Lemma list_update_length {A} (l : list A) n a :
  List.length (list_update n a l) = List.length l.
Proof.
  revert n. induction l as [|x l IH]; intros [|n]; simpl; auto.
Qed.

(** ** Equality of stores *)

(** C6: [A == B] answers [True] although [B] has a key that [A] lacks, and
    the comparison the other way round answers [False]: [__eq__] walks the
    keys of [self] only. *)
Theorem eq_ignores_keys_of_other :
  let A : DataDict := [("a", PInt 1)] in
  let B : DataDict := [("a", PInt 1); ("b", PInt 2)] in
  __eq__ [] A (PDataDict B) = Ok true /\
  __eq__ [] B (PDataDict A) = Ok false /\
  __ne__ [] A (PDataDict B) = Ok false.
Proof. repeat split; reflexivity. Qed.

(** What [__eq__] does guarantee: an answer [True] means every key of [self]
    is a key of [other]. *)
Lemma eq_true_keys_included (h : heap) (self other : DataDict) :
  __eq__ h self (PDataDict other) = Ok true ->
  forall k, dict_has k self = true -> dict_has k other = true.
Proof.
  unfold __eq__. induction self as [|[key item] self IH]; simpl; intros H k Hk.
  - unfold dict_has in Hk. simpl in Hk. discriminate.
  - unfold dict_has in *. simpl in Hk.
    destruct (dict_get key other) as [o|] eqn:Hget; [|discriminate].
    destruct (String.eqb k key) eqn:Hkk.
    + apply String.eqb_eq in Hkk. subst k. rewrite Hget. reflexivity.
    + apply IH; [|exact Hk].
      destruct item; try (destruct (py_eq h _ o) as [[|]|]; (exact H || discriminate)).
      destruct o; try discriminate.
      destruct (nth_error h r); [|discriminate].
      destruct (nth_error h r0); [|discriminate].
      destruct (equals d d0); [exact H | discriminate].
Qed.

(** Keys that only [other] has never change the answer. *)
Lemma eq_blind_to_new_key (h : heap) (self other : DataDict) k v :
  dict_has k self = false ->
  __eq__ h self (PDataDict (other ++ [(k, v)])) = __eq__ h self (PDataDict other).
Proof.
  unfold __eq__. intros Hk.
  assert (Hget : forall key, dict_has key self = true ->
             dict_get key (other ++ [(k, v)]) = dict_get key other).
  { intros key Hkey. induction other as [|[k' v'] other IH]; simpl.
    - destruct (String.eqb key k) eqn:E; [|reflexivity].
      apply String.eqb_eq in E. subst. congruence.
    - destruct (String.eqb key k'); [reflexivity | exact IH]. }
  induction self as [|[key item] self IH]; simpl; [reflexivity|].
  unfold dict_has in Hk. simpl in Hk.
  destruct (String.eqb k key) eqn:Ek; [discriminate|].
  rewrite Hget.
  2:{ unfold dict_has. simpl. rewrite String.eqb_refl. reflexivity. }
  assert (IH' : entries_equal h self (other ++ [(k, v)]) = entries_equal h self other).
  { apply IH.
    - exact Hk.
    - intros key' Hkey'. apply Hget. unfold dict_has in *. simpl.
      destruct (String.eqb key' key); [reflexivity | exact Hkey']. }
  rewrite IH'. reflexivity.
Qed.

(** ** Tables *)

Lemma map_fst_combine {A B} (a : list A) (b : list B) :
  List.length a = List.length b -> map fst (combine a b) = a.
Proof.
  revert b. induction a as [|x a IH]; intros [|y b] H; simpl in *;
    try discriminate; [reflexivity|].
  f_equal. apply IH. lia.
Qed.

Lemma map_snd_combine {A B} (a : list A) (b : list B) :
  List.length a = List.length b -> map snd (combine a b) = b.
Proof.
  revert b. induction a as [|x a IH]; intros [|y b] H; simpl in *;
    try discriminate; [reflexivity|].
  f_equal. apply IH. lia.
Qed.

Lemma range_length n : List.length (range n) = n.
Proof. unfold range. rewrite length_map, length_seq. reflexivity. Qed.

Lemma range_index_keys cells :
  map fst (range_index cells) = map (fun i => [i]) (range (List.length cells)).
Proof.
  unfold range_index. apply map_fst_combine.
  rewrite length_map, range_length. reflexivity.
Qed.

Lemma range_index_cells cells : map snd (range_index cells) = cells.
Proof.
  unfold range_index. apply map_snd_combine.
  rewrite length_map, range_length. reflexivity.
Qed.

Lemma map_concat_repeat {A B} (f : A -> B) (l : list A) n :
  map f (List.concat (repeat l n)) = List.concat (repeat (map f l) n).
Proof.
  induction n as [|n IH]; simpl; [reflexivity|].
  rewrite map_app, IH. reflexivity.
Qed.

Lemma concat_repeat_length {A} (l : list A) n :
  List.length (List.concat (repeat l n)) = (n * List.length l)%nat.
Proof.
  induction n as [|n IH]; simpl; [reflexivity|].
  rewrite length_app, IH. reflexivity.
Qed.

(** The [i]-th row of a table repeated as a whole is row [i mod m] of the
    table. *)
Lemma concat_repeat_nth {A} (l : list A) n i :
  (i < n * List.length l)%nat ->
  nth_error (List.concat (repeat l n)) i = nth_error l (i mod List.length l).
Proof.
  revert i. induction n as [|n IH]; intros i Hi; simpl in *; [lia|].
  destruct (Nat.lt_ge_cases i (List.length l)) as [Hlt|Hge].
  - rewrite nth_error_app1 by exact Hlt.
    rewrite Nat.mod_small by exact Hlt. reflexivity.
  - rewrite nth_error_app2 by exact Hge.
    rewrite IH by lia.
    replace i with ((i - List.length l) + 1 * List.length l)%nat at 2 by lia.
    rewrite Nat.Div0.mod_add. reflexivity.
Qed.

Lemma list_update_last {A} (l : list A) x a :
  list_update (List.length l) a (l ++ [x]) = l ++ [a].
Proof. induction l as [|y l IH]; simpl; [reflexivity | now rewrite IH]. Qed.

(** ** Parameters *)

(** C2: with [n > 1] iterations in the log, [_combine_pars] returns the
    assembled parameter table repeated [n] times as a whole (row [i] of the
    result is row [i mod m] of a table of [m] rows), under a fresh index
    [run_id] that counts from 0 to [n * m - 1]; the stored tables are left
    as they were. *)
Theorem combine_pars_repeats_whole_table :
  forall (self : DataDict) (varied fixed : bool) (h h1 : heap) (r : loc)
         (df : DataFrame) (lg : dict pyobj) (n : Z),
    assemble_pars self varied fixed h = (Ok (Some r), h1) ->
    nth_error h1 r = Some df ->
    is_0_0 df = false ->
    dict_get "log" self = Some (PDict lg) ->
    dict_get "iterations" lg = Some (PInt n) ->
    (1 < n)%Z ->
    exists (r' : loc) (h' : heap) (out : DataFrame),
      _combine_pars self varied fixed h = (Ok (PFrame r'), h') /\
      nth_error h' r' = Some out /\
      index_names out = [Some "run_id"] /\
      columns out = columns df /\
      map snd (rows out) = List.concat (repeat (map snd (rows df)) (Z.to_nat n)) /\
      map fst (rows out) =
        map (fun i => [i]) (range (Z.to_nat n * List.length (rows df))) /\
      (forall i, (i < Z.to_nat n * List.length (rows df))%nat ->
                 nth_error (map snd (rows out)) i =
                 nth_error (map snd (rows df)) (i mod List.length (rows df))) /\
      (forall i, (i < List.length h1)%nat -> nth_error h' i = nth_error h1 i).
Proof.
  intros self varied fixed h h1 r df lg n Hasm Hr H00 Hlog Hit Hn.
  set (copies := concat_copies (Z.to_nat n) df).
  set (out := mkDF [Some "run_id"] (columns df)
                   (range_index (map snd (rows copies)))).
  exists (S (List.length h1)), (h1 ++ [copies; out]), out.
  assert (Hrun : _combine_pars self varied fixed h =
                 (Ok (PFrame (S (List.length h1))), h1 ++ [copies; out])).
  { unfold _combine_pars. rewrite (bind_Ok _ _ _ _ _ Hasm).
    unfold bind at 1. unfold deref at 1. rewrite Hr, H00.
    unfold bind at 1. unfold iterations_of, getattr. rewrite Hlog. simpl lift.
    unfold bind at 1. unfold ret at 1. rewrite Hit. simpl gt_one.
    assert (Hlt : (1 <? n)%Z = true) by (apply Z.ltb_lt; exact Hn).
    unfold lift at 1. unfold bind at 1. unfold ret at 1. rewrite Hlt.
    simpl times. unfold lift at 1. unfold bind at 1. unfold ret at 1 2.
    unfold bind at 1. unfold fresh at 1. unfold bind at 1.
    unfold deref at 1. rewrite Hr. unfold alloc at 1.
    unfold bind at 1. unfold fresh at 1. unfold bind at 1. unfold deref at 1.
    rewrite nth_error_alloc. unfold alloc at 1.
    unfold bind at 1. unfold in_place. unfold bind at 1. unfold deref at 1.
    rewrite nth_error_alloc. unfold store.
    rewrite nth_error_alloc. rewrite list_update_last.
    unfold ret. rewrite length_app, Nat.add_1_r.
    rewrite <- app_assoc. reflexivity. }
  assert (Hcells : map snd (rows out) =
                   List.concat (repeat (map snd (rows df)) (Z.to_nat n))).
  { simpl. rewrite range_index_cells. apply map_concat_repeat. }
  split; [exact Hrun|].
  split.
  { replace (h1 ++ [copies; out]) with ((h1 ++ [copies]) ++ [out])
      by (rewrite <- app_assoc; reflexivity).
    replace (S (List.length h1)) with (List.length (h1 ++ [copies]))
      by (rewrite length_app; simpl; lia).
    apply nth_error_alloc. }
  split; [reflexivity|].
  split; [reflexivity|].
  split; [exact Hcells|].
  split.
  { simpl. rewrite range_index_keys. rewrite length_map.
    simpl. rewrite concat_repeat_length. reflexivity. }
  split.
  { intros i Hi. rewrite Hcells.
    rewrite <- (length_map snd (rows df)) in Hi |- *.
    apply concat_repeat_nth. exact Hi. }
  intros i Hi. apply nth_error_app1. exact Hi.
Qed.

Lemma combine_pars_repeats_whole_table_witness :
  exists (r' : loc) (h' : heap) (out : DataFrame),
    _combine_pars three_iterations true true example_heap = (Ok (PFrame r'), h') /\
    nth_error h' r' = Some out /\
    index_names out = [Some "run_id"] /\
    columns out = columns varied_pars /\
    map snd (rows out) = List.concat (repeat (map snd (rows varied_pars)) 3) /\
    map fst (rows out) = map (fun i => [i]) (range 6) /\
    (forall i, (i < 6)%nat ->
               nth_error (map snd (rows out)) i =
               nth_error (map snd (rows varied_pars)) (i mod 2)) /\
    (forall i, (i < 6)%nat -> nth_error h' i = nth_error (example_heap ++ [varied_pars]) i).
Proof.
  apply (@combine_pars_repeats_whole_table three_iterations true true example_heap
           (example_heap ++ [varied_pars]) 5 varied_pars
           [("name", PStr "test"); ("model_type", PStr "Model");
            ("iterations", PInt 3)] 3%Z);
    try reflexivity.
Defined.

(** C2, as stated: for two rows [a], [b] and three iterations the rows come
    out as [a b a b a b], not as [a a a b b b]; the six rows and the
    [run_id] from 0 to 5 are as claimed. *)
Lemma combine_pars_not_row_by_row :
  exists (r' : loc) (h' : heap) (out : DataFrame),
    _combine_pars three_iterations true true example_heap = (Ok (PFrame r'), h') /\
    nth_error h' r' = Some out /\
    List.length (rows out) = 6%nat /\
    map fst (rows out) = map (fun i => [i]) (range 6) /\
    map snd (rows out) <> each_row_repeated 3 (map snd (rows varied_pars)).
Proof.
  eexists. eexists. eexists.
  split; [vm_compute; reflexivity|].
  split; [vm_compute; reflexivity|].
  split; [reflexivity|].
  split; [reflexivity|].
  vm_compute. discriminate.
Qed.

(** The result of the tail of [_combine_pars] is a table or an exception. *)
Lemma combine_pars_tail_not_None self varied fixed h h1 r df h2 :
  assemble_pars self varied fixed h = (Ok (Some r), h1) ->
  nth_error h1 r = Some df ->
  is_0_0 df = false ->
  _combine_pars self varied fixed h <> (Ok PNone, h2).
Proof.
  intros Hasm Hr H00 Hrun.
  unfold _combine_pars in Hrun. rewrite (bind_Ok _ _ _ _ _ Hasm) in Hrun.
  unfold bind at 1 in Hrun. unfold deref at 1 in Hrun.
  rewrite Hr, H00 in Hrun.
  apply bind_inv in Hrun. destruct Hrun as (n & s1 & _ & Hrun).
  apply bind_inv in Hrun. destruct Hrun as (r1 & s2 & _ & Hrun).
  apply bind_inv in Hrun. destruct Hrun as (r2 & s3 & _ & Hrun).
  apply bind_inv in Hrun. destruct Hrun as (u & s4 & _ & Hrun).
  unfold ret in Hrun. discriminate.
Qed.

(** C9: [_combine_pars] answers "no data" exactly when no parameter table
    was assembled or the assembled table has neither a row nor a column. *)
Theorem combine_pars_no_data :
  forall (self : DataDict) (varied fixed : bool) (h h1 : heap)
         (dfp : option loc),
    assemble_pars self varied fixed h = (Ok dfp, h1) ->
    (_combine_pars self varied fixed h = (Ok PNone, h1) <->
     (dfp = None \/
      exists r df, dfp = Some r /\ nth_error h1 r = Some df /\
                   shape df = (0, 0)%nat)).
Proof.
  intros self varied fixed h h1 dfp Hasm. split.
  - intros Hrun. destruct dfp as [r|]; [right | left; reflexivity].
    destruct (nth_error h1 r) as [df|] eqn:Hr.
    + destruct (is_0_0 df) eqn:H00.
      * exists r, df. repeat split; try assumption.
        unfold is_0_0 in H00. destruct (shape df) as [[|a] [|b]];
          (reflexivity || discriminate).
      * exfalso. exact (combine_pars_tail_not_None _ _ _ _ _ _ _ _ Hasm Hr H00 Hrun).
    + exfalso. unfold _combine_pars in Hrun.
      rewrite (bind_Ok _ _ _ _ _ Hasm) in Hrun.
      unfold bind, deref in Hrun. rewrite Hr in Hrun. discriminate.
  - intros [-> | (r & df & -> & Hr & Hshape)];
      unfold _combine_pars; rewrite (bind_Ok _ _ _ _ _ Hasm).
    + reflexivity.
    + unfold bind, deref. rewrite Hr. unfold is_0_0. rewrite Hshape. reflexivity.
Qed.

Lemma combine_pars_no_data_witness :
  _combine_pars [("parameters", PFrame 0)] true true [empty_frame]
    = (Ok PNone, [empty_frame; empty_frame]) <->
  (Some 1%nat = None \/
   exists r df, Some 1%nat = Some r /\
                nth_error [empty_frame; empty_frame] r = Some df /\
                shape df = (0, 0)%nat).
Proof.
  apply (@combine_pars_no_data [("parameters", PFrame 0)] true true
           [empty_frame] [empty_frame; empty_frame] (Some 1%nat)).
  reflexivity.
Defined.

(** C9, as stated: a parameter table with a column and no row is handed
    back as a table (of no rows), not as "no data". *)
Lemma combine_pars_returns_table_without_rows :
  exists (r : loc) (h' : heap) (out : DataFrame),
    _combine_pars empty_pars true true example_heap = (Ok (PFrame r), h') /\
    nth_error h' r = Some out /\
    shape out = (0, 1)%nat.
Proof.
  eexists. eexists. eexists.
  split; [vm_compute; reflexivity|].
  split; [vm_compute; reflexivity|].
  reflexivity.
Qed.

(** ** Arranging variables *)

(** C3: for a store whose [variables] hold a single category,
    [arrange(variables='all', index=True)] returns that category's table,
    the very object of the store; with the default [index=False] it returns
    a new table, the category's table with its index levels moved into
    columns. *)
Theorem arrange_single_category :
  forall (self : DataDict) (h : heap) (k : string) (r : loc) (df : DataFrame)
         (obj_types : selector),
    dict_get "variables" self = Some (PDataDict [(k, PFrame r)]) ->
    nth_error h r = Some df ->
    arrange self (Some All) None None obj_types All true h = (Ok (PFrame r), h) /\
    arrange self (Some All) None None obj_types All false h =
      match reset_index df with
      | Ok flat => (Ok (PFrame (List.length h)), h ++ [flat])
      | Raise e => (Raise e, h)
      end.
Proof.
  intros self h k r df obj_types Hvars Hr.
  unfold arrange, _combine_vars. rewrite Hvars. split.
  - reflexivity.
  - cbv [bind ret combine_vars_measures combine_with_pars as_frame fresh
           deref alloc raise].
    rewrite Hr. destruct (reset_index df); reflexivity.
Qed.

Lemma arrange_single_category_witness :
  arrange one_category (Some All) None None All All true example_heap
    = (Ok (PFrame 1), example_heap) /\
  arrange one_category (Some All) None None All All false example_heap =
    match reset_index agent_vars with
    | Ok flat => (Ok (PFrame (List.length example_heap)), example_heap ++ [flat])
    | Raise e => (Raise e, example_heap)
    end.
Proof.
  apply (arrange_single_category one_category example_heap "Agent" 1 agent_vars All);
    reflexivity.
Defined.

(** C3, as stated: [arrange(variables='all')] does not return the category's
    table but a flattened one, and a request for the column [x] alone is
    answered with every column of the table. *)
Lemma arrange_single_category_differs :
  (exists (r : loc) (h' : heap),
      arrange one_category (Some All) None None All All false example_heap
        = (Ok (PFrame r), h') /\
      nth_error h' r <> Some agent_vars) /\
  (exists (r : loc) (h' : heap) (out : DataFrame),
      arrange one_category (Some (Names ["x"])) None None All All true example_heap
        = (Ok (PFrame r), h') /\
      nth_error h' r = Some out /\
      columns out = ["x"; "y"] /\
      Ok out <> select_columns ["x"] agent_vars).
Proof.
  split.
  - eexists. eexists. split; [vm_compute; reflexivity|].
    vm_compute. discriminate.
  - eexists. eexists. eexists.
    split; [vm_compute; reflexivity|].
    split; [vm_compute; reflexivity|].
    split; [reflexivity|].
    vm_compute. discriminate.
Qed.

(** C5: arranging the variables of a store with two categories writes the
    column [obj_id] into the stored table of the model: after the call the
    table at its place in the heap has a column it did not have before. *)
Theorem arrange_writes_into_stored_table :
  exists (out : pyobj) (h' : heap),
    arrange two_categories (Some All) None None All All false example_heap
      = (Ok out, h') /\
    nth_error example_heap 0 = Some model_vars /\
    nth_error h' 0 =
      Some (mkDF [Some "t"] ["pop"; "obj_id"]
                 [([PInt 0], [PInt 5; PInt 0]); ([PInt 1], [PInt 6; PInt 0])]) /\
    nth_error h' 0 <> nth_error example_heap 0.
Proof.
  eexists. eexists.
  split; [vm_compute; reflexivity|].
  split; [reflexivity|].
  split; [reflexivity|].
  vm_compute. discriminate.
Qed.

(** The same happens to the table of measures when the parameters of a
    single run are added to it. *)
Lemma arrange_writes_into_stored_measures :
  exists (h' : heap),
    arrange single_run None (Some All) (Some ParAll) All All true example_heap
      = (Ok (PFrame 2), h') /\
    nth_error example_heap 2 = Some run_measures /\
    nth_error h' 2 =
      Some (mkDF [Some "run_id"] ["final"; "x"] [([PInt 0], [PInt 9; PInt 1])]).
Proof.
  eexists. split; [vm_compute; reflexivity|]. split; reflexivity.
Qed.

(** ** Strings *)

Lemma split_on_nonempty c s : split_on c s <> [].
Proof.
  destruct s as [|a s]; simpl; [discriminate|].
  destruct (Ascii.eqb a c); [discriminate|].
  destruct (split_on c s); discriminate.
Qed.

Lemma split_on_app c s t :
  split_on c (s ++ String c t)%string = split_on c s ++ split_on c t.
Proof.
  induction s as [|a s IH]; simpl.
  - rewrite Ascii.eqb_refl. reflexivity.
  - destruct (Ascii.eqb a c); [rewrite IH; reflexivity|].
    rewrite IH. destruct (split_on c s) as [|w ws] eqn:E.
    + exfalso. exact (split_on_nonempty c s E).
    + reflexivity.
Qed.

Lemma split_on_no_sep c s :
  Forall (fun w => has_char c w = false) (split_on c s).
Proof.
  induction s as [|a s IH]; simpl.
  - constructor; [reflexivity | constructor].
  - destruct (Ascii.eqb a c) eqn:E.
    + constructor; [reflexivity | exact IH].
    + destruct (split_on c s) as [|w ws].
      * constructor; [simpl; rewrite E; reflexivity | constructor].
      * inversion IH; subst. constructor; [simpl; rewrite E; assumption | assumption].
Qed.

Lemma split_on_single c w : has_char c w = false -> split_on c w = [w].
Proof.
  induction w as [|a w IH]; simpl; intros H; [reflexivity|].
  apply orb_false_iff in H. destruct H as [Ha Hw].
  rewrite Ha, (IH Hw). reflexivity.
Qed.

Lemma components_app a b :
  components (a ++ "/" ++ b)%string = components a ++ components b.
Proof.
  unfold components. simpl. rewrite split_on_app. apply filter_app.
Qed.

(** A component is a path of its own. *)
Lemma components_component s c : In c (components s) -> components c = [c].
Proof.
  unfold components. intros H. apply filter_In in H. destruct H as [Hin Hne].
  pose proof (split_on_no_sep "/" s) as Hall.
  rewrite Forall_forall in Hall. rewrite (split_on_single _ _ (Hall c Hin)).
  simpl. rewrite Hne. reflexivity.
Qed.

(** ** The file system *)

Lemma path_eqb_eq p q : path_eqb p q = true <-> p = q.
Proof.
  revert q. induction p as [|a p IH]; intros [|b q]; simpl; split; intros H;
    try reflexivity; try discriminate.
  - apply andb_true_iff in H. destruct H as [Hab Hpq].
    apply String.eqb_eq in Hab. apply IH in Hpq. congruence.
  - inversion H; subst. rewrite String.eqb_refl. simpl. apply IH. reflexivity.
Qed.

Lemma path_eqb_refl p : path_eqb p p = true.
Proof. apply path_eqb_eq. reflexivity. Qed.

Lemma path_eqb_neq p q : p <> q -> path_eqb p q = false.
Proof.
  intros H. destruct (path_eqb p q) eqn:E; [|reflexivity].
  apply path_eqb_eq in E. contradiction.
Qed.

Lemma find_touch q p t l :
  option_map node_kind (find (fun n => path_eqb (node_path n) q) (touch p t l)) =
  option_map node_kind (find (fun n => path_eqb (node_path n) q) l).
Proof.
  induction l as [|m l IH]; simpl; [reflexivity|].
  destruct (path_eqb (node_path m) p); simpl;
    destruct (path_eqb (node_path m) q); simpl; auto.
Qed.

Lemma find_put_other q n l :
  node_path n <> q ->
  find (fun m => path_eqb (node_path m) q) (put_node n l) =
  find (fun m => path_eqb (node_path m) q) l.
Proof.
  intros Hne. induction l as [|m l IH]; simpl.
  - rewrite (path_eqb_neq _ _ Hne). reflexivity.
  - destruct (path_eqb (node_path m) (node_path n)) eqn:E; simpl.
    + apply path_eqb_eq in E. rewrite E. rewrite (path_eqb_neq _ _ Hne). reflexivity.
    + destruct (path_eqb (node_path m) q); [reflexivity | exact IH].
Qed.

Lemma find_put_same n l :
  option_map node_kind
    (find (fun m => path_eqb (node_path m) (node_path n)) (put_node n l))
  = Some (node_kind n).
Proof.
  induction l as [|m l IH]; simpl.
  - rewrite path_eqb_refl. reflexivity.
  - destruct (path_eqb (node_path m) (node_path n)) eqn:E; simpl.
    + rewrite path_eqb_refl. reflexivity.
    + rewrite E. exact IH.
Qed.

Lemma find_filter_other q p l :
  p <> q ->
  find (fun m => path_eqb (node_path m) q)
       (filter (fun m => negb (path_eqb (node_path m) p)) l) =
  find (fun m => path_eqb (node_path m) q) l.
Proof.
  intros Hne. induction l as [|m l IH]; simpl; [reflexivity|].
  destruct (path_eqb (node_path m) p) eqn:E; simpl.
  - apply path_eqb_eq in E. rewrite E, (path_eqb_neq _ _ Hne). exact IH.
  - destruct (path_eqb (node_path m) q); [reflexivity | exact IH].
Qed.

Lemma listed_touch x p t clk clk' l :
  listed x (mkFS clk l) -> listed x (mkFS clk' (touch p t l)).
Proof.
  intros (n & Hin & Hp). unfold listed, touch. simpl in *.
  exists (if path_eqb (node_path n) p then mkNode (node_path n) (node_kind n) t else n).
  split.
  - apply (in_map (fun m => if path_eqb (node_path m) p
                            then mkNode (node_path m) (node_kind m) t else m)).
    exact Hin.
  - destruct (path_eqb (node_path n) p); exact Hp.
Qed.

Lemma listed_put x m clk clk' l :
  listed x (mkFS clk l) -> listed x (mkFS clk' (put_node m l)).
Proof.
  intros (n & Hin & Hp). unfold listed. simpl in *.
  induction l as [|a l IH]; simpl; [contradiction|].
  destruct (path_eqb (node_path a) (node_path m)) eqn:E.
  - destruct Hin as [-> | Hin].
    + exists m. split; [left; reflexivity|].
      apply path_eqb_eq in E. congruence.
    + exists n. split; [right; exact Hin | exact Hp].
  - destruct Hin as [-> | Hin].
    + exists n. split; [left; reflexivity | exact Hp].
    + destruct (IH Hin) as (n' & Hin' & Hp').
      exists n'. split; [right; exact Hin' | exact Hp'].
Qed.

Lemma listed_filter x p clk clk' l :
  p <> [x] ->
  listed x (mkFS clk l) ->
  listed x (mkFS clk' (filter (fun m => negb (path_eqb (node_path m) p)) l)).
Proof.
  intros Hne (n & Hin & Hp). exists n. simpl in *. split; [|exact Hp].
  apply filter_In. split; [exact Hin|].
  rewrite Hp. rewrite path_eqb_neq; [reflexivity | congruence].
Qed.

Lemma is_dir_kind q fs : is_dir q fs = true <-> kind_of q fs = Some Dir.
Proof.
  unfold is_dir. destruct (kind_of q fs) as [[|c]|]; split; intros H;
    try reflexivity; try discriminate.
Qed.

Lemma grows_refl fs : grows fs fs.
Proof. split; auto. Qed.

Lemma grows_trans a b c : grows a b -> grows b c -> grows a c.
Proof. intros [H1 H2] [H3 H4]. split; auto. Qed.

(** The kind of a path other than the one written. *)
Lemma kind_of_put_other q n t p clk l :
  node_path n <> q ->
  kind_of q (mkFS clk (put_node n (touch p t l))) = kind_of q (mkFS 0 l).
Proof.
  intros Hne. destruct q as [|a q]; [reflexivity|].
  unfold kind_of, find_node. simpl nodes.
  rewrite (find_put_other _ _ _ Hne). apply find_touch.
Qed.

Lemma kind_of_clock q clk clk' l :
  kind_of q (mkFS clk l) = kind_of q (mkFS clk' l).
Proof. destruct q; reflexivity. Qed.

Lemma kind_of_touch q p t clk l :
  kind_of q (mkFS clk (touch p t l)) = kind_of q (mkFS clk l).
Proof.
  destruct q as [|a q]; [reflexivity|]. unfold kind_of, find_node. simpl nodes.
  apply find_touch.
Qed.

Lemma preserving_ret {A} (a : A) : preserving (ret a).
Proof. intros fs r fs' H. inversion H. apply grows_refl. Qed.

Lemma preserving_raise {A} e : preserving (@raise FS A e).
Proof. intros fs r fs' H. inversion H. apply grows_refl. Qed.

Lemma preserving_bind {A B} (c : M FS A) (k : A -> M FS B) :
  preserving c -> (forall a, preserving (k a)) -> preserving (bind c k).
Proof.
  intros Hc Hk fs r fs' H. unfold bind in H.
  destruct (c fs) as [[a|e] s1] eqn:E.
  - apply (grows_trans _ s1); [exact (Hc _ _ _ E) | exact (Hk a _ _ _ H)].
  - inversion H; subst. exact (Hc _ _ _ E).
Qed.

Lemma preserving_for_each {A B} (xs : list A) (acc : B) (body : B -> A -> M FS B) :
  (forall b a, preserving (body b a)) -> preserving (for_each xs acc body).
Proof.
  intros Hbody. revert acc. induction xs as [|x xs IH]; intros acc; simpl.
  - apply preserving_ret.
  - apply preserving_bind; [apply Hbody | intros a; apply IH].
Qed.

Lemma preserving_write_file s c : preserving (write_file s c).
Proof.
  intros fs r fs' H. unfold write_file in H.
  destruct fs as [clk l].
  destruct (kind_of (components s) (mkFS clk l)) as [[|c0]|] eqn:Hk.
  - inversion H. apply grows_refl.
  - inversion H; subst. split.
    + intros q Hq. rewrite is_dir_kind in *.
      assert (Hne : components s <> q)
        by (intros Heq; rewrite Heq in Hk; congruence).
      unfold tick. simpl clock. simpl nodes.
      rewrite <- Hq. destruct q as [|a q]; [reflexivity|].
      unfold kind_of, find_node. simpl nodes.
      rewrite find_put_other by exact Hne. reflexivity.
    + intros x _ Hx. apply (listed_put x _ clk). exact Hx.
  - destruct (is_dir (parent (components s)) (mkFS clk l)).
    + inversion H; subst. split.
      * intros q Hq. rewrite is_dir_kind in *.
        assert (Hne : components s <> q)
        by (intros Heq; rewrite Heq in Hk; congruence).
        rewrite <- Hq. unfold tick. simpl clock.
        rewrite (kind_of_put_other q (mkNode (components s) (File c) (S clk))
                   (S clk) (parent (components s)) (S clk) l Hne).
        apply kind_of_clock.
      * intros x _ Hx. apply (listed_put x _ clk).
        apply (listed_touch x _ _ clk). exact Hx.
    + inversion H. apply grows_refl.
Qed.

Lemma preserving_mkdir p : preserving (mkdir p).
Proof.
  intros fs r fs' H. unfold mkdir in H. destruct fs as [clk l].
  destruct (kind_of p (mkFS clk l)) as [k|] eqn:Hk.
  - inversion H. apply grows_refl.
  - destruct (is_dir (parent p) (mkFS clk l)).
    + inversion H; subst. split.
      * intros q Hq. rewrite is_dir_kind in *.
        assert (Hne : p <> q) by (intros Heq; rewrite Heq in Hk; congruence).
        rewrite <- Hq. unfold tick. simpl clock.
        rewrite (kind_of_put_other q (mkNode p Dir (S clk)) (S clk) (parent p)
                   (S clk) l Hne).
        apply kind_of_clock.
      * intros x _ Hx. apply (listed_put x _ clk).
        apply (listed_touch x _ _ clk). exact Hx.
    + inversion H. apply grows_refl.
Qed.

Lemma preserving_remove_file s : preserving (remove_file s).
Proof.
  intros fs r fs' H. unfold remove_file in H. destruct fs as [clk l].
  destruct (kind_of (components s) (mkFS clk l)) as [[|c0]|] eqn:Hk;
    try (inversion H; apply grows_refl).
  inversion H; subst. split.
  - intros q Hq. rewrite is_dir_kind in *.
    assert (Hne : components s <> q)
        by (intros Heq; rewrite Heq in Hk; congruence).
    rewrite <- Hq. unfold tick. simpl clock. rewrite kind_of_touch.
    destruct q as [|a q]; [reflexivity|].
    unfold kind_of, find_node. simpl nodes.
    rewrite find_filter_other by exact Hne. reflexivity.
  - intros x Hx Hl. apply (listed_touch x _ _ clk).
    apply (listed_filter x (components s) clk clk); [|exact Hl].
    intros Heq.
    assert (Hin : In x (components s)) by (rewrite Heq; left; reflexivity).
    apply components_component in Hin. congruence.
Qed.

Lemma mkdir_ok p fs fs' : mkdir p fs = (Ok tt, fs') -> is_dir p fs' = true.
Proof.
  unfold mkdir. destruct fs as [clk l].
  destruct (kind_of p (mkFS clk l)) as [k|] eqn:Hk; [discriminate|].
  destruct (is_dir (parent p) (mkFS clk l)); [|discriminate].
  intros H. inversion H; subst. apply is_dir_kind.
  destruct p as [|a p]; [discriminate|].
  unfold kind_of, find_node. simpl nodes.
  apply (find_put_same (mkNode (a :: p) Dir (tick (mkFS clk l)))).
Qed.

Lemma preserving_make_parents todo : forall done, preserving (make_parents done todo).
Proof.
  induction todo as [|c todo IH]; intros done; simpl.
  - apply preserving_ret.
  - apply preserving_bind; [|intros _; apply IH].
    intros fs r fs' H.
    destruct (kind_of (done ++ [c]) fs) as [[|c0]|].
    + inversion H. apply grows_refl.
    + inversion H. apply grows_refl.
    + exact (preserving_mkdir _ _ _ _ H).
Qed.

Lemma make_parents_ok todo :
  forall done fs fs',
    is_dir done fs = true ->
    make_parents done todo fs = (Ok tt, fs') ->
    forall k, is_dir (done ++ firstn k todo) fs' = true.
Proof.
  induction todo as [|c todo IH]; intros done fs fs' Hdone H k.
  - simpl in H. inversion H; subst. rewrite firstn_nil, app_nil_r. exact Hdone.
  - pose proof (preserving_make_parents (c :: todo) done fs _ _ H) as [Hg _].
    simpl in H. apply bind_inv in H. destruct H as ([] & fs1 & H1 & H2).
    destruct k as [|k].
    + simpl. rewrite app_nil_r. apply Hg. exact Hdone.
    + simpl. replace (done ++ c :: firstn k todo)
        with ((done ++ [c]) ++ firstn k todo)
        by (rewrite <- app_assoc; reflexivity).
      apply (IH (done ++ [c]) fs1 fs'); [|exact H2].
      destruct (kind_of (done ++ [c]) fs) as [[|c0]|] eqn:Hk.
      * inversion H1; subst. apply is_dir_kind. exact Hk.
      * discriminate.
      * exact (mkdir_ok _ _ _ H1).
Qed.

Lemma preserving_makedirs s : preserving (makedirs s).
Proof.
  unfold makedirs. destruct (components s) as [|a p] eqn:E.
  - apply preserving_raise.
  - intros fs r fs' H.
    destruct (kind_of (a :: p) fs).
    + inversion H. apply grows_refl.
    + revert fs r fs' H. fold (preserving (make_parents [] (parent (a :: p)) ;;; mkdir (a :: p))).
      apply preserving_bind; [apply preserving_make_parents|].
      intros _. apply preserving_mkdir.
Qed.

(** After [makedirs], the directory and all the directories above it are
    there. *)
Lemma makedirs_ok s fs fs' :
  makedirs s fs = (Ok tt, fs') ->
  components s <> [] /\
  forall k, is_dir (firstn k (components s)) fs' = true.
Proof.
  unfold makedirs. destruct (components s) as [|a p] eqn:E; [discriminate|].
  destruct (kind_of (a :: p) fs); [discriminate|].
  intros H. split; [discriminate|].
  apply bind_inv in H. destruct H as ([] & fs1 & H1 & H2).
  intros k. destruct (Nat.le_gt_cases (List.length (a :: p)) k) as [Hk|Hk].
  - rewrite firstn_all2 by exact Hk. exact (mkdir_ok _ _ _ H2).
  - pose proof (preserving_mkdir _ _ _ _ H2) as [Hg _]. apply Hg.
    replace (firstn k (a :: p)) with ([] ++ firstn k (parent (a :: p))).
    + apply (make_parents_ok _ [] fs fs1); [reflexivity | exact H1].
    + unfold parent. rewrite removelast_firstn_len, firstn_firstn.
      simpl app. f_equal. simpl List.length in *. lia.
Qed.

Lemma makedirs_collision s fs :
  components s <> [] ->
  is_dir (components s) fs = true ->
  makedirs s fs = (Raise FileExistsError, fs).
Proof.
  intros Hne Hd. unfold makedirs.
  destruct (components s) as [|a p]; [contradiction|].
  apply is_dir_kind in Hd. rewrite Hd. reflexivity.
Qed.

Lemma mem_In x l : mem x l = true <-> In x l.
Proof.
  unfold mem. rewrite existsb_exists. split.
  - intros (y & Hin & Heq). apply String.eqb_eq in Heq. subst. exact Hin.
  - intros Hin. exists x. split; [exact Hin | apply String.eqb_refl].
Qed.

(** The listing of the working directory shows the nodes one level deep. *)
Lemma listdir_root fs :
  exists here, listdir [] fs = (Ok here, fs) /\
               forall x, mem x here = true <-> listed x fs.
Proof.
  unfold listdir. simpl kind_of. eexists. split; [reflexivity|].
  intros x. rewrite mem_In, in_flat_map. unfold listed. split.
  - intros (n & Hin & Hx). exists n. split; [exact Hin|].
    destruct (rev (node_path n)) as [|name rp] eqn:E; [contradiction|].
    destruct (path_eqb (rev rp) []) eqn:Ep; [|contradiction].
    apply path_eqb_eq in Ep. destruct Hx as [<- | []].
    rewrite <- (rev_involutive (node_path n)), E. simpl. rewrite Ep. reflexivity.
  - intros (n & Hin & Hp). exists n. split; [exact Hin|].
    rewrite Hp. simpl. left. reflexivity.
Qed.

Lemma preserving_frame_at h r : preserving (frame_at h r).
Proof.
  unfold frame_at. destruct (nth_error h r);
    [apply preserving_ret | apply preserving_raise].
Qed.

Lemma preserving_dump_json file v : preserving (dump_json file v).
Proof.
  unfold dump_json. apply preserving_bind; [apply preserving_write_file|].
  intros _. destruct (json_encode v);
    [apply preserving_write_file | apply preserving_raise].
Qed.

Lemma preserving_except c handler :
  preserving c -> preserving handler -> preserving (except_TypeError c handler).
Proof.
  intros Hc Hh fs r fs' H. unfold except_TypeError in H.
  destruct (c fs) as [[a|e] s1] eqn:E.
  - inversion H; subst. exact (Hc _ _ _ E).
  - destruct e; try (inversion H; subst; exact (Hc _ _ _ E)).
    apply (grows_trans _ s1); [exact (Hc _ _ _ E) | exact (Hh _ _ _ H)].
Qed.

Lemma preserving_save_entry h dir key output :
  preserving (save_entry h dir key output).
Proof.
  unfold save_entry. apply preserving_bind.
  - destruct output; try apply preserving_ret.
    apply preserving_bind; [apply preserving_frame_at|].
    intros df. apply preserving_write_file.
  - intros _.
    assert (Hjson : preserving
              (except_TypeError (dump_json (fmt_file dir key ".json") output)
                                (remove_file (fmt_file dir key ".json")))).
    { apply preserving_except;
        [apply preserving_dump_json | apply preserving_remove_file]. }
    destruct output; try exact Hjson.
    apply preserving_for_each. intros [] ko.
    destruct (snd ko); try apply preserving_ret;
      try apply preserving_dump_json.
    apply preserving_bind; [apply preserving_frame_at|].
    intros df. apply preserving_write_file.
Qed.

(** ** Saving twice *)

(** C7: once [save] has succeeded for an experiment name, an id and a base
    path given explicitly, a second [save] with the same three, of any
    store, raises [FileExistsError] and leaves the file system exactly as
    the first call left it. *)
Theorem save_twice_collides :
  forall (h h2 : heap) (self self2 : DataDict) (exp_name : string) (exp_id : Z)
         (path : string) (fs fs1 : FS),
    save h self (Some exp_name) (Some exp_id) path fs = (Ok tt, fs1) ->
    save h2 self2 (Some exp_name) (Some exp_id) path fs1
      = (Raise FileExistsError, fs1).
Proof.
  intros h h2 self self2 exp_name exp_id path fs fs1 H.
  set (dir := fmt_dir path (replace " " "_" exp_name) exp_id).
  unfold save in H. fold dir in H.
  destruct (listdir_root fs) as (here0 & Hls0 & Hhere0).
  rewrite (bind_Ok _ _ _ _ _ Hls0) in H.
  apply bind_inv in H. destruct H as ([] & fs_a & Hbase & H).
  unfold bind at 1 in H. unfold ret at 1 in H.
  unfold bind at 1 in H. unfold ret at 1 in H.
  apply bind_inv in H. destruct H as ([] & fs_b & Hmk & Hloop).
  assert (Hg_loop : grows fs_b fs1).
  { revert Hloop. apply preserving_for_each.
    intros [] kv. apply preserving_save_entry. }
  assert (Hg_mk : grows fs_a fs_b) by exact (preserving_makedirs _ _ _ _ Hmk).
  destruct (makedirs_ok _ _ _ Hmk) as (Hdir_ne & Hdirs).
  assert (Hdir1 : forall k, is_dir (firstn k (components dir)) fs1 = true).
  { intros k. apply Hg_loop. apply Hdirs. }
  assert (Hsplit : components dir =
                   components path
                   ++ components (replace " " "_" exp_name ++ "_" ++ string_of_Z exp_id)).
  { unfold dir, fmt_dir. apply components_app. }
  assert (Hpath1 : is_dir (components path) fs1 = true).
  { specialize (Hdir1 (List.length (components path))).
    rewrite Hsplit, firstn_app, firstn_all, Nat.sub_diag in Hdir1.
    simpl in Hdir1. rewrite app_nil_r in Hdir1. exact Hdir1. }
  assert (Hwhole1 : is_dir (components dir) fs1 = true).
  { specialize (Hdir1 (List.length (components dir))).
    rewrite firstn_all in Hdir1. exact Hdir1. }
  unfold save. fold dir.
  destruct (listdir_root fs1) as (here1 & Hls1 & Hhere1).
  rewrite (bind_Ok _ _ _ _ _ Hls1).
  destruct (mem path here1) eqn:Hmem.
  - unfold bind at 1. unfold ret at 1.
    unfold bind at 1. unfold ret at 1.
    unfold bind at 1. unfold ret at 1.
    apply bind_Raise. apply makedirs_collision; assumption.
  - apply bind_Raise.
    destruct (components path) as [|a p] eqn:Ep.
    + exfalso.
      assert (Hl0 : listed path fs).
      { apply Hhere0. destruct (mem path here0) eqn:Hm0; [reflexivity|].
        unfold makedirs in Hbase. rewrite Ep in Hbase. discriminate. }
      assert (fs_a = fs).
      { destruct (mem path here0) eqn:Hm0.
        - inversion Hbase. reflexivity.
        - unfold makedirs in Hbase. rewrite Ep in Hbase. discriminate. }
      subst fs_a.
      assert (Hl1 : listed path fs1).
      { apply Hg_loop; [exact Ep|]. apply Hg_mk; [exact Ep | exact Hl0]. }
      apply Hhere1 in Hl1. congruence.
    + apply makedirs_collision; [rewrite Ep; discriminate|].
      rewrite Ep. exact Hpath1.
Qed.

Lemma save_twice_collides_witness :
  save example_heap single_run (Some "my test") (Some 1%Z) "ap_output"
       (snd (save example_heap single_run (Some "my test") (Some 1%Z) "ap_output"
                  (mkFS 0 [])))
  = (Raise FileExistsError,
     snd (save example_heap single_run (Some "my test") (Some 1%Z) "ap_output"
               (mkFS 0 []))).
Proof.
  apply (save_twice_collides example_heap example_heap single_run single_run
           "my test" 1%Z "ap_output" (mkFS 0 [])).
  vm_compute. reflexivity.
Defined.

(** ** Choosing the id *)

Lemma listdir_state p fs : snd (listdir p fs) = fs.
Proof. unfold listdir. destruct (kind_of p fs) as [[|c]|]; reflexivity. Qed.

Lemma ls_listdir p fs dirs : ls p fs = Ok dirs -> listdir p fs = (Ok dirs, fs).
Proof.
  unfold ls. intros H. rewrite (surjective_pairing (listdir p fs)).
  rewrite H, listdir_state. reflexivity.
Qed.

Lemma ints_total l :
  (forall d, In d l -> py_int (last_part "_" d) <> None) ->
  exists zs, ints l = Ok zs /\
             List.length zs = List.length l /\
             forall d z, In d l -> py_int (last_part "_" d) = Some z -> In z zs.
Proof.
  induction l as [|d l IH]; intros Hall.
  - exists []. repeat split; intros; contradiction.
  - destruct IH as (zs & Hzs & Hlen & Hin).
    { intros d' Hd'. apply Hall. right. exact Hd'. }
    destruct (py_int (last_part "_" d)) as [z|] eqn:Hd.
    + exists (z :: zs). simpl. rewrite Hd, Hzs. repeat split.
      * simpl. congruence.
      * intros d' z' [<- | Hd'] Hz'; [left; congruence | right; eauto].
    + exfalso. apply (Hall d); [left; reflexivity | exact Hd].
Qed.

Lemma ints_sound l zs :
  ints l = Ok zs ->
  forall z, In z zs -> exists d, In d l /\ py_int (last_part "_" d) = Some z.
Proof.
  revert zs. induction l as [|d l IH]; intros zs H z Hz; simpl in H.
  - inversion H; subst. contradiction.
  - destruct (py_int (last_part "_" d)) as [z0|] eqn:Hd; [|discriminate].
    destruct (ints l) as [zs0|e]; [|discriminate].
    inversion H; subst. destruct Hz as [<- | Hz].
    + exists d. split; [left; reflexivity | exact Hd].
    + destruct (IH zs0 eq_refl z Hz) as (d' & Hin & Hp).
      exists d'. split; [right; exact Hin | exact Hp].
Qed.

Lemma maximum_ge z zs : forall y, In y (z :: zs) -> (y <= maximum z zs)%Z.
Proof.
  unfold maximum. revert z. induction zs as [|x zs IH]; intros z y Hy; simpl.
  - destruct Hy as [<- | []]. lia.
  - destruct Hy as [Hy | [Hy | Hy]].
    + apply Z.le_trans with (Z.max z x); [lia|]. apply IH. left. reflexivity.
    + apply Z.le_trans with (Z.max z x); [lia|]. apply IH. left. reflexivity.
    + apply IH. right. exact Hy.
Qed.

Lemma maximum_in z zs : In (maximum z zs) (z :: zs).
Proof.
  unfold maximum. revert z. induction zs as [|x zs IH]; intros z; simpl.
  - left. reflexivity.
  - destruct (IH (Z.max z x)) as [H | H].
    + rewrite <- H. destruct (Z.max_spec z x) as [[_ ->] | [_ ->]]; auto.
    + right. right. exact H.
Qed.



(** C8: the siblings counted for a new id are matched by substring.
    [_last_exp_id] keeps every sibling name that contains the name of the
    experiment anywhere, not only those of the form [name_N].  Beside the
    single sibling [abc_5], which is not of the form [b_N], the first
    experiment named [b] is saved under the id 6, not 1.  Beside the
    directory [latest_results] an experiment named [test] cannot be saved at
    all: [save] raises [ValueError] and writes nothing.  And [load] of the
    name [b] without an id, beside [abc_5] and the only experiment [b_1] of
    that name, looks for [b_5] and raises [FileNotFoundError]. *)
Theorem new_id_counts_other_experiment :
  (ls ["out"] other_experiment = Ok ["abc_5"] /\
   (forall N : Z, "abc_5" <> ("b" ++ "_" ++ string_of_Z N)%string) /\
   exists fs',
     save [] [] (Some "b") None "out" other_experiment = (Ok tt, fs') /\
     is_dir ["out"; "b_6"] fs' = true /\
     kind_of ["out"; "b_1"] fs' = None) /\
  (ls ["out"] results_directory = Ok ["latest_results"] /\
   save [] [] (Some "test") None "out" results_directory
   = (Raise ValueError, results_directory)) /\
  (ls ["out"] two_experiments = Ok ["abc_5"; "b_1"] /\
   ls ["out"; "b_1"] two_experiments = Ok ["info.json"] /\
   load two_experiments (Some "b") None "out" []
   = (Raise FileNotFoundError, []) /\
   fst (load two_experiments (Some "b") (Some 1%Z) "out" [])
   = Ok [("info", PInt 7)]).
Proof.
  split; [|split].
  - split; [reflexivity|]. split.
    + intros N H. simpl in H. discriminate.
    + eexists. split; [vm_compute; reflexivity|]. split; reflexivity.
  - split; reflexivity.
  - repeat split; reflexivity.
Qed.

(** ** Dictionaries *)

Lemma dict_get_set_same {A} k (v : A) d : dict_get k (dict_set k v d) = Some v.
Proof.
  induction d as [|[k' v'] d IH]; simpl.
  - rewrite String.eqb_refl. reflexivity.
  - destruct (String.eqb k k') eqn:E; simpl.
    + rewrite String.eqb_refl. reflexivity.
    + rewrite E. exact IH.
Qed.

Lemma dict_get_set_other {A} k k' (v : A) d :
  k' <> k -> dict_get k' (dict_set k v d) = dict_get k' d.
Proof.
  intros Hne. induction d as [|[k0 v0] d IH]; simpl.
  - destruct (String.eqb_spec k' k); [contradiction | reflexivity].
  - destruct (String.eqb_spec k k0) as [<- | Hk]; simpl.
    + destruct (String.eqb_spec k' k); [contradiction | reflexivity].
    + destruct (String.eqb k' k0); [reflexivity | exact IH].
Qed.

Lemma dict_has_get {A} k (d : dict A) :
  dict_has k d = false -> dict_get k d = None.
Proof. unfold dict_has. destruct (dict_get k d); [discriminate | reflexivity]. Qed.

(** ** Loading a file that cannot be parsed *)

Lemma all_some_map_Some {A} (l : list A) : all_some (map Some l) = Some l.
Proof. induction l as [|a l IH]; simpl; [reflexivity | now rewrite IH]. Qed.

(** The index columns the loader picks are columns of the table, so that
    setting them as the index cannot fail. *)
Lemma set_index_found df :
  filter (fun i => mem i (columns df)) i_cols = [] \/
  exists df',
    set_index (map Some (filter (fun i => mem i (columns df)) i_cols)) df = Ok df'.
Proof.
  unfold set_index. rewrite all_some_map_Some.
  set (index := filter (fun i => mem i (columns df)) i_cols) in *.
  assert (Hall : forallb (fun k => mem k (columns df)) index = true).
  { apply forallb_forall. intros k Hk. apply filter_In in Hk. apply Hk. }
  rewrite Hall. destruct index as [|i index]; [left; reflexivity|].
  right. eexists. reflexivity.
Qed.

(** Whether a file can be parsed does not depend on the heap. *)
Lemma parse_file_fails_everywhere fs dir file h0 e :
  fst (parse_file fs dir file h0) = Raise e ->
  forall h, parse_file fs dir file h = (Raise e, h).
Proof.
  unfold parse_file. intros H h.
  destruct (String.eqb (last_part "." file) "csv").
  - destruct (read_file (dir ++ file) fs) as [c|e1];
      cbv [bind lift ret raise] in H |- *.
    2:{ cbn [fst] in H. inversion H. reflexivity. }
    destruct (read_csv c) as [df|e2].
    2:{ cbn [fst] in H. inversion H. reflexivity. }
    exfalso.
    destruct (set_index_found df) as [Hnil | (df' & Hset)].
    + cbv [alloc] in H. rewrite Hnil in H. cbn [fst] in H. discriminate.
    + cbv [alloc fresh bind deref] in H.
      destruct (filter (fun i => mem i (columns df)) i_cols) as [|i index].
      * cbn [fst] in H. discriminate.
      * rewrite nth_error_alloc in H. rewrite Hset in H.
        cbn [fst] in H. discriminate.
  - destruct (String.eqb (last_part "." file) "json").
    + destruct (read_file (dir ++ file) fs) as [c|e1];
        cbv [bind lift ret raise] in H |- *.
      2:{ cbn [fst] in H. inversion H. reflexivity. }
      destruct (json_load c) as [v|e2]; cbn [fst] in H.
      * discriminate.
      * inversion H. reflexivity.
    + cbv [raise] in H |- *. cbn [fst] in H. inversion H. reflexivity.
Qed.

Lemma load_file_failed fs dir file h0 e :
  fst (parse_file fs dir file h0) = Raise e ->
  python_exn e = true ->
  forall h, load_file fs dir file h = (Ok PNone, h).
Proof.
  intros H He h. unfold load_file, try_except.
  rewrite (parse_file_fails_everywhere _ _ _ _ _ H h), He. reflexivity.
Qed.

(** A file of a type other than [csv] and [json] cannot be parsed. *)
Lemma unsupported_type_fails fs dir file h :
  String.eqb (last_part "." file) "csv" = false ->
  String.eqb (last_part "." file) "json" = false ->
  fst (parse_file fs dir file h) = Raise ValueError.
Proof. unfold parse_file. intros -> ->. reflexivity. Qed.

Lemma load_step_put fs dir self file h :
  load_step fs dir self file h =
  bind (load_file fs dir file) (put_loaded self file) h.
Proof.
  unfold load_step, put_loaded, slot_of.
  destruct (contains "variables_" file); [reflexivity|].
  destruct (contains "parameters_" file); reflexivity.
Qed.

Lemma clashes_Top_Sub_name n k s :
  clashes s (Sub n k) = false -> s <> Top n.
Proof. intros H ->. simpl in H. rewrite String.eqb_refl in H. discriminate. Qed.

(** A file leaves alone what is stored in the slots it does not clash
    with. *)
Lemma put_loaded_frame self g v h self' h' s :
  put_loaded self g v h = (Ok self', h') ->
  clashes (slot_of g) s = false ->
  slot_get self' s = slot_get self s.
Proof.
  unfold put_loaded. destruct (slot_of g) as [k | n k]; intros H Hc.
  - inversion H; subst. destruct s as [k2 | n2 k2]; simpl in *.
    + apply dict_get_set_other. intros ->. rewrite String.eqb_refl in Hc. discriminate.
    + rewrite dict_get_set_other; [reflexivity|].
      intros ->. rewrite String.eqb_refl in Hc. discriminate.
  - set (self0 := if dict_has n self then self
                  else dict_set n (PDataDict []) self) in *.
    assert (Hother : forall k2, k2 <> n -> dict_get k2 self0 = dict_get k2 self).
    { intros k2 Hk2. unfold self0. destruct (dict_has n self); [reflexivity|].
      apply dict_get_set_other. exact Hk2. }
    assert (Hsame : forall k2, slot_get self0 (Sub n k2) = slot_get self (Sub n k2)).
    { intros k2. unfold self0. destruct (dict_has n self) eqn:Hhas; [reflexivity|].
      simpl. rewrite dict_get_set_same, (dict_has_get _ _ Hhas). reflexivity. }
    unfold set_sub_item in H.
    destruct s as [k2 | n2 k2]; simpl in Hc.
    + assert (Hne : k2 <> n).
      { intros ->. rewrite String.eqb_refl in Hc. discriminate. }
      simpl. rewrite <- (Hother k2 Hne).
      destruct (dict_get n self0) as [[]|]; try discriminate;
        try (inversion H; subst; apply dict_get_set_other; exact Hne).
      apply bind_inv in H. destruct H as (u & s1 & _ & H). inversion H. reflexivity.
    + destruct (String.eqb_spec n n2) as [<- | Hn].
      * simpl in Hc. rewrite <- Hsame.
        assert (Hk : k2 <> k).
        { intros ->. rewrite String.eqb_refl in Hc. discriminate. }
        simpl. destruct (dict_get n self0) as [[]|] eqn:Hget; try discriminate.
        -- inversion H; subst. rewrite dict_get_set_same.
           apply dict_get_set_other. exact Hk.
        -- apply bind_inv in H. destruct H as (u & s1 & _ & H).
           inversion H; subst. rewrite Hget. reflexivity.
        -- inversion H; subst. rewrite dict_get_set_same.
           apply dict_get_set_other. exact Hk.
      * assert (Hne : n2 <> n) by congruence.
        simpl. rewrite <- (Hother n2 Hne).
        destruct (dict_get n self0) as [[]|]; try discriminate;
          try (inversion H; subst; rewrite dict_get_set_other by exact Hne;
               reflexivity).
        apply bind_inv in H. destruct H as (u & s1 & _ & H). inversion H. reflexivity.
Qed.

Lemma load_step_frame fs dir self g h self' h' s :
  load_step fs dir self g h = (Ok self', h') ->
  clashes (slot_of g) s = false ->
  slot_get self' s = slot_get self s.
Proof.
  rewrite load_step_put. intros H Hc.
  apply bind_inv in H. destruct H as (v & h1 & _ & H).
  exact (put_loaded_frame _ _ _ _ _ _ _ H Hc).
Qed.

Lemma load_loop_frame fs dir files s :
  Forall (fun g => clashes (slot_of g) s = false) files ->
  forall self h self' h',
    for_each files self (load_step fs dir) h = (Ok self', h') ->
    slot_get self' s = slot_get self s.
Proof.
  induction 1 as [|g files Hg _ IH]; intros self h self' h' H; simpl in H.
  - inversion H. reflexivity.
  - apply bind_inv in H. destruct H as (self1 & h1 & H1 & H2).
    rewrite (IH _ _ _ _ H2). exact (load_step_frame _ _ _ _ _ _ _ _ H1 Hg).
Qed.

(** No table comes to stand under the name of a nested store unless a file
    is loaded under that very name. *)
Lemma put_loaded_no_table self g v h self' h' n :
  put_loaded self g v h = (Ok self', h') ->
  slot_of g <> Top n ->
  (forall r, dict_get n self <> Some (PFrame r)) ->
  forall r, dict_get n self' <> Some (PFrame r).
Proof.
  unfold put_loaded. destruct (slot_of g) as [k | m k]; intros H Hs Hno r.
  - inversion H; subst. rewrite dict_get_set_other; [apply Hno | congruence].
  - set (self0 := if dict_has m self then self
                  else dict_set m (PDataDict []) self) in *.
    assert (Hno0 : forall r, dict_get n self0 <> Some (PFrame r)).
    { intros r0. unfold self0. destruct (dict_has m self); [apply Hno|].
      destruct (String.eqb_spec n m) as [-> | Hnm].
      - rewrite dict_get_set_same. discriminate.
      - rewrite dict_get_set_other by exact Hnm. apply Hno. }
    unfold set_sub_item in H.
    destruct (dict_get m self0) as [[]|] eqn:Hget; try discriminate.
    + inversion H; subst.
      destruct (String.eqb_spec n m) as [-> | Hnm].
      * rewrite dict_get_set_same. discriminate.
      * rewrite dict_get_set_other by exact Hnm. apply Hno0.
    + apply bind_inv in H. destruct H as (u & s1 & _ & H).
      inversion H; subst. apply Hno0.
    + inversion H; subst.
      destruct (String.eqb_spec n m) as [-> | Hnm].
      * rewrite dict_get_set_same. discriminate.
      * rewrite dict_get_set_other by exact Hnm. apply Hno0.
Qed.

Lemma load_loop_no_table fs dir files n :
  Forall (fun g => slot_of g <> Top n) files ->
  forall self h self' h',
    for_each files self (load_step fs dir) h = (Ok self', h') ->
    (forall r, dict_get n self <> Some (PFrame r)) ->
    forall r, dict_get n self' <> Some (PFrame r).
Proof.
  induction 1 as [|g files Hg _ IH]; intros self h self' h' H Hno; simpl in H.
  - inversion H; subst. exact Hno.
  - apply bind_inv in H. destruct H as (self1 & h1 & H1 & H2).
    apply (IH _ _ _ _ H2).
    rewrite load_step_put in H1. apply bind_inv in H1.
    destruct H1 as (v & h2 & _ & H1).
    exact (put_loaded_no_table _ _ _ _ _ _ _ H1 Hg Hno).
Qed.

(** What is written is there, unless the nested store is a table. *)
Lemma put_loaded_written self f v h self' h' :
  put_loaded self f v h = (Ok self', h') ->
  (forall n k r, slot_of f = Sub n k -> dict_get n self <> Some (PFrame r)) ->
  slot_get self' (slot_of f) = Some v.
Proof.
  unfold put_loaded. destruct (slot_of f) as [k | n k]; intros H Hno.
  - inversion H; subst. simpl. apply dict_get_set_same.
  - set (self0 := if dict_has n self then self
                  else dict_set n (PDataDict []) self) in *.
    assert (Hno0 : forall r, dict_get n self0 <> Some (PFrame r)).
    { intros r. unfold self0. destruct (dict_has n self).
      - apply (Hno n k r eq_refl).
      - rewrite dict_get_set_same. discriminate. }
    unfold set_sub_item in H. simpl.
    destruct (dict_get n self0) as [[]|] eqn:Hget; try discriminate.
    + inversion H; subst. rewrite dict_get_set_same. apply dict_get_set_same.
    + exfalso. exact (Hno0 r eq_refl).
    + inversion H; subst. rewrite dict_get_set_same. apply dict_get_set_same.
Qed.

Lemma load_explicit fs exp_name exp_id path files h :
  exp_id <> 0%Z ->
  ls (components (fmt_dir path (replace " " "_" exp_name) exp_id ++ "/")%string) fs
    = Ok files ->
  load fs (Some exp_name) (Some exp_id) path h =
  for_each files []
    (load_step fs (fmt_dir path (replace " " "_" exp_name) exp_id ++ "/")%string) h.
Proof.
  intros Hid Hls. unfold load, _load. cbv [bind ret lift].
  destruct exp_id as [|p|p]; [contradiction | |]; rewrite Hls; reflexivity.
Qed.



(** A later file of the same stem replaces the [None]. *)
Lemma load_later_file_replaces_None :
  fst (load (mkFS 3 [mkNode ["out"] Dir 1;
                     mkNode ["out"; "test_1"] Dir 3;
                     mkNode ["out"; "test_1"; "a.txt"] (File (Raw "hello")) 2;
                     mkNode ["out"; "test_1"; "a.json"] (File (Json (JInt 7))) 3])
            (Some "test") (Some 1%Z) "out" [])
  = Ok [("a", PInt 7)].
Proof. reflexivity. Qed.


(** ** Combining the variables of several categories *)

Lemma cell_cons_same a cols v vals : cell (a :: cols) (v :: vals) a = v.
Proof. unfold cell. simpl. rewrite String.eqb_refl. reflexivity. Qed.

Lemma cell_cons_other a cols v vals k :
  k <> a -> cell (a :: cols) (v :: vals) k = cell cols vals k.
Proof.
  intros Hne. unfold cell. simpl.
  destruct (String.eqb_spec k a); [contradiction|].
  destruct (index_of k cols); reflexivity.
Qed.

Lemma mem_cons_false k a l : mem k (a :: l) = false -> k <> a /\ mem k l = false.
Proof.
  unfold mem. simpl. intros H. apply orb_false_iff in H. destruct H as [H1 H2].
  split; [|exact H2]. intros ->. rewrite String.eqb_refl in H1. discriminate.
Qed.

Lemma cell_app_right names cols idx vals k :
  List.length idx = List.length names ->
  mem k names = false ->
  cell (names ++ cols) (idx ++ vals) k = cell cols vals k.
Proof.
  revert idx. induction names as [|a names IH]; intros [|v idx] Hlen Hk;
    simpl in Hlen; try discriminate; simpl.
  - reflexivity.
  - apply mem_cons_false in Hk. destruct Hk as [Hne Hk].
    rewrite cell_cons_other by exact Hne. apply IH; [lia | exact Hk].
Qed.

Lemma cells_of_levels names cols idx vals :
  nodupb names = true ->
  List.length idx = List.length names ->
  map (cell (names ++ cols) (idx ++ vals)) names = idx.
Proof.
  revert idx. induction names as [|a names IH]; intros [|v idx] Hnd Hlen;
    simpl in Hlen; try discriminate; simpl.
  - reflexivity.
  - simpl in Hnd. apply andb_true_iff in Hnd. destruct Hnd as [Ha Hnd].
    rewrite cell_cons_same. f_equal.
    rewrite <- (IH idx Hnd) at 2 by lia.
    apply map_ext_in. intros k Hk. apply cell_cons_other.
    intros ->. apply mem_In in Hk. rewrite Hk in Ha. discriminate.
Qed.

Lemma map_insert_before_last {A B} (f : A -> B) x l :
  map f (insert_before_last x l) = insert_before_last (f x) (map f l).
Proof.
  induction l as [|a [|b l] IH]; simpl in *; try reflexivity.
  f_equal. exact IH.
Qed.

(** The key of a row once [obj_id] has become the level before the last. *)
Lemma reindexed_key names cols idx vals :
  nodupb names = true ->
  List.length idx = List.length names ->
  mem "obj_id" names = false ->
  cell cols vals "obj_id" = PInt 0 ->
  map (cell (names ++ cols) (idx ++ vals)) (insert_before_last "obj_id" names)
  = insert_before_last (PInt 0) idx.
Proof.
  intros Hnd Hlen Hno Hcell.
  rewrite map_insert_before_last, cells_of_levels by assumption.
  rewrite cell_app_right by assumption. rewrite Hcell. reflexivity.
Qed.

Lemma index_of_lt k l i : index_of k l = Some i -> (i < List.length l)%nat.
Proof.
  revert i. induction l as [|a l IH]; intros i H; simpl in *; [discriminate|].
  destruct (String.eqb k a).
  - inversion H. lia.
  - destruct (index_of k l) as [j|]; [|discriminate].
    inversion H. specialize (IH j eq_refl). lia.
Qed.

Lemma index_of_mem k l : mem k l = true <-> index_of k l <> None.
Proof.
  induction l as [|a l IH]; simpl.
  - split; [discriminate | congruence].
  - unfold mem in *. simpl. destruct (String.eqb k a); simpl.
    + split; [discriminate | reflexivity].
    + rewrite IH. destruct (index_of k l); simpl; split; congruence.
Qed.

Lemma index_of_new k l : index_of k l = None -> index_of k (l ++ [k]) = Some (List.length l).
Proof.
  induction l as [|a l IH]; simpl; intros H.
  - rewrite String.eqb_refl. reflexivity.
  - destruct (String.eqb k a); [discriminate|].
    destruct (index_of k l); [discriminate|]. rewrite IH by reflexivity. reflexivity.
Qed.

Lemma nth_list_update {A} (l : list A) i x d :
  (i < List.length l)%nat -> nth i (list_update i x l) d = x.
Proof.
  revert i. induction l as [|a l IH]; intros [|i] H; simpl in *; try lia.
  - reflexivity.
  - apply IH. lia.
Qed.

Lemma combine_repeat {A B C} (f : A * B -> C) (l : list A) (x : B) :
  map f (combine l (repeat x (List.length l))) = map (fun a => f (a, x)) l.
Proof. induction l as [|a l IH]; simpl; [reflexivity | now rewrite IH]. Qed.

(** [df['obj_id'] = 0] *)
Lemma setitem_obj_id df :
  setitem "obj_id" (PInt 0) df =
  Ok (set_column "obj_id" (repeat (PInt 0) (List.length (rows df))) df).
Proof. reflexivity. Qed.

Lemma set_column_const_spec k x df :
  well_shaped df ->
  let df' := set_column k (repeat x (List.length (rows df))) df in
  index_names df' = index_names df /\
  mem k (columns df') = true /\
  map fst (rows df') = map fst (rows df) /\
  Forall (fun r => List.length (fst r) = List.length (index_names df) /\
                   cell (columns df') (snd r) k = x) (rows df').
Proof.
  intros Hws. unfold set_column.
  destruct (index_of k (columns df)) as [i|] eqn:Hi; simpl.
  - split; [reflexivity|]. split.
    { apply index_of_mem. congruence. }
    rewrite !combine_repeat. simpl. split.
    { rewrite map_map. reflexivity. }
    apply Forall_map. revert Hws. apply Forall_impl.
    intros r [H1 H2]. simpl. split; [exact H1|].
    unfold cell. rewrite Hi. apply nth_list_update.
    rewrite H2. exact (index_of_lt _ _ _ Hi).
  - split; [reflexivity|]. split.
    { apply index_of_mem. rewrite index_of_new by exact Hi. discriminate. }
    rewrite !combine_repeat. simpl. split.
    { rewrite map_map. reflexivity. }
    apply Forall_map. revert Hws. apply Forall_impl.
    intros r [H1 H2]. simpl. split; [exact H1|].
    unfold cell. rewrite index_of_new by exact Hi.
    rewrite app_nth2 by lia. rewrite H2, Nat.sub_diag. reflexivity.
Qed.

Lemma all_some_insert (names : list (option string)) ks :
  all_some (insert_before_last (Some "obj_id") names) = Some ks ->
  exists ns, names = map Some ns /\ ks = insert_before_last "obj_id" ns.
Proof.
  revert ks. induction names as [|a [|b names] IH]; intros ks H.
  - simpl in H. inversion H. exists []. split; reflexivity.
  - simpl in H. destruct a as [a|]; [|discriminate].
    inversion H. exists [a]. split; reflexivity.
  - change (insert_before_last (Some "obj_id") (a :: b :: names))
      with (a :: insert_before_last (Some "obj_id") (b :: names)) in H.
    cbn [all_some] in H. destruct a as [a|]; [|discriminate].
    destruct (all_some (insert_before_last (Some "obj_id") (b :: names)))
      as [ks'|] eqn:E; [|discriminate].
    inversion H; subst. destruct (IH ks' eq_refl) as (ns & Hns & Hks).
    exists (a :: ns). rewrite Hns, Hks. split; [reflexivity|].
    destruct ns as [|c ns]; [discriminate | reflexivity].
Qed.

Lemma indexed_names_from (ns : list string) start :
  map (fun inm : nat * option string =>
         match snd inm with
         | Some s => s
         | None => ("level_" ++ string_of_nat (fst inm))%string
         end) (combine (seq start (List.length (map Some ns))) (map Some ns)) = ns.
Proof.
  revert start. induction ns as [|a ns IH]; intros start; simpl; [reflexivity|].
  f_equal. apply IH.
Qed.

Lemma level_names_named df ns :
  index_names df = map Some ns -> level_names df = ns.
Proof.
  intros H. unfold level_names, indexed. rewrite H.
  destruct ns as [|a [|b ns]]; try reflexivity.
  apply (indexed_names_from (a :: b :: ns) 0).
Qed.

Lemma map_snd_range_index {A} (g : list pyobj -> A) cells :
  map (fun r => g (snd r)) (range_index cells) = map g cells.
Proof. rewrite <- (map_map snd g), range_index_cells. reflexivity. Qed.

Lemma insert_before_last_not_nil {A} (x : A) l : insert_before_last x l <> [].
Proof. destruct l as [|a [|b l]]; discriminate. Qed.

(** The table of the model after "Add 'obj_id' before 't'": every key has
    gained a [0] before its last cell. *)
Lemma reindex_model_table dfm flat df2 :
  well_shaped dfm ->
  let dfm' := set_column "obj_id" (repeat (PInt 0) (List.length (rows dfm))) dfm in
  reset_index dfm' = Ok flat ->
  set_index (insert_before_last (Some "obj_id") (index_names dfm')) flat = Ok df2 ->
  map fst (rows df2) =
  map (fun r => insert_before_last (PInt 0) (fst r)) (rows dfm).
Proof.
  intros Hws dfm' Hreset Hset.
  destruct (set_column_const_spec "obj_id" (PInt 0) dfm Hws)
    as (Hnames & Hmem & Hfst & Hall).
  fold dfm' in Hnames, Hmem, Hfst, Hall.
  unfold set_index in Hset.
  destruct (all_some (insert_before_last (Some "obj_id") (index_names dfm')))
    as [ks|] eqn:Hks; [|discriminate].
  destruct (all_some_insert _ _ Hks) as (ns & Hns & ->).
  unfold reset_index in Hreset. rewrite (level_names_named _ _ Hns) in Hreset.
  destruct (nodupb ns && forallb (fun n => negb (mem n (columns dfm'))) ns)
    eqn:Hcheck; [|discriminate].
  apply andb_true_iff in Hcheck. destruct Hcheck as [Hnd Hdisj].
  inversion Hreset; subst flat; clear Hreset.
  assert (Hno : mem "obj_id" ns = false).
  { destruct (mem "obj_id" ns) eqn:E; [|reflexivity].
    apply mem_In in E. rewrite forallb_forall in Hdisj.
    specialize (Hdisj _ E). rewrite Hmem in Hdisj. discriminate. }
  destruct (insert_before_last "obj_id" ns) as [|k0 ks0] eqn:Eks.
  { exfalso. exact (insert_before_last_not_nil _ _ Eks). }
  simpl columns in Hset. simpl rows in Hset.
  destruct (forallb (fun k => mem k (ns ++ columns dfm')) (k0 :: ks0));
    [|discriminate].
  inversion Hset; subst df2; clear Hset. simpl rows.
  transitivity (map (fun idx => insert_before_last (PInt 0) idx)
                    (map fst (rows dfm'))).
  - rewrite map_map. cbn [fst].
    rewrite (map_snd_range_index
               (fun c => map (cell (ns ++ columns dfm') c) (k0 :: ks0))).
    rewrite !map_map.
    apply map_ext_in. intros r Hr.
    rewrite Forall_forall in Hall. destruct (Hall r Hr) as [Hlen Hcell].
    rewrite <- Eks. apply reindexed_key; try assumption.
    rewrite Hlen, <- Hnames, Hns, length_map. reflexivity.
  - rewrite Hfst, map_map. reflexivity.
Qed.

Lemma flat_map_map_fst {A} (f : A -> list (list pyobj * list pyobj)) l :
  map fst (flat_map f l) = flat_map (fun a => map fst (f a)) l.
Proof.
  induction l as [|a l IH]; simpl; [reflexivity|].
  rewrite map_app, IH. reflexivity.
Qed.

Lemma unanimous_names_length n0 others :
  List.length (unanimous_names (n0 :: others)) = List.length n0.
Proof.
  unfold unanimous_names, indexed.
  rewrite length_map, length_combine, length_seq. lia.
Qed.

Lemma concat_rows_keys cols tables :
  map fst
    (flat_map
       (fun d => map (fun r => (fst r, map (cell (columns d) (snd r)) cols))
                     (rows d))
       (map (fun kv : string * DataFrame => add_key_level (fst kv) (snd kv))
            tables)) =
  flat_map (fun kd => map (fun r => PStr (fst kd) :: fst r) (rows (snd kd)))
           tables.
Proof.
  induction tables as [|[k d] tables IH]; [reflexivity|].
  cbn [map flat_map fst snd]. rewrite map_app, IH. f_equal.
  unfold add_key_level. cbn [rows]. rewrite !map_map. reflexivity.
Qed.

(** [pd.concat] of a dictionary: the keys of the rows are the keys of the
    tables' rows, each behind its dictionary key, table after table. *)
Lemma concat_keys_rows tables joined :
  concat_keys tables = Ok joined ->
  map fst (rows (set_level0_name "obj_type" joined)) =
    flat_map (fun kd => map (fun r => PStr (fst kd) :: fst r) (rows (snd kd)))
             tables /\
  hd_error (index_names (set_level0_name "obj_type" joined))
    = Some (Some "obj_type").
Proof.
  unfold concat_keys, concat_frames. intros H.
  destruct tables as [|[k0 d0] tables]; [discriminate|].
  cbn [map fst snd] in H.
  match type of H with
  | (if ?c then _ else _) = _ => destruct c; [|discriminate]
  end.
  inversion H; subst joined; clear H. split.
  - unfold set_level0_name. cbn [rows].
    rewrite map_app. cbn [flat_map fst snd]. f_equal.
    + rewrite !map_map. reflexivity.
    + apply concat_rows_keys.
  - unfold set_level0_name. simpl index_names.
    pose proof (unanimous_names_length
                  (index_names (add_key_level k0 d0))
                  (map index_names
                       (map (fun kv => add_key_level (fst kv) (snd kv)) tables))) as Hlen.
    simpl map in *.
    destruct (unanimous_names _) as [|x xs]; [discriminate | reflexivity].
Qed.

(** *** Steps on the heap, read backwards *)

Lemma deref_inv r h df h' :
  deref r h = (Ok df, h') -> h' = h /\ nth_error h r = Some df.
Proof.
  unfold deref. destruct (nth_error h r); intros H; inversion H; auto.
Qed.

Lemma fresh_inv r f h r' h' :
  fresh r f h = (Ok r', h') ->
  exists df df', nth_error h r = Some df /\ f df = Ok df' /\
                 r' = List.length h /\ h' = h ++ [df'].
Proof.
  unfold fresh, bind, deref. destruct (nth_error h r) as [df|]; [|discriminate].
  destruct (f df) as [df'|e] eqn:Hf; [|discriminate].
  unfold alloc. intros H. inversion H. exists df, df'. auto.
Qed.

Lemma in_place_inv r f h u h' :
  in_place r f h = (Ok u, h') ->
  exists df df', nth_error h r = Some df /\ f df = Ok df' /\
                 h' = list_update r df' h.
Proof.
  unfold in_place, bind, deref. destruct (nth_error h r) as [df|] eqn:Hr;
    [|discriminate].
  destruct (f df) as [df'|e] eqn:Hf; [|discriminate].
  unfold store. rewrite Hr. intros H. inversion H. exists df, df'. auto.
Qed.

Lemma select_columns_keys ks df df' :
  select_columns ks df = Ok df' ->
  index_names df' = index_names df /\ map fst (rows df') = map fst (rows df).
Proof.
  unfold select_columns. destruct (forallb _ ks); [|discriminate].
  intros H. inversion H. simpl. rewrite map_map. auto.
Qed.

(** *** The two filters *)

Lemma has_any_column_spec ks v h b h1 :
  has_any_column ks v h = (Ok b, h1) -> h1 = h /\ b = has_column_of h ks v.
Proof.
  unfold has_any_column, has_column_of. destruct ks as [|k ks].
  - intros H. inversion H; subst. split; [reflexivity|].
    destruct v; try reflexivity. destruct (nth_error h1 r); reflexivity.
  - destruct v; try discriminate.
    cbv [as_frame bind ret deref]. destruct (nth_error h r); [|discriminate].
    intros H. inversion H. auto.
Qed.

Lemma filter_m_columns ks vs : forall h d1 h1,
  filter_m (fun kv : string * pyobj => has_any_column ks (snd kv)) vs h = (Ok d1, h1) ->
  h1 = h /\ d1 = filter (fun kv => has_column_of h ks (snd kv)) vs.
Proof.
  induction vs as [|kv vs IH]; intros h d1 h1 H; simpl in H.
  - inversion H. auto.
  - apply bind_inv in H. destruct H as (b & h2 & Hb & H).
    apply has_any_column_spec in Hb. destruct Hb as [-> ->].
    apply bind_inv in H. destruct H as (d & h3 & Hd & H).
    apply IH in Hd. destruct Hd as [-> ->].
    inversion H. split; [reflexivity|]. simpl.
    destruct (has_column_of h ks (snd kv)); reflexivity.
Qed.

Lemma NoDup_keys_filter {A} (p : string * A -> bool) (d : dict A) :
  NoDup (dict_keys d) -> NoDup (dict_keys (filter p d)).
Proof.
  unfold dict_keys. induction d as [|kv d IH]; simpl; intros H; [constructor|].
  inversion H; subst. destruct (p kv); simpl; [|auto].
  constructor; [|auto]. intros Hin. apply H2.
  apply in_map_iff in Hin. destruct Hin as (x & Hx & Hin).
  apply filter_In in Hin. apply in_map_iff. exists x. tauto.
Qed.

Lemma selected_sub h vs obj_types var_keys kv :
  In kv (selected h vs obj_types var_keys) -> In kv vs.
Proof.
  unfold selected. intros H.
  assert (Hd1 : In kv match var_keys with
                      | All => vs
                      | Names ks => filter (fun kv => has_column_of h ks (snd kv)) vs
                      end).
  { destruct obj_types; [exact H|]. apply filter_In in H. apply H. }
  destruct var_keys; [exact Hd1|]. apply filter_In in Hd1. apply Hd1.
Qed.

Lemma selected_NoDup h vs obj_types var_keys :
  NoDup (dict_keys vs) -> NoDup (dict_keys (selected h vs obj_types var_keys)).
Proof.
  intros H. unfold selected.
  destruct obj_types; destruct var_keys; repeat apply NoDup_keys_filter; exact H.
Qed.

(** *** The tables handed to [pd.concat] *)

Lemma tables_of_keys d : forall h ts h',
  tables_of d h = (Ok ts, h') ->
  h' = h /\
  flat_map (fun kd => map (fun r => PStr (fst kd) :: fst r) (rows (snd kd))) ts
  = flat_map (plain_keys h) d.
Proof.
  induction d as [|[k v] d IH]; intros h ts h' H.
  - simpl in H. inversion H. auto.
  - destruct v; try discriminate.
    + simpl in H. apply IH in H. destruct H as [-> Hk].
      split; [reflexivity | exact Hk].
    + simpl in H. apply bind_inv in H. destruct H as (df & h1 & Hdf & H).
      apply deref_inv in Hdf. destruct Hdf as [-> Hr].
      apply bind_inv in H. destruct H as (rest & h2 & Hrest & H).
      apply IH in Hrest. destruct Hrest as [-> Hk].
      inversion H; subst. split; [reflexivity|].
      simpl. unfold plain_keys at 1. simpl. rewrite Hr, Hk. reflexivity.
Qed.

Lemma dict_get_In {A} k (v : A) d : dict_get k d = Some v -> In (k, v) d.
Proof.
  induction d as [|[k' v'] d IH]; simpl; [discriminate|].
  destruct (String.eqb_spec k k') as [-> | Hne].
  - intros H. inversion H. left. reflexivity.
  - intros H. right. auto.
Qed.

Lemma dict_get_not_key {A} k (d : dict A) :
  ~ In k (dict_keys d) -> dict_get k d = None.
Proof.
  induction d as [|[k' v'] d IH]; simpl; [reflexivity|].
  intros H. destruct (String.eqb_spec k k') as [-> | Hne]; [tauto|].
  apply IH. tauto.
Qed.

(** The categories other than the model's keep their keys, whatever the
    call has done to the heap. *)
Lemma keys_other_categories h h3 m d :
  (forall r df, nth_error h r = Some df ->
                exists df', nth_error h3 r = Some df' /\
                            map fst (rows df') = map fst (rows df)) ->
  (forall k r, In (k, PFrame r) d -> exists df, nth_error h r = Some df) ->
  ~ In m (dict_keys d) ->
  flat_map (plain_keys h3) d = expected_keys h m d.
Proof.
  intros Hkeep. unfold expected_keys.
  induction d as [|[k v] d IH]; intros Hvalid Hm; [reflexivity|].
  simpl. rewrite IH.
  - f_equal. unfold plain_keys. simpl. destruct v; try reflexivity.
    destruct (Hvalid k r (or_introl eq_refl)) as (df & Hr).
    destruct (Hkeep r df Hr) as (df' & Hr' & Hsame).
    rewrite Hr, Hr'.
    destruct (String.eqb_spec k m) as [-> | _].
    + exfalso. apply Hm. left. reflexivity.
    + rewrite <- (map_map fst (fun idx => PStr k :: idx)), Hsame, map_map.
      reflexivity.
  - intros k' r' Hin. apply (Hvalid k' r'). right. exact Hin.
  - intros Hin. apply Hm. right. exact Hin.
Qed.

(** With the re-indexed table of the model in its place. *)
Lemma keys_after_obj_id h h3 m rm dfm r2 df2 d :
  nth_error h rm = Some dfm ->
  nth_error h3 r2 = Some df2 ->
  map fst (rows df2) = map (fun r => insert_before_last (PInt 0) (fst r)) (rows dfm) ->
  (forall r df, nth_error h r = Some df ->
                exists df', nth_error h3 r = Some df' /\
                            map fst (rows df') = map fst (rows df)) ->
  (forall k r, In (k, PFrame r) d -> exists df, nth_error h r = Some df) ->
  NoDup (dict_keys d) ->
  dict_get m d = Some (PFrame rm) ->
  flat_map (plain_keys h3) (dict_set m (PFrame r2) d) = expected_keys h m d.
Proof.
  intros Hrm Hr2 Hkeys Hkeep.
  induction d as [|[k v] d IH]; intros Hvalid Hnd Hget; [discriminate|].
  simpl in Hget, Hnd |- *. inversion Hnd; subst.
  destruct (String.eqb_spec m k) as [<- | Hne].
  - inversion Hget; subst v. simpl.
    rewrite (keys_other_categories h h3 m d Hkeep).
    + unfold expected_keys at 2. simpl. f_equal.
      unfold plain_keys. simpl. rewrite Hr2, Hrm, String.eqb_refl.
      rewrite <- (map_map fst (fun idx => PStr m :: idx)), Hkeys, map_map.
      reflexivity.
    + intros k' r' Hin. apply (Hvalid k' r'). right. exact Hin.
    + exact H1.
  - simpl. rewrite IH.
    + unfold expected_keys at 2. simpl. f_equal.
      unfold plain_keys. simpl. destruct v; try reflexivity.
      destruct (Hvalid k r (or_introl eq_refl)) as (df & Hr).
      destruct (Hkeep r df Hr) as (df' & Hr' & Hsame).
      rewrite Hr, Hr'.
      destruct (String.eqb_spec k m) as [-> | _]; [contradiction|].
      rewrite <- (map_map fst (fun idx => PStr k :: idx)), Hsame, map_map.
      reflexivity.
    + intros k' r' Hin. apply (Hvalid k' r'). right. exact Hin.
    + exact H2.
    + exact Hget.
Qed.

Lemma dict_get_None_not_key {A} k (d : dict A) :
  dict_get k d = None -> ~ In k (dict_keys d).
Proof.
  induction d as [|[k' v'] d IH]; simpl; [tauto|].
  destruct (String.eqb_spec k k') as [-> | Hne]; [discriminate|].
  intros H [Heq | Hin]; [congruence | exact (IH H Hin)].
Qed.

Lemma add_obj_id_keys h m d2 d3 h3 :
  tables_in_heap h d2 ->
  NoDup (dict_keys d2) ->
  add_obj_id (PStr m) d2 h = (Ok d3, h3) ->
  flat_map (plain_keys h3) d3 = expected_keys h m d2.
Proof.
  intros Hheap Hnd H.
  assert (Hvalid : forall k r, In (k, PFrame r) d2 ->
                               exists df, nth_error h r = Some df).
  { intros k r Hin. destruct (Hheap k r Hin) as (df & Hr & _). eauto. }
  unfold add_obj_id in H. destruct (dict_get m d2) as [v|] eqn:Hget.
  - apply bind_inv in H. destruct H as (rm & h0 & Hv & H).
    assert (v = PFrame rm /\ h0 = h) as [-> ->].
    { destruct v; try discriminate. inversion Hv. auto. }
    destruct (Hheap m rm (dict_get_In _ _ _ Hget)) as (dfm & Hrm & Hws).
    apply bind_inv in H. destruct H as (u & h_a & Hset & H).
    apply in_place_inv in Hset.
    destruct Hset as (dfm0 & dfm' & Hrm0 & Hdfm' & ->).
    rewrite Hrm in Hrm0. inversion Hrm0; subst dfm0; clear Hrm0.
    rewrite setitem_obj_id in Hdfm'. inversion Hdfm'; subst dfm'; clear Hdfm'.
    set (dfm' := set_column "obj_id" (repeat (PInt 0) (List.length (rows dfm))) dfm) in *.
    assert (Hlt : (rm < List.length h)%nat)
      by (apply nth_error_Some; congruence).
    apply bind_inv in H. destruct H as (d & h1 & Hd & H).
    apply deref_inv in Hd. destruct Hd as [-> Hd].
    rewrite nth_error_list_update_same in Hd by exact Hlt.
    inversion Hd; subst d; clear Hd.
    apply bind_inv in H. destruct H as (r1 & h_b & Hflat & H).
    apply fresh_inv in Hflat.
    destruct Hflat as (x & flat & Hx & Hreset & -> & ->).
    rewrite nth_error_list_update_same in Hx by exact Hlt.
    inversion Hx; subst x; clear Hx.
    apply bind_inv in H. destruct H as (r2 & h_c & Hre & H).
    apply fresh_inv in Hre.
    destruct Hre as (y & df2 & Hy & Hset2 & -> & ->).
    rewrite nth_error_alloc in Hy. inversion Hy; subst y; clear Hy.
    inversion H; subst d3 h3; clear H.
    destruct (set_column_const_spec "obj_id" (PInt 0) dfm Hws)
      as (_ & _ & Hfst & _).
    apply (keys_after_obj_id h _ m rm dfm _ df2 d2 Hrm).
    + apply nth_error_alloc.
    + exact (reindex_model_table dfm flat df2 Hws Hreset Hset2).
    + intros r df Hr. destruct (Nat.eq_dec r rm) as [-> | Hne].
      * exists dfm'. split.
        -- apply nth_error_old. apply nth_error_old.
           apply nth_error_list_update_same. exact Hlt.
        -- rewrite Hrm in Hr. inversion Hr; subst. exact Hfst.
      * exists df. split; [|reflexivity].
        apply nth_error_old. apply nth_error_old.
        rewrite nth_error_list_update_other by congruence. exact Hr.
    + exact Hvalid.
    + exact Hnd.
    + exact Hget.
  - inversion H; subst. apply keys_other_categories.
    + intros r df Hr. exists df. auto.
    + exact Hvalid.
    + apply dict_get_None_not_key. exact Hget.
Qed.


(** *** The names of the levels *)

Lemma all_some_inv {A} (l : list (option A)) ks :
  all_some l = Some ks -> l = map Some ks.
Proof.
  revert ks. induction l as [|[a|] l IH]; intros ks H; simpl in H.
  - inversion H. reflexivity.
  - destruct (all_some l) as [ks'|]; [|discriminate].
    inversion H. simpl. f_equal. apply IH. reflexivity.
  - discriminate.
Qed.

Lemma set_index_names keys df df' :
  set_index keys df = Ok df' -> index_names df' = keys.
Proof.
  unfold set_index. destruct (all_some keys) as [ks|] eqn:E; [|discriminate].
  destruct ks as [|k ks]; [discriminate|].
  destruct (forallb (fun k0 => mem k0 (columns df)) (k :: ks)); [|discriminate].
  intros H. inversion H. cbn [index_names]. symmetry.
  change (keys = map Some (k :: ks)). apply all_some_inv. exact E.
Qed.

Lemma set_column_names k vals df :
  index_names (set_column k vals df) = index_names df.
Proof. unfold set_column. destruct (index_of k (columns df)); reflexivity. Qed.

Lemma tables_of_names d : forall h ts h',
  tables_of d h = (Ok ts, h') ->
  map (fun kd : string * DataFrame => None :: index_names (snd kd)) ts
  = flat_map (plain_names h) d.
Proof.
  induction d as [|[k v] d IH]; intros h ts h' H.
  - simpl in H. inversion H. reflexivity.
  - destruct v; try discriminate.
    + simpl in H. exact (IH _ _ _ H).
    + simpl in H. apply bind_inv in H. destruct H as (df & h1 & Hdf & H).
      apply deref_inv in Hdf. destruct Hdf as [-> Hr].
      apply bind_inv in H. destruct H as (rest & h2 & Hrest & H).
      pose proof (IH _ _ _ Hrest) as Hk.
      inversion H; subst. simpl. unfold plain_names at 1. simpl.
      rewrite Hr, Hk. reflexivity.
Qed.

Lemma names_other_categories h h3 m d :
  (forall r df, nth_error h r = Some df ->
                exists df', nth_error h3 r = Some df' /\
                            index_names df' = index_names df) ->
  (forall k r, In (k, PFrame r) d -> exists df, nth_error h r = Some df) ->
  ~ In m (dict_keys d) ->
  flat_map (plain_names h3) d = level_names_of h m d.
Proof.
  intros Hkeep. unfold level_names_of.
  induction d as [|[k v] d IH]; intros Hvalid Hm; [reflexivity|].
  simpl. rewrite IH.
  - f_equal. unfold plain_names. simpl. destruct v; try reflexivity.
    destruct (Hvalid k r (or_introl eq_refl)) as (df & Hr).
    destruct (Hkeep r df Hr) as (df' & Hr' & Hsame).
    rewrite Hr, Hr', Hsame.
    destruct (String.eqb_spec k m) as [-> | _]; [|reflexivity].
    exfalso. apply Hm. left. reflexivity.
  - intros k' r' Hin. apply (Hvalid k' r'). right. exact Hin.
  - intros Hin. apply Hm. right. exact Hin.
Qed.

Lemma names_after_obj_id h h3 m rm dfm r2 df2 d :
  nth_error h rm = Some dfm ->
  nth_error h3 r2 = Some df2 ->
  index_names df2 = insert_before_last (Some "obj_id") (index_names dfm) ->
  (forall r df, nth_error h r = Some df ->
                exists df', nth_error h3 r = Some df' /\
                            index_names df' = index_names df) ->
  (forall k r, In (k, PFrame r) d -> exists df, nth_error h r = Some df) ->
  NoDup (dict_keys d) ->
  dict_get m d = Some (PFrame rm) ->
  flat_map (plain_names h3) (dict_set m (PFrame r2) d) = level_names_of h m d.
Proof.
  intros Hrm Hr2 Hnames Hkeep.
  induction d as [|[k v] d IH]; intros Hvalid Hnd Hget; [discriminate|].
  simpl in Hget, Hnd |- *. inversion Hnd; subst.
  destruct (String.eqb_spec m k) as [<- | Hne].
  - inversion Hget; subst v. simpl.
    rewrite (names_other_categories h h3 m d Hkeep).
    + unfold level_names_of at 2. simpl. f_equal.
      unfold plain_names. simpl. rewrite Hr2, Hrm, String.eqb_refl, Hnames.
      reflexivity.
    + intros k' r' Hin. apply (Hvalid k' r'). right. exact Hin.
    + exact H1.
  - simpl. rewrite IH.
    + unfold level_names_of at 2. simpl. f_equal.
      unfold plain_names. simpl. destruct v; try reflexivity.
      destruct (Hvalid k r (or_introl eq_refl)) as (df & Hr).
      destruct (Hkeep r df Hr) as (df' & Hr' & Hsame).
      rewrite Hr, Hr', Hsame.
      destruct (String.eqb_spec k m) as [-> | _]; [contradiction | reflexivity].
    + intros k' r' Hin. apply (Hvalid k' r'). right. exact Hin.
    + exact H2.
    + exact Hget.
Qed.

Lemma add_obj_id_names h m d2 d3 h3 :
  tables_in_heap h d2 ->
  NoDup (dict_keys d2) ->
  add_obj_id (PStr m) d2 h = (Ok d3, h3) ->
  flat_map (plain_names h3) d3 = level_names_of h m d2.
Proof.
  intros Hheap Hnd H.
  assert (Hvalid : forall k r, In (k, PFrame r) d2 ->
                               exists df, nth_error h r = Some df).
  { intros k r Hin. destruct (Hheap k r Hin) as (df & Hr & _). eauto. }
  unfold add_obj_id in H. destruct (dict_get m d2) as [v|] eqn:Hget.
  - apply bind_inv in H. destruct H as (rm & h0 & Hv & H).
    assert (v = PFrame rm /\ h0 = h) as [-> ->].
    { destruct v; try discriminate. inversion Hv. auto. }
    destruct (Hheap m rm (dict_get_In _ _ _ Hget)) as (dfm & Hrm & Hws).
    apply bind_inv in H. destruct H as (u & h_a & Hset & H).
    apply in_place_inv in Hset.
    destruct Hset as (dfm0 & dfm' & Hrm0 & Hdfm' & ->).
    rewrite Hrm in Hrm0. inversion Hrm0; subst dfm0; clear Hrm0.
    rewrite setitem_obj_id in Hdfm'. inversion Hdfm'; subst dfm'; clear Hdfm'.
    set (dfm' := set_column "obj_id" (repeat (PInt 0) (List.length (rows dfm))) dfm) in *.
    assert (Hlt : (rm < List.length h)%nat)
      by (apply nth_error_Some; congruence).
    apply bind_inv in H. destruct H as (d & h1 & Hd & H).
    apply deref_inv in Hd. destruct Hd as [-> Hd].
    rewrite nth_error_list_update_same in Hd by exact Hlt.
    inversion Hd; subst d; clear Hd.
    apply bind_inv in H. destruct H as (r1 & h_b & Hflat & H).
    apply fresh_inv in Hflat.
    destruct Hflat as (x & flat & Hx & Hreset & -> & ->).
    apply bind_inv in H. destruct H as (r2 & h_c & Hre & H).
    apply fresh_inv in Hre.
    destruct Hre as (y & df2 & Hy & Hset2 & -> & ->).
    inversion H; subst d3 h3; clear H.
    apply (names_after_obj_id h _ m rm dfm _ df2 d2 Hrm).
    + apply nth_error_alloc.
    + pose proof Hset2 as Hn2. apply set_index_names in Hn2.
      rewrite Hn2. unfold dfm'. rewrite set_column_names. reflexivity.
    + intros r df Hr. destruct (Nat.eq_dec r rm) as [-> | Hne].
      * exists dfm'. split.
        -- apply nth_error_old. apply nth_error_old.
           apply nth_error_list_update_same. exact Hlt.
        -- rewrite Hrm in Hr. inversion Hr; subst. apply set_column_names.
      * exists df. split; [|reflexivity].
        apply nth_error_old. apply nth_error_old.
        rewrite nth_error_list_update_other by congruence. exact Hr.
    + exact Hvalid.
    + exact Hnd.
    + exact Hget.
  - inversion H; subst. apply names_other_categories.
    + intros r df Hr. exists df. auto.
    + exact Hvalid.
    + apply dict_get_None_not_key. exact Hget.
Qed.

Lemma concat_keys_names tables joined :
  concat_keys tables = Ok joined ->
  index_names (set_level0_name "obj_type" joined)
  = match unanimous_names
            (map (fun kd : string * DataFrame => None :: index_names (snd kd))
                 tables) with
    | [] => []
    | _ :: names => Some "obj_type" :: names
    end.
Proof.
  unfold concat_keys, concat_frames. intros H.
  destruct tables as [|[k0 d0] tables]; [discriminate|].
  cbn [map fst snd] in H.
  match type of H with
  | (if ?c then _ else _) = _ => destruct c; [|discriminate]
  end.
  inversion H; subst joined; clear H.
  unfold set_level0_name. cbn [index_names map fst snd].
  rewrite map_map. reflexivity.
Qed.

Lemma name_eqb_refl a : name_eqb a a = true.
Proof. destruct a; simpl; [apply String.eqb_refl | reflexivity]. Qed.

Lemma indexed_nth {A} (d : A) (l : list A) : forall s i x,
  In (i, x) (combine (seq s (List.length l)) l) ->
  (s <= i)%nat /\ nth (i - s) l d = x.
Proof.
  induction l as [|a l IH]; intros s i x Hin; [contradiction|].
  simpl in Hin. destruct Hin as [Heq | Hin].
  - inversion Heq; subst. rewrite Nat.sub_diag. split; [lia | reflexivity].
  - destruct (IH (S s) i x Hin) as [Hle Hnth]. split; [lia|].
    replace (i - s)%nat with (S (i - S s)) by lia. exact Hnth.
Qed.

Lemma map_snd_indexed {A} (l : list A) : forall s,
  map snd (combine (seq s (List.length l)) l) = l.
Proof.
  induction l as [|a l IH]; intros s; [reflexivity|].
  simpl. rewrite IH. reflexivity.
Qed.

(** Tables that agree on every name keep every name. *)
Lemma unanimous_names_same ns others :
  Forall (eq ns) others -> unanimous_names (ns :: others) = ns.
Proof.
  intros Hall. unfold unanimous_names, indexed.
  rewrite <- (map_snd_indexed ns 0) at 3.
  apply map_ext_in. intros [i x] Hin. cbn [fst snd].
  destruct (indexed_nth None ns 0 i x Hin) as [_ Hnth].
  rewrite Nat.sub_0_r in Hnth.
  replace (forallb (fun l => name_eqb (nth i l None) x) others) with true;
    [reflexivity|].
  symmetry. apply forallb_forall. intros l Hl.
  rewrite Forall_forall in Hall. rewrite <- (Hall l Hl), Hnth.
  apply name_eqb_refl.
Qed.

Lemma level_names_agree h m d ns :
  levels_agree h m d ns ->
  Forall (eq (None :: ns)) (level_names_of h m d).
Proof.
  unfold level_names_of. induction d as [|[k v] d IH]; intros H.
  - constructor.
  - cbn [flat_map]. apply Forall_app. split.
    + cbn [fst snd]. destruct v; try constructor.
      destruct (nth_error h r) as [df|] eqn:Hr; constructor; [|constructor].
      rewrite (H k r df (or_introl eq_refl) Hr). reflexivity.
    + apply IH. intros k' r' df' Hin. apply (H k' r' df'). right. exact Hin.
Qed.

Lemma expected_names_agree h m d ns :
  levels_agree h m d ns ->
  expected_names h m d <> [] ->
  expected_names h m d = Some "obj_type" :: ns.
Proof.
  intros H Hne. unfold expected_names in *.
  pose proof (@level_names_agree h m d ns H) as Hall.
  destruct (level_names_of h m d) as [|l others]; [contradiction Hne; reflexivity|].
  inversion Hall; subst.
  rewrite unanimous_names_same by assumption. reflexivity.
Qed.

(** C4: for a store whose [variables] hold several categories, the table
    [_combine_vars] produces has [obj_type] as its first index level; the
    keys of its rows are, category after category, the category key
    followed by the key the row has in the stored table, with a [0] put
    before the last level for the category that is the [model_type] of the
    log and nothing changed for the others; and where the tables of the
    selected categories all have the same index levels, the table of the
    model counted with [obj_id] before its last level, the combined table
    has these levels below [obj_type]: the level of the [0] is then called
    [obj_id]. *)
Theorem combine_vars_index_levels :
  forall (self : DataDict) (vs : dict pyobj) (obj_types var_keys : selector)
         (h h' : heap) (m : string) (out : loc),
    dict_get "variables" self = Some (PDataDict vs) ->
    (2 <= List.length vs)%nat ->
    NoDup (dict_keys vs) ->
    tables_in_heap h vs ->
    model_type_of self = Ok (PStr m) ->
    _combine_vars self obj_types var_keys h = (Ok (PFrame out), h') ->
    exists result : DataFrame,
      nth_error h' out = Some result /\
      hd_error (index_names result) = Some (Some "obj_type") /\
      map fst (rows result)
      = expected_keys h m (selected h vs obj_types var_keys) /\
      (forall ns,
          levels_agree h m (selected h vs obj_types var_keys) ns ->
          index_names result = Some "obj_type" :: ns).
Proof.
  intros self vs obj_types var_keys h h' m out Hvars Hlen Hnd Hheap Hmodel H.
  unfold _combine_vars in H. rewrite Hvars in H.
  destruct vs as [|kv1 [|kv2 vs]]; try (simpl in Hlen; lia).
  destruct kv1 as [k1 v1].
  set (all := (k1, v1) :: kv2 :: vs) in *.
  unfold combine_tables in H.
  apply bind_inv in H. destruct H as (d1 & h1 & Hd1 & H).
  assert (h1 = h /\ d1 = match var_keys with
                         | All => all
                         | Names ks => filter (fun kv => has_column_of h ks (snd kv)) all
                         end) as [-> Hd1'].
  { destruct var_keys as [|ks].
    - inversion Hd1. auto.
    - apply filter_m_columns in Hd1. exact Hd1. }
  rewrite Hmodel in H. unfold lift at 1 in H.
  unfold bind at 1 in H. unfold ret at 1 in H.
  apply bind_inv in H. destruct H as (d3 & h3 & Hd3 & H).
  assert (Hsel : match obj_types with
                 | All => d1
                 | Names ts => filter (fun kv => mem (fst kv) ts) d1
                 end = selected h all obj_types var_keys).
  { unfold selected. rewrite Hd1'. reflexivity. }
  rewrite Hsel in Hd3.
  assert (Hheap' : tables_in_heap h (selected h all obj_types var_keys)).
  { intros k r Hin. apply (Hheap k r). exact (selected_sub _ _ _ _ _ Hin). }
  pose proof (selected_NoDup h all obj_types var_keys Hnd) as Hnd'.
  pose proof Hd3 as Hn3.
  apply add_obj_id_names in Hn3; [|exact Hheap' | exact Hnd'].
  apply add_obj_id_keys in Hd3; [|exact Hheap' | exact Hnd'].
  destruct d3 as [|kv3 d3]; [discriminate|].
  apply bind_inv in H. destruct H as (tables & h4 & Htables & H).
  pose proof Htables as Hn4. apply tables_of_names in Hn4.
  apply tables_of_keys in Htables. destruct Htables as [-> Htables].
  apply bind_inv in H. destruct H as (joined & h5 & Hjoined & H).
  destruct (concat_keys tables) as [j|e] eqn:Hconcat; [|discriminate].
  inversion Hjoined; subst joined h5; clear Hjoined.
  destruct (concat_keys_rows _ _ Hconcat) as (Hrows & Hhead).
  pose proof Hconcat as Hlevels. apply concat_keys_names in Hlevels.
  apply bind_inv in H. destruct H as (df & h6 & Hdf & H).
  inversion Hdf; subst df h6; clear Hdf.
  apply bind_inv in H. destruct H as (u & h7 & Hname & H).
  apply in_place_inv in Hname.
  destruct Hname as (x & named & Hx & Hnamed & ->).
  rewrite nth_error_alloc in Hx. inversion Hx; subst x; clear Hx.
  inversion Hnamed; subst named; clear Hnamed.
  rewrite list_update_last in H.
  assert (Hkeys : map fst (rows (set_level0_name "obj_type" j))
                  = expected_keys h m (selected h all obj_types var_keys)).
  { rewrite Hrows, Htables. exact Hd3. }
  assert (Hnames : forall ns,
             levels_agree h m (selected h all obj_types var_keys) ns ->
             index_names (set_level0_name "obj_type" j)
             = Some "obj_type" :: ns).
  { intros ns Hagree.
    assert (Hexact : index_names (set_level0_name "obj_type" j)
                     = expected_names h m (selected h all obj_types var_keys)).
    { rewrite Hlevels, Hn4, Hn3. reflexivity. }
    rewrite Hexact. apply expected_names_agree; [exact Hagree|].
    rewrite <- Hexact. intros Hnil. rewrite Hnil in Hhead. discriminate. }
  destruct var_keys as [|ks].
  - inversion H; subst out h'; clear H.
    exists (set_level0_name "obj_type" j). split; [apply nth_error_alloc|].
    split; [exact Hhead|]. split; [exact Hkeys | exact Hnames].
  - apply bind_inv in H. destruct H as (r' & h8 & Hsel' & H).
    apply fresh_inv in Hsel'.
    destruct Hsel' as (x & chosen & Hx & Hchosen & -> & ->).
    rewrite nth_error_alloc in Hx. inversion Hx; subst x; clear Hx.
    inversion H; subst out h'; clear H.
    apply select_columns_keys in Hchosen. destruct Hchosen as [Hn Hk].
    exists chosen. split; [apply nth_error_alloc|].
    rewrite Hn, Hk. split; [exact Hhead|]. split; [exact Hkeys | exact Hnames].
Qed.

Lemma combine_vars_index_levels_witness :
  exists result : DataFrame,
    nth_error
      (snd (_combine_vars two_categories All All example_heap)) 7 = Some result /\
    hd_error (index_names result) = Some (Some "obj_type") /\
    index_names result = [Some "obj_type"; Some "obj_id"; Some "t"] /\
    map fst (rows result) =
      [[PStr "Model"; PInt 0; PInt 0]; [PStr "Model"; PInt 0; PInt 1];
       [PStr "Agent"; PInt 1; PInt 0]; [PStr "Agent"; PInt 2; PInt 0]].
Proof.
  destruct (combine_vars_index_levels two_categories
              [("Model", PFrame 0); ("Agent", PFrame 1)] All All
              example_heap
              (snd (_combine_vars two_categories All All example_heap))
              "Model" 7) as (result & Hresult & Hhead & Hkeys & Hnames).
  - reflexivity.
  - simpl. lia.
  - repeat constructor; simpl; intuition discriminate.
  - intros k r [Heq | [Heq | []]]; inversion Heq; subst;
      eexists; (split; [reflexivity|]); repeat constructor.
  - reflexivity.
  - vm_compute. reflexivity.
  - exists result. split; [exact Hresult|]. split; [exact Hhead|].
    split; [|exact Hkeys].
    apply Hnames. intros k r df [Heq | [Heq | []]] Hr;
      inversion Heq; subst; inversion Hr; reflexivity.
Defined.

(** C4, as stated: beside agents' variables whose levels are called
    [agent_id] and [t], the variables of the model come out with the [0]
    before the time step, but the level that holds it has no name in the
    combined table: its levels are [obj_type], an unnamed level and [t]. *)
Lemma combine_vars_level_without_name :
  exists (result : DataFrame) (h' : heap),
    _combine_vars
      [("log", example_log);
       ("variables", PDataDict [("Model", PFrame 0); ("Agent", PFrame 1)])]
      All All agent_id_heap = (Ok (PFrame 4), h') /\
    nth_error h' 4 = Some result /\
    index_names result = [Some "obj_type"; None; Some "t"] /\
    map fst (rows result) =
      [[PStr "Model"; PInt 0; PInt 0]; [PStr "Model"; PInt 0; PInt 1];
       [PStr "Agent"; PInt 1; PInt 0]; [PStr "Agent"; PInt 2; PInt 0]].
Proof.
  eexists. eexists. split; [vm_compute; reflexivity|].
  split; [reflexivity|]. split; reflexivity.
Qed.

(** ** File names *)

Lemma append_assoc (a b c : string) :
  ((a ++ b) ++ c = a ++ (b ++ c))%string.
Proof. induction a as [|x a IH]; simpl; [reflexivity | now rewrite IH]. Qed.

Lemma length_append (a b : string) :
  String.length (a ++ b) = (String.length a + String.length b)%nat.
Proof. induction a as [|x a IH]; simpl; [reflexivity | now rewrite IH]. Qed.

Lemma has_char_append c a b :
  has_char c (a ++ b) = has_char c a || has_char c b.
Proof.
  induction a as [|x a IH]; simpl; [reflexivity|].
  rewrite IH, orb_assoc. reflexivity.
Qed.

Lemma split_on_length_app c s t :
  (2 <= List.length (split_on c (s ++ String c t)))%nat.
Proof.
  rewrite split_on_app, length_app.
  pose proof (split_on_nonempty c s). pose proof (split_on_nonempty c t).
  destruct (split_on c s); [contradiction|].
  destruct (split_on c t); [contradiction|]. simpl. lia.
Qed.

(** The text after the last separator. *)
Lemma last_part_app c s t :
  has_char c t = false -> last_part c (s ++ String c t) = t.
Proof.
  intros Ht. unfold last_part. rewrite split_on_app.
  rewrite (split_on_single _ _ Ht).
  apply last_last.
Qed.

Lemma substring_prefix a b :
  String.substring 0 (String.length a) (a ++ b) = a.
Proof. induction a as [|x a IH]; simpl; [destruct b; reflexivity | now rewrite IH]. Qed.

(** What is left of a file name without its extension. *)
Lemma stem_app s t :
  has_char "." t = false -> stem (s ++ String "." t) = s.
Proof.
  intros Ht. unfold stem, drop_last. rewrite (last_part_app _ _ _ Ht).
  rewrite length_append. simpl String.length.
  replace (String.length s + S (String.length t) - (String.length t + 1))%nat
    with (String.length s) by lia.
  apply substring_prefix.
Qed.

(** A pattern that ends in a character the suffix does not have is not
    found across the suffix. *)
Lemma prefix_suffix_free p c s t :
  last_char p = Some c -> has_char c t = false ->
  prefix p (s ++ t) = prefix p s.
Proof.
  intros Hp Ht. revert p Hp. induction s as [|a s IH]; intros p Hp.
  - simpl. destruct p as [|x p]; [discriminate|]. simpl.
    revert x p Hp. induction t as [|b t IHt]; intros x p Hp; [reflexivity|].
    simpl in Ht. apply orb_false_iff in Ht. destruct Ht as [Hb Ht].
    simpl. destruct (Ascii.eqb_spec x b) as [-> | Hne]; [|reflexivity].
    simpl. destruct p as [|y p].
    + simpl in Hp. inversion Hp; subst. rewrite Ascii.eqb_refl in Hb. discriminate.
    + specialize (IHt Ht y p). simpl in Hp.
      destruct t as [|b' t']; [reflexivity|]. apply IHt. exact Hp.
  - destruct p as [|x p]; [reflexivity|]. simpl.
    destruct (Ascii.eqb x a); [|reflexivity]. simpl.
    destruct p as [|y p]; [reflexivity|]. apply IH. exact Hp.
Qed.

Lemma contains_suffix_free p c s t :
  last_char p = Some c -> has_char c t = false ->
  contains p (s ++ t) = contains p s.
Proof.
  intros Hp Ht. induction s as [|a s IH].
  - simpl. destruct p as [|x p]; [discriminate|].
    assert (Hnone : forall u, has_char c u = false ->
                              contains (String x p) u = false).
    { induction u as [|b u IHu]; intros Hu; [reflexivity|].
      change (contains (String x p) (String b u))
        with (prefix (String x p) (String b u) || contains (String x p) u).
      pose proof (prefix_suffix_free (String x p) c EmptyString (String b u) Hp Hu) as H.
      simpl append in H. rewrite H. simpl.
      simpl in Hu. apply orb_false_iff in Hu. apply IHu. apply Hu. }
    rewrite (Hnone t Ht). reflexivity.
  - change (contains p (String a s ++ t))
      with (prefix p (String a (s ++ t)) || contains p (s ++ t)).
    change (contains p (String a s))
      with (prefix p (String a s) || contains p s).
    rewrite IH.
    pose proof (prefix_suffix_free p c (String a s) t Hp Ht) as H.
    simpl append in H. rewrite H. reflexivity.
Qed.

Lemma prefix_correct_skip old new s :
  contains old s = false -> replace_from old new 0 s = s.
Proof.
  induction s as [|a s IH]; intros H; [reflexivity|].
  change (contains old (String a s))
    with (prefix old (String a s) || contains old s) in H.
  apply orb_false_iff in H. destruct H as [Hp Hc].
  simpl. rewrite Hp. rewrite (IH Hc). reflexivity.
Qed.

Lemma plain_key_spec k :
  plain_key k = true ->
  has_char "/" k = false /\
  contains "variables_" k = false /\
  contains "parameters_" k = false.
Proof.
  unfold plain_key. intros H.
  apply andb_true_iff in H. destruct H as [H H3].
  apply andb_true_iff in H. destruct H as [H1 H2].
  repeat split; apply negb_true_iff; assumption.
Qed.

Lemma slot_of_top k ext :
  plain_key k = true ->
  has_char "." ext = false -> has_char "_" ext = false ->
  slot_of (k ++ String "." ext) = Top k.
Proof.
  intros Hk Hdot Hund. apply plain_key_spec in Hk. destruct Hk as (_ & Hv & Hp).
  assert (Hfree : has_char "_" (String "." ext) = false) by (simpl; exact Hund).
  unfold slot_of.
  rewrite (contains_suffix_free "variables_" "_" k _ eq_refl Hfree), Hv.
  rewrite (contains_suffix_free "parameters_" "_" k _ eq_refl Hfree), Hp.
  rewrite (stem_app _ _ Hdot). reflexivity.
Qed.

Lemma slot_of_variables i ext :
  plain_key i = true ->
  has_char "." ext = false ->
  slot_of ("variables_" ++ i ++ String "." ext) = Sub "variables" i.
Proof.
  intros Hi Hdot. apply plain_key_spec in Hi. destruct Hi as (_ & Hv & _).
  unfold slot_of.
  assert (Hc : contains "variables_" ("variables_" ++ i ++ String "." ext) = true)
    by reflexivity.
  rewrite Hc.
  rewrite <- append_assoc. rewrite (stem_app _ _ Hdot).
  f_equal. change (replace "variables_" "" ("variables_" ++ i))
    with (replace_from "variables_" "" 0 i).
  apply prefix_correct_skip. exact Hv.
Qed.

Lemma slot_of_parameters i ext :
  plain_key i = true ->
  has_char "." ext = false -> has_char "_" ext = false ->
  slot_of ("parameters_" ++ i ++ String "." ext) = Sub "parameters" i.
Proof.
  intros Hi Hdot Hund. apply plain_key_spec in Hi. destruct Hi as (_ & Hv & Hp).
  assert (Hfree : has_char "_" (String "." ext) = false) by (simpl; exact Hund).
  unfold slot_of.
  assert (Hc : contains "variables_" ("parameters_" ++ i ++ String "." ext)
               = contains "variables_" (i ++ String "." ext)) by reflexivity.
  rewrite Hc.
  rewrite (contains_suffix_free "variables_" "_" i _ eq_refl Hfree), Hv.
  assert (Hc' : contains "parameters_" ("parameters_" ++ i ++ String "." ext) = true)
    by reflexivity.
  rewrite Hc'.
  rewrite <- append_assoc. rewrite (stem_app _ _ Hdot).
  f_equal. change (replace "parameters_" "" ("parameters_" ++ i))
    with (replace_from "parameters_" "" 0 i).
  apply prefix_correct_skip. exact Hp.
Qed.

(** ** Printing and reading an integer *)

Lemma digits_of_uint_acc d : forall acc : positive,
  digits (Zpos acc) (NilEmpty.string_of_uint d)
  = Some (Zpos (Pos.of_uint_acc d acc)).
Proof.
  induction d; intros acc; cbn [NilEmpty.string_of_uint digits Pos.of_uint_acc];
    [reflexivity|..];
    match goal with
    | |- (if is_digit ?c then _ else _) = _ =>
        change (is_digit c) with true; cbv iota
    end;
    match goal with
    | |- context [Z.of_nat ?n] =>
        let v := eval vm_compute in (Z.of_nat n) in
        change (Z.of_nat n) with v
    end;
    match goal with
    | |- digits ?z _ = Some (Zpos (Pos.of_uint_acc _ ?p)) =>
        replace z with (Zpos p) by lia
    end; apply IHd.
Qed.

Lemma digits_of_uint d :
  digits 0 (NilEmpty.string_of_uint d) = Some (Z.of_N (Pos.of_uint d)).
Proof.
  induction d; cbn [NilEmpty.string_of_uint digits Pos.of_uint];
    [reflexivity|..];
    match goal with
    | |- (if is_digit ?c then _ else _) = _ =>
        change (is_digit c) with true; cbv iota
    end;
    try exact IHd;
    match goal with
    | |- digits _ _ = Some (Z.of_N (Npos (Pos.of_uint_acc _ ?p))) =>
        exact (digits_of_uint_acc d p)
    end.
Qed.

Lemma rstrip_no_space s :
  (forall c, is_space c = true -> has_char c s = false) -> rstrip s = s.
Proof.
  induction s as [|a s IH]; intros H; [reflexivity|].
  assert (Ha : is_space a = false).
  { destruct (is_space a) eqn:E; [|reflexivity].
    specialize (H a E). simpl in H. rewrite Ascii.eqb_refl in H. discriminate. }
  assert (Hs : rstrip s = s).
  { apply IH. intros c Hc. specialize (H c Hc). simpl in H.
    apply orb_false_iff in H. exact (proj2 H). }
  cbn [rstrip]. rewrite Hs, Ha. destruct s; reflexivity.
Qed.

Lemma lstrip_no_space s :
  (forall c, is_space c = true -> has_char c s = false) -> lstrip s = s.
Proof.
  destruct s as [|a s]; intros H; [reflexivity|].
  cbn [lstrip]. destruct (is_space a) eqn:E; [|reflexivity].
  specialize (H a E). simpl in H. rewrite Ascii.eqb_refl in H. discriminate.
Qed.

(** The characters of a printed number are digits. *)
Lemma has_char_uint c d :
  is_digit c = false -> has_char c (NilEmpty.string_of_uint d) = false.
Proof.
  intros Hc. induction d; cbn [NilEmpty.string_of_uint has_char];
    [reflexivity|..]; rewrite IHd, orb_false_r;
    match goal with
    | |- Ascii.eqb ?a c = false =>
        destruct (Ascii.eqb a c) eqn:E; [|reflexivity];
        apply Ascii.eqb_eq in E; subst c; discriminate Hc
    end.
Qed.

Lemma string_of_pos_not_empty p :
  NilEmpty.string_of_uint (Pos.to_uint p) <> EmptyString.
Proof.
  pose proof (DecimalPos.Unsigned.to_uint_nonnil p) as Hnil.
  destruct (Pos.to_uint p); try discriminate. contradiction.
Qed.

Lemma string_of_Z_cases z :
  string_of_Z z = "0" \/
  (exists p, z = Zpos p /\
             string_of_Z z = NilEmpty.string_of_uint (Pos.to_uint p)) \/
  (exists p, z = Zneg p /\
             string_of_Z z = String "-" (NilEmpty.string_of_uint (Pos.to_uint p))).
Proof.
  unfold string_of_Z. destruct z as [|p|p].
  - left. reflexivity.
  - right. left. exists p. split; [reflexivity|].
    cbn [Z.to_int NilZero.string_of_int]. unfold NilZero.string_of_uint.
    pose proof (DecimalPos.Unsigned.to_uint_nonnil p) as Hnil.
    destruct (Pos.to_uint p); try reflexivity. contradiction.
  - right. right. exists p. split; [reflexivity|].
    cbn [Z.to_int NilZero.string_of_int]. unfold NilZero.string_of_uint.
    pose proof (DecimalPos.Unsigned.to_uint_nonnil p) as Hnil.
    destruct (Pos.to_uint p); try reflexivity. contradiction.
Qed.

Lemma has_char_string_of_Z c z :
  is_digit c = false -> c <> "-"%char -> has_char c (string_of_Z z) = false.
Proof.
  intros Hd Hm.
  destruct (string_of_Z_cases z) as [-> | [(p & _ & ->) | (p & _ & ->)]].
  - cbn [has_char]. rewrite orb_false_r.
    destruct (Ascii.eqb "0" c) eqn:E; [|reflexivity].
    apply Ascii.eqb_eq in E. subst c. discriminate Hd.
  - apply has_char_uint. exact Hd.
  - cbn [has_char]. rewrite (has_char_uint c _ Hd), orb_false_r.
    destruct (Ascii.eqb "-" c) eqn:E; [|reflexivity].
    apply Ascii.eqb_eq in E. subst c. contradiction.
Qed.

Lemma number_of_pos p :
  number (NilEmpty.string_of_uint (Pos.to_uint p)) = Some (Zpos p).
Proof.
  unfold number.
  pose proof (string_of_pos_not_empty p) as Hne.
  pose proof (digits_of_uint (Pos.to_uint p)) as Hd.
  rewrite DecimalPos.Unsigned.of_to in Hd.
  destruct (NilEmpty.string_of_uint (Pos.to_uint p)); [contradiction | exact Hd].
Qed.

Lemma no_space_uint d c :
  is_space c = true -> has_char c (NilEmpty.string_of_uint d) = false.
Proof.
  intros Hc. apply has_char_uint.
  destruct c as [[|] [|] [|] [|] [|] [|] [|] [|]]; try reflexivity;
    discriminate Hc.
Qed.

(** [int(str(z)) == z] *)
Lemma py_int_string_of_Z z : py_int (string_of_Z z) = Some z.
Proof.
  destruct (string_of_Z_cases z) as [H0 | [(p & -> & Hs) | (p & -> & Hs)]].
  - unfold string_of_Z in *. destruct z as [|p|p].
    + reflexivity.
    + exfalso. cbn [Z.to_int NilZero.string_of_int] in H0.
      pose proof (number_of_pos p) as Hn.
      unfold NilZero.string_of_uint in H0.
      pose proof (DecimalPos.Unsigned.to_uint_nonnil p) as Hnil.
      destruct (Pos.to_uint p) eqn:E; try contradiction;
        rewrite H0 in Hn; discriminate Hn.
    + exfalso. cbn [Z.to_int NilZero.string_of_int] in H0. discriminate H0.
  - rewrite Hs. unfold py_int.
    rewrite rstrip_no_space, lstrip_no_space
      by (intros c Hc; apply no_space_uint; exact Hc).
    pose proof (number_of_pos p) as Hn.
    pose proof (has_char_uint "+" (Pos.to_uint p) eq_refl) as Hplus.
    pose proof (has_char_uint "-" (Pos.to_uint p) eq_refl) as Hminus.
    destruct (NilEmpty.string_of_uint (Pos.to_uint p)) as [|a s];
      [discriminate Hn|].
    cbn [has_char] in Hplus, Hminus.
    apply orb_false_iff in Hplus. apply orb_false_iff in Hminus.
    destruct Hplus as [Hplus _]. destruct Hminus as [Hminus _].
    destruct a as [[|] [|] [|] [|] [|] [|] [|] [|]];
      try discriminate Hplus; try discriminate Hminus; exact Hn.
  - rewrite Hs. unfold py_int.
    assert (Hsp : forall c, is_space c = true ->
                    has_char c (String "-" (NilEmpty.string_of_uint (Pos.to_uint p)))
                    = false).
    { intros c Hc. cbn [has_char]. rewrite (no_space_uint _ c Hc), orb_false_r.
      destruct (Ascii.eqb "-" c) eqn:E; [|reflexivity].
      apply Ascii.eqb_eq in E. subst c. discriminate Hc. }
    rewrite (rstrip_no_space _ Hsp), (lstrip_no_space _ Hsp).
    rewrite (number_of_pos p). reflexivity.
Qed.

(** ** The entries of a directory *)

Lemma child_name_spec D n f :
  child_name D n = Some f <-> node_path n = D ++ [f].
Proof.
  unfold child_name. split.
  - destruct (rev (node_path n)) as [|name rp] eqn:E; [discriminate|].
    destruct (path_eqb (rev rp) D) eqn:Ep; [|discriminate].
    apply path_eqb_eq in Ep. intros H. inversion H; subst.
    rewrite <- (rev_involutive (node_path n)), E. reflexivity.
  - intros H. rewrite H, rev_app_distr. simpl.
    rewrite rev_involutive, path_eqb_refl. reflexivity.
Qed.

Lemma child_name_eqb D n f :
  child_name D n = Some f -> path_eqb (node_path n) (D ++ [f]) = true.
Proof. intros H. apply path_eqb_eq. apply child_name_spec. exact H. Qed.

Lemma app_last_inj {A} (D : list A) f g : D ++ [f] = D ++ [g] -> f = g.
Proof. intros H. apply app_inv_head in H. inversion H. reflexivity. Qed.

Lemma ls_children D fs :
  is_dir D fs = true -> ls D fs = Ok (map fst (children D fs)).
Proof.
  intros Hd. apply is_dir_kind in Hd. unfold ls, listdir. rewrite Hd. simpl.
  f_equal. unfold children. induction (nodes fs) as [|n l IH]; [reflexivity|].
  simpl. rewrite map_app, <- IH. f_equal.
  unfold child_name. destruct (rev (node_path n)) as [|name rp]; [reflexivity|].
  destruct (path_eqb (rev rp) D); reflexivity.
Qed.

Lemma kind_of_child D f fs :
  kind_of (D ++ [f]) fs = dict_get f (children D fs).
Proof.
  unfold kind_of. destruct (D ++ [f]) as [|a p] eqn:E.
  { destruct D; discriminate. }
  rewrite <- E. unfold find_node, children.
  induction (nodes fs) as [|n l IH]; [reflexivity|].
  simpl. destruct (child_name D n) as [g|] eqn:Hc.
  - simpl. apply child_name_spec in Hc.
    destruct (String.eqb_spec f g) as [-> | Hne].
    + rewrite Hc, path_eqb_refl. reflexivity.
    + rewrite path_eqb_neq; [exact IH|].
      rewrite Hc. intros H. apply app_last_inj in H. congruence.
  - simpl. rewrite path_eqb_neq; [exact IH|].
    intros H. apply child_name_spec in H. congruence.
Qed.

Lemma children_touch D p t clk clk' l :
  children D (mkFS clk (touch p t l)) = children D (mkFS clk' l).
Proof.
  unfold children. simpl. induction l as [|n l IH]; [reflexivity|].
  simpl. rewrite IH. f_equal.
  destruct (path_eqb (node_path n) p); reflexivity.
Qed.

Lemma children_put D f n clk clk' l :
  node_path n = D ++ [f] ->
  children D (mkFS clk (put_node n l))
  = dict_set f (node_kind n) (children D (mkFS clk' l)).
Proof.
  intros Hn. unfold children. simpl.
  assert (Hcn : child_name D n = Some f) by (apply child_name_spec; exact Hn).
  induction l as [|m l IH]; simpl.
  - rewrite Hcn. reflexivity.
  - destruct (path_eqb (node_path m) (node_path n)) eqn:E.
    + apply path_eqb_eq in E.
      assert (Hcm : child_name D m = Some f)
        by (apply child_name_spec; congruence).
      simpl. rewrite Hcn, Hcm. simpl. rewrite String.eqb_refl. reflexivity.
    + simpl. destruct (child_name D m) as [g|] eqn:Hcm; simpl.
      * destruct (String.eqb_spec f g) as [-> | Hne].
        -- apply child_name_spec in Hcm. rewrite Hcm, Hn, path_eqb_refl in E.
           discriminate.
        -- rewrite IH. reflexivity.
      * exact IH.
Qed.

Lemma children_put_other D n clk clk' l :
  child_name D n = None ->
  children D (mkFS clk (put_node n l)) = children D (mkFS clk' l).
Proof.
  intros Hn. unfold children. simpl. induction l as [|m l IH]; simpl.
  - rewrite Hn. reflexivity.
  - destruct (path_eqb (node_path m) (node_path n)) eqn:E; simpl.
    + apply path_eqb_eq in E.
      assert (Hm : child_name D m = None).
      { unfold child_name in *. rewrite E. exact Hn. }
      rewrite Hn, Hm. reflexivity.
    + rewrite IH. reflexivity.
Qed.

Lemma children_remove D f clk clk' l :
  children D (mkFS clk (filter (fun m => negb (path_eqb (node_path m) (D ++ [f]))) l))
  = filter (fun e => negb (String.eqb (fst e) f)) (children D (mkFS clk' l)).
Proof.
  unfold children. simpl. induction l as [|m l IH]; [reflexivity|].
  simpl. destruct (child_name D m) as [g|] eqn:Hcm.
  - pose proof Hcm as Hp. apply child_name_spec in Hp. simpl.
    destruct (String.eqb_spec g f) as [-> | Hne]; simpl.
    + rewrite Hp, path_eqb_refl. simpl. exact IH.
    + rewrite path_eqb_neq.
      2:{ rewrite Hp. intros H. apply app_last_inj in H. congruence. }
      simpl. rewrite Hcm, IH. reflexivity.
  - simpl. destruct (path_eqb (node_path m) (D ++ [f])) eqn:E; simpl.
    + apply path_eqb_eq in E. apply child_name_spec in E. congruence.
    + rewrite Hcm. exact IH.
Qed.

(** Writing a file into a directory sets its entry; removing it drops the
    entry. *)
Lemma write_file_children D f s c fs :
  components s = D ++ [f] ->
  is_dir D fs = true ->
  (forall k, dict_get f (children D fs) = Some k -> k <> Dir) ->
  exists fs',
    write_file s c fs = (Ok tt, fs') /\
    is_dir D fs' = true /\
    children D fs' = dict_set f (File c) (children D fs).
Proof.
  intros Hs Hd Hnot. unfold write_file. rewrite Hs.
  rewrite kind_of_child. destruct fs as [clk l].
  assert (Hparent : parent (D ++ [f]) = D) by apply removelast_last.
  destruct (dict_get f (children D (mkFS clk l))) as [[|c0]|] eqn:Hget.
  - exfalso. exact (Hnot Dir eq_refl eq_refl).
  - eexists. split; [reflexivity|]. split.
    + pose proof (preserving_write_file s c (mkFS clk l)) as Hg.
      unfold write_file in Hg. rewrite Hs, kind_of_child, Hget in Hg.
      apply (Hg _ _ eq_refl). exact Hd.
    + unfold tick. simpl clock.
      apply (children_put D f (mkNode (D ++ [f]) (File c) (S clk))). reflexivity.
  - rewrite Hparent, Hd. eexists. split; [reflexivity|]. split.
    + pose proof (preserving_write_file s c (mkFS clk l)) as Hg.
      unfold write_file in Hg. rewrite Hs, kind_of_child, Hget, Hparent, Hd in Hg.
      apply (Hg _ _ eq_refl). exact Hd.
    + unfold tick. simpl clock.
      rewrite (children_put D f (mkNode (D ++ [f]) (File c) (S clk)) _ clk)
        by reflexivity.
      rewrite (children_touch D D (S clk) clk clk). reflexivity.
Qed.

Lemma remove_file_children D f s c fs :
  components s = D ++ [f] ->
  is_dir D fs = true ->
  dict_get f (children D fs) = Some (File c) ->
  exists fs',
    remove_file s fs = (Ok tt, fs') /\
    is_dir D fs' = true /\
    children D fs' = filter (fun e => negb (String.eqb (fst e) f)) (children D fs).
Proof.
  intros Hs Hd Hget. unfold remove_file. rewrite Hs.
  rewrite kind_of_child, Hget. destruct fs as [clk l].
  eexists. split; [reflexivity|]. split.
  - pose proof (preserving_remove_file s (mkFS clk l)) as Hg.
    unfold remove_file in Hg. rewrite Hs, kind_of_child, Hget in Hg.
    apply (Hg _ _ eq_refl). exact Hd.
  - unfold tick. simpl clock.
    rewrite (children_touch D _ (S clk) (S clk) clk).
    apply children_remove.
Qed.

Lemma read_file_child D f s fs c :
  components s = D ++ [f] ->
  dict_get f (children D fs) = Some (File c) ->
  read_file s fs = Ok c.
Proof.
  intros Hs Hget. unfold read_file. rewrite Hs, kind_of_child, Hget. reflexivity.
Qed.

Lemma dict_set_fresh {A} f (v : A) d :
  dict_get f d = None -> dict_set f v d = d ++ [(f, v)].
Proof.
  induction d as [|[k x] d IH]; simpl; [reflexivity|].
  destruct (String.eqb f k); [discriminate|]. intros H. rewrite IH by exact H.
  reflexivity.
Qed.

Lemma dict_get_app_fresh {A} f (v : A) d :
  dict_get f d = None -> dict_get f (d ++ [(f, v)]) = Some v.
Proof.
  induction d as [|[k x] d IH]; simpl.
  - rewrite String.eqb_refl. reflexivity.
  - destruct (String.eqb f k); [discriminate | exact IH].
Qed.

Lemma filter_drop_fresh {A} f (v : A) d :
  dict_get f d = None ->
  filter (fun e => negb (String.eqb (fst e) f)) (d ++ [(f, v)]) = d.
Proof.
  induction d as [|[k x] d IH]; simpl.
  - rewrite String.eqb_refl. reflexivity.
  - rewrite (String.eqb_sym k f).
    destruct (String.eqb f k); [discriminate|]. simpl.
    intros H. rewrite IH by exact H. reflexivity.
Qed.

Lemma dict_get_as_files_None f l :
  ~ In f (map fst l) -> dict_get f (as_files l) = None.
Proof.
  intros H. apply dict_get_not_key. unfold dict_keys, as_files.
  rewrite map_map. exact H.
Qed.

Lemma as_files_app l l' : as_files (l ++ l') = as_files l ++ as_files l'.
Proof. apply map_app. Qed.

(** ** What [save] writes *)

Lemma components_single f :
  has_char "/" f = false -> f <> EmptyString -> components f = [f].
Proof.
  intros Hf Hne. unfold components. rewrite (split_on_single _ _ Hf). simpl.
  destruct (String.eqb_spec f EmptyString); [contradiction | reflexivity].
Qed.

Lemma append_not_empty a b : b <> EmptyString -> (a ++ b)%string <> EmptyString.
Proof. destruct a; simpl; [auto | discriminate]. Qed.

Lemma components_file D dir name ext :
  components dir = D ->
  has_char "/" name = false -> has_char "/" ext = false ->
  ext <> EmptyString ->
  components (fmt_file dir name ext) = D ++ [(name ++ ext)%string].
Proof.
  intros HD Hn He Hne. unfold fmt_file. rewrite components_app, HD.
  rewrite components_single; [reflexivity | | apply append_not_empty; exact Hne].
  rewrite has_char_append, Hn, He. reflexivity.
Qed.

Lemma append_inj_l a b c : (a ++ b = a ++ c)%string -> b = c.
Proof. induction a as [|x a IH]; simpl; intros H; [exact H|]. inversion H. auto. Qed.

Lemma dict_set_last {A} f (v x : A) d :
  dict_get f d = None -> dict_set f v (d ++ [(f, x)]) = d ++ [(f, v)].
Proof.
  induction d as [|[k y] d IH]; simpl.
  - rewrite String.eqb_refl. reflexivity.
  - destruct (String.eqb f k); [discriminate|]. intros H. rewrite IH by exact H.
    reflexivity.
Qed.

Section Directory.

Variable D : path.
Variable dir : string.
Hypothesis dir_path : components dir = D.

Lemma write_new f c L fs :
  components (dir ++ "/" ++ f)%string = D ++ [f] ->
  is_dir D fs = true ->
  children D fs = as_files L ->
  ~ In f (map fst L) ->
  exists fs',
    write_file (dir ++ "/" ++ f)%string c fs = (Ok tt, fs') /\
    is_dir D fs' = true /\
    children D fs' = as_files (L ++ [(f, c)]).
Proof.
  intros Hf Hd Hch Hfresh.
  destruct (write_file_children D f _ c fs Hf Hd) as (fs' & Hw & Hd' & Hch').
  { intros k Hk. rewrite Hch, (dict_get_as_files_None _ _ Hfresh) in Hk.
    discriminate. }
  exists fs'. repeat split; try assumption.
  rewrite Hch', Hch, as_files_app.
  apply dict_set_fresh. apply dict_get_as_files_None. exact Hfresh.
Qed.

Lemma write_over f c c0 L fs :
  components (dir ++ "/" ++ f)%string = D ++ [f] ->
  is_dir D fs = true ->
  children D fs = as_files (L ++ [(f, c0)]) ->
  ~ In f (map fst L) ->
  exists fs',
    write_file (dir ++ "/" ++ f)%string c fs = (Ok tt, fs') /\
    is_dir D fs' = true /\
    children D fs' = as_files (L ++ [(f, c)]).
Proof.
  intros Hf Hd Hch Hfresh.
  pose proof (dict_get_as_files_None _ _ Hfresh) as Hnone.
  destruct (write_file_children D f _ c fs Hf Hd) as (fs' & Hw & Hd' & Hch').
  { intros k Hk. rewrite Hch, as_files_app in Hk. simpl in Hk.
    rewrite (dict_get_app_fresh _ _ _ Hnone) in Hk. inversion Hk. discriminate. }
  exists fs'. repeat split; try assumption.
  rewrite Hch', Hch, !as_files_app. simpl. apply dict_set_last. exact Hnone.
Qed.

Lemma remove_last f c0 L fs :
  components (dir ++ "/" ++ f)%string = D ++ [f] ->
  is_dir D fs = true ->
  children D fs = as_files (L ++ [(f, c0)]) ->
  ~ In f (map fst L) ->
  exists fs',
    remove_file (dir ++ "/" ++ f)%string fs = (Ok tt, fs') /\
    is_dir D fs' = true /\
    children D fs' = as_files L.
Proof.
  intros Hf Hd Hch Hfresh.
  pose proof (dict_get_as_files_None _ _ Hfresh) as Hnone.
  destruct (remove_file_children D f _ c0 fs Hf Hd) as (fs' & Hw & Hd' & Hch').
  { rewrite Hch, as_files_app. simpl. apply dict_get_app_fresh. exact Hnone. }
  exists fs'. repeat split; try assumption.
  rewrite Hch', Hch, as_files_app. simpl. apply filter_drop_fresh. exact Hnone.
Qed.

(** A value that JSON takes is written to its file. *)
Lemma dump_json_new name v j L fs :
  has_char "/" name = false ->
  json_encode v = Some j ->
  is_dir D fs = true ->
  children D fs = as_files L ->
  ~ In (name ++ ".json")%string (map fst L) ->
  exists fs',
    dump_json (fmt_file dir name ".json") v fs = (Ok tt, fs') /\
    is_dir D fs' = true /\
    children D fs' = as_files (L ++ [((name ++ ".json")%string, Json j)]).
Proof.
  intros Hn Hj Hd Hch Hfresh.
  assert (Hf : components (fmt_file dir name ".json") = D ++ [(name ++ ".json")%string]).
  { apply components_file; try assumption; [reflexivity | discriminate]. }
  unfold dump_json. unfold fmt_file in *.
  destruct (write_new _ (Raw EmptyString) L fs Hf Hd Hch Hfresh)
    as (fs1 & Hw1 & Hd1 & Hch1).
  rewrite (bind_Ok _ _ _ _ _ Hw1). rewrite Hj.
  exact (write_over _ (Json j) _ L fs1 Hf Hd1 Hch1 Hfresh).
Qed.

(** A value that JSON refuses leaves no file. *)
Lemma dump_json_refused name v L fs :
  has_char "/" name = false ->
  json_encode v = None ->
  is_dir D fs = true ->
  children D fs = as_files L ->
  ~ In (name ++ ".json")%string (map fst L) ->
  exists fs',
    except_TypeError (dump_json (fmt_file dir name ".json") v)
                     (remove_file (fmt_file dir name ".json")) fs = (Ok tt, fs') /\
    is_dir D fs' = true /\
    children D fs' = as_files L.
Proof.
  intros Hn Hj Hd Hch Hfresh.
  assert (Hf : components (fmt_file dir name ".json") = D ++ [(name ++ ".json")%string]).
  { apply components_file; try assumption; [reflexivity | discriminate]. }
  unfold except_TypeError, dump_json. unfold fmt_file in *.
  destruct (write_new _ (Raw EmptyString) L fs Hf Hd Hch Hfresh)
    as (fs1 & Hw1 & Hd1 & Hch1).
  rewrite (bind_Ok _ _ _ _ _ Hw1). rewrite Hj. unfold raise.
  exact (remove_last _ _ L fs1 Hf Hd1 Hch1 Hfresh).
Qed.

Lemma csv_not_json name name' : (name ++ ".csv")%string <> (name' ++ ".json")%string.
Proof.
  intros H.
  assert (Hl : last_part "." (name ++ ".csv") = last_part "." (name' ++ ".json"))
    by (rewrite H; reflexivity).
  rewrite (last_part_app "." name "csv" eq_refl) in Hl.
  rewrite (last_part_app "." name' "json" eq_refl) in Hl.
  discriminate.
Qed.

(** A table is written to its CSV file, and nothing else stays. *)
Lemma save_table name r df h L fs :
  has_char "/" name = false ->
  nth_error h r = Some df ->
  is_dir D fs = true ->
  children D fs = as_files L ->
  ~ In (name ++ ".csv")%string (map fst L) ->
  ~ In (name ++ ".json")%string (map fst L) ->
  exists fs',
    save_entry h dir name (PFrame r) fs = (Ok tt, fs') /\
    is_dir D fs' = true /\
    children D fs' = as_files (L ++ [((name ++ ".csv")%string, to_csv df)]).
Proof.
  intros Hn Hr Hd Hch Hcsv Hjson.
  assert (Hf : components (fmt_file dir name ".csv") = D ++ [(name ++ ".csv")%string]).
  { apply components_file; try assumption; [reflexivity | discriminate]. }
  unfold save_entry. unfold frame_at. rewrite Hr.
  unfold bind at 2. unfold ret at 1.
  unfold fmt_file in Hf.
  destruct (write_new _ (to_csv df) L fs Hf Hd Hch Hcsv)
    as (fs1 & Hw1 & Hd1 & Hch1).
  unfold fmt_file at 1. rewrite (bind_Ok _ _ _ _ _ Hw1).
  apply (dump_json_refused name (PFrame r) _ fs1 Hn eq_refl Hd1 Hch1).
  rewrite map_app, in_app_iff. simpl. intros [Hin | [Heq | []]].
  - exact (Hjson Hin).
  - exact (csv_not_json _ _ Heq).
Qed.

(** Any other value goes through JSON. *)
Lemma save_value name v h L fs :
  has_char "/" name = false ->
  (forall r, v <> PFrame r) -> (forall d, v <> PDataDict d) ->
  is_dir D fs = true ->
  children D fs = as_files L ->
  ~ In (name ++ ".json")%string (map fst L) ->
  exists fs',
    save_entry h dir name v fs = (Ok tt, fs') /\
    is_dir D fs' = true /\
    children D fs' = as_files (L ++ file_of_value name v).
Proof.
  intros Hn Hnf Hnd Hd Hch Hfresh. unfold file_of_value.
  assert (Hrun : save_entry h dir name v fs =
                 except_TypeError (dump_json (fmt_file dir name ".json") v)
                                  (remove_file (fmt_file dir name ".json")) fs).
  { unfold save_entry. destruct v; try reflexivity.
    - exfalso. exact (Hnf r eq_refl).
    - exfalso. exact (Hnd kvs eq_refl). }
  rewrite Hrun. destruct (json_encode v) as [j|] eqn:Hj.
  - destruct (dump_json_new name v j L fs Hn Hj Hd Hch Hfresh)
      as (fs' & Hw & Hd' & Hch').
    exists fs'. unfold except_TypeError. rewrite Hw. auto.
  - rewrite app_nil_r.
    exact (dump_json_refused name v L fs Hn Hj Hd Hch Hfresh).
Qed.

End Directory.

Lemma stem_csv x : stem (x ++ ".csv") = x.
Proof. apply (stem_app x "csv"). reflexivity. Qed.

Lemma stem_json x : stem (x ++ ".json") = x.
Proof. apply (stem_app x "json"). reflexivity. Qed.

Lemma file_of_table_stem h name r f :
  In f (map fst (file_of_table h name r)) -> stem f = name.
Proof.
  unfold file_of_table. destruct (nth_error h r); simpl; [|tauto].
  intros [<- | []]. apply stem_csv.
Qed.

Lemma file_of_value_stem name v f :
  In f (map fst (file_of_value name v)) -> stem f = name.
Proof.
  unfold file_of_value. destruct (json_encode v); simpl; [|tauto].
  intros [<- | []]. apply stem_json.
Qed.

Lemma inner_files_stem h key io f :
  In f (map fst (inner_files h key io)) -> stem f = (key ++ "_" ++ fst io)%string.
Proof.
  unfold inner_files. destruct (snd io); simpl; try tauto;
    try apply file_of_value_stem. apply file_of_table_stem.
Qed.

Lemma entry_files_stem h kv f :
  In f (map fst (entry_files h kv)) -> In (stem f) (stems_of kv).
Proof.
  unfold entry_files, stems_of. intros H.
  destruct (snd kv);
    try (left; symmetry; exact (file_of_value_stem _ _ _ H)).
  - left. symmetry. exact (file_of_table_stem _ _ _ _ H).
  - apply in_map_iff in H. destruct H as ([g c] & <- & Hin).
    apply in_flat_map in Hin. destruct Hin as (io & Hio & Hin).
    apply in_map_iff. exists io. split; [|exact Hio].
    symmetry. apply (inner_files_stem h _ io).
    apply in_map_iff. exists (g, c). auto.
Qed.

Lemma names_fresh name ext (L : list (string * content)) :
  stem (name ++ ext) = name ->
  (forall f, In f (map fst L) -> stem f <> name) ->
  ~ In (name ++ ext)%string (map fst L).
Proof. intros Hs Hall Hin. exact (Hall _ Hin Hs). Qed.

Section Entries.

Variable D : path.
Variable dir : string.
Hypothesis dir_path : components dir = D.
Variable h : heap.

(** The entries of a nested store. *)
Lemma save_inner_loop key d :
  has_char "/" key = false ->
  Forall (persistable_inner h) d ->
  NoDup (dict_keys d) ->
  forall L fs,
    is_dir D fs = true ->
    children D fs = as_files L ->
    (forall f io, In f (map fst L) -> In io d ->
                  stem f <> (key ++ "_" ++ fst io)%string) ->
    exists fs',
      for_each d tt
        (fun (_ : unit) ko =>
           let file := (key ++ "_" ++ fst ko)%string in
           match snd ko with
           | PFrame r =>
               df <- frame_at h r ;;
               write_file (fmt_file dir file ".csv") (to_csv df)
           | PDict _ | PDataDict _ =>
               dump_json (fmt_file dir file ".json") (snd ko)
           | _ => ret tt
           end) fs = (Ok tt, fs') /\
      is_dir D fs' = true /\
      children D fs' = as_files (L ++ flat_map (inner_files h key) d).
Proof.
  intros Hkey Hall Hnd. induction d as [|[i o] d IH]; intros L fs Hd Hch Hfresh.
  - exists fs. simpl. rewrite app_nil_r. auto.
  - apply Forall_cons_iff in Hall. destruct Hall as [[Hi Ho] Hrest].
    simpl in Hnd. apply NoDup_cons_iff in Hnd. destruct Hnd as [Hnotin Hnd'].
    apply plain_key_spec in Hi. destruct Hi as (Hslash & _ & _).
    simpl fst in *. simpl snd in *.
    set (name := (key ++ "_" ++ i)%string).
    assert (Hname : has_char "/" name = false).
    { unfold name. rewrite !has_char_append, Hkey, Hslash. reflexivity. }
    assert (Hstep : exists fs1,
               (let file := (key ++ "_" ++ i)%string in
                match o with
                | PFrame r =>
                    df <- frame_at h r ;;
                    write_file (fmt_file dir file ".csv") (to_csv df)
                | PDict _ | PDataDict _ =>
                    dump_json (fmt_file dir file ".json") o
                | _ => ret tt
                end) fs = (Ok tt, fs1) /\
               is_dir D fs1 = true /\
               children D fs1 = as_files (L ++ inner_files h key (i, o))).
    { cbv zeta. fold name. unfold inner_files. simpl fst. simpl snd. fold name.
      destruct o; try contradiction.
      - (* a mapping *)
        destruct (json_encode (PDict kvs)) as [j|] eqn:Hj;
          [|exfalso; exact (Ho Hj)].
        unfold file_of_value. rewrite Hj.
        apply (dump_json_new D dir dir_path name (PDict kvs) j L fs Hname Hj Hd Hch).
        apply names_fresh; [apply stem_json|].
        intros f Hf. apply (Hfresh f (i, PDict kvs)); [exact Hf | left; reflexivity].
      - (* a table *)
        destruct Ho as (df & Hr & _). unfold file_of_table, frame_at. rewrite Hr.
        unfold bind, ret.
        assert (Hf : components (fmt_file dir name ".csv")
                     = D ++ [(name ++ ".csv")%string]).
        { apply components_file; try assumption; [reflexivity | discriminate]. }
        apply (write_new D dir _ (to_csv df) L fs Hf Hd Hch).
        apply names_fresh; [apply stem_csv|].
        intros f Hf'. apply (Hfresh f (i, PFrame r)); [exact Hf' | left; reflexivity]. }
    destruct Hstep as (fs1 & Hrun & Hd1 & Hch1).
    destruct (IH Hrest Hnd' (L ++ inner_files h key (i, o)) fs1 Hd1 Hch1)
      as (fs' & Hloop & Hd' & Hch').
    { intros f io Hf Hio. rewrite map_app, in_app_iff in Hf.
      destruct Hf as [Hf | Hf].
      - apply (Hfresh f io Hf). right. exact Hio.
      - rewrite (inner_files_stem _ _ _ _ Hf). simpl fst.
        intros Heq. apply append_inj_l in Heq. apply append_inj_l in Heq.
        apply Hnotin. rewrite Heq. apply in_map. exact Hio. }
    exists fs'. split; [|split; [exact Hd'|]].
    + simpl for_each. erewrite bind_Ok; [exact Hloop | exact Hrun].
    + rewrite Hch'. simpl flat_map. rewrite app_assoc. reflexivity.
Qed.

End Entries.

Lemma nested_key_no_slash k :
  k = "variables" \/ k = "parameters" -> has_char "/" k = false.
Proof. intros [-> | ->]; reflexivity. Qed.

Lemma stems_top_nested k k' (d : dict pyobj) i :
  plain_key k = true ->
  k' = "variables" \/ k' = "parameters" ->
  k <> (k' ++ "_" ++ i)%string.
Proof.
  intros Hk Hk' Heq. apply plain_key_spec in Hk. destruct Hk as (_ & Hv & Hp).
  destruct Hk' as [-> | ->]; subst k.
  - assert (H : contains "variables_" ("variables" ++ "_" ++ i) = true) by reflexivity.
    congruence.
  - assert (H : contains "parameters_" ("parameters" ++ "_" ++ i) = true) by reflexivity.
    congruence.
Qed.

(** Entries under different keys are written to different files. *)
Lemma stems_disjoint h kv kv' s :
  persistable_entry h kv -> persistable_entry h kv' ->
  fst kv <> fst kv' ->
  In s (stems_of kv) -> ~ In s (stems_of kv').
Proof.
  intros Hp Hp' Hne Hs Hs'.
  assert (Htop : forall x : string * pyobj,
             persistable_entry h x ->
             (stems_of x = [fst x] /\ plain_key (fst x) = true) \/
             (exists d, snd x = PDataDict d /\
                        (fst x = "variables" \/ fst x = "parameters"))).
  { intros [k v] H. unfold persistable_entry, stems_of in *. simpl in *.
    destruct v; try (left; split; [reflexivity | apply H]).
    right. exists kvs. split; [reflexivity | apply H]. }
  destruct (Htop kv Hp) as [[E Hk] | (d & Ed & Hk)];
    destruct (Htop kv' Hp') as [[E' Hk'] | (d' & Ed' & Hk')].
  - rewrite E in Hs. rewrite E' in Hs'.
    destruct Hs as [<- | []]. destruct Hs' as [Heq | []]. congruence.
  - rewrite E in Hs. destruct Hs as [<- | []].
    unfold stems_of in Hs'. rewrite Ed' in Hs'.
    apply in_map_iff in Hs'. destruct Hs' as (io & Heq & _).
    exact (stems_top_nested _ _ d' _ Hk Hk' (eq_sym Heq)).
  - rewrite E' in Hs'. destruct Hs' as [<- | []].
    unfold stems_of in Hs. rewrite Ed in Hs.
    apply in_map_iff in Hs. destruct Hs as (io & Heq & _).
    exact (stems_top_nested _ _ d _ Hk' Hk (eq_sym Heq)).
  - unfold stems_of in Hs, Hs'. rewrite Ed in Hs. rewrite Ed' in Hs'.
    apply in_map_iff in Hs. destruct Hs as (io & Heq & _).
    apply in_map_iff in Hs'. destruct Hs' as (io' & Heq' & _).
    rewrite <- Heq' in Heq.
    destruct Hk as [Hk | Hk]; destruct Hk' as [Hk' | Hk'];
      rewrite Hk, Hk' in *; try congruence; simpl in Heq; discriminate.
Qed.

Section Loop.

Variable D : path.
Variable dir : string.
Hypothesis dir_path : components dir = D.
Variable h : heap.

(** The loop of [save] over the entries of a persistable store. *)
Lemma save_loop_files S :
  NoDup (dict_keys S) ->
  Forall (persistable_entry h) S ->
  forall L fs,
    is_dir D fs = true ->
    children D fs = as_files L ->
    (forall f kv, In f (map fst L) -> In kv S -> ~ In (stem f) (stems_of kv)) ->
    exists fs',
      for_each S tt (fun (_ : unit) kv => save_entry h dir (fst kv) (snd kv)) fs
        = (Ok tt, fs') /\
      is_dir D fs' = true /\
      children D fs' = as_files (L ++ store_files h S).
Proof.
  intros Hnd Hall. induction S as [|[k v] S IH]; intros L fs Hd Hch Hfresh.
  - exists fs. simpl. rewrite app_nil_r. auto.
  - apply Forall_cons_iff in Hall. destruct Hall as [Hkv Hrest].
    simpl in Hnd. apply NoDup_cons_iff in Hnd. destruct Hnd as [Hnotin Hnd'].
    assert (Hfresh_k : forall f, In f (map fst L) -> ~ In (stem f) (stems_of (k, v))).
    { intros f Hf. apply (Hfresh f (k, v) Hf). left. reflexivity. }
    assert (Hstep : exists fs1,
               save_entry h dir k v fs = (Ok tt, fs1) /\
               is_dir D fs1 = true /\
               children D fs1 = as_files (L ++ entry_files h (k, v))).
    { assert (Hother : (forall r, v <> PFrame r) -> (forall d, v <> PDataDict d) ->
                       exists fs1,
                         save_entry h dir k v fs = (Ok tt, fs1) /\
                         is_dir D fs1 = true /\
                         children D fs1 = as_files (L ++ entry_files h (k, v))).
      { intros Hnf Hndd.
        assert (Hk : plain_key k = true /\ stems_of (k, v) = [k] /\
                     entry_files h (k, v) = file_of_value k v).
        { unfold persistable_entry, stems_of, entry_files in *. simpl in *.
          destruct v; try (split; [apply Hkv | split; reflexivity]).
          - exfalso. exact (Hnf r eq_refl).
          - exfalso. exact (Hndd kvs eq_refl). }
        destruct Hk as (Hplain & Hstems & Hfiles). rewrite Hfiles.
        apply plain_key_spec in Hplain. destruct Hplain as (Hslash & _ & _).
        apply (save_value D dir dir_path k v h L fs Hslash Hnf Hndd Hd Hch).
        apply names_fresh; [apply stem_json|].
        intros f Hf Heq. apply (Hfresh_k f Hf). rewrite Hstems. left. congruence. }
      destruct v; try (apply Hother; intros; discriminate).
      - (* a table *)
        unfold persistable_entry in Hkv. simpl in Hkv.
        destruct Hkv as (Hplain & df & Hr & _).
        apply plain_key_spec in Hplain. destruct Hplain as (Hslash & _ & _).
        unfold entry_files, file_of_table. simpl. rewrite Hr.
        apply (save_table D dir dir_path k r df h L fs Hslash Hr Hd Hch).
        + apply names_fresh; [apply stem_csv|].
          intros f Hf Heq. apply (Hfresh_k f Hf). left. simpl. symmetry. exact Heq.
        + apply names_fresh; [apply stem_json|].
          intros f Hf Heq. apply (Hfresh_k f Hf). left. simpl. symmetry. exact Heq.
      - (* a nested store *)
        unfold persistable_entry in Hkv. simpl in Hkv.
        destruct Hkv as (Hkey & _ & Hndk & Hinner).
        unfold entry_files. simpl fst. simpl snd.
        destruct (save_inner_loop D dir dir_path h k kvs
                    (nested_key_no_slash k Hkey) Hinner Hndk L fs Hd Hch)
          as (fs1 & Hrun & Hd1 & Hch1).
        { intros f io Hf Hio Heq. apply (Hfresh_k f Hf).
          unfold stems_of. simpl. apply in_map_iff. exists io. auto. }
        exists fs1. split; [|split; assumption].
        unfold save_entry. unfold bind at 1. unfold ret at 1. exact Hrun. }
    destruct Hstep as (fs1 & Hrun & Hd1 & Hch1).
    destruct (IH Hnd' Hrest (L ++ entry_files h (k, v)) fs1 Hd1 Hch1)
      as (fs' & Hloop & Hd' & Hch').
    { intros f kv Hf Hin. rewrite map_app, in_app_iff in Hf.
      destruct Hf as [Hf | Hf].
      - apply (Hfresh f kv Hf). right. exact Hin.
      - apply (stems_disjoint h (k, v) kv (stem f)).
        + exact Hkv.
        + rewrite Forall_forall in Hrest. apply Hrest. exact Hin.
        + simpl. intros Heq. apply Hnotin. rewrite Heq.
          unfold dict_keys. apply in_map. exact Hin.
        + apply (entry_files_stem h). exact Hf. }
    exists fs'. split; [|split; [exact Hd'|]].
    + simpl for_each. erewrite bind_Ok; [exact Hloop | exact Hrun].
    + rewrite Hch'. unfold store_files. simpl flat_map.
      rewrite app_assoc. reflexivity.
Qed.

End Loop.

(** *** The new directory is empty *)

Lemma child_name_short D n :
  (List.length (node_path n) <= List.length D)%nat -> child_name D n = None.
Proof.
  intros Hlen. destruct (child_name D n) as [f|] eqn:E; [|reflexivity].
  apply child_name_spec in E. rewrite E, length_app in Hlen. simpl in Hlen. lia.
Qed.

Lemma children_mkdir D p fs r fs' :
  (List.length p <= List.length D)%nat ->
  mkdir p fs = (r, fs') -> children D fs' = children D fs.
Proof.
  intros Hlen. unfold mkdir. destruct fs as [clk l].
  destruct (kind_of p (mkFS clk l)); [intros H; inversion H; reflexivity|].
  destruct (is_dir (parent p) (mkFS clk l)); intros H; inversion H; [|reflexivity].
  unfold tick. simpl clock.
  rewrite (children_put_other D (mkNode p Dir (S clk)) _ clk).
  - apply children_touch.
  - apply child_name_short. exact Hlen.
Qed.

Lemma children_make_parents D todo : forall done fs r fs',
  (List.length (done ++ todo) <= List.length D)%nat ->
  make_parents done todo fs = (r, fs') -> children D fs' = children D fs.
Proof.
  induction todo as [|c todo IH]; intros done fs r fs' Hlen H; simpl in H.
  - inversion H. reflexivity.
  - unfold bind in H.
    assert (Hlen1 : (List.length (done ++ [c]) <= List.length D)%nat).
    { rewrite length_app in *. simpl in *. lia. }
    assert (Hlen2 : (List.length ((done ++ [c]) ++ todo) <= List.length D)%nat).
    { rewrite <- app_assoc. exact Hlen. }
    destruct (kind_of (done ++ [c]) fs) as [[|c0]|] eqn:Hk.
    + exact (IH _ _ _ _ Hlen2 H).
    + inversion H. reflexivity.
    + destruct (mkdir (done ++ [c]) fs) as [[u|e] fs2] eqn:Hm.
      * rewrite (IH _ _ _ _ Hlen2 H). exact (children_mkdir _ _ _ _ _ Hlen1 Hm).
      * inversion H; subst. exact (children_mkdir _ _ _ _ _ Hlen1 Hm).
Qed.

Lemma length_parent (p : path) :
  (List.length (parent p) <= List.length p)%nat.
Proof.
  unfold parent. induction p as [|a [|b p] IH]; simpl in *; lia.
Qed.

Lemma children_makedirs D s fs r fs' :
  (List.length (components s) <= List.length D)%nat ->
  makedirs s fs = (r, fs') -> children D fs' = children D fs.
Proof.
  intros Hlen. unfold makedirs. destruct (components s) as [|a p] eqn:E.
  - intros H. inversion H. reflexivity.
  - destruct (kind_of (a :: p) fs); [intros H; inversion H; reflexivity|].
    unfold bind.
    assert (Hlen' : (List.length ([] ++ parent (a :: p)) <= List.length D)%nat).
    { change ([] ++ parent (a :: p)) with (parent (a :: p)).
      pose proof (length_parent (a :: p)) as Hp.
      lia. }
    destruct (make_parents [] (parent (a :: p)) fs) as [[u|e] fs2] eqn:Hmp;
      intros H.
    + rewrite (children_mkdir _ _ _ _ _ Hlen H).
      exact (children_make_parents _ _ _ _ _ _ Hlen' Hmp).
    + inversion H; subst. exact (children_make_parents _ _ _ _ _ _ Hlen' Hmp).
Qed.

Lemma closed_no_children D fs :
  closed fs -> is_dir D fs = false -> children D fs = [].
Proof.
  intros Hclosed Hd. unfold children.
  assert (Hall : forall n, In n (nodes fs) -> child_name D n = None).
  { intros n Hin. destruct (child_name D n) as [f|] eqn:E; [|reflexivity].
    apply child_name_spec in E. specialize (Hclosed n Hin).
    unfold parent in Hclosed. rewrite E, removelast_last in Hclosed. congruence. }
  induction (nodes fs) as [|n l IH]; [reflexivity|].
  simpl. rewrite (Hall n (or_introl eq_refl)). simpl.
  apply IH. intros m Hm. apply Hall. right. exact Hm.
Qed.

Lemma makedirs_was_free s fs fs' :
  makedirs s fs = (Ok tt, fs') -> kind_of (components s) fs = None.
Proof.
  unfold makedirs. destruct (components s) as [|a p]; [discriminate|].
  destruct (kind_of (a :: p) fs); [discriminate | reflexivity].
Qed.

(** The directory [save] leaves: the files of the store, in the order of
    its entries. *)
Lemma save_result h S exp_name exp_id path fs fs1 :
  closed fs ->
  persistable h S ->
  save h S (Some exp_name) (Some exp_id) path fs = (Ok tt, fs1) ->
  let D := components (fmt_dir path (replace " " "_" exp_name) exp_id) in
  is_dir D fs1 = true /\ children D fs1 = as_files (store_files h S).
Proof.
  intros Hclosed [Hnd Hall] H D.
  set (dir := fmt_dir path (replace " " "_" exp_name) exp_id) in *.
  unfold save in H. fold dir in H.
  destruct (listdir_root fs) as (here0 & Hls0 & _).
  rewrite (bind_Ok _ _ _ _ _ Hls0) in H.
  apply bind_inv in H. destruct H as ([] & fs_a & Hbase & H).
  unfold bind at 1 in H. unfold ret at 1 in H.
  unfold bind at 1 in H. unfold ret at 1 in H.
  apply bind_inv in H. destruct H as ([] & fs_b & Hmk & Hloop).
  assert (Hsplit : D = components path
                       ++ components (replace " " "_" exp_name ++ "_"
                                      ++ string_of_Z exp_id)).
  { unfold D, dir, fmt_dir. apply components_app. }
  assert (Hg_a : grows fs fs_a /\ children D fs_a = children D fs).
  { destruct (mem path here0).
    - inversion Hbase; subst. split; [apply grows_refl | reflexivity].
    - split; [exact (preserving_makedirs _ _ _ _ Hbase)|].
      apply (children_makedirs D path fs (Ok tt) fs_a); [|exact Hbase].
      rewrite Hsplit, length_app. lia. }
  destruct Hg_a as [[Hdirs_a _] Hch_a].
  assert (Hfree : is_dir D fs = false).
  { destruct (is_dir D fs) eqn:E; [|reflexivity].
    apply Hdirs_a in E. apply is_dir_kind in E.
    assert (Hf : kind_of D fs_a = None) by exact (makedirs_was_free _ _ _ Hmk).
    congruence. }
  assert (Hch_b : children D fs_b = []).
  { rewrite (children_makedirs D dir fs_a (Ok tt) fs_b (Nat.le_refl _) Hmk).
    rewrite Hch_a. apply closed_no_children; assumption. }
  assert (Hd_b : is_dir D fs_b = true).
  { destruct (makedirs_ok _ _ _ Hmk) as (_ & Hdirs).
    specialize (Hdirs (List.length D)). unfold D in *.
    rewrite firstn_all in Hdirs. exact Hdirs. }
  destruct (save_loop_files D dir eq_refl h S Hnd Hall [] fs_b Hd_b Hch_b)
    as (fs' & Hrun & Hd' & Hch').
  { intros f kv []. }
  assert (Heq : (Ok tt, fs') = (Ok tt, fs1)) by (rewrite <- Hrun; exact Hloop).
  inversion Heq; subst fs'. split; assumption.
Qed.

(** ** A table comes back from its CSV file *)

Lemma mem_app x a b : mem x (a ++ b) = mem x a || mem x b.
Proof. unfold mem. apply existsb_app. Qed.

Lemma nodupb_app a b :
  nodupb (a ++ b) = true ->
  nodupb a = true /\ nodupb b = true /\
  (forall x, In x a -> mem x b = false).
Proof.
  induction a as [|x a IH]; simpl; intros H.
  - repeat split; [exact H | intros x []].
  - apply andb_true_iff in H. destruct H as [Hx H].
    destruct (IH H) as (Ha & Hb & Hab).
    rewrite mem_app in Hx. apply negb_true_iff, orb_false_iff in Hx.
    destruct Hx as [Hxa Hxb]. rewrite Hxa, Ha. repeat split; [exact Hb|].
    intros y [<-|Hy]; [exact Hxb | exact (Hab y Hy)].
Qed.

Lemma not_mem_sym a b :
  (forall x, In x a -> mem x b = false) ->
  forall y, In y b -> mem y a = false.
Proof.
  intros H y Hy. destruct (mem y a) eqn:E; [|reflexivity].
  apply mem_In in E. rewrite <- (H y E). symmetry. apply mem_In. exact Hy.
Qed.

Lemma filter_none {A} (f : A -> bool) l : existsb f l = false -> filter f l = [].
Proof.
  induction l as [|a l IH]; simpl; [reflexivity|].
  intros H. apply orb_false_iff in H. destruct H as [-> H]. exact (IH H).
Qed.

Lemma dedup_labels_id l : forall seen,
  nodupb l = true -> (forall x, In x l -> mem x seen = false) ->
  dedup_labels seen l = l.
Proof.
  induction l as [|x l IH]; intros seen Hnd Hseen; simpl; [reflexivity|].
  simpl in Hnd. apply andb_true_iff in Hnd. destruct Hnd as [Hx Hnd].
  apply negb_true_iff in Hx.
  rewrite (filter_none (String.eqb x) seen (Hseen x (or_introl eq_refl))).
  simpl. f_equal. apply IH; [exact Hnd|].
  intros y Hy. simpl. rewrite (Hseen y (or_intror Hy)), orb_false_r.
  destruct (String.eqb y x) eqn:E; [|reflexivity].
  apply String.eqb_eq in E. subst y. apply mem_In in Hy. congruence.
Qed.

Lemma labelled_id l : forall start,
  forallb (fun c => negb (String.eqb c EmptyString)) l = true ->
  map (fun ih : nat * string =>
         if String.eqb (snd ih) EmptyString
         then ("Unnamed: " ++ string_of_nat (fst ih))%string
         else snd ih) (combine (seq start (List.length l)) l) = l.
Proof.
  induction l as [|x l IH]; intros start H; simpl; [reflexivity|].
  simpl in H. apply andb_true_iff in H. destruct H as [Hx H].
  apply negb_true_iff in Hx. rewrite Hx. f_equal. exact (IH (S start) H).
Qed.

Lemma csv_labels_id l :
  forallb (fun c => negb (String.eqb c EmptyString)) l = true ->
  nodupb l = true -> csv_labels l = l.
Proof.
  intros Hne Hnd. unfold csv_labels, indexed. rewrite (labelled_id l 0 Hne).
  apply dedup_labels_id; [exact Hnd | reflexivity].
Qed.

Lemma combine_app_same {A B} (a : list A) (b : list B) : forall a' b',
  List.length a = List.length b ->
  combine (a ++ a') (b ++ b') = combine a b ++ combine a' b'.
Proof.
  revert b. induction a as [|x a IH]; intros [|y b] a' b' H; simpl in *;
    try discriminate; [reflexivity|].
  f_equal. apply IH. lia.
Qed.

Lemma filter_all {A} (f : A -> bool) l :
  (forall x, In x l -> f x = true) -> filter f l = l.
Proof.
  induction l as [|a l IH]; intros H; simpl; [reflexivity|].
  rewrite (H a (or_introl eq_refl)). f_equal. apply IH.
  intros x Hx. apply H. right. exact Hx.
Qed.

Lemma filter_nothing {A} (f : A -> bool) l :
  (forall x, In x l -> f x = false) -> filter f l = [].
Proof.
  induction l as [|a l IH]; intros H; simpl; [reflexivity|].
  rewrite (H a (or_introl eq_refl)). apply IH.
  intros x Hx. apply H. right. exact Hx.
Qed.

Lemma In_combine_fst {A B} (a : list A) : forall (b : list B) x,
  In x (combine a b) -> In (fst x) a.
Proof.
  induction a as [|y a IH]; intros [|z b] x H; simpl in *; try contradiction.
  destruct H as [<-|H]; [left; reflexivity | right; exact (IH _ _ H)].
Qed.

Lemma drop_cells_levels names cols idx vals :
  List.length idx = List.length names ->
  List.length vals = List.length cols ->
  (forall c, In c cols -> mem c names = false) ->
  drop_cells names (names ++ cols) (idx ++ vals) = vals.
Proof.
  intros Hidx Hvals Hcols. unfold drop_cells.
  rewrite combine_app_same by (symmetry; exact Hidx).
  rewrite filter_app, filter_nothing, filter_all.
  - simpl. apply map_snd_combine. symmetry. exact Hvals.
  - intros x Hx. apply In_combine_fst in Hx. rewrite (Hcols _ Hx). reflexivity.
  - intros x Hx. apply In_combine_fst in Hx. apply mem_In in Hx.
    rewrite Hx. reflexivity.
Qed.

Lemma columns_without_levels names cols :
  (forall c, In c cols -> mem c names = false) ->
  filter (fun c => negb (mem c names)) (names ++ cols) = cols.
Proof.
  intros H. rewrite filter_app, filter_nothing, filter_all; [reflexivity| |].
  - intros x Hx. rewrite (H x Hx). reflexivity.
  - intros x Hx. apply mem_In in Hx. rewrite Hx. reflexivity.
Qed.

Lemma i_cols_not_empty x :
  In x i_cols -> negb (String.eqb x EmptyString) = true.
Proof.
  unfold i_cols. simpl.
  intros [<-|[<-|[<-|[<-|[<-|[<-|[<-|[]]]]]]]]; reflexivity.
Qed.

Lemma forallb_mem_self names cols :
  forallb (fun k => mem k (names ++ cols)) names = true.
Proof.
  apply forallb_forall. intros x Hx. apply mem_In, in_or_app. left. exact Hx.
Qed.

(** *** The cells of a file *)

Lemma py_int_word s : wordy s = true -> py_int s = None.
Proof.
  destruct s as [|a s]; [discriminate|]. unfold wordy. intros H.
  apply andb_true_iff in H. destruct H as [H _].
  apply andb_true_iff in H. destruct H as [Hl _].
  destruct a as [[|] [|] [|] [|] [|] [|] [|] [|]]; try discriminate Hl;
    unfold py_int; cbn [rstrip]; destruct (rstrip s); reflexivity.
Qed.

Lemma int_field_int z :
  int64 z = true -> int_field (cell_field (PInt z)) = Some z.
Proof.
  intros H. cbn [cell_field int_field].
  rewrite py_int_string_of_Z, String.eqb_refl, H. reflexivity.
Qed.

Lemma int_field_bool b : int_field (cell_field (PBool b)) = None.
Proof. destruct b; reflexivity. Qed.

Lemma bool_field_bool b : bool_field (cell_field (PBool b)) = Some b.
Proof. destruct b; reflexivity. Qed.

Lemma int_field_word s : wordy s = true -> int_field (Text s) = None.
Proof. intros H. cbn [int_field]. rewrite (py_int_word s H). reflexivity. Qed.

Lemma bool_field_word s : wordy s = true -> bool_field (Text s) = None.
Proof.
  intros H. cbn [bool_field].
  destruct (String.eqb_spec s "True") as [-> | _]; [discriminate H|].
  destruct (String.eqb_spec s "False") as [-> | _]; [discriminate H|].
  reflexivity.
Qed.

Lemma text_field_word s : wordy s = true -> text_field (Text s) = Some s.
Proof. intros H. cbn [text_field]. rewrite H. reflexivity. Qed.

Lemma forallb_cells (P : pyobj -> bool) (Q : field -> bool) col :
  forallb P col = true ->
  (forall v, P v = true -> Q (cell_field v) = true) ->
  forallb Q (map cell_field col) = true.
Proof.
  intros H HPQ. apply forallb_forall. intros f Hf.
  apply in_map_iff in Hf. destruct Hf as (v & <- & Hv).
  apply HPQ. rewrite forallb_forall in H. exact (H v Hv).
Qed.

(** A column of integers, of booleans or of words is read with its type,
    and every cell comes back as it was. *)
Lemma typed_column_read col :
  typed_column col = true ->
  exists d, column_dtype (map cell_field col) = Some d /\
            Forall (fun v => read_field d (cell_field v) = v) col.
Proof.
  destruct col as [|v0 col].
  { intros _. exists DInt. split; [reflexivity | constructor]. }
  unfold typed_column. intros H.
  apply orb_true_iff in H. destruct H as [H | H];
    [apply orb_true_iff in H; destruct H as [H | H]|].
  - exists DInt. split.
    + unfold column_dtype.
      rewrite (forallb_cells _ (fun f => is_some (int_field f)) _ H);
        [reflexivity|].
      intros v Hv. destruct v; try discriminate Hv.
      rewrite (int_field_int z Hv). reflexivity.
    + apply Forall_forall. intros v Hv. rewrite forallb_forall in H.
      specialize (H v Hv). destruct v; try discriminate H.
      unfold read_field. rewrite (int_field_int z H). reflexivity.
  - exists DBool. split.
    + unfold column_dtype.
      assert (Hhead : forallb (fun f => is_some (int_field f))
                              (map cell_field (v0 :: col)) = false).
      { cbn [forallb] in H. apply andb_true_iff in H. destruct H as [H0 _].
        destruct v0; try discriminate H0.
        cbn [map forallb]. rewrite int_field_bool. reflexivity. }
      rewrite Hhead.
      rewrite (forallb_cells _ (fun f => is_some (bool_field f)) _ H);
        [reflexivity|].
      intros v Hv. destruct v; try discriminate Hv.
      rewrite bool_field_bool. reflexivity.
    + apply Forall_forall. intros v Hv. rewrite forallb_forall in H.
      specialize (H v Hv). destruct v; try discriminate H.
      unfold read_field. rewrite bool_field_bool. reflexivity.
  - exists DText. split.
    + unfold column_dtype.
      assert (Hhead : forallb (fun f => is_some (int_field f))
                              (map cell_field (v0 :: col)) = false /\
                      forallb (fun f => is_some (bool_field f))
                              (map cell_field (v0 :: col)) = false).
      { cbn [forallb] in H. apply andb_true_iff in H. destruct H as [H0 _].
        destruct v0; try discriminate H0.
        cbn [map forallb cell_field].
        rewrite (int_field_word s H0), (bool_field_word s H0). split; reflexivity. }
      destruct Hhead as [-> ->].
      rewrite (forallb_cells _ (fun f => is_some (text_field f)) _ H);
        [reflexivity|].
      intros v Hv. destruct v; try discriminate Hv.
      cbn [cell_field]. rewrite (text_field_word s Hv). reflexivity.
    + apply Forall_forall. intros v Hv. rewrite forallb_forall in H.
      specialize (H v Hv). destruct v; try discriminate H.
      unfold read_field. cbn [cell_field].
      rewrite (text_field_word s H). reflexivity.
Qed.

Lemma all_some_map {A B} (f : A -> option B) (g : A -> B) l :
  (forall x, In x l -> f x = Some (g x)) ->
  all_some (map f l) = Some (map g l).
Proof.
  induction l as [|a l IH]; intros H; [reflexivity|].
  cbn [map all_some]. rewrite (H a (or_introl eq_refl)), IH; [reflexivity|].
  intros x Hx. apply H. right. exact Hx.
Qed.

Lemma column_at_cells j (cells : list (list pyobj)) :
  column_at j (map (map cell_field) cells)
  = map cell_field (map (fun row => nth j row PNone) cells).
Proof.
  unfold column_at. rewrite !map_map. apply map_ext. intros row.
  exact (map_nth cell_field row PNone j).
Qed.

Lemma read_row (D : nat -> dtype) row : forall start,
  (forall j, (j < List.length row)%nat ->
             read_field (D (start + j)%nat) (cell_field (nth j row PNone))
             = nth j row PNone) ->
  map (fun df => read_field (fst df) (snd df))
      (combine (map D (seq start (List.length row))) (map cell_field row))
  = row.
Proof.
  induction row as [|v row IH]; intros start H; [reflexivity|].
  cbn [List.length seq map combine fst snd]. f_equal.
  - specialize (H 0%nat). rewrite Nat.add_0_r in H. apply H. simpl. lia.
  - apply IH. intros j Hj. specialize (H (S j)).
    rewrite Nat.add_succ_r in H. apply H. simpl. lia.
Qed.

(** The cells of a table of typed columns come back from their text. *)
Lemma read_cells (cells : list (list pyobj)) n :
  Forall (fun row => List.length row = n) cells ->
  (forall j, (j < n)%nat ->
             typed_column (map (fun row => nth j row PNone) cells) = true) ->
  exists dtypes,
    all_some (map (fun j => column_dtype
                              (column_at j (map (map cell_field) cells)))
                  (seq 0 n)) = Some dtypes /\
    map (fun row => map (fun df => read_field (fst df) (snd df))
                        (combine dtypes row))
        (map (map cell_field) cells) = cells.
Proof.
  intros Hlen Htyped.
  set (D := fun j => match column_dtype
                             (column_at j (map (map cell_field) cells)) with
                     | Some d => d
                     | None => DInt
                     end).
  assert (HD : forall j, (j < n)%nat ->
            column_dtype (column_at j (map (map cell_field) cells)) = Some (D j) /\
            Forall (fun v => read_field (D j) (cell_field v) = v)
                   (map (fun row => nth j row PNone) cells)).
  { intros j Hj. destruct (typed_column_read _ (Htyped j Hj)) as (d & Hd & Hall).
    rewrite <- column_at_cells in Hd. unfold D. rewrite Hd. auto. }
  exists (map D (seq 0 n)). split.
  - apply all_some_map. intros j Hj. apply in_seq in Hj.
    apply HD. lia.
  - rewrite map_map. rewrite <- (map_id cells) at 2. apply map_ext_in.
    intros row Hrow. rewrite Forall_forall in Hlen.
    rewrite <- (Hlen row Hrow). apply read_row.
    intros j Hj. cbn [Nat.add].
    assert (Hjn : (j < n)%nat) by (rewrite <- (Hlen row Hrow); exact Hj).
    destruct (HD j Hjn) as [_ Hall]. rewrite Forall_forall in Hall.
    apply Hall. apply in_map_iff. exists row. auto.
Qed.

(** The file of a table of faithful cells is read as the table of its
    fields: the levels of the index first, then the columns. *)
Lemma read_csv_to_csv df :
  shaped df = true ->
  csv_faithful df = true ->
  index_names df <> [] ->
  read_csv (to_csv df)
  = Ok (mkDF [None]
             (csv_labels (map (fun nm => match nm with
                                         | Some s => s
                                         | None => EmptyString
                                         end) (index_names df) ++ columns df))
             (range_index (map (fun r => fst r ++ snd r) (rows df)))).
Proof.
  intros Hshape Hcells Hlevels. unfold to_csv.
  set (header := map (fun nm : option string =>
                        match nm with
                        | Some s => s
                        | None => EmptyString
                        end) (index_names df) ++ columns df).
  set (cells := map (fun r : list pyobj * list pyobj => fst r ++ snd r)
                    (rows df)).
  assert (Hheader : List.length header
                    = (List.length (index_names df)
                       + List.length (columns df))%nat).
  { unfold header. rewrite length_app, length_map. reflexivity. }
  assert (Hfields : map (fun r : list pyobj * list pyobj =>
                           map cell_field (fst r ++ snd r)) (rows df)
                    = map (map cell_field) cells).
  { unfold cells. rewrite map_map. reflexivity. }
  rewrite Hfields.
  assert (Hlen : Forall (fun row => List.length row = List.length header)
                        cells).
  { apply Forall_forall. intros row Hrow. unfold cells in Hrow.
    apply in_map_iff in Hrow. destruct Hrow as ([idx vals] & <- & Hin).
    unfold shaped in Hshape. rewrite forallb_forall in Hshape.
    specialize (Hshape _ Hin). cbn [fst snd] in Hshape.
    apply andb_true_iff in Hshape. destruct Hshape as [Hl1 Hl2].
    apply Nat.eqb_eq in Hl1. apply Nat.eqb_eq in Hl2. cbn [fst snd].
    rewrite length_app, Hl1, Hl2, Hheader. reflexivity. }
  assert (Htyped : forall j, (j < List.length header)%nat ->
            typed_column (map (fun row => nth j row PNone) cells) = true).
  { intros j Hj.
    assert (Hall : forallb (fun j => typed_column (cells_at j df))
                     (seq 0 (List.length (index_names df)
                             + List.length (columns df))) = true).
    { unfold csv_faithful in Hcells.
      destruct (rows df); [discriminate Hcells|].
      apply andb_true_iff in Hcells. exact (proj2 Hcells). }
    rewrite forallb_forall in Hall. rewrite <- Hheader in Hall.
    specialize (Hall j). unfold cells_at in Hall.
    unfold cells. rewrite map_map. apply Hall. apply in_seq. lia. }
  destruct (@read_cells cells _ Hlen Htyped) as (dtypes & Hdt & Hread).
  assert (Hrows : forallb (fun row => Nat.eqb (List.length row)
                                              (List.length header))
                          (map (map cell_field) cells) = true).
  { apply forallb_forall. intros row Hrow.
    apply in_map_iff in Hrow. destruct Hrow as (row0 & <- & Hin).
    rewrite length_map. apply Nat.eqb_eq.
    rewrite Forall_forall in Hlen. exact (Hlen row0 Hin). }
  unfold read_csv.
  destruct header as [|l0 ls] eqn:Eheader.
  { exfalso. apply Hlevels. unfold header in Eheader.
    apply app_eq_nil in Eheader. destruct Eheader as [E _].
    destruct (index_names df); [reflexivity | discriminate E]. }
  rewrite Hrows, Hdt, Hread. reflexivity.
Qed.

(** Reading the file of a stable table of faithful cells and setting the
    index as the loader does gives the table back. *)
Lemma csv_round_trip df :
  csv_stable df = true ->
  csv_faithful df = true ->
  exists raw n ns,
    read_csv (to_csv df) = Ok raw /\
    filter (fun i => mem i (columns raw)) i_cols = n :: ns /\
    set_index (map Some (n :: ns)) raw = Ok df.
Proof.
  unfold csv_stable. destruct df as [inames cols rws]. simpl index_names.
  simpl columns.
  destruct (all_some inames) as [[|n ns]|] eqn:Hnames; try discriminate.
  intros H Hcells. apply andb_true_iff in H. destruct H as [H Hnd].
  apply andb_true_iff in H. destruct H as [H Hne].
  apply andb_true_iff in H. destruct H as [Hshape Hfilter].
  apply path_eqb_eq in Hfilter. apply all_some_inv in Hnames. subst inames.
  set (names := n :: ns) in *.
  destruct (nodupb_app _ _ Hnd) as (Hnd_names & _ & Hdisj).
  pose proof (not_mem_sym _ _ Hdisj) as Hcols.
  assert (Hne_all :
    forallb (fun c => negb (String.eqb c EmptyString)) (names ++ cols) = true).
  { rewrite forallb_app, Hne, andb_true_r. apply forallb_forall.
    intros x Hx. apply i_cols_not_empty. rewrite <- Hfilter in Hx.
    apply filter_In in Hx. exact (proj1 Hx). }
  exists (mkDF [None] (names ++ cols)
            (range_index (map (fun r => fst r ++ snd r) rws))), n, ns.
  split; [|split].
  - rewrite (read_csv_to_csv _ Hshape Hcells) by discriminate.
    cbn [index_names columns rows]. rewrite map_map, map_id.
    change (n :: ns ++ cols) with (names ++ cols).
    rewrite (csv_labels_id _ Hne_all Hnd). reflexivity.
  - exact Hfilter.
  - fold names. unfold set_index. rewrite all_some_map_Some.
    unfold names at 1. fold names. simpl columns.
    change (n :: ns ++ cols) with (names ++ cols).
    rewrite forallb_mem_self. simpl rows.
    rewrite (columns_without_levels _ _ Hcols).
    rewrite (map_snd_range_index
               (fun vals => (map (cell (names ++ cols) vals) names,
                             drop_cells names (names ++ cols) vals))).
    rewrite map_map. f_equal. f_equal.
    rewrite <- (map_id rws) at 2. apply map_ext_in.
    intros [idx vals] Hin. simpl fst. simpl snd.
    unfold shaped in Hshape. simpl in Hshape.
    rewrite forallb_forall in Hshape. specialize (Hshape _ Hin).
    simpl in Hshape. apply andb_true_iff in Hshape.
    destruct Hshape as [Hl1 Hl2].
    apply Nat.eqb_eq in Hl1. apply Nat.eqb_eq in Hl2.
    rewrite length_map in Hl1.
    change (List.length idx = List.length names) in Hl1.
    rewrite (cells_of_levels names cols idx vals Hnd_names Hl1).
    rewrite (drop_cells_levels names cols idx vals Hl1 Hl2 Hcols). reflexivity.
Qed.

(** ** A value comes back from its JSON file, normalized *)

Lemma decode_array js : json_decode (JArr js) = PList (map json_decode js).
Proof.
  simpl; f_equal;
    try (induction js as [|j js IH]; [reflexivity | rewrite IH; reflexivity]).
Qed.

Lemma decode_object kjs :
  json_decode (JObj kjs)
  = PDict (map (fun kj => (fst kj, json_decode (snd kj))) kjs).
Proof.
  simpl; f_equal;
    try (induction kjs as [|[k j] kjs IH]; [reflexivity | rewrite IH; reflexivity]).
Qed.

Lemma normalize_list xs : normalize (PList xs) = PList (map normalize xs).
Proof.
  simpl; f_equal;
    try (induction xs as [|x xs IH]; [reflexivity | rewrite IH; reflexivity]).
Qed.

Lemma normalize_dict kvs :
  normalize (PDict kvs)
  = PDict (map (fun kv => (fst kv, normalize (snd kv))) kvs).
Proof.
  simpl; f_equal;
    try (induction kvs as [|[k x] kvs IH]; [reflexivity | rewrite IH; reflexivity]).
Qed.

Lemma encode_list_inv xs : forall j,
  json_encode (PList xs) = Some j ->
  exists js, j = JArr js /\
             Forall2 (fun x j' => json_encode x = Some j') xs js.
Proof.
  induction xs as [|x xs IH]; intros j H.
  - simpl in H. inversion H. exists []. split; [reflexivity | constructor].
  - simpl in H. simpl in IH.
    destruct (json_encode x) as [jx|] eqn:Ex; [|discriminate].
    match type of H with
    | context [match ?t with Some _ => _ | None => _ end] =>
        destruct t as [js|] eqn:E
    end; [|discriminate].
    destruct (IH (JArr js) eq_refl) as (js' & Hjs & HF).
    inversion Hjs; subst js'. simpl in H. inversion H.
    exists (jx :: js). split; [reflexivity|]. constructor; assumption.
Qed.

Lemma encode_dict_inv kvs : forall j,
  json_encode (PDict kvs) = Some j ->
  exists kjs, j = JObj kjs /\
              Forall2 (fun kv kj => fst kv = fst kj /\
                                    json_encode (snd kv) = Some (snd kj))
                      kvs kjs.
Proof.
  induction kvs as [|[k x] kvs IH]; intros j H.
  - simpl in H. inversion H. exists []. split; [reflexivity | constructor].
  - simpl in H. simpl in IH.
    destruct (json_encode x) as [jx|] eqn:Ex; [|discriminate].
    match type of H with
    | context [match ?t with Some _ => _ | None => _ end] =>
        destruct t as [js|] eqn:E
    end; [|discriminate].
    destruct (IH (JObj js) eq_refl) as (js' & Hjs & HF).
    inversion Hjs; subst js'. simpl in H. inversion H.
    exists ((k, jx) :: js). split; [reflexivity|].
    constructor; [split; [reflexivity | exact Ex] | exact HF].
Qed.

Lemma decode_all xs : forall js,
  Forall (fun v => forall j, json_encode v = Some j ->
                             json_decode j = normalize v) xs ->
  Forall2 (fun x j' => json_encode x = Some j') xs js ->
  map json_decode js = map normalize xs.
Proof.
  induction xs as [|x xs IH]; intros js Hall HF; inversion HF; subst.
  - reflexivity.
  - apply Forall_cons_iff in Hall. destruct Hall as [Hx Hall].
    simpl. f_equal; [apply Hx; assumption | apply IH; assumption].
Qed.

Lemma decode_all_items (kvs : list (string * pyobj)) :
  forall kjs : list (string * json),
  Forall (fun kv => forall j, json_encode (snd kv) = Some j ->
                              json_decode j = normalize (snd kv)) kvs ->
  Forall2 (fun kv kj => fst kv = fst kj /\
                        json_encode (snd kv) = Some (snd kj)) kvs kjs ->
  map (fun kj : string * json => (fst kj, json_decode (snd kj))) kjs
  = map (fun kv : string * pyobj => (fst kv, normalize (snd kv))) kvs.
Proof.
  induction kvs as [|kv kvs IH]; intros kjs Hall HF;
    inversion HF as [|kv' kj kvs' kjs' [Hk He] HF']; subst.
  - reflexivity.
  - apply Forall_cons_iff in Hall. destruct Hall as [Hx Hall].
    simpl. f_equal; [|apply IH; assumption].
    rewrite (Hx (snd kj) He), Hk. reflexivity.
Qed.

(** What [json.load] reads from the document [json.dump] wrote. *)
Lemma json_round_trip v : forall j,
  json_encode v = Some j -> json_decode j = normalize v.
Proof.
  induction v as [v Hv|xs IH|xs IH|kvs IH|kvs IH] using pyobj_nested_ind;
    intros j H.
  - destruct v; try contradiction; simpl in H; inversion H; reflexivity.
  - apply encode_list_inv in H. destruct H as (js & -> & HF).
    rewrite decode_array, normalize_list. f_equal.
    exact (decode_all xs js IH HF).
  - change (json_encode (PList xs) = Some j) in H.
    change (normalize (PNdArray xs)) with (normalize (PList xs)).
    apply encode_list_inv in H. destruct H as (js & -> & HF).
    rewrite decode_array, normalize_list. f_equal.
    exact (decode_all xs js IH HF).
  - apply encode_dict_inv in H. destruct H as (kjs & -> & HF).
    rewrite decode_object, normalize_dict. f_equal.
    exact (decode_all_items kvs kjs IH HF).
  - change (json_encode (PDict kvs) = Some j) in H.
    change (normalize (PDataDict kvs)) with (normalize (PDict kvs)).
    apply encode_dict_inv in H. destruct H as (kjs & -> & HF).
    rewrite decode_object, normalize_dict. f_equal.
    exact (decode_all_items kvs kjs IH HF).
Qed.

(** ** Loading what was saved *)

Lemma components_trailing s : components (s ++ "/") = components s.
Proof.
  change (s ++ "/")%string with (s ++ "/" ++ "")%string.
  rewrite components_app. change (components "") with (@nil string).
  apply app_nil_r.
Qed.

Lemma components_in_dir dir f D :
  components dir = D ->
  has_char "/" f = false -> f <> EmptyString ->
  components ((dir ++ "/") ++ f) = D ++ [f].
Proof.
  intros HD Hf Hne. rewrite append_assoc, components_app, HD.
  rewrite (components_single f Hf Hne). reflexivity.
Qed.

Lemma load_file_csv fs dirs f df hh :
  last_part "." f = "csv" ->
  read_file (dirs ++ f) fs = Ok (to_csv df) ->
  csv_stable df = true ->
  csv_faithful df = true ->
  exists raw,
    load_file fs dirs f hh = (Ok (PFrame (S (List.length hh))), hh ++ [raw; df]).
Proof.
  intros Hext Hread Hst Hcells.
  destruct (csv_round_trip df Hst Hcells)
    as (raw & n & ns & Hcsv & Hfilter & Hset).
  exists raw.
  assert (Hnth : nth_error (hh ++ [raw]) (List.length hh) = Some raw).
  { rewrite nth_error_app2, Nat.sub_diag by lia. reflexivity. }
  assert (Hp : parse_file fs dirs f hh
               = (Ok (PFrame (S (List.length hh))), hh ++ [raw; df])).
  { unfold parse_file. rewrite Hext. change (String.eqb "csv" "csv") with true.
    cbv iota. run_heap. rewrite Hread. run_heap. rewrite Hcsv. run_heap.
    rewrite Hfilter. run_heap. rewrite Hnth. run_heap. rewrite Hset. run_heap.
    rewrite length_app, <- app_assoc. simpl. rewrite Nat.add_1_r.
    reflexivity. }
  unfold load_file, try_except. rewrite Hp. reflexivity.
Qed.

Lemma load_file_json fs dirs f j hh :
  last_part "." f = "json" ->
  read_file (dirs ++ f) fs = Ok (Json j) ->
  load_file fs dirs f hh = (Ok (json_decode j), hh).
Proof.
  intros Hext Hread.
  assert (Hp : parse_file fs dirs f hh = (Ok (json_decode j), hh)).
  { unfold parse_file. rewrite Hext.
    change (String.eqb "json" "csv") with false.
    change (String.eqb "json" "json") with true.
    cbv iota. run_heap. rewrite Hread. reflexivity. }
  unfold load_file, try_except. rewrite Hp. reflexivity.
Qed.

Lemma value_matches_mono h h1 extra v v' :
  value_matches h h1 v v' -> value_matches h (h1 ++ extra) v v'.
Proof.
  destruct v; simpl; try (intros H; exact H).
  intros (r' & df & Hv & Hh & Hh1). exists r', df. repeat split; try assumption.
  rewrite nth_error_app1; [exact Hh1|]. apply nth_error_Some. congruence.
Qed.

Section Reload.
Variable fs : FS.
Variable dirs : string.
Variable h : heap.

(** One file of the store, read by [load_file]. *)
Lemma load_saved name v hh :
  storable h v ->
  faithful_table h v ->
  (forall f c, In (f, c) (files_of h name v) ->
               read_file (dirs ++ f) fs = Ok c) ->
  exists f c v' extra,
    files_of h name v = [(f, c)] /\
    (f = (name ++ ".csv")%string \/ f = (name ++ ".json")%string) /\
    load_file fs dirs f hh = (Ok v', hh ++ extra) /\
    value_matches h (hh ++ extra) v v'.
Proof.
  intros Hst Hcells Hread.
  assert (Hjson : (forall r, v <> PFrame r) -> jsonable v ->
    files_of h name v = file_of_value name v ->
    value_matches h hh v (normalize v) ->
    exists f c v' extra,
      files_of h name v = [(f, c)] /\
      (f = (name ++ ".csv")%string \/ f = (name ++ ".json")%string) /\
      load_file fs dirs f hh = (Ok v', hh ++ extra) /\
      value_matches h (hh ++ extra) v v').
  { intros Hnf Hj Hfiles Hm. unfold jsonable in Hj.
    destruct (json_encode v) as [j|] eqn:Ej; [|congruence].
    assert (Hf : files_of h name v = [((name ++ ".json")%string, Json j)]).
    { rewrite Hfiles. unfold file_of_value. rewrite Ej. reflexivity. }
    exists (name ++ ".json")%string, (Json j), (json_decode j), [].
    rewrite app_nil_r. split; [exact Hf|]. split; [right; reflexivity|]. split.
    - apply load_file_json.
      + exact (last_part_app "." name "json" eq_refl).
      + apply Hread. rewrite Hf. left. reflexivity.
    - rewrite (json_round_trip v j Ej). exact Hm. }
  destruct v;
    try (apply Hjson; [intros r'; discriminate | exact Hst | reflexivity
                      | reflexivity]).
  destruct Hst as (df & Hh & Hstable).
  destruct Hcells as (df0 & Hh0 & Hfaithful).
  assert (df0 = df) by congruence. subst df0.
  assert (Hf : files_of h name (PFrame r) = [((name ++ ".csv")%string, to_csv df)]).
  { simpl. unfold file_of_table. rewrite Hh. reflexivity. }
  destruct (load_file_csv fs dirs (name ++ ".csv") df hh
              (last_part_app "." name "csv" eq_refl)) as (raw & Hload);
    [apply Hread; rewrite Hf; left; reflexivity | exact Hstable
    | exact Hfaithful |].
  exists (name ++ ".csv")%string, (to_csv df), (PFrame (S (List.length hh))),
         [raw; df].
  split; [exact Hf|]. split; [left; reflexivity|]. split; [exact Hload|].
  simpl. exists (S (List.length hh)), df. repeat split; [exact Hh|].
  rewrite nth_error_app2 by lia.
  replace (S (List.length hh) - List.length hh)%nat with 1%nat by lia.
  reflexivity.
Qed.

Lemma slot_of_nested k i ext :
  k = "variables" \/ k = "parameters" ->
  plain_key i = true ->
  ext = "csv" \/ ext = "json" ->
  slot_of ((k ++ "_" ++ i) ++ String "." ext) = Sub k i.
Proof.
  intros [->| ->] Hi [->| ->].
  - exact (slot_of_variables i "csv" Hi eq_refl).
  - exact (slot_of_variables i "json" Hi eq_refl).
  - exact (slot_of_parameters i "csv" Hi eq_refl eq_refl).
  - exact (slot_of_parameters i "json" Hi eq_refl eq_refl).
Qed.

End Reload.

(** ** The files of a store *)

Lemma files_of_names h name v f c :
  In (f, c) (files_of h name v) ->
  f = (name ++ ".csv")%string \/ f = (name ++ ".json")%string.
Proof.
  assert (Hv : forall v', In (f, c) (file_of_value name v') ->
                          f = (name ++ ".json")%string).
  { intros v'. unfold file_of_value. destruct (json_encode v'); simpl;
      intros H; [|contradiction].
    destruct H as [H|[]]. inversion H. reflexivity. }
  destruct v; try (intros H; right; exact (Hv _ H)).
  simpl. unfold file_of_table. destruct (nth_error h r); simpl;
    intros H; [|contradiction].
  destruct H as [H|[]]. inversion H. left. reflexivity.
Qed.

Lemma files_of_NoDup h name v : NoDup (map fst (files_of h name v)).
Proof.
  assert (Hv : forall v', NoDup (map fst (file_of_value name v'))).
  { intros v'. unfold file_of_value. destruct (json_encode v'); simpl;
      repeat constructor. intros []. }
  destruct v; try apply Hv.
  simpl. unfold file_of_table. destruct (nth_error h r); simpl;
    repeat constructor. intros [].
Qed.

Lemma inner_files_of h k io :
  persistable_inner h io ->
  inner_files h k io = files_of h (k ++ "_" ++ fst io) (snd io).
Proof.
  intros [_ Hv]. unfold inner_files. destruct (snd io); try contradiction;
    reflexivity.
Qed.

Lemma file_name_safe name f :
  has_char "/" name = false ->
  f = (name ++ ".csv")%string \/ f = (name ++ ".json")%string ->
  has_char "/" f = false /\ f <> EmptyString.
Proof.
  intros Hname [-> | ->]; split;
    try (rewrite has_char_append, Hname; reflexivity);
    apply append_not_empty; discriminate.
Qed.

Lemma entry_file_names h kv f c :
  persistable_entry h kv ->
  In (f, c) (entry_files h kv) ->
  has_char "/" f = false /\ f <> EmptyString.
Proof.
  destruct kv as [k v]. intros Hp Hin.
  assert (Htop : plain_key k = true ->
                 In (f, c) (files_of h k v) ->
                 has_char "/" f = false /\ f <> EmptyString).
  { intros Hk H. apply (file_name_safe k).
    - exact (proj1 (plain_key_spec k Hk)).
    - exact (files_of_names h k v f c H). }
  destruct v; try (destruct Hp as [Hk _]; exact (Htop Hk Hin)).
  destruct Hp as (Hk & _ & _ & Hall). simpl fst in Hk.
  change (entry_files h (k, PDataDict kvs))
    with (flat_map (inner_files h k) kvs) in Hin.
  apply in_flat_map in Hin. destruct Hin as (io & Hio & Hin).
  rewrite Forall_forall in Hall. specialize (Hall io Hio).
  rewrite (inner_files_of h k io Hall) in Hin.
  apply (file_name_safe (k ++ "_" ++ fst io)).
  - rewrite !has_char_append, (nested_key_no_slash k Hk).
    destruct Hall as [Hplain _].
    rewrite (proj1 (plain_key_spec _ Hplain)). reflexivity.
  - exact (files_of_names h _ _ f c Hin).
Qed.

Lemma inner_files_NoDup h k d :
  Forall (persistable_inner h) d ->
  NoDup (dict_keys d) ->
  NoDup (map fst (flat_map (inner_files h k) d)).
Proof.
  induction d as [|io d IH]; intros Hall Hnd; [constructor|].
  apply Forall_cons_iff in Hall. destruct Hall as [Hio Hall].
  apply NoDup_cons_iff in Hnd. destruct Hnd as [Hi Hnd].
  simpl flat_map. rewrite map_app. apply NoDup_app.
  - rewrite (inner_files_of h k io Hio). apply files_of_NoDup.
  - exact (IH Hall Hnd).
  - intros f Hf Hf'. apply inner_files_stem in Hf.
    apply in_map_iff in Hf'. destruct Hf' as ([g c] & Hg & Hin).
    simpl in Hg. subst g.
    apply in_flat_map in Hin. destruct Hin as (io' & Hio' & Hin).
    assert (Hs : stem f = (k ++ "_" ++ fst io')%string).
    { apply (inner_files_stem h k io'). apply in_map_iff.
      exists (f, c). split; [reflexivity | exact Hin]. }
    rewrite Hf in Hs. apply append_inj_l in Hs.
    apply (append_inj_l "_") in Hs.
    apply Hi. rewrite Hs. apply in_map. exact Hio'.
Qed.

Lemma entry_files_NoDup h kv :
  persistable_entry h kv -> NoDup (map fst (entry_files h kv)).
Proof.
  destruct kv as [k v]. intros Hp.
  destruct v;
    try match goal with
        | |- NoDup (map fst (entry_files h (k, ?v))) =>
            exact (files_of_NoDup h k v)
        end.
  destruct Hp as (_ & _ & Hnd & Hall).
  exact (inner_files_NoDup h k kvs Hall Hnd).
Qed.

Lemma store_files_NoDup h S :
  persistable h S -> NoDup (map fst (store_files h S)).
Proof.
  intros [Hnd Hall]. induction S as [|kv S IH]; [constructor|].
  apply Forall_cons_iff in Hall. destruct Hall as [Hkv Hall].
  apply NoDup_cons_iff in Hnd. destruct Hnd as [Hk Hnd].
  unfold store_files. simpl flat_map. rewrite map_app. apply NoDup_app.
  - exact (entry_files_NoDup h kv Hkv).
  - exact (IH Hnd Hall).
  - intros f Hf Hf'. apply entry_files_stem in Hf.
    apply in_map_iff in Hf'. destruct Hf' as ([g c] & Hg & Hin).
    simpl in Hg. subst g.
    apply in_flat_map in Hin. destruct Hin as (kv' & Hkv' & Hin).
    rewrite Forall_forall in Hall.
    apply (stems_disjoint h kv kv' (stem f) Hkv (Hall kv' Hkv')).
    + intros Heq. apply Hk. unfold dict_keys. rewrite Heq.
      apply in_map. exact Hkv'.
    + exact Hf.
    + apply (entry_files_stem h kv' f). apply in_map_iff.
      exists (f, c). split; [reflexivity | exact Hin].
Qed.

Lemma lookup_as_files F f c :
  NoDup (map fst F) -> In (f, c) F -> dict_get f (as_files F) = Some (File c).
Proof.
  induction F as [|[g c'] F IH]; intros Hnd Hin; [contradiction|].
  apply NoDup_cons_iff in Hnd. destruct Hnd as [Hg Hnd]. simpl.
  destruct Hin as [Heq|Hin].
  - inversion Heq; subst. rewrite String.eqb_refl. reflexivity.
  - destruct (String.eqb f g) eqn:E.
    + apply String.eqb_eq in E. subst g. exfalso. apply Hg.
      apply in_map_iff. exists (f, c). split; [reflexivity | exact Hin].
    + exact (IH Hnd Hin).
Qed.

Lemma map_fst_as_files F : map fst (as_files F) = map fst F.
Proof. unfold as_files. rewrite map_map. reflexivity. Qed.

(** * The round trip *)

(** The example store satisfies the conditions of the round trip. *)
Lemma whole_run_persistable : persistable example_heap whole_run.
Proof.
  split.
  - repeat constructor; simpl; intuition discriminate.
  - repeat apply Forall_cons; try apply Forall_nil.
    + split; [reflexivity | discriminate].
    + split; [right; reflexivity|]. split; [discriminate|].
      split; [repeat constructor; simpl; intuition discriminate|].
      repeat apply Forall_cons; try apply Forall_nil.
      split; [reflexivity | discriminate].
    + split; [left; reflexivity|]. split; [discriminate|].
      split; [repeat constructor; simpl; intuition discriminate|].
      repeat apply Forall_cons; try apply Forall_nil.
      * split; [reflexivity|]. eexists. split; reflexivity.
      * split; [reflexivity|]. eexists. split; reflexivity.
    + split; [reflexivity|]. eexists. split; reflexivity.
Defined.

Lemma whole_run_faithful : faithful_cells example_heap whole_run.
Proof.
  unfold faithful_cells, whole_run.
  apply Forall_cons; [exact I|].
  apply Forall_cons.
  { apply Forall_cons; [exact I | apply Forall_nil]. }
  apply Forall_cons.
  { apply Forall_cons; [eexists; split; reflexivity|].
    apply Forall_cons; [eexists; split; reflexivity | apply Forall_nil]. }
  apply Forall_cons; [eexists; split; reflexivity | apply Forall_nil].
Defined.


(** ** The order of the listing *)

Lemma dict_get_of_In {A} k (v : A) d :
  NoDup (dict_keys d) -> In (k, v) d -> dict_get k d = Some v.
Proof.
  induction d as [|[k' v'] d IH]; intros Hnd Hin; [contradiction|].
  simpl. apply NoDup_cons_iff in Hnd. destruct Hnd as [Hk Hnd].
  destruct Hin as [Heq | Hin].
  - inversion Heq; subst. rewrite String.eqb_refl. reflexivity.
  - destruct (String.eqb_spec k k') as [-> | Hne]; [|exact (IH Hnd Hin)].
    exfalso. apply Hk. apply in_map_iff. exists (k', v).
    split; [reflexivity | exact Hin].
Qed.

Lemma plain_done_keep h D acc acc' hh extra k v s :
  plain_done h D acc hh k v ->
  s <> Top k ->
  dict_get k acc' = dict_get k acc ->
  plain_done h (s :: D) acc' (hh ++ extra) k v.
Proof.
  intros [[Hin (v' & Hg & Hm)] | [Hnin Hg]] Hs Hacc.
  - left. split; [right; exact Hin|]. exists v'. split; [congruence|].
    apply value_matches_mono. exact Hm.
  - right. split; [|congruence].
    intros [Heq | Hin]; [congruence | contradiction].
Qed.

Lemma inner_done_keep h D d' hh extra k d s :
  inner_done h D d' hh k d ->
  (forall i, s <> Sub k i) ->
  inner_done h (s :: D) d' (hh ++ extra) k d.
Proof.
  intros H Hs i. specialize (H i). destruct (dict_get i d) as [v|]; [|exact H].
  destruct H as [[Hin (v' & Hg & Hm)] | [Hnin Hg]].
  - left. split; [right; exact Hin|]. exists v'. split; [exact Hg|].
    apply value_matches_mono. exact Hm.
  - right. split; [|exact Hg].
    intros [Heq | Hin]; [exact (Hs i Heq) | contradiction].
Qed.

Lemma nested_done_keep h D acc acc' hh extra k d s :
  nested_done h D acc hh k d ->
  (forall i, s <> Sub k i) ->
  dict_get k acc' = dict_get k acc ->
  nested_done h (s :: D) acc' (hh ++ extra) k d.
Proof.
  unfold nested_done. intros H Hs Hacc. rewrite Hacc.
  destruct (dict_get k acc) as [v|].
  - destruct v; try contradiction. apply inner_done_keep; assumption.
  - intros i [Heq | Hin]; [exact (Hs i Heq) | exact (H i Hin)].
Qed.

(** A step of the loop that writes under the top-level key [k0] only. *)
Lemma loaded_so_far_step h S D acc acc' hh extra s k0 :
  loaded_so_far h S D acc hh ->
  top_key s = k0 ->
  (forall k, k <> k0 -> dict_get k acc' = dict_get k acc) ->
  match dict_get k0 S with
  | None => dict_get k0 acc' = None
  | Some (PDataDict d) => nested_done h (s :: D) acc' (hh ++ extra) k0 d
  | Some v => plain_done h (s :: D) acc' (hh ++ extra) k0 v
  end ->
  loaded_so_far h S (s :: D) acc' (hh ++ extra).
Proof.
  intros Hinv Htop Hother Hnew k.
  destruct (String.eqb_spec k k0) as [-> | Hne]; [exact Hnew|].
  specialize (Hinv k). specialize (Hother k Hne).
  assert (Hplain : s <> Top k).
  { intros ->. apply Hne. exact Htop. }
  assert (Hsub : forall i, s <> Sub k i).
  { intros i ->. apply Hne. exact Htop. }
  destruct (dict_get k S) as [v|]; [|congruence].
  destruct v;
    try (apply plain_done_keep with (acc := acc); assumption).
  apply nested_done_keep with (acc := acc); assumption.
Qed.

Section AnyOrder.
Variable fs : FS.
Variable dirs : string.
Variable h : heap.
Variable S : DataDict.
Hypothesis Hnd : NoDup (dict_keys S).
Hypothesis Hall : Forall (persistable_entry h) S.
Hypothesis Hcells : Forall (faithful_entry h) S.
Hypothesis Hread :
  forall f c, In (f, c) (store_files h S) -> read_file (dirs ++ f) fs = Ok c.

(** The shape of the slots of the store. *)
Let slot_shape (s : slot) : Prop :=
  match s with
  | Top k => plain_key k = true
  | Sub k i => (k = "variables" \/ k = "parameters") /\ plain_key i = true
  end.

(** Every file of the store is the file of one of its slots. *)
Lemma file_slot f c :
  In (f, c) (store_files h S) ->
  exists s v,
    slot_lookup S s = Some v /\ slot_shape s /\
    storable h v /\ faithful_table h v /\
    In (f, c) (files_of h (slot_name s) v).
Proof.
  intros Hin. unfold store_files in Hin. apply in_flat_map in Hin.
  destruct Hin as ([k v] & Hkv & Hin).
  pose proof (dict_get_of_In k v S Hnd Hkv) as Hget.
  rewrite Forall_forall in Hall, Hcells.
  pose proof (Hall _ Hkv) as Hp. pose proof (Hcells _ Hkv) as Hc.
  unfold persistable_entry in Hp. unfold faithful_entry in Hc.
  cbn [fst snd] in Hp, Hc.
  destruct v;
    try (destruct Hp as [Hk Hst]; exists (Top k); eexists;
         split; [cbn [slot_lookup]; rewrite Hget; reflexivity|];
         split; [exact Hk|]; split; [exact Hst|]; split; [exact Hc|];
         exact Hin).
  destruct Hp as (Hk & _ & Hndd & Hinner).
  cbn [entry_files fst snd] in Hin. apply in_flat_map in Hin.
  destruct Hin as ([i vi] & Hio & Hin).
  rewrite Forall_forall in Hinner, Hc.
  pose proof (Hinner _ Hio) as Hpi. pose proof (Hc _ Hio) as Hci.
  rewrite (inner_files_of h k (i, vi) Hpi) in Hin.
  destruct Hpi as [Hplain Hvi]. cbn [fst snd] in Hplain, Hvi, Hin, Hci.
  exists (Sub k i), vi.
  split; [cbn [slot_lookup]; rewrite Hget;
          exact (dict_get_of_In i vi kvs Hndd Hio)|].
  split; [split; assumption|].
  split; [destruct vi; try contradiction; exact Hvi|].
  split; [exact Hci | exact Hin].
Qed.

(** Every slot of the store has its file. *)
Lemma slot_file s v :
  slot_lookup S s = Some v ->
  slot_shape s /\ storable h v /\ faithful_table h v /\
  forall f c, In (f, c) (files_of h (slot_name s) v) ->
              In (f, c) (store_files h S).
Proof.
  intros Hs. rewrite Forall_forall in Hall, Hcells.
  destruct s as [k | k i]; cbn [slot_lookup] in Hs.
  - destruct (dict_get k S) as [v0|] eqn:Hget; [|discriminate].
    pose proof (dict_get_In _ _ _ Hget) as Hkv.
    pose proof (Hall _ Hkv) as Hp. pose proof (Hcells _ Hkv) as Hc.
    unfold persistable_entry in Hp. unfold faithful_entry in Hc.
    cbn [fst snd] in Hp, Hc.
    destruct v0; try discriminate; inversion Hs; subst v;
      (destruct Hp as [Hk Hst];
       split; [exact Hk|]; split; [exact Hst|]; split; [exact Hc|];
       intros f c Hin; unfold store_files; apply in_flat_map;
       eexists; split; [exact Hkv | exact Hin]).
  - destruct (dict_get k S) as [v0|] eqn:Hget; [|discriminate].
    destruct v0; try discriminate.
    pose proof (dict_get_In _ _ _ Hget) as Hkv.
    pose proof (dict_get_In _ _ _ Hs) as Hio.
    pose proof (Hall _ Hkv) as Hp. pose proof (Hcells _ Hkv) as Hc.
    unfold persistable_entry in Hp. unfold faithful_entry in Hc.
    cbn [fst snd] in Hp, Hc.
    destruct Hp as (Hk & _ & Hndd & Hinner).
    rewrite Forall_forall in Hinner, Hc.
    pose proof (Hinner _ Hio) as Hpi. pose proof (Hc _ Hio) as Hci.
    pose proof (inner_files_of h k (i, v) Hpi) as Hfiles.
    destruct Hpi as [Hplain Hvi]. cbn [fst snd] in Hplain, Hvi, Hci, Hfiles.
    split; [split; assumption|].
    split; [destruct v; try contradiction; exact Hvi|].
    split; [exact Hci|].
    intros f c Hin. unfold store_files. apply in_flat_map.
    exists (k, PDataDict kvs). split; [exact Hkv|].
    cbn [entry_files fst snd]. apply in_flat_map.
    exists (i, v). split; [exact Hio|]. rewrite Hfiles. exact Hin.
Qed.

Lemma slot_of_file s name ext :
  slot_shape s -> name = slot_name s ->
  ext = "csv" \/ ext = "json" ->
  slot_of (name ++ String "." ext) = s.
Proof.
  intros Hshape -> Hext. destruct s as [k | k i]; cbn [slot_name].
  - destruct Hext as [-> | ->]; apply slot_of_top;
      try exact Hshape; reflexivity.
  - destruct Hshape as [Hk Hi]. apply slot_of_nested; assumption.
Qed.

(** The file of a slot, read by [load_file]. *)
Lemma slot_loads s v hh :
  slot_lookup S s = Some v ->
  exists f c v' extra,
    files_of h (slot_name s) v = [(f, c)] /\
    In (f, c) (store_files h S) /\
    slot_of f = s /\
    load_file fs dirs f hh = (Ok v', hh ++ extra) /\
    value_matches h (hh ++ extra) v v'.
Proof.
  intros Hs. destruct (slot_file s v Hs) as (Hshape & Hst & Hc & Hfiles).
  destruct (load_saved fs dirs h (slot_name s) v hh Hst Hc)
    as (f & c & v' & extra & Hf & Hname & Hload & Hm).
  { intros f c Hin. apply Hread. apply Hfiles. exact Hin. }
  exists f, c, v', extra. split; [exact Hf|].
  split; [apply Hfiles; rewrite Hf; left; reflexivity|].
  split; [|split; [exact Hload | exact Hm]].
  destruct Hname as [-> | ->].
  - apply (slot_of_file s (slot_name s) "csv" Hshape eq_refl). left. reflexivity.
  - apply (slot_of_file s (slot_name s) "json" Hshape eq_refl). right. reflexivity.
Qed.

Lemma file_loads f c hh :
  In (f, c) (store_files h S) ->
  exists v v' extra,
    slot_lookup S (slot_of f) = Some v /\
    files_of h (slot_name (slot_of f)) v = [(f, c)] /\
    load_file fs dirs f hh = (Ok v', hh ++ extra) /\
    value_matches h (hh ++ extra) v v'.
Proof.
  intros Hin. destruct (file_slot f c Hin) as (s & v & Hs & _ & _ & _ & Hf).
  destruct (slot_loads s v hh Hs)
    as (f0 & c0 & v' & extra & Hf0 & _ & Hslot & Hload & Hm).
  rewrite Hf0 in Hf. destruct Hf as [Heq | []]. inversion Heq; subst f0 c0.
  rewrite Hslot. exists v, v', extra. repeat split; assumption.
Qed.

Lemma dict_has_None {A} k (d : dict A) :
  dict_get k d = None -> dict_has k d = false.
Proof. unfold dict_has. intros ->. reflexivity. Qed.

Lemma dict_has_Some {A} k (d : dict A) v :
  dict_get k d = Some v -> dict_has k d = true.
Proof. unfold dict_has. intros ->. reflexivity. Qed.

(** The file of a nested store: its value joins the others of that store. *)
Lemma inner_done_put D d0 hh extra k d i v v' :
  dict_get i d = Some v ->
  value_matches h (hh ++ extra) v v' ->
  inner_done h D d0 hh k d ->
  inner_done h (Sub k i :: D) (dict_set i v' d0) (hh ++ extra) k d.
Proof.
  intros Hi Hm Hold i0. specialize (Hold i0).
  destruct (String.eqb_spec i0 i) as [-> | Hne].
  - rewrite Hi. left. split; [left; reflexivity|].
    exists v'. split; [apply dict_get_set_same | exact Hm].
  - rewrite (dict_get_set_other i i0 v' d0 Hne).
    destruct (dict_get i0 d) as [v0|]; [|exact Hold].
    destruct Hold as [[Hin (v0' & Hg & Hm0)] | [Hnin Hg]].
    + left. split; [right; exact Hin|]. exists v0'. split; [exact Hg|].
      apply value_matches_mono. exact Hm0.
    + right. split; [|exact Hg].
      intros [Heq | Hin]; [inversion Heq; congruence | contradiction].
Qed.

(** One turn of the loop, for a file that has not been read yet. *)
Lemma load_step_done D acc hh f c :
  In (f, c) (store_files h S) ->
  loaded_so_far h S D acc hh ->
  exists acc' extra,
    load_step fs dirs acc f hh = (Ok acc', hh ++ extra) /\
    loaded_so_far h S (slot_of f :: D) acc' (hh ++ extra).
Proof.
  intros Hin Hinv.
  destruct (file_loads f c hh Hin) as (v & v' & extra & Hs & _ & Hload & Hm).
  rewrite load_step_put. rewrite (bind_Ok _ _ _ _ _ Hload).
  unfold put_loaded.
  destruct (slot_of f) as [k | k i] eqn:Hslot; cbn [slot_lookup] in Hs.
  - (* a top-level entry *)
    exists (dict_set k v' acc), extra. split; [reflexivity|].
    apply loaded_so_far_step with (acc := acc) (k0 := k); [exact Hinv | reflexivity | |].
    + intros k0 Hne. apply dict_get_set_other. exact Hne.
    + destruct (dict_get k S) as [v0|]; [|discriminate].
      destruct v0; try discriminate; inversion Hs; subst v;
        (left; split; [left; reflexivity|]; exists v';
         split; [apply dict_get_set_same | exact Hm]).
  - (* an entry of a nested store *)
    destruct (dict_get k S) as [v0|] eqn:HS; [|discriminate].
    destruct v0; try discriminate.
    pose proof (Hinv k) as Hk. rewrite HS in Hk. unfold nested_done in Hk.
    destruct (dict_get k acc) as [w|] eqn:Hacc.
    + destruct w; try contradiction.
      rewrite (@dict_has_Some _ k acc _ Hacc). unfold set_sub_item. rewrite Hacc.
      eexists. exists extra. split; [reflexivity|].
      apply loaded_so_far_step with (acc := acc) (k0 := k); [exact Hinv | reflexivity | |].
      * intros k0 Hne. apply dict_get_set_other. exact Hne.
      * rewrite HS. unfold nested_done. rewrite dict_get_set_same.
        apply inner_done_put with (v := v); assumption.
    + rewrite (@dict_has_None _ k acc Hacc). unfold set_sub_item.
      rewrite dict_get_set_same.
      eexists. exists extra. split; [reflexivity|].
      apply loaded_so_far_step with (acc := acc) (k0 := k); [exact Hinv | reflexivity | |].
      * intros k0 Hne. rewrite !dict_get_set_other by exact Hne. reflexivity.
      * rewrite HS. unfold nested_done. rewrite dict_get_set_same.
        apply inner_done_put with (v := v); [exact Hs | exact Hm |].
        intros i0. destruct (dict_get i0 kvs); [|reflexivity].
        right. split; [apply Hk | reflexivity].
Qed.

(** The loop over files of the store, taken in any order. *)
Lemma load_loop_any_order : forall todo D acc hh,
  (forall f, In f todo -> In f (map fst (store_files h S))) ->
  loaded_so_far h S D acc hh ->
  exists S' extra,
    for_each todo acc (load_step fs dirs) hh = (Ok S', hh ++ extra) /\
    loaded_so_far h S (rev (map slot_of todo) ++ D) S' (hh ++ extra).
Proof.
  induction todo as [|f todo IH]; intros D acc hh Hfiles Hinv.
  - exists acc, []. rewrite app_nil_r. split; [reflexivity | exact Hinv].
  - assert (Hin : In f (map fst (store_files h S)))
      by (apply Hfiles; left; reflexivity).
    apply in_map_iff in Hin. destruct Hin as ([f0 c] & Hf0 & Hin).
    cbn [fst] in Hf0. subst f0.
    destruct (load_step_done D acc hh f c Hin Hinv)
      as (acc1 & e1 & Hstep & Hinv1).
    destruct (IH (slot_of f :: D) acc1 (hh ++ e1)) as
      (S' & e2 & Hrun & Hinv2).
    { intros g Hg. apply Hfiles. right. exact Hg. }
    { exact Hinv1. }
    exists S', (e1 ++ e2). split.
    + cbn [for_each]. rewrite (bind_Ok _ _ _ _ _ Hstep).
      rewrite Hrun, app_assoc. reflexivity.
    + cbn [map rev]. rewrite <- (app_assoc (rev (map slot_of todo))).
      rewrite (app_assoc hh). exact Hinv2.
Qed.

(** When every slot of the store has been read, the loop has the store. *)
Lemma loaded_all D acc hh :
  loaded_so_far h S D acc hh ->
  (forall s v, slot_lookup S s = Some v -> In s D) ->
  same_entries h S hh acc.
Proof.
  intros Hinv Hfull k. specialize (Hinv k).
  destruct (dict_get k S) as [v|] eqn:HS; [|exact Hinv].
  assert (Hplain : (forall d, v <> PDataDict d) ->
                   plain_done h D acc hh k v ->
                   exists v', dict_get k acc = Some v' /\
                              value_matches h hh v v').
  { intros Hv [[_ Hhave] | [Hnin _]]; [exact Hhave|].
    exfalso. apply Hnin. apply (Hfull (Top k) v). cbn [slot_lookup].
    rewrite HS. destruct v; try reflexivity. exfalso. exact (Hv _ eq_refl). }
  destruct v;
    try (destruct (Hplain ltac:(intros d; discriminate) Hinv)
           as (v' & Hg & Hm);
         exists v'; split; [exact Hg | exact Hm]).
  clear Hplain. unfold nested_done in Hinv.
  assert (Hsub : forall i vi, dict_get i kvs = Some vi -> In (Sub k i) D).
  { intros i vi Hi. apply (Hfull (Sub k i) vi). cbn [slot_lookup].
    rewrite HS. exact Hi. }
  destruct (dict_get k acc) as [w|] eqn:Hacc.
  - destruct w; try contradiction.
    eexists. split; [reflexivity|]. cbn [entry_agrees].
    eexists. split; [reflexivity|].
    intros i. specialize (Hinv i).
    destruct (dict_get i kvs) as [vi|] eqn:Hi; [|exact Hinv].
    destruct Hinv as [[_ Hhave] | [Hnin _]]; [exact Hhave|].
    exfalso. apply Hnin. exact (Hsub i vi Hi).
  - exfalso. rewrite Forall_forall in Hall.
    pose proof (Hall _ (dict_get_In _ _ _ HS)) as Hp.
    destruct Hp as (_ & Hne & _ & _).
    destruct kvs as [|[i vi] kvs]; [exact (Hne eq_refl)|].
    apply (Hinv i). apply (Hsub i vi). cbn [dict_get].
    rewrite String.eqb_refl. reflexivity.
Qed.

(** The files of the store, read in any order, give the store. *)
Lemma load_in_any_order files hh :
  Permutation (map fst (store_files h S)) files ->
  exists S' extra,
    for_each files [] (load_step fs dirs) hh = (Ok S', hh ++ extra) /\
    same_entries h S (hh ++ extra) S'.
Proof.
  intros Hperm.
  destruct (load_loop_any_order files [] [] hh) as (S' & extra & Hrun & Hinv).
  { intros f Hf. apply (Permutation_in f (Permutation_sym Hperm)). exact Hf. }
  { intros k. destruct (dict_get k S) as [v|]; [|reflexivity].
    destruct v; try (right; split; [intros [] | reflexivity]).
    unfold nested_done. cbn [dict_get]. intros i []. }
  exists S', extra. split; [exact Hrun|].
  apply loaded_all with (D := rev (map slot_of files) ++ []); [exact Hinv|].
  intros s v Hs.
  destruct (slot_loads s v [] Hs) as (f & c & _ & _ & _ & Hin & Hslot & _).
  rewrite app_nil_r. apply in_rev. rewrite rev_involutive.
  apply in_map_iff. exists f. split; [exact Hslot|].
  apply (Permutation_in f Hperm). apply in_map_iff. exists (f, c).
  split; [reflexivity | exact Hin].
Qed.

End AnyOrder.

(** *** File systems that list the same nodes in another order *)

Lemma same_tree_refl fs : same_tree fs fs.
Proof.
  split; [reflexivity|]. intros p l Hl. exists l. split; [exact Hl|].
  apply Permutation_refl.
Qed.

Lemma find_path_perm p (l l' : list node) :
  NoDup (map node_path l) -> Permutation l l' ->
  find (fun n => path_eqb (node_path n) p) l
  = find (fun n => path_eqb (node_path n) p) l'.
Proof.
  intros Hnd Hperm. induction Hperm as [|x l l' Hperm IH|x y l|l l' l'' H1 IH1 H2 IH2].
  - reflexivity.
  - simpl. destruct (path_eqb (node_path x) p); [reflexivity|].
    apply IH. simpl in Hnd. apply NoDup_cons_iff in Hnd. apply Hnd.
  - simpl. destruct (path_eqb (node_path y) p) eqn:Ey;
      destruct (path_eqb (node_path x) p) eqn:Ex; try reflexivity.
    apply path_eqb_eq in Ey. apply path_eqb_eq in Ex.
    simpl in Hnd. apply NoDup_cons_iff in Hnd. destruct Hnd as [Hy _].
    exfalso. apply Hy. left. congruence.
  - rewrite IH1 by exact Hnd. apply IH2.
    apply (Permutation_NoDup (Permutation_map node_path H1)). exact Hnd.
Qed.

(** A file system with one node for each path is the same tree as any
    file system that holds its nodes in another order. *)
Lemma same_tree_of_permutation fs fs' :
  NoDup (map node_path (nodes fs)) ->
  Permutation (nodes fs) (nodes fs') ->
  same_tree fs fs'.
Proof.
  intros Hnd Hperm.
  assert (Hkind : forall p, kind_of p fs' = kind_of p fs).
  { intros p. unfold kind_of, find_node. destruct p as [|a p]; [reflexivity|].
    rewrite (@find_path_perm (a :: p) _ _ Hnd Hperm). reflexivity. }
  split; [exact Hkind|].
  intros p l Hl. unfold ls, listdir in *. rewrite Hkind.
  destruct (kind_of p fs) as [[|c]|]; try discriminate.
  cbn [fst] in *. inversion Hl; subst l. eexists. split; [reflexivity|].
  apply Permutation_flat_map. exact Hperm.
Qed.

(** The round trip for an explicit, non-zero id, whatever the order in
    which the directory of the experiment is listed. *)
Lemma round_trip_any_order h S exp_name exp_id path fs fs1 :
  closed fs ->
  persistable h S ->
  faithful_cells h S ->
  exp_id <> 0%Z ->
  save h S (Some exp_name) (Some exp_id) path fs = (Ok tt, fs1) ->
  forall fs2 h0,
    same_tree fs1 fs2 ->
    exists S' h1,
      load fs2 (Some exp_name) (Some exp_id) path h0 = (Ok S', h1) /\
      same_entries h S h1 S'.
Proof.
  intros Hclosed Hp Hcells Hid Hsave fs2 h0 [Hkind Hlist].
  destruct (save_result h S exp_name exp_id path fs fs1 Hclosed Hp Hsave)
    as [Hd Hch].
  set (dir := fmt_dir path (replace " " "_" exp_name) exp_id) in *.
  pose proof (store_files_NoDup h S Hp) as Hnames.
  assert (Hls : ls (components (dir ++ "/")%string) fs1
                = Ok (map fst (store_files h S))).
  { rewrite components_trailing, (ls_children _ fs1 Hd), Hch.
    rewrite map_fst_as_files. reflexivity. }
  destruct (Hlist _ _ Hls) as (files & Hls2 & Hperm).
  rewrite (load_explicit fs2 exp_name exp_id path _ h0 Hid Hls2). fold dir.
  destruct Hp as [Hnd Hall].
  assert (Hread : forall f c, In (f, c) (store_files h S) ->
                              read_file ((dir ++ "/") ++ f) fs2 = Ok c).
  { intros f c Hin.
    assert (Hsafe : has_char "/" f = false /\ f <> EmptyString).
    { unfold store_files in Hin. apply in_flat_map in Hin.
      destruct Hin as (kv & Hkv & Hin). rewrite Forall_forall in Hall.
      exact (entry_file_names h kv f c (Hall kv Hkv) Hin). }
    unfold read_file. rewrite Hkind.
    change (read_file ((dir ++ "/") ++ f) fs1 = Ok c).
    apply (read_file_child (components dir) f _ fs1 c).
    + apply components_in_dir; [reflexivity | apply Hsafe | apply Hsafe].
    + rewrite Hch. apply lookup_as_files; assumption. }
  destruct (@load_in_any_order fs2 (dir ++ "/")%string h S Hnd Hall Hcells
              Hread files h0 Hperm) as (S' & extra & Hrun & Hm).
  exists S', (h0 ++ extra). split; [exact Hrun | exact Hm].
Qed.



(** An experiment saved under the id 0 is not found again: [load] takes the
    id 0 for no id, looks for the last one, and finds 0. *)
Lemma load_refuses_id_zero :
  let fs1 := snd (save example_heap whole_run (Some "run") (Some 0%Z) "out"
                       (mkFS 0 [])) in
  save example_heap whole_run (Some "run") (Some 0%Z) "out" (mkFS 0 [])
    = (Ok tt, fs1) /\
  load fs1 (Some "run") (Some 0%Z) "out" [] = (Raise FileNotFoundError, []).
Proof. split; vm_compute; reflexivity. Qed.

(** A table under the default index comes back with the index as a column
    of its own. *)
Lemma load_adds_column_for_default_index :
  let fs1 := snd (save example_heap default_index (Some "run") (Some 1%Z) "out"
                       (mkFS 0 [])) in
  save example_heap default_index (Some "run") (Some 1%Z) "out" (mkFS 0 [])
    = (Ok tt, fs1) /\
  exists r df h1,
    load fs1 (Some "run") (Some 1%Z) "out" [] = (Ok [("parameters", PFrame r)], h1) /\
    nth_error h1 r = Some df /\
    columns df = ["Unnamed: 0"; "a"; "b"].
Proof.
  split; [vm_compute; reflexivity|].
  eexists. eexists. eexists. split; [vm_compute; reflexivity|].
  split; [vm_compute; reflexivity | reflexivity].
Qed.

(** * Further properties of the module *)

(** ** [NpEncoder] *)

Lemma encode_list_ext xs ys :
  Forall2 (fun x y => json_encode x = json_encode y) xs ys ->
  json_encode (PList xs) = json_encode (PList ys).
Proof.
  induction 1 as [|x y xs ys Hxy HF IH]; [reflexivity|].
  simpl in *. rewrite Hxy.
  destruct (json_encode y); [|reflexivity].
  match type of IH with
  | option_map _ ?a = option_map _ ?b =>
      destruct a; destruct b; simpl in IH; try discriminate;
      try reflexivity; inversion IH; reflexivity
  end.
Qed.

Lemma encode_dict_ext (kvs kvs' : list (string * pyobj)) :
  Forall2 (fun kv kv' => fst kv = fst kv' /\
                         json_encode (snd kv) = json_encode (snd kv'))
          kvs kvs' ->
  json_encode (PDict kvs) = json_encode (PDict kvs').
Proof.
  induction 1 as [|[k x] [k' y] xs ys [Hk Hxy] HF IH]; [reflexivity|].
  simpl in *. subst k'. rewrite Hxy.
  destruct (json_encode y); [|reflexivity].
  match type of IH with
  | option_map _ ?a = option_map _ ?b =>
      destruct a; destruct b; simpl in IH; try discriminate;
      try reflexivity; inversion IH; reflexivity
  end.
Qed.

Lemma Forall2_map_r {A B} (R : A -> B -> Prop) (f : A -> B) l :
  Forall (fun x => R x (f x)) l -> Forall2 R l (map f l).
Proof. induction 1; simpl; constructor; assumption. Qed.

(** X1: what [json.load] reads from a document that [json.dump] wrote with
    [NpEncoder] is the value written, normalized: NumPy integers and floats
    have become Python numbers, arrays lists, and every mapping a plain
    one. *)
Theorem json_dump_then_load (v : pyobj) (j : json) :
  json_encode v = Some j -> json_load (Json j) = Ok (normalize v).
Proof.
  intros H. unfold json_load. rewrite (json_round_trip v j H). reflexivity.
Qed.

Lemma json_dump_then_load_witness :
  json_load (Json (JObj [("n", JInt 3); ("xs", JArr [JFloat (1 # 2); JNaN])]))
  = Ok (normalize (PDict [("n", PNpInt 3);
                          ("xs", PNdArray [PNpFloat (1 # 2); PNaN])])).
Proof.
  apply (json_dump_then_load
           (PDict [("n", PNpInt 3); ("xs", PNdArray [PNpFloat (1 # 2); PNaN])])).
  reflexivity.
Defined.

(** X2: the document [NpEncoder] writes does not tell a NumPy value from
    its Python counterpart: a value and its normal form are encoded alike
    (and refused alike), and normalizing twice changes nothing more. *)
Theorem json_encode_forgets_numpy_types (v : pyobj) :
  json_encode (normalize v) = json_encode v /\
  normalize (normalize v) = normalize v.
Proof.
  induction v as [v Hv|xs IH|xs IH|kvs IH|kvs IH] using pyobj_nested_ind.
  - destruct v; try contradiction; split; reflexivity.
  - rewrite normalize_list. split.
    + apply encode_list_ext. apply Forall2_flip.
      apply (Forall2_map_r (fun x y => json_encode y = json_encode x)).
      apply Forall_forall. intros x Hx. rewrite Forall_forall in IH.
      apply (IH x Hx).
    + rewrite normalize_list, map_map. f_equal. apply map_ext_in.
      intros x Hx. rewrite Forall_forall in IH. apply (IH x Hx).
  - change (normalize (PNdArray xs)) with (normalize (PList xs)).
    change (json_encode (PNdArray xs)) with (json_encode (PList xs)).
    rewrite normalize_list. split.
    + apply encode_list_ext. apply Forall2_flip.
      apply (Forall2_map_r (fun x y => json_encode y = json_encode x)).
      apply Forall_forall. intros x Hx. rewrite Forall_forall in IH.
      apply (IH x Hx).
    + rewrite normalize_list, map_map. f_equal. apply map_ext_in.
      intros x Hx. rewrite Forall_forall in IH. apply (IH x Hx).
  - rewrite normalize_dict. split.
    + apply encode_dict_ext. apply Forall2_flip.
      apply (Forall2_map_r
               (fun (kv kv' : string * pyobj) =>
                  fst kv' = fst kv /\
                  json_encode (snd kv') = json_encode (snd kv))).
      apply Forall_forall. intros kv Hkv. rewrite Forall_forall in IH.
      split; [reflexivity | apply (IH kv Hkv)].
    + rewrite normalize_dict, map_map. f_equal. apply map_ext_in.
      intros kv Hkv. rewrite Forall_forall in IH. simpl.
      f_equal. apply (IH kv Hkv).
  - change (normalize (PDataDict kvs)) with (normalize (PDict kvs)).
    change (json_encode (PDataDict kvs)) with (json_encode (PDict kvs)).
    rewrite normalize_dict. split.
    + apply encode_dict_ext. apply Forall2_flip.
      apply (Forall2_map_r
               (fun (kv kv' : string * pyobj) =>
                  fst kv' = fst kv /\
                  json_encode (snd kv') = json_encode (snd kv))).
      apply Forall_forall. intros kv Hkv. rewrite Forall_forall in IH.
      split; [reflexivity | apply (IH kv Hkv)].
    + rewrite normalize_dict, map_map. f_equal. apply map_ext_in.
      intros kv Hkv. rewrite Forall_forall in IH. simpl.
      f_equal. apply (IH kv Hkv).
Qed.

(** ** [_last_exp_id] *)

Lemma ints_refuses l d :
  In d l -> py_int (last_part "_" d) = None -> ints l = Raise ValueError.
Proof.
  induction l as [|s l IH]; intros Hin Hd; [contradiction|]. simpl.
  destruct Hin as [-> | Hin].
  - rewrite Hd. reflexivity.
  - rewrite (IH Hin Hd). destruct (py_int (last_part "_" s)); reflexivity.
Qed.

(** X3: [_last_exp_id] raises [ValueError] as soon as one entry of the
    directory contains the experiment name and ends, after its last
    underscore, in ASCII characters that do not make an integer (blanks
    around, a sign, decimal digits); the file system is left as it was. *)
Theorem last_exp_id_refuses_other_endings (name path : string) (fs : FS)
        (dirs : list string) (d : string) :
  ls (components path) fs = Ok dirs ->
  In d dirs -> contains name d = true ->
  is_ascii (last_part "_" d) = true ->
  py_int (last_part "_" d) = None ->
  _last_exp_id name path fs = (Raise ValueError, fs).
Proof.
  intros Hls Hin Hname _ Hint. unfold _last_exp_id.
  rewrite (bind_Ok _ _ _ _ _ (ls_listdir _ _ _ Hls)).
  assert (Hd : In d (filter (contains name) dirs)).
  { apply filter_In. split; assumption. }
  destruct (filter (contains name) dirs) as [|x l] eqn:E; [contradiction|].
  unfold bind, lift. rewrite (ints_refuses (x :: l) d Hd Hint). reflexivity.
Qed.

Lemma last_exp_id_refuses_other_endings_witness :
  _last_exp_id "test" "out"
    (mkFS 1 [mkNode ["out"] Dir 1; mkNode ["out"; "test_old"] Dir 1])
  = (Raise ValueError,
     mkFS 1 [mkNode ["out"] Dir 1; mkNode ["out"; "test_old"] Dir 1]).
Proof.
  apply (last_exp_id_refuses_other_endings "test" "out" _ ["test_old"] "test_old").
  - reflexivity.
  - left. reflexivity.
  - reflexivity.
  - reflexivity.
  - reflexivity.
Defined.

(** ** [DataDict.__eq__] *)

(** X4: when [A == B] and [B == A] both answer [True], the two stores have
    the same keys. *)
Theorem eq_both_ways_same_keys (h : heap) (A B : DataDict) :
  __eq__ h A (PDataDict B) = Ok true ->
  __eq__ h B (PDataDict A) = Ok true ->
  forall k, dict_has k A = dict_has k B.
Proof.
  intros HAB HBA k.
  pose proof (eq_true_keys_included h A B HAB k) as H1.
  pose proof (eq_true_keys_included h B A HBA k) as H2.
  destruct (dict_has k A), (dict_has k B); try reflexivity.
  - symmetry. apply H1. reflexivity.
  - apply H2. reflexivity.
Qed.

Lemma eq_both_ways_same_keys_witness :
  dict_has "b" [("a", PInt 1); ("b", PStr "x")]
  = dict_has "b" [("b", PStr "x"); ("a", PNpInt 1)].
Proof.
  apply (eq_both_ways_same_keys [] [("a", PInt 1); ("b", PStr "x")]
           [("b", PStr "x"); ("a", PNpInt 1)]); reflexivity.
Defined.

(** X5: for a store [A] whose entries are all tables, [A == B] answers
    [True] exactly when [B] holds, under every key of [A], a table of equal
    content ([DataFrame.equals]); what else [B] holds plays no part. *)
Theorem eq_of_table_stores (h : heap) (A B : DataDict) :
  (forall k v, In (k, v) A ->
               exists r d, v = PFrame r /\ nth_error h r = Some d) ->
  (__eq__ h A (PDataDict B) = Ok true <->
   forall k r, In (k, PFrame r) A ->
               exists r' d d',
                 dict_get k B = Some (PFrame r') /\
                 nth_error h r = Some d /\ nth_error h r' = Some d' /\
                 equals d d' = true).
Proof.
  unfold __eq__. induction A as [|[k v] A IH]; intros Htables.
  - simpl. split; [intros _ k r [] | reflexivity].
  - destruct (Htables k v (or_introl eq_refl)) as (r & d & -> & Hd).
    assert (Hrest : forall k' v', In (k', v') A ->
                      exists r' d', v' = PFrame r' /\ nth_error h r' = Some d').
    { intros k' v' Hin. apply (Htables k' v'). right. exact Hin. }
    specialize (IH Hrest). simpl. rewrite Hd.
    split.
    + intros H k0 r0 [Heq | Hin].
      * inversion Heq; subst k0 r0.
        destruct (dict_get k B) as [o|]; [|discriminate].
        destruct o as [ |b0|z0|q0| |s0|xs0|kvs0|z0|q0|xs0|r1|kvs0|t0];
          try discriminate.
        destruct (nth_error h r1) as [d'|] eqn:Hd'; [|discriminate].
        destruct (equals d d') eqn:Heq'; [|discriminate].
        exists r1, d, d'. repeat split; assumption.
      * destruct (dict_get k B) as [o|]; [|discriminate].
        destruct o as [ |b0|z0|q0| |s0|xs0|kvs0|z0|q0|xs0|r1|kvs0|t0];
          try discriminate.
        destruct (nth_error h r1) as [d'|]; [|discriminate].
        destruct (equals d d'); [|discriminate].
        exact (proj1 IH H k0 r0 Hin).
    + intros H.
      destruct (H k r (or_introl eq_refl)) as (r' & d0 & d' & HB & Hd0 & Hd' & He).
      rewrite HB, Hd'. rewrite Hd in Hd0. inversion Hd0; subst d0. rewrite He.
      apply IH. intros k0 r0 Hin. apply (H k0 r0). right. exact Hin.
Qed.

Lemma eq_of_table_stores_witness :
  __eq__ example_heap [("m", PFrame 0)] (PDataDict [("m", PFrame 0); ("x", PInt 1)])
    = Ok true <->
  forall k r, In (k, PFrame r) [("m", PFrame 0)] ->
              exists r' d d',
                dict_get k [("m", PFrame 0); ("x", PInt 1)] = Some (PFrame r') /\
                nth_error example_heap r = Some d /\
                nth_error example_heap r' = Some d' /\
                equals d d' = true.
Proof.
  apply (eq_of_table_stores example_heap [("m", PFrame 0)]).
  intros k v [H | []]. inversion H. eexists. eexists. split; reflexivity.
Defined.

Lemma entries_equal_NaN (h : heap) (items other : dict pyobj) k :
  dict_get k items = Some PNaN ->
  dict_get k other = Some PNaN ->
  entries_equal h items other <> Ok true.
Proof.
  induction items as [|[key item] items IH]; intros Hi Ho; [discriminate|].
  simpl in Hi. simpl. destruct (String.eqb k key) eqn:E.
  - apply String.eqb_eq in E. subst key. inversion Hi; subst item.
    rewrite Ho. simpl. discriminate.
  - specialize (IH Hi Ho).
    destruct (dict_get key other) as [o|]; [|discriminate].
    destruct item;
      try (destruct (py_eq h _ o) as [[|]|]; (exact IH || discriminate)).
    destruct o; try discriminate.
    destruct (nth_error h r); [|discriminate].
    destruct (nth_error h r0); [|discriminate].
    destruct (equals d d0); [exact IH | discriminate].
Qed.

(** X6: a store that holds NaN under one of its keys does not compare equal
    to itself: [A == A] never answers [True] (the entries are compared with
    [==], and NaN equals nothing). *)
Theorem eq_not_reflexive_with_NaN (h : heap) (A : DataDict) (k : string) :
  dict_get k A = Some PNaN ->
  __eq__ h A (PDataDict A) <> Ok true.
Proof.
  intros H. unfold __eq__. exact (entries_equal_NaN h A A k H H).
Qed.

Lemma eq_not_reflexive_with_NaN_witness :
  __eq__ [] [("a", PInt 1); ("score", PNaN)]
         (PDataDict [("a", PInt 1); ("score", PNaN)]) <> Ok true.
Proof.
  apply (eq_not_reflexive_with_NaN [] _ "score"). reflexivity.
Defined.

(** ** What a computation leaves of the heap *)

Section Keeps.
Variable n : nat.
Variable P : loc -> Prop.

Lemma keeps_ret {A} (Q : A -> Prop) a : Q a -> keeps n P Q (ret a).
Proof.
  intros Ha h res h' Hn H. inversion H; subst. repeat split; auto.
  intros a' Heq. inversion Heq; subst. exact Ha.
Qed.

Lemma keeps_raise {A} (Q : A -> Prop) e : keeps n P Q (raise e).
Proof.
  intros h res h' Hn H. inversion H; subst. repeat split; auto.
  intros a' Heq. discriminate.
Qed.

Lemma keeps_lift {A} (Q : A -> Prop) (r : result A) :
  (forall a, r = Ok a -> Q a) -> keeps n P Q (lift r).
Proof.
  intros Hr. destruct r as [a|e]; simpl.
  - apply keeps_ret. apply Hr. reflexivity.
  - apply keeps_raise.
Qed.

Lemma keeps_weaken {A} (Q Q' : A -> Prop) c :
  (forall a, Q a -> Q' a) -> keeps n P Q c -> keeps n P Q' c.
Proof.
  intros HQ Hc h res h' Hn H. destruct (Hc h res h' Hn H) as (H1 & H2 & H3).
  repeat split; auto.
Qed.

Lemma keeps_bind {A B} (Q : A -> Prop) (Q' : B -> Prop) c (k : A -> M heap B) :
  keeps n P Q c -> (forall a, Q a -> keeps n P Q' (k a)) ->
  keeps n P Q' (bind c k).
Proof.
  intros Hc Hk h res h' Hn H. unfold bind in H.
  destruct (c h) as [[a|e] h1] eqn:E.
  - destruct (Hc h (Ok a) h1 Hn E) as (H1 & H2 & H3).
    destruct (Hk a (H3 a eq_refl) h1 res h' H1 H) as (H4 & H5 & H6).
    split; [exact H4|]. split; [|exact H6].
    intros r Hr HP. rewrite (H5 r Hr HP). exact (H2 r Hr HP).
  - inversion H; subst. destruct (Hc h (Raise e) h' Hn E) as (H1 & H2 & _).
    repeat split; auto. intros a Heq. discriminate.
Qed.

Lemma keeps_deref r : keeps n P (fun _ => True) (deref r).
Proof.
  intros h res h' Hn H. unfold deref in H.
  destruct (nth_error h r); inversion H; subst; repeat split; auto.
Qed.

Lemma keeps_alloc df : keeps n P (fun r => (n <= r)%nat) (alloc df).
Proof.
  intros h res h' Hn H. unfold alloc in H. inversion H; subst.
  rewrite length_app. simpl. split; [lia|]. split.
  - intros r Hr _. apply nth_error_app1. lia.
  - intros a Heq. inversion Heq; subst. exact Hn.
Qed.

Lemma keeps_fresh r f : keeps n P (fun r' => (n <= r')%nat) (fresh r f).
Proof.
  unfold fresh. apply (keeps_bind (fun _ => True)); [apply keeps_deref|].
  intros df _. destruct (f df); [apply keeps_alloc | apply keeps_raise].
Qed.

Lemma keeps_in_place r f :
  (n <= r)%nat \/ P r -> keeps n P (fun _ : unit => True) (in_place r f).
Proof.
  intros Hr h res h' Hn H. unfold in_place, bind, deref in H.
  destruct (nth_error h r) as [df|] eqn:E.
  - destruct (f df) as [df'|e].
    + unfold store in H. rewrite E in H. inversion H; subst.
      rewrite list_update_length. split; [exact Hn|]. split; [|auto].
      intros r0 Hr0 HP. apply nth_error_list_update_other.
      intros ->. destruct Hr as [Hr|Hr]; [lia | contradiction].
    + inversion H; subst. repeat split; auto.
  - inversion H; subst. repeat split; auto.
Qed.

Lemma keeps_as_frame e v : keeps n P (fun r => v = PFrame r) (as_frame e v).
Proof.
  destruct v; simpl; try apply keeps_raise.
  apply keeps_ret. reflexivity.
Qed.

Lemma keeps_for_each {A B} (Q : B -> Prop) (xs : list A)
      (body : B -> A -> M heap B) :
  (forall acc x, In x xs -> Q acc -> keeps n P Q (body acc x)) ->
  forall acc, Q acc -> keeps n P Q (for_each xs acc body).
Proof.
  induction xs as [|x xs IH]; intros Hbody acc Hacc; simpl.
  - apply keeps_ret. exact Hacc.
  - apply (keeps_bind Q).
    + apply Hbody; [left; reflexivity | exact Hacc].
    + intros acc' Hacc'. apply IH; [|exact Hacc'].
      intros a x' Hx'. apply Hbody. right. exact Hx'.
Qed.

Lemma keeps_filter_m {A} (f : A -> M heap bool) (l : list A) :
  (forall x, keeps n P (fun _ => True) (f x)) ->
  keeps n P (fun l' => incl l' l) (filter_m f l).
Proof.
  intros Hf. induction l as [|x l IH]; simpl.
  - apply keeps_ret. intros y [].
  - apply (keeps_bind (fun _ => True)); [apply Hf|].
    intros b _. apply (keeps_bind (fun l' => incl l' l)); [exact IH|].
    intros l' Hl'. apply keeps_ret. destruct b.
    + intros y [<-|Hy]; [left; reflexivity | right; exact (Hl' y Hy)].
    + intros y Hy. right. exact (Hl' y Hy).
Qed.

End Keeps.

(** ** [DataDict._combine_pars] *)

Lemma keeps_iterations_of n P self :
  keeps n P (fun _ => True) (iterations_of self).
Proof.
  unfold iterations_of.
  apply (keeps_bind n P (fun _ => True)); [apply keeps_lift; auto|].
  intros lg _.
  destruct lg as [ |b0|z0|q0| |s0|xs|kvs|z0|q0|xs|r0|kvs|t0];
    try apply keeps_raise.
  - destruct (contains "iterations" s0);
      [apply keeps_raise | apply keeps_ret; exact I].
  - destruct (existsb _ xs); [apply keeps_raise | apply keeps_ret; exact I].
  - destruct (dict_get "iterations" kvs) as [v|]; [|apply keeps_ret; exact I].
    apply (keeps_bind n P (fun _ => True)); [apply keeps_lift; auto|].
    intros b _. destruct b; [|apply keeps_ret; exact I].
    apply (keeps_bind n P (fun _ => True)); [apply keeps_lift; auto|].
    intros k _. apply keeps_ret. exact I.
  - apply (keeps_bind n P (fun _ => True)); [apply keeps_deref|].
    intros df _. destruct (mem "iterations" (columns df));
      [apply keeps_raise | apply keeps_ret; exact I].
  - destruct (dict_get "iterations" kvs) as [v|]; [|apply keeps_ret; exact I].
    apply (keeps_bind n P (fun _ => True)); [apply keeps_lift; auto|].
    intros b _. destruct b; [|apply keeps_ret; exact I].
    apply (keeps_bind n P (fun _ => True)); [apply keeps_lift; auto|].
    intros k _. apply keeps_ret. exact I.
Qed.

Lemma keeps_assemble_pars n P self varied fixed :
  keeps n P (fun o => forall r, o = Some r -> (n <= r)%nat)
        (assemble_pars self varied fixed).
Proof.
  unfold assemble_pars.
  destruct (dict_get "parameters" self) as [v|];
    [|apply keeps_ret; intros r; discriminate].
  destruct v as [ |b0|z0|q0| |s0|xs|kvs|z0|q0|xs|r0|kvs|t0];
    try apply keeps_raise.
  - (* a plain mapping of fixed parameters *)
    destruct fixed; [|apply keeps_ret; intros r; discriminate].
    apply (keeps_bind n P (fun r => (n <= r)%nat)); [apply keeps_alloc|].
    intros r Hr. apply keeps_ret. intros r' Heq. inversion Heq; subst. exact Hr.
  - (* a table of varied parameters *)
    destruct varied; [|apply keeps_ret; intros r'; discriminate].
    apply (keeps_bind n P (fun r => (n <= r)%nat)); [apply keeps_fresh|].
    intros r' Hr. apply keeps_ret. intros r1 Heq. inversion Heq; subst. exact Hr.
  - (* a nested store *)
    apply (keeps_bind n P (fun r => (n <= r)%nat)); [apply keeps_alloc|].
    intros dfp0 H0.
    apply (keeps_bind n P (fun r => (n <= r)%nat)).
    { destruct varied; [|apply keeps_ret; exact H0].
      destruct (dict_get "varied" kvs) as [v|]; [|apply keeps_raise].
      destruct v; try apply keeps_raise. apply keeps_fresh. }
    intros dfp Hdfp.
    apply (keeps_bind n P (fun _ : unit => True)).
    { destruct fixed; [|apply keeps_ret; exact I].
      destruct (dict_get "fixed" kvs) as [v|]; [|apply keeps_raise].
      destruct v; try apply keeps_raise;
        (apply keeps_for_each; [|exact I]; intros acc x _ _;
         apply keeps_in_place; left; exact Hdfp). }
    intros _ _. apply keeps_ret. intros r Heq. inversion Heq; subst. exact Hdfp.
Qed.

Lemma keeps_combine_pars n P self varied fixed :
  keeps n P (fun _ => True) (_combine_pars self varied fixed).
Proof.
  unfold _combine_pars.
  apply (keeps_bind n P (fun o => forall r, o = Some r -> (n <= r)%nat));
    [apply keeps_assemble_pars|].
  intros [r|] Hr; [|apply keeps_ret; exact I].
  apply (keeps_bind n P (fun _ => True)); [apply keeps_deref|].
  intros df _. destruct (is_0_0 df); [apply keeps_ret; exact I|].
  apply (keeps_bind n P (fun _ => True)); [apply keeps_iterations_of|].
  intros k _.
  apply (keeps_bind n P (fun r1 => (n <= r1)%nat)).
  { destruct k; [apply keeps_fresh | apply keeps_ret; apply Hr; reflexivity]. }
  intros r1 Hr1.
  apply (keeps_bind n P (fun r2 => (n <= r2)%nat)); [apply keeps_fresh|].
  intros r2 Hr2.
  apply (keeps_bind n P (fun _ : unit => True));
    [apply keeps_in_place; left; exact Hr2|].
  intros _ _. apply keeps_ret. exact I.
Qed.

(** X7: [_combine_pars] works on copies: whatever the [parameters] entry is
    and however the call ends (a table, "no data" or an exception), every
    table that was on the heap before the call is afterwards what it was. *)
Theorem combine_pars_keeps_stored_tables :
  forall (self : DataDict) (varied fixed : bool) (h h' : heap)
         (res : result pyobj) (r : loc),
    _combine_pars self varied fixed h = (res, h') ->
    (r < List.length h)%nat ->
    nth_error h' r = nth_error h r.
Proof.
  intros self varied fixed h h' res r H Hr.
  destruct (keeps_combine_pars (List.length h) (fun _ => False)
              self varied fixed h res h' (Nat.le_refl _) H) as (_ & Hkeep & _).
  apply Hkeep; [exact Hr | intros []].
Qed.

Lemma combine_pars_keeps_stored_tables_witness :
  nth_error
    (snd (_combine_pars [("log", example_log);
                         ("parameters",
                          PDataDict [("varied", PFrame 3);
                                     ("fixed", PDict [("c", PInt 1)])])]
                        true true example_heap)) 3
  = Some varied_pars.
Proof.
  apply (combine_pars_keeps_stored_tables
           [("log", example_log);
            ("parameters",
             PDataDict [("varied", PFrame 3); ("fixed", PDict [("c", PInt 1)])])]
           true true example_heap _
           (fst (_combine_pars
                   [("log", example_log);
                    ("parameters",
                     PDataDict [("varied", PFrame 3);
                                ("fixed", PDict [("c", PInt 1)])])]
                   true true example_heap)) 3).
  - apply surjective_pairing.
  - simpl. lia.
Defined.

Lemma range_index_length cells :
  List.length (range_index cells) = List.length cells.
Proof.
  rewrite <- (length_map snd), range_index_cells. reflexivity.
Qed.

(** X8: every table [_combine_pars] returns is a new one under the single
    index level [run_id], whose keys count the rows from 0. *)
Theorem combine_pars_numbers_the_runs :
  forall (self : DataDict) (varied fixed : bool) (h h' : heap) (r : loc),
    _combine_pars self varied fixed h = (Ok (PFrame r), h') ->
    exists df,
      nth_error h' r = Some df /\
      (List.length h <= r)%nat /\
      index_names df = [Some "run_id"] /\
      map fst (rows df) = map (fun i => [i]) (range (List.length (rows df))).
Proof.
  intros self varied fixed h h' r H.
  pose proof (keeps_assemble_pars 0 (fun _ => False) self varied fixed) as Hk0.
  unfold _combine_pars in H.
  apply bind_inv in H. destruct H as (dfp & h1 & Hasm & H).
  assert (Hlen1 : (List.length h <= List.length h1)%nat).
  { exact (proj1 (keeps_assemble_pars (List.length h) (fun _ => False)
                    self varied fixed h _ h1 (Nat.le_refl _) Hasm)). }
  destruct dfp as [r0|]; [|discriminate].
  apply bind_inv in H. destruct H as (df0 & h2 & Hd & H).
  apply deref_inv in Hd. destruct Hd as [-> Hr0].
  destruct (is_0_0 df0); [discriminate|].
  apply bind_inv in H. destruct H as (k & h3 & Hit & H).
  assert (Hlen3 : (List.length h1 <= List.length h3)%nat).
  { exact (proj1 (keeps_iterations_of (List.length h1) (fun _ => False)
                    self h1 _ h3 (Nat.le_refl _) Hit)). }
  apply bind_inv in H. destruct H as (r1 & h4 & Hr1 & H).
  assert (Hlen4 : (List.length h3 <= List.length h4)%nat).
  { destruct k.
    - apply fresh_inv in Hr1. destruct Hr1 as (x1 & x2 & _ & _ & _ & Hh4).
      rewrite Hh4, length_app. lia.
    - inversion Hr1. lia. }
  apply bind_inv in H. destruct H as (r2 & h5 & Hr2 & H).
  apply fresh_inv in Hr2. destruct Hr2 as (d1 & d2 & Hd1 & Hd2 & -> & ->).
  apply bind_inv in H. destruct H as ([] & h6 & Hin & H).
  apply in_place_inv in Hin. destruct Hin as (d3 & d4 & Hd3 & Hd4 & ->).
  inversion H. subst. clear H.
  rewrite nth_error_alloc in Hd3. inversion Hd3; subst d3.
  inversion Hd2; subst d2. inversion Hd4; subst d4.
  eexists. split.
  - apply nth_error_list_update_same. rewrite length_app. simpl. lia.
  - split; [lia|]. split; [reflexivity|].
    cbn [rows set_index_name reset_index_drop].
    rewrite range_index_keys, range_index_length. reflexivity.
Qed.

Lemma combine_pars_numbers_the_runs_witness :
  exists df,
    nth_error
      (snd (_combine_pars three_iterations true true example_heap)) 7 = Some df /\
    (List.length example_heap <= 7)%nat /\
    index_names df = [Some "run_id"] /\
    map fst (rows df) = map (fun i => [i]) (range (List.length (rows df))).
Proof.
  apply (combine_pars_numbers_the_runs three_iterations true true example_heap).
  reflexivity.
Defined.

(** X9: fixed parameters held in a plain mapping, in a run whose log names
    no iterations, come out as a table of one row: a column for every
    parameter, in the order of the mapping, under the [run_id] 0. *)
Theorem combine_pars_of_fixed_mapping :
  forall (self : DataDict) (p lg : dict pyobj) (varied : bool) (h : heap),
    dict_get "parameters" self = Some (PDict p) ->
    p <> [] ->
    dict_get "log" self = Some (PDict lg) ->
    dict_get "iterations" lg = None ->
    _combine_pars self varied true h
    = (Ok (PFrame (S (List.length h))),
       h ++ [frame_of_dict p;
             mkDF [Some "run_id"] (dict_keys p) [([PInt 0], map snd p)]]).
Proof.
  intros self p lg varied h Hp Hne Hlog Hit.
  destruct p as [|kv p]; [contradiction|].
  unfold _combine_pars, assemble_pars. rewrite Hp.
  cbv [bind alloc ret deref]. rewrite nth_error_alloc.
  change (is_0_0 (frame_of_dict (kv :: p))) with false. cbv iota.
  unfold iterations_of, getattr. rewrite Hlog. cbv [lift bind ret].
  rewrite Hit. cbv [fresh bind deref ret alloc].
  rewrite nth_error_alloc. cbv iota beta.
  cbv [in_place bind deref]. rewrite nth_error_alloc. cbv iota beta.
  unfold store. rewrite nth_error_alloc. rewrite list_update_last.
  rewrite length_app, Nat.add_1_r, <- app_assoc. reflexivity.
Qed.

Lemma combine_pars_of_fixed_mapping_witness :
  _combine_pars [("log", PDict [("name", PStr "test")]);
                 ("parameters", PDict [("x", PInt 1)])] true true []
  = (Ok (PFrame 1),
     [frame_of_dict [("x", PInt 1)];
      mkDF [Some "run_id"] ["x"] [([PInt 0], [PInt 1])]]).
Proof.
  apply (combine_pars_of_fixed_mapping
           [("log", PDict [("name", PStr "test")]);
            ("parameters", PDict [("x", PInt 1)])]
           [("x", PInt 1)] [("name", PStr "test")] true []).
  - reflexivity.
  - discriminate.
  - reflexivity.
  - reflexivity.
Defined.

(** ** [DataDict._combine_vars] and [DataDict.arrange] *)

Section KeepsVariables.
Variable n : nat.
Variable self : DataDict.

(** The tables the store holds for the category of the model. *)
Let model_table (r : loc) : Prop :=
  exists m, model_type_of self = Ok (PStr m) /\ In (m, PFrame r) (categories self).

Lemma keeps_has_any_column ks v :
  keeps n model_table (fun _ => True) (has_any_column ks v).
Proof.
  unfold has_any_column. destruct ks as [|k ks]; [apply keeps_ret; exact I|].
  apply (keeps_bind n model_table (fun _ => True)).
  - apply (keeps_weaken n model_table (fun r => v = PFrame r));
      [auto | apply keeps_as_frame].
  - intros r _. apply (keeps_bind n model_table (fun _ => True));
      [apply keeps_deref|]. intros df _. apply keeps_ret. exact I.
Qed.

Lemma keeps_tables_of d : keeps n model_table (fun _ => True) (tables_of d).
Proof.
  induction d as [|[k v] d IH]; simpl; [apply keeps_ret; exact I|].
  destruct v; try apply keeps_raise; [exact IH|].
  apply (keeps_bind n model_table (fun _ => True)); [apply keeps_deref|].
  intros df _. apply (keeps_bind n model_table (fun _ => True)); [exact IH|].
  intros rest _. apply keeps_ret. exact I.
Qed.

Lemma keeps_add_obj_id mt d2 :
  model_type_of self = Ok mt ->
  incl d2 (categories self) ->
  keeps n model_table (fun _ => True) (add_obj_id mt d2).
Proof.
  intros Hmt Hincl. unfold add_obj_id.
  destruct mt; try (apply keeps_ret; exact I).
  destruct (dict_get s d2) as [v|] eqn:Hget; [|apply keeps_ret; exact I].
  apply (keeps_bind n model_table (fun r => v = PFrame r));
    [apply keeps_as_frame|].
  intros r ->.
  apply (keeps_bind n model_table (fun _ : unit => True)).
  { apply keeps_in_place. right. exists s. split; [exact Hmt|].
    apply Hincl. exact (dict_get_In _ _ _ Hget). }
  intros _ _.
  apply (keeps_bind n model_table (fun _ => True)); [apply keeps_deref|].
  intros d _.
  apply (keeps_bind n model_table (fun r1 => (n <= r1)%nat)); [apply keeps_fresh|].
  intros r1 _.
  apply (keeps_bind n model_table (fun r2 => (n <= r2)%nat)); [apply keeps_fresh|].
  intros r2 _. apply keeps_ret. exact I.
Qed.

Lemma keeps_combine_tables vs obj_types var_keys :
  categories self = vs ->
  keeps n model_table (fun v => forall r, v = PFrame r -> (n <= r)%nat)
        (combine_tables self vs obj_types var_keys).
Proof.
  intros Hvs. unfold combine_tables.
  apply (keeps_bind n model_table (fun d1 => incl d1 vs)).
  { destruct var_keys as [|ks].
    - apply keeps_ret. apply incl_refl.
    - apply keeps_filter_m. intros x. apply keeps_has_any_column. }
  intros d1 Hd1.
  apply (keeps_bind n model_table (fun mt => model_type_of self = Ok mt)).
  { apply keeps_lift. auto. }
  intros mt Hmt.
  apply (keeps_bind n model_table (fun _ => True)).
  { apply keeps_add_obj_id; [exact Hmt|]. rewrite Hvs.
    destruct obj_types as [|ts]; [exact Hd1|].
    intros x Hx. apply filter_In in Hx. apply Hd1. exact (proj1 Hx). }
  intros d3 _. destruct d3 as [|kv d3];
    [apply keeps_ret; intros r; discriminate|].
  apply (keeps_bind n model_table (fun _ => True)); [apply keeps_tables_of|].
  intros tables _.
  apply (keeps_bind n model_table (fun _ => True)); [apply keeps_lift; auto|].
  intros joined _.
  apply (keeps_bind n model_table (fun r => (n <= r)%nat)); [apply keeps_alloc|].
  intros df Hdf.
  apply (keeps_bind n model_table (fun _ : unit => True));
    [apply keeps_in_place; left; exact Hdf|].
  intros _ _. destruct var_keys as [|ks].
  - apply keeps_ret. intros r Heq. inversion Heq; subst. exact Hdf.
  - apply (keeps_bind n model_table (fun r => (n <= r)%nat));
      [apply keeps_fresh|].
    intros df' Hdf'. apply keeps_ret. intros r Heq. inversion Heq; subst.
    exact Hdf'.
Qed.

Lemma keeps_combine_vars obj_types var_keys :
  keeps n model_table (fun _ => True) (_combine_vars self obj_types var_keys).
Proof.
  unfold _combine_vars.
  assert (Hcat : categories self
                 = match dict_get "variables" self with
                   | Some (PDataDict vs) | Some (PDict vs) => vs
                   | _ => []
                   end) by reflexivity.
  destruct (dict_get "variables" self) as [v|]; [|apply keeps_ret; exact I].
  destruct v as [ |b0|z0|q0| |s0|xs|kvs|z0|q0|xs|r0|kvs|t0];
    try apply keeps_raise.
  - apply (keeps_weaken n model_table
             (fun v => forall r, v = PFrame r -> (n <= r)%nat)); [auto|].
    apply keeps_combine_tables. exact Hcat.
  - apply keeps_ret. exact I.
  - destruct kvs as [|[k v] [|kv2 kvs]].
    + apply (keeps_weaken n model_table
               (fun v => forall r, v = PFrame r -> (n <= r)%nat)); [auto|].
      apply keeps_combine_tables. exact Hcat.
    + apply keeps_ret. exact I.
    + apply (keeps_weaken n model_table
               (fun v => forall r, v = PFrame r -> (n <= r)%nat)); [auto|].
      apply keeps_combine_tables. exact Hcat.
Qed.

Lemma keeps_combine_vars_measures dfv dfm :
  keeps n model_table (fun _ => True) (combine_vars_measures dfv dfm).
Proof.
  assert (Hjoin : forall dfv dfm,
    keeps n model_table (fun _ => True)
      (rv <- as_frame AttributeError dfv ;;
       v <- deref rv ;;
       rm <- as_frame AttributeError dfm ;;
       rm' <- fresh rm reset_index ;;
       rv' <- fresh rv reset_index ;;
       m' <- deref rm' ;;
       v' <- deref rv' ;;
       joined <- lift (concat_frames [m'; v']) ;;
       df <- alloc joined ;;
       df' <- fresh df (set_index (index_names v)) ;;
       ret (PFrame df'))).
  { intros v m.
    apply (keeps_bind n model_table (fun _ => True)).
    { apply (keeps_weaken n model_table (fun r => v = PFrame r));
        [auto | apply keeps_as_frame]. }
    intros rv _.
    apply (keeps_bind n model_table (fun _ => True)); [apply keeps_deref|].
    intros dv _.
    apply (keeps_bind n model_table (fun _ => True)).
    { apply (keeps_weaken n model_table (fun r => m = PFrame r));
        [auto | apply keeps_as_frame]. }
    intros rm _.
    apply (keeps_bind n model_table (fun r => (n <= r)%nat)); [apply keeps_fresh|].
    intros rm' _.
    apply (keeps_bind n model_table (fun r => (n <= r)%nat)); [apply keeps_fresh|].
    intros rv' _.
    apply (keeps_bind n model_table (fun _ => True)); [apply keeps_deref|].
    intros m' _.
    apply (keeps_bind n model_table (fun _ => True)); [apply keeps_deref|].
    intros v' _.
    apply (keeps_bind n model_table (fun _ => True)); [apply keeps_lift; auto|].
    intros joined _.
    apply (keeps_bind n model_table (fun r => (n <= r)%nat)); [apply keeps_alloc|].
    intros df _.
    apply (keeps_bind n model_table (fun r => (n <= r)%nat)); [apply keeps_fresh|].
    intros df' _. apply keeps_ret. exact I. }
  unfold combine_vars_measures.
  destruct dfv; destruct dfm; try (apply keeps_ret; exact I); apply Hjoin.
Qed.

Lemma keeps_arrange_tail df1 scenarios index :
  keeps n model_table (fun _ => True)
    (match df1 with
     | PNone => ret PNone
     | _ =>
         df2 <- match scenarios with
                | All => ret df1
                | Names scs =>
                    r <- as_frame AttributeError df1 ;;
                    d <- deref r ;;
                    if existsb (name_eqb (Some "scenario")) (index_names d)
                    then r' <- fresh r (query_scenario scs) ;; ret (PFrame r')
                    else ret df1
                end ;;
         if index : bool then ret df2
         else
           r <- as_frame AttributeError df2 ;;
           r' <- fresh r reset_index ;;
           ret (PFrame r')
     end).
Proof.
  assert (Htail :
    keeps n model_table (fun _ => True)
      (df2 <- match scenarios with
              | All => ret df1
              | Names scs =>
                  r <- as_frame AttributeError df1 ;;
                  d <- deref r ;;
                  if existsb (name_eqb (Some "scenario")) (index_names d)
                  then r' <- fresh r (query_scenario scs) ;; ret (PFrame r')
                  else ret df1
              end ;;
       if index : bool then ret df2
       else
         r <- as_frame AttributeError df2 ;;
         r' <- fresh r reset_index ;;
         ret (PFrame r'))).
  { apply (keeps_bind n model_table (fun _ => True)).
    { destruct scenarios as [|scs]; [apply keeps_ret; exact I|].
      apply (keeps_bind n model_table (fun _ => True)).
      { apply (keeps_weaken n model_table (fun r => df1 = PFrame r));
          [auto | apply keeps_as_frame]. }
      intros r _.
      apply (keeps_bind n model_table (fun _ => True)); [apply keeps_deref|].
      intros d _. destruct (existsb _ (index_names d));
        [|apply keeps_ret; exact I].
      apply (keeps_bind n model_table (fun r => (n <= r)%nat));
        [apply keeps_fresh|].
      intros r' _. apply keeps_ret. exact I. }
    intros df2 _. destruct index; [apply keeps_ret; exact I|].
    apply (keeps_bind n model_table (fun _ => True)).
    { apply (keeps_weaken n model_table (fun r => df2 = PFrame r));
        [auto | apply keeps_as_frame]. }
    intros r _.
    apply (keeps_bind n model_table (fun r => (n <= r)%nat)); [apply keeps_fresh|].
    intros r' _. apply keeps_ret. exact I. }
  destruct df1; try exact Htail. apply keeps_ret. exact I.
Qed.

Lemma keeps_arrange_without_parameters variables measures obj_types scenarios index :
  keeps n model_table (fun _ => True)
        (arrange self variables measures None obj_types scenarios index).
Proof.
  unfold arrange.
  apply (keeps_bind n model_table (fun _ => True)).
  { destruct variables as [var_keys|]; [apply keeps_combine_vars|].
    apply keeps_ret. exact I. }
  intros dfv _.
  apply (keeps_bind n model_table (fun _ => True)).
  { destruct measures as [sel|]; [|apply keeps_ret; exact I].
    apply (keeps_bind n model_table (fun _ => True)); [apply keeps_lift; auto|].
    intros m _. destruct sel as [|ks]; [apply keeps_ret; exact I|].
    apply (keeps_bind n model_table (fun _ => True)).
    { apply (keeps_weaken n model_table (fun r => m = PFrame r));
        [auto | apply keeps_as_frame]. }
    intros r _.
    apply (keeps_bind n model_table (fun r => (n <= r)%nat)); [apply keeps_fresh|].
    intros r' _. apply keeps_ret. exact I. }
  intros dfm _.
  apply (keeps_bind n model_table (fun dfp => dfp = PNone));
    [apply keeps_ret; reflexivity|].
  intros dfp ->.
  apply (keeps_bind n model_table (fun _ => True));
    [apply keeps_combine_vars_measures|].
  intros df0 _.
  apply (keeps_bind n model_table (fun _ => True)).
  { unfold combine_with_pars. apply keeps_ret. exact I. }
  intros df1 _. apply keeps_arrange_tail.
Qed.

End KeepsVariables.

(** X10: the only table of the heap that [_combine_vars] changes is the
    stored table of the model's category: however the call ends, a table
    that is not held under the key [log.model_type] of the [variables]
    mapping is afterwards what it was. *)
Theorem combine_vars_writes_only_model_table :
  forall (self : DataDict) (obj_types var_keys : selector) (h h' : heap)
         (res : result pyobj) (r : loc),
    _combine_vars self obj_types var_keys h = (res, h') ->
    (r < List.length h)%nat ->
    (forall m, model_type_of self = Ok (PStr m) ->
               ~ In (m, PFrame r) (categories self)) ->
    nth_error h' r = nth_error h r.
Proof.
  intros self obj_types var_keys h h' res r H Hr Hmodel.
  destruct (keeps_combine_vars (List.length h) self obj_types var_keys
              h res h' (Nat.le_refl _) H) as (_ & Hkeep & _).
  apply Hkeep; [exact Hr|]. intros (m & Hm & Hin). exact (Hmodel m Hm Hin).
Qed.

Lemma combine_vars_writes_only_model_table_witness :
  nth_error (snd (_combine_vars two_categories All All example_heap)) 1
  = nth_error example_heap 1.
Proof.
  apply (combine_vars_writes_only_model_table two_categories All All
           example_heap _
           (fst (_combine_vars two_categories All All example_heap)) 1).
  - apply surjective_pairing.
  - simpl. lia.
  - intros m Hm. inversion Hm; subst m. simpl.
    intros [H | [H | []]]; discriminate H.
Defined.

(** X11: without a request for parameters, [arrange] changes no table of
    the heap but the stored table of the model's category: the measures,
    the other categories and every other table are afterwards what they
    were, however the call ends. *)
Theorem arrange_without_parameters_writes_only_model_table :
  forall (self : DataDict) (variables measures : option selector)
         (obj_types scenarios : selector) (index : bool) (h h' : heap)
         (res : result pyobj) (r : loc),
    arrange self variables measures None obj_types scenarios index h = (res, h') ->
    (r < List.length h)%nat ->
    (forall m, model_type_of self = Ok (PStr m) ->
               ~ In (m, PFrame r) (categories self)) ->
    nth_error h' r = nth_error h r.
Proof.
  intros self variables measures obj_types scenarios index h h' res r H Hr Hmodel.
  destruct (keeps_arrange_without_parameters (List.length h) self variables
              measures obj_types scenarios index h res h' (Nat.le_refl _) H)
    as (_ & Hkeep & _).
  apply Hkeep; [exact Hr|]. intros (m & Hm & Hin). exact (Hmodel m Hm Hin).
Qed.

Lemma arrange_without_parameters_writes_only_model_table_witness :
  nth_error
    (snd (arrange (two_categories ++ [("measures", PFrame 2)])
                  (Some All) (Some All) None All All false example_heap)) 2
  = nth_error example_heap 2.
Proof.
  apply (arrange_without_parameters_writes_only_model_table
           (two_categories ++ [("measures", PFrame 2)])
           (Some All) (Some All) All All false example_heap _
           (fst (arrange (two_categories ++ [("measures", PFrame 2)])
                         (Some All) (Some All) None All All false example_heap))
           2).
  - apply surjective_pairing.
  - simpl. lia.
  - intros m Hm. inversion Hm; subst m. simpl.
    intros [H | [H | []]]; discriminate H.
Defined.

Lemma select_columns_columns ks df df' :
  select_columns ks df = Ok df' -> columns df' = ks.
Proof.
  unfold select_columns. destruct (forallb _ ks); [|discriminate].
  intros H. inversion H. reflexivity.
Qed.

(** X12: for a [variables] mapping of several categories and a request for
    the columns [ks], the table [_combine_vars] returns has exactly the
    columns [ks], in the order of the request. *)
Theorem combine_vars_selects_columns :
  forall (self : DataDict) (vs : dict pyobj) (obj_types : selector)
         (ks : list string) (h h' : heap) (out : loc),
    dict_get "variables" self = Some (PDataDict vs) ->
    (2 <= List.length vs)%nat ->
    _combine_vars self obj_types (Names ks) h = (Ok (PFrame out), h') ->
    exists df, nth_error h' out = Some df /\ columns df = ks.
Proof.
  intros self vs obj_types ks h h' out Hvars Hlen H.
  unfold _combine_vars in H. rewrite Hvars in H.
  destruct vs as [|kv1 [|kv2 vs]]; try (simpl in Hlen; lia).
  destruct kv1 as [k1 v1]. unfold combine_tables in H.
  apply bind_inv in H. destruct H as (d1 & h1 & _ & H).
  apply bind_inv in H. destruct H as (mt & h2 & _ & H).
  apply bind_inv in H. destruct H as (d3 & h3 & _ & H).
  destruct d3 as [|kv3 d3]; [discriminate|].
  apply bind_inv in H. destruct H as (tables & h4 & _ & H).
  apply bind_inv in H. destruct H as (joined & h5 & _ & H).
  apply bind_inv in H. destruct H as (df & h6 & _ & H).
  apply bind_inv in H. destruct H as (u & h7 & _ & H).
  apply bind_inv in H. destruct H as (r' & h8 & Hsel & H).
  apply fresh_inv in Hsel. destruct Hsel as (x & chosen & _ & Hchosen & Hr' & Hh8).
  inversion H; subst. exists chosen. split; [apply nth_error_alloc|].
  exact (select_columns_columns _ _ _ Hchosen).
Qed.

Lemma combine_vars_selects_columns_witness :
  exists df,
    nth_error (snd (_combine_vars two_categories All (Names ["pop"; "x"])
                                  example_heap)) 8 = Some df /\
    columns df = ["pop"; "x"].
Proof.
  apply (combine_vars_selects_columns two_categories
           [("Model", PFrame 0); ("Agent", PFrame 1)] All ["pop"; "x"]
           example_heap).
  - reflexivity.
  - simpl. lia.
  - reflexivity.
Defined.

(** X13: when the selection of object types leaves no category of a
    [variables] mapping of several categories, [_combine_vars] answers "no
    data" and leaves the heap as it is, provided the log names a model
    type. *)
Theorem combine_vars_nothing_selected :
  forall (self : DataDict) (vs : dict pyobj) (ts : list string) (mt : pyobj)
         (h : heap),
    dict_get "variables" self = Some (PDataDict vs) ->
    (2 <= List.length vs)%nat ->
    (forall kv, In kv vs -> mem (fst kv) ts = false) ->
    model_type_of self = Ok mt ->
    _combine_vars self (Names ts) All h = (Ok PNone, h).
Proof.
  intros self vs ts mt h Hvars Hlen Hts Hmt.
  unfold _combine_vars. rewrite Hvars.
  assert (Hrun : combine_tables self vs (Names ts) All h = (Ok PNone, h)).
  { unfold combine_tables. cbv [bind ret]. rewrite Hmt. cbv [lift ret].
    rewrite (filter_nothing (fun kv : string * pyobj => mem (fst kv) ts) vs Hts).
    unfold add_obj_id. destruct mt; reflexivity. }
  destruct vs as [|kv1 [|kv2 vs]]; try (simpl in Hlen; lia).
  destruct kv1 as [k1 v1]. exact Hrun.
Qed.

Lemma combine_vars_nothing_selected_witness :
  _combine_vars two_categories (Names ["Firm"]) All example_heap
  = (Ok PNone, example_heap).
Proof.
  apply (combine_vars_nothing_selected two_categories
           [("Model", PFrame 0); ("Agent", PFrame 1)] ["Firm"] (PStr "Model")).
  - reflexivity.
  - simpl. lia.
  - intros kv [<- | [<- | []]]; reflexivity.
  - reflexivity.
Defined.

Lemma reset_index_flat df df' :
  reset_index df = Ok df' ->
  index_names df' = [None] /\
  map fst (rows df') = map (fun i => [i]) (range (List.length (rows df'))).
Proof.
  unfold reset_index. destruct (_ && _); [|discriminate].
  intros H. inversion H. split; [reflexivity|].
  cbn [rows]. rewrite range_index_keys, range_index_length. reflexivity.
Qed.

Lemma reset_index_step df2 h r h' :
  (r0 <- as_frame AttributeError df2 ;;
   r' <- fresh r0 reset_index ;;
   ret (PFrame r')) h = (Ok (PFrame r), h') ->
  exists df,
    nth_error h' r = Some df /\
    index_names df = [None] /\
    map fst (rows df) = map (fun i => [i]) (range (List.length (rows df))).
Proof.
  intros H. apply bind_inv in H. destruct H as (r0 & h1 & _ & H).
  apply bind_inv in H. destruct H as (r' & h2 & Hfresh & H).
  apply fresh_inv in Hfresh. destruct Hfresh as (x & flat & _ & Hflat & Hr' & Hh2).
  inversion H; subst. exists flat. split; [apply nth_error_alloc|].
  exact (reset_index_flat _ _ Hflat).
Qed.

(** X14: a table that [arrange] returns under the default [index=False] is
    a flat one: it has the default index, whose keys count the rows from
    0; the index levels of the arranged data have become columns. *)
Theorem arrange_is_flat_by_default :
  forall (self : DataDict) (variables measures : option selector)
         (parameters : option par_selector) (obj_types scenarios : selector)
         (h h' : heap) (r : loc),
    arrange self variables measures parameters obj_types scenarios false h
      = (Ok (PFrame r), h') ->
    exists df,
      nth_error h' r = Some df /\
      index_names df = [None] /\
      map fst (rows df) = map (fun i => [i]) (range (List.length (rows df))).
Proof.
  intros self variables measures parameters obj_types scenarios h h' r H.
  unfold arrange in H.
  apply bind_inv in H. destruct H as (dfv & h1 & _ & H).
  apply bind_inv in H. destruct H as (dfm & h2 & _ & H).
  apply bind_inv in H. destruct H as (dfp & h3 & _ & H).
  apply bind_inv in H. destruct H as (df0 & h4 & _ & H).
  apply bind_inv in H. destruct H as (df1 & h5 & _ & H).
  destruct df1; try discriminate;
    (apply bind_inv in H; destruct H as (df2 & h6 & _ & H);
     exact (reset_index_step _ _ _ _ H)).
Qed.

Lemma arrange_is_flat_by_default_witness :
  exists df,
    nth_error (snd (arrange two_categories (Some All) None None All All false
                            example_heap)) 8 = Some df /\
    index_names df = [None] /\
    map fst (rows df) = map (fun i => [i]) (range (List.length (rows df))).
Proof.
  apply (arrange_is_flat_by_default two_categories (Some All) None None All All
           example_heap).
  reflexivity.
Defined.

Lemma no_scenario_level names :
  existsb (name_eqb (Some "scenario")) names = false ->
  level_pos "scenario" names = None.
Proof.
  induction names as [|nm names IH]; cbn [existsb level_pos]; [reflexivity|].
  intros H. apply orb_false_iff in H. destruct H as [Hn H].
  rewrite (IH H).
  destruct nm as [s|]; [|reflexivity].
  unfold name_eqb in *. rewrite String.eqb_sym, Hn. reflexivity.
Qed.

(** X15: with [index=True] and a list of scenarios, every row of the table
    [arrange] returns belongs to one of the scenarios asked for, as far as
    the table has an index level [scenario] at all. *)
Theorem arrange_selects_scenarios :
  forall (self : DataDict) (variables measures : option selector)
         (parameters : option par_selector) (obj_types : selector)
         (scs : list string) (h h' : heap) (r : loc),
    arrange self variables measures parameters obj_types (Names scs) true h
      = (Ok (PFrame r), h') ->
    exists df,
      nth_error h' r = Some df /\
      forall i row,
        level_pos "scenario" (index_names df) = Some i ->
        In row (rows df) ->
        exists s, nth i (fst row) PNaN = PStr s /\ In s scs.
Proof.
  intros self variables measures parameters obj_types scs h h' r H.
  unfold arrange in H.
  apply bind_inv in H. destruct H as (dfv & h1 & _ & H).
  apply bind_inv in H. destruct H as (dfm & h2 & _ & H).
  apply bind_inv in H. destruct H as (dfp & h3 & _ & H).
  apply bind_inv in H. destruct H as (df0 & h4 & _ & H).
  apply bind_inv in H. destruct H as (df1 & h5 & _ & H).
  assert (Hstep : forall df2 h6,
    (r0 <- as_frame AttributeError df1 ;;
     d <- deref r0 ;;
     if existsb (name_eqb (Some "scenario")) (index_names d)
     then r' <- fresh r0 (query_scenario scs) ;; ret (PFrame r')
     else ret df1) h5 = (Ok df2, h6) ->
    ret df2 h6 = (Ok (PFrame r), h') ->
    exists df,
      nth_error h' r = Some df /\
      forall i row,
        level_pos "scenario" (index_names df) = Some i ->
        In row (rows df) ->
        exists s, nth i (fst row) PNaN = PStr s /\ In s scs).
  { intros df2 h6 Hsel Hret. inversion Hret; subst df2 h6. clear Hret.
    apply bind_inv in Hsel. destruct Hsel as (r0 & h7 & Hr0 & Hsel).
    assert (df1 = PFrame r0 /\ h7 = h5) as [-> ->].
    { destruct df1; try discriminate. inversion Hr0. auto. }
    apply bind_inv in Hsel. destruct Hsel as (d & h8 & Hd & Hsel).
    apply deref_inv in Hd. destruct Hd as [-> Hd].
    destruct (existsb (name_eqb (Some "scenario")) (index_names d)) eqn:E.
    - apply bind_inv in Hsel. destruct Hsel as (r' & h9 & Hq & Hsel).
      apply fresh_inv in Hq. destruct Hq as (x & chosen & Hx & Hchosen & Hr' & Hh9).
      inversion Hsel; subst. exists chosen. split; [apply nth_error_alloc|].
      unfold query_scenario in Hchosen.
      destruct (level_pos "scenario" (index_names x)) as [j|] eqn:Hj;
        [|discriminate].
      inversion Hchosen; subst chosen. cbn [index_names rows].
      intros i row Hi Hrow. rewrite Hj in Hi. inversion Hi; subst j.
      apply filter_In in Hrow. destruct Hrow as [_ Hrow].
      destruct (nth i (fst row) PNaN); try discriminate.
      exists s. split; [reflexivity | apply mem_In; exact Hrow].
    - inversion Hsel; subst. exists d. split; [exact Hd|].
      intros i row Hi. rewrite (no_scenario_level _ E) in Hi. discriminate. }
  destruct df1; try discriminate;
    (apply bind_inv in H; destruct H as (df2 & h6 & Hsel & H);
     exact (Hstep df2 h6 Hsel H)).
Qed.

Lemma arrange_selects_scenarios_witness :
  exists df,
    nth_error (snd (arrange [("measures", PFrame 0)] None (Some All) None All
                            (Names ["alt"]) true [scenario_measures])) 1
      = Some df /\
    forall i row,
      level_pos "scenario" (index_names df) = Some i ->
      In row (rows df) ->
      exists s, nth i (fst row) PNaN = PStr s /\ In s ["alt"].
Proof.
  apply (arrange_selects_scenarios [("measures", PFrame 0)] None (Some All)
           None All ["alt"] [scenario_measures]).
  reflexivity.
Defined.

(** ** [DataDict.save] *)

(** X16: an entry that is not a nested store, saved into an existing
    directory that holds no file of its name, leaves exactly the file of
    the entry: the CSV file of a table (the JSON file opened for it by the
    second branch is removed again), the JSON document of a value that can
    be serialised, and nothing for a value that cannot; [save_entry]
    succeeds in each case. *)
Theorem save_entry_leaves_the_file_of_the_entry :
  forall (h : heap) (dir name : string) (v : pyobj)
         (L : list (string * content)) (fs : FS),
    has_char "/" name = false ->
    (forall d, v <> PDataDict d) ->
    (forall r, v = PFrame r -> nth_error h r <> None) ->
    is_dir (components dir) fs = true ->
    children (components dir) fs = as_files L ->
    ~ In (name ++ ".csv")%string (map fst L) ->
    ~ In (name ++ ".json")%string (map fst L) ->
    exists fs',
      save_entry h dir name v fs = (Ok tt, fs') /\
      is_dir (components dir) fs' = true /\
      children (components dir) fs' = as_files (L ++ files_of h name v).
Proof.
  intros h dir name v L fs Hname Hnested Htable Hdir Hch Hcsv Hjson.
  assert (Hvalue : (forall r, v <> PFrame r) ->
    exists fs',
      save_entry h dir name v fs = (Ok tt, fs') /\
      is_dir (components dir) fs' = true /\
      children (components dir) fs' = as_files (L ++ file_of_value name v)).
  { intros Hnf.
    exact (save_value (components dir) dir eq_refl name v h L fs
             Hname Hnf Hnested Hdir Hch Hjson). }
  destruct v; try (apply Hvalue; intros r'; discriminate).
  destruct (nth_error h r) as [df|] eqn:Hr.
  - destruct (save_table (components dir) dir eq_refl name r df h L fs
                Hname Hr Hdir Hch Hcsv Hjson) as (fs' & Hrun & Hd & Hc).
    exists fs'. split; [exact Hrun|]. split; [exact Hd|].
    simpl files_of. unfold file_of_table. rewrite Hr. exact Hc.
  - exfalso. exact (Htable r eq_refl Hr).
Qed.

Lemma save_entry_leaves_the_file_of_the_entry_witness :
  exists fs',
    save_entry example_heap "out" "measures" (PFrame 2)
               (mkFS 1 [mkNode ["out"] Dir 1]) = (Ok tt, fs') /\
    is_dir (components "out") fs' = true /\
    children (components "out") fs'
    = as_files ([] ++ files_of example_heap "measures" (PFrame 2)).
Proof.
  apply (save_entry_leaves_the_file_of_the_entry example_heap "out" "measures"
           (PFrame 2) [] (mkFS 1 [mkNode ["out"] Dir 1])).
  - reflexivity.
  - intros d. discriminate.
  - intros r Hr. inversion Hr; subst r. discriminate.
  - reflexivity.
  - reflexivity.
  - intros [].
  - intros [].
Defined.

(** X17: [save] looks for the base path among the names of the working
    directory only.  A base path that exists and is not one of these names
    (a path of several components, or one written with a trailing slash)
    is made again, so that [save] raises [FileExistsError] and writes
    nothing, whatever the name and the id. *)
Theorem save_into_existing_nested_path_collides :
  forall (h : heap) (self : DataDict) (exp_name : option string)
         (exp_id : option Z) (path : string) (fs : FS) (here : list string)
         (k : kind),
    ls [] fs = Ok here ->
    ~ In path here ->
    components path <> [] ->
    kind_of (components path) fs = Some k ->
    save h self exp_name exp_id path fs = (Raise FileExistsError, fs).
Proof.
  intros h self exp_name exp_id path fs here k Hls Hnot Hne Hk.
  unfold save. rewrite (bind_Ok _ _ _ _ _ (ls_listdir _ _ _ Hls)).
  assert (Hmem : mem path here = false).
  { destruct (mem path here) eqn:E; [|reflexivity].
    apply mem_In in E. contradiction. }
  rewrite Hmem.
  assert (Hmk : makedirs path fs = (Raise FileExistsError, fs)).
  { unfold makedirs. destruct (components path) as [|a p]; [contradiction|].
    rewrite Hk. reflexivity. }
  unfold bind at 1. rewrite Hmk. reflexivity.
Qed.

Lemma save_into_existing_nested_path_collides_witness :
  save example_heap whole_run (Some "run") (Some 2%Z) "out/runs"
       (mkFS 2 [mkNode ["out"] Dir 1; mkNode ["out"; "runs"] Dir 2])
  = (Raise FileExistsError,
     mkFS 2 [mkNode ["out"] Dir 1; mkNode ["out"; "runs"] Dir 2]).
Proof.
  apply (save_into_existing_nested_path_collides example_heap whole_run
           (Some "run") (Some 2%Z) "out/runs" _ ["out"] Dir).
  - reflexivity.
  - intros [H | []]. discriminate H.
  - discriminate.
  - reflexivity.
Defined.

(** X18: after [save] has succeeded for a store that can be saved (see
    [persistable]) on a file system in which every node lies in a
    directory, the directory of the experiment is there and holds exactly
    the files of the store, each once and in no particular order: a CSV
    file for every table, a JSON file for every other value, named after
    the key (and after the key of the nested store). *)
Theorem save_leaves_the_files_of_the_store :
  forall (h : heap) (S : DataDict) (exp_name : string) (exp_id : Z)
         (path : string) (fs fs1 : FS),
    closed fs ->
    persistable h S ->
    save h S (Some exp_name) (Some exp_id) path fs = (Ok tt, fs1) ->
    is_dir (components (fmt_dir path (replace " " "_" exp_name) exp_id)) fs1
      = true /\
    (exists files,
        ls (components (fmt_dir path (replace " " "_" exp_name) exp_id)) fs1
          = Ok files /\
        NoDup files /\
        forall f, In f files <-> In f (map fst (store_files h S))) /\
    forall f c, In (f, c) (store_files h S) ->
                read_file (fmt_dir path (replace " " "_" exp_name) exp_id
                           ++ "/" ++ f) fs1 = Ok c.
Proof.
  intros h S exp_name exp_id path fs fs1 Hclosed Hp Hsave.
  destruct (save_result h S exp_name exp_id path fs fs1 Hclosed Hp Hsave)
    as [Hd Hch].
  split; [exact Hd|]. split.
  - exists (map fst (store_files h S)). split; [|split].
    + rewrite (ls_children _ fs1 Hd), Hch, map_fst_as_files. reflexivity.
    + exact (store_files_NoDup h S Hp).
    + intros f. reflexivity.
  - intros f c Hin.
    assert (Hsafe : has_char "/" f = false /\ f <> EmptyString).
    { unfold store_files in Hin. apply in_flat_map in Hin.
      destruct Hin as (kv & Hkv & Hin). destruct Hp as [_ Hall].
      rewrite Forall_forall in Hall.
      exact (entry_file_names h kv f c (Hall kv Hkv) Hin). }
    apply (read_file_child
             (components (fmt_dir path (replace " " "_" exp_name) exp_id)) f).
    + rewrite <- append_assoc.
      apply components_in_dir; [reflexivity | apply Hsafe | apply Hsafe].
    + rewrite Hch. apply lookup_as_files; [|exact Hin].
      exact (store_files_NoDup h S Hp).
Qed.

Lemma save_leaves_the_files_of_the_store_witness :
  is_dir (components (fmt_dir "ap_output" (replace " " "_" "test run") 1))
         (snd (save example_heap whole_run (Some "test run") (Some 1%Z)
                    "ap_output" (mkFS 0 []))) = true /\
  (exists files,
      ls (components (fmt_dir "ap_output" (replace " " "_" "test run") 1))
         (snd (save example_heap whole_run (Some "test run") (Some 1%Z)
                    "ap_output" (mkFS 0 [])))
        = Ok files /\
      NoDup files /\
      forall f, In f files <-> In f (map fst (store_files example_heap whole_run))) /\
  forall f c, In (f, c) (store_files example_heap whole_run) ->
              read_file (fmt_dir "ap_output" (replace " " "_" "test run") 1
                         ++ "/" ++ f)
                        (snd (save example_heap whole_run (Some "test run")
                                   (Some 1%Z) "ap_output" (mkFS 0 [])))
              = Ok c.
Proof.
  apply (save_leaves_the_files_of_the_store example_heap whole_run "test run" 1
           "ap_output" (mkFS 0 [])).
  - intros n [].
  - split.
    + repeat constructor; simpl; intuition discriminate.
    + repeat apply Forall_cons; try apply Forall_nil.
      * split; [reflexivity | discriminate].
      * split; [right; reflexivity|]. split; [discriminate|].
        split; [repeat constructor; simpl; intuition discriminate|].
        repeat apply Forall_cons; try apply Forall_nil.
        split; [reflexivity | discriminate].
      * split; [left; reflexivity|]. split; [discriminate|].
        split; [repeat constructor; simpl; intuition discriminate|].
        repeat apply Forall_cons; try apply Forall_nil.
        -- split; [reflexivity|]. eexists. split; reflexivity.
        -- split; [reflexivity|]. eexists. split; reflexivity.
      * split; [reflexivity|]. eexists. split; reflexivity.
  - vm_compute. reflexivity.
Defined.

(** ** [DataDict._load] and [load] *)



Lemma labelled_from_one cols :
  forallb (fun c => negb (String.eqb c EmptyString)) cols = true ->
  map (fun ih : nat * string =>
         if String.eqb (snd ih) EmptyString
         then ("Unnamed: " ++ string_of_nat (fst ih))%string
         else snd ih) (indexed (EmptyString :: cols))
  = "Unnamed: 0" :: cols.
Proof.
  intros H. unfold indexed. cbn [List.length seq combine map fst snd].
  change (String.eqb EmptyString EmptyString) with true. cbv iota.
  rewrite (labelled_id cols 1 H). reflexivity.
Qed.

(** X20: a table saved under the default (unnamed) index does not come back
    as it was: none of its labels being in the vocabulary of the loader,
    [load_file] leaves the index of the file as a column of its own,
    [Unnamed: 0], before the columns of the table.  The table is one whose
    rows are well shaped and whose cells the CSV text renders faithfully
    (see [csv_faithful]). *)
Theorem load_file_keeps_unnamed_index_as_column :
  forall (fs : FS) (dirs f : string) (df : DataFrame) (hh : heap),
    last_part "." f = "csv" ->
    read_file (dirs ++ f) fs = Ok (to_csv df) ->
    shaped df = true ->
    csv_faithful df = true ->
    index_names df = [None] ->
    forallb (fun c => negb (String.eqb c EmptyString)) (columns df) = true ->
    nodupb (columns df) = true ->
    mem "Unnamed: 0" (columns df) = false ->
    (forall i, In i i_cols -> mem i (columns df) = false) ->
    load_file fs dirs f hh
    = (Ok (PFrame (List.length hh)),
       hh ++ [mkDF [None] ("Unnamed: 0" :: columns df)
                   (range_index (map (fun r => fst r ++ snd r) (rows df)))]).
Proof.
  intros fs dirs f df hh Hext Hread Hshape Hcells Hidx Hne Hnd Hun Hvoc.
  assert (Hlabels : csv_labels (EmptyString :: columns df)
                    = "Unnamed: 0" :: columns df).
  { unfold csv_labels. rewrite (labelled_from_one _ Hne).
    cbn [dedup_labels filter List.length]. f_equal.
    apply dedup_labels_id; [exact Hnd|].
    intros x Hx. cbn [mem existsb]. rewrite orb_false_r.
    destruct (String.eqb x "Unnamed: 0") eqn:E; [|reflexivity].
    apply String.eqb_eq in E. subst x. apply mem_In in Hx. congruence. }
  assert (Hcsv : read_csv (to_csv df)
                 = Ok (mkDF [None] ("Unnamed: 0" :: columns df)
                         (range_index (map (fun r => fst r ++ snd r) (rows df))))).
  { rewrite (read_csv_to_csv df Hshape Hcells)
      by (rewrite Hidx; discriminate).
    rewrite Hidx. cbn [map app]. rewrite Hlabels. reflexivity. }
  assert (Hfilter : filter (fun i => mem i ("Unnamed: 0" :: columns df)) i_cols
                    = []).
  { apply filter_nothing. intros i Hi.
    change (mem i ("Unnamed: 0" :: columns df))
      with (String.eqb i "Unnamed: 0" || mem i (columns df)).
    rewrite (Hvoc i Hi), orb_false_r.
    unfold i_cols in Hi. simpl in Hi.
    destruct Hi as [<-|[<-|[<-|[<-|[<-|[<-|[<-|[]]]]]]]]; reflexivity. }
  assert (Hp : parse_file fs dirs f hh
               = (Ok (PFrame (List.length hh)),
                  hh ++ [mkDF [None] ("Unnamed: 0" :: columns df)
                              (range_index (map (fun r => fst r ++ snd r)
                                                (rows df)))])).
  { unfold parse_file. rewrite Hext. change (String.eqb "csv" "csv") with true.
    cbv iota. run_heap. rewrite Hread. run_heap. rewrite Hcsv. run_heap.
    cbn [columns]. rewrite Hfilter. reflexivity. }
  unfold load_file, try_except. rewrite Hp. reflexivity.
Qed.

Lemma load_file_keeps_unnamed_index_as_column_witness :
  load_file (mkFS 1 [mkNode ["d"] Dir 1;
                     mkNode ["d"; "parameters.csv"] (File (to_csv varied_pars)) 1])
            "d/" "parameters.csv" []
  = (Ok (PFrame 0),
     [] ++ [mkDF [None] ("Unnamed: 0" :: columns varied_pars)
                 (range_index (map (fun r => fst r ++ snd r) (rows varied_pars)))]).
Proof.
  apply (load_file_keeps_unnamed_index_as_column
           (mkFS 1 [mkNode ["d"] Dir 1;
                    mkNode ["d"; "parameters.csv"] (File (to_csv varied_pars)) 1])
           "d/" "parameters.csv" varied_pars []).
  - reflexivity.
  - reflexivity.
  - reflexivity.
  - reflexivity.
  - reflexivity.
  - reflexivity.
  - reflexivity.
  - reflexivity.
  - intros i Hi. unfold i_cols in Hi. simpl in Hi.
    destruct Hi as [<-|[<-|[<-|[<-|[<-|[<-|[<-|[]]]]]]]]; reflexivity.
Defined.

(** ** What [save] leaves alone *)

Lemma bind_cases {St A B} (c : M St A) (k : A -> M St B) s r s' :
  bind c k s = (r, s') ->
  (exists e, c s = (Raise e, s') /\ r = Raise e) \/
  (exists a s1, c s = (Ok a, s1) /\ k a s1 = (r, s')).
Proof.
  unfold bind. destruct (c s) as [[a|e] s1]; intros H.
  - right. exists a, s1. auto.
  - left. inversion H; subst. exists e. auto.
Qed.

Lemma kept_refl fs : kept fs fs.
Proof. intros q k H. exact H. Qed.

Lemma kept_trans fs1 fs2 fs3 : kept fs1 fs2 -> kept fs2 fs3 -> kept fs1 fs3.
Proof. intros H1 H2 q k H. apply H2, H1, H. Qed.

Lemma kept_outside_refl D fs : kept_outside D fs fs.
Proof. intros q k _ H. exact H. Qed.

Lemma kept_outside_trans D fs1 fs2 fs3 :
  kept_outside D fs1 fs2 -> kept_outside D fs2 fs3 -> kept_outside D fs1 fs3.
Proof. intros H1 H2 q k Hq H. apply H2; [exact Hq|]. apply H1; assumption. Qed.

Lemma kind_of_put q n clk clk' l :
  node_path n <> q ->
  kind_of q (mkFS clk (put_node n l)) = kind_of q (mkFS clk' l).
Proof.
  intros Hne. unfold kind_of, find_node. destruct q; [reflexivity|].
  simpl nodes. rewrite (find_put_other _ n l Hne). reflexivity.
Qed.

Lemma kind_of_write_other q s c fs r fs' :
  components s <> q ->
  write_file s c fs = (r, fs') -> kind_of q fs' = kind_of q fs.
Proof.
  intros Hne. unfold write_file. destruct fs as [clk l].
  destruct (kind_of (components s) (mkFS clk l)) as [[|c0]|].
  - intros H. inversion H. reflexivity.
  - intros H. inversion H. apply kind_of_put. exact Hne.
  - destruct (is_dir (parent (components s)) (mkFS clk l));
      intros H; inversion H; [|reflexivity].
    erewrite kind_of_put_other; [apply kind_of_clock | exact Hne].
Qed.

Lemma kind_of_remove_other q s fs r fs' :
  components s <> q ->
  remove_file s fs = (r, fs') -> kind_of q fs' = kind_of q fs.
Proof.
  intros Hne. unfold remove_file. destruct fs as [clk l].
  destruct (kind_of (components s) (mkFS clk l)) as [[|c0]|];
    intros H; inversion H; try reflexivity.
  rewrite kind_of_touch. unfold kind_of, find_node. destruct q; [reflexivity|].
  simpl nodes. rewrite (find_filter_other _ _ l Hne). reflexivity.
Qed.

Lemma mkdir_kept p : respects kept (mkdir p).
Proof.
  intros fs r fs'. unfold mkdir. destruct fs as [clk l].
  destruct (kind_of p (mkFS clk l)) eqn:Hp;
    [intros H; inversion H; apply kept_refl|].
  destruct (is_dir (parent p) (mkFS clk l));
    intros H; inversion H; [|apply kept_refl].
  intros q k Hq.
  erewrite kind_of_put_other.
  - rewrite (kind_of_clock q 0 clk l). exact Hq.
  - simpl. intros Heq. rewrite Heq in Hp. congruence.
Qed.

Lemma make_parents_kept todo : forall done, respects kept (make_parents done todo).
Proof.
  induction todo as [|c todo IH]; intros done fs r fs' H; simpl in H.
  - inversion H. apply kept_refl.
  - apply bind_cases in H. destruct H as [(e & H & _) | (u & fs2 & H & H2)].
    + destruct (kind_of (done ++ [c]) fs) as [[|c0]|];
        try (inversion H; apply kept_refl).
      exact (mkdir_kept _ _ _ _ H).
    + apply (kept_trans fs fs2); [|exact (IH _ _ _ _ H2)].
      destruct (kind_of (done ++ [c]) fs) as [[|c0]|];
        try (inversion H; apply kept_refl).
      exact (mkdir_kept _ _ _ _ H).
Qed.

Lemma makedirs_kept s : respects kept (makedirs s).
Proof.
  intros fs r fs'. unfold makedirs. destruct (components s) as [|a p].
  - intros H. inversion H. apply kept_refl.
  - destruct (kind_of (a :: p) fs); [intros H; inversion H; apply kept_refl|].
    intros H. apply bind_cases in H.
    destruct H as [(e & H & _) | (u & fs2 & H & H2)].
    + exact (make_parents_kept _ _ _ _ _ H).
    + apply (kept_trans fs fs2);
        [exact (make_parents_kept _ _ _ _ _ H) | exact (mkdir_kept _ _ _ _ H2)].
Qed.

Section Respects.
Variable R : FS -> FS -> Prop.
Hypothesis R_refl : forall fs, R fs fs.
Hypothesis R_trans : forall a b c, R a b -> R b c -> R a c.

Lemma respects_ret {A} (a : A) : respects R (ret a).
Proof. intros fs r fs' H. inversion H. apply R_refl. Qed.

Lemma respects_raise {A} e : respects R (@raise FS A e).
Proof. intros fs r fs' H. inversion H. apply R_refl. Qed.

Lemma respects_bind {A B} (c : M FS A) (k : A -> M FS B) :
  respects R c -> (forall a, respects R (k a)) -> respects R (bind c k).
Proof.
  intros Hc Hk fs r fs' H. apply bind_cases in H.
  destruct H as [(e & H & _) | (a & fs2 & H & H2)].
  - exact (Hc _ _ _ H).
  - exact (R_trans _ _ _ (Hc _ _ _ H) (Hk a _ _ _ H2)).
Qed.

Lemma respects_for_each {A B} (xs : list A) (body : B -> A -> M FS B) :
  (forall acc x, In x xs -> respects R (body acc x)) ->
  forall acc, respects R (for_each xs acc body).
Proof.
  induction xs as [|x xs IH]; intros Hbody acc; simpl.
  - apply respects_ret.
  - apply respects_bind.
    + apply Hbody. left. reflexivity.
    + intros acc'. apply IH. intros a y Hy. apply Hbody. right. exact Hy.
Qed.

Lemma respects_except (c handler : M FS unit) :
  respects R c -> respects R handler -> respects R (except_TypeError c handler).
Proof.
  intros Hc Hh fs r fs'. unfold except_TypeError.
  destruct (c fs) as [[u|e] fs2] eqn:E.
  - intros H. inversion H; subst. exact (Hc _ _ _ E).
  - destruct e; try (intros H; inversion H; subst; exact (Hc _ _ _ E)).
    intros H. exact (R_trans _ _ _ (Hc _ _ _ E) (Hh _ _ _ H)).
Qed.

End Respects.

Section InDirectory.
Variable D : path.
Variable dir : string.
Hypothesis dir_path : components dir = D.

(** A relation that the writing and the removal of an entry of [D]
    respect. *)
Variable R : FS -> FS -> Prop.
Hypothesis R_refl : forall fs, R fs fs.
Hypothesis R_trans : forall a b c, R a b -> R b c -> R a c.
Hypothesis R_write :
  forall s c f, components s = D ++ [f] -> respects R (write_file s c).
Hypothesis R_remove :
  forall s f, components s = D ++ [f] -> respects R (remove_file s).

Lemma respects_write name ext c :
  has_char "/" name = false -> has_char "/" ext = false -> ext <> EmptyString ->
  respects R (write_file (fmt_file dir name ext) c).
Proof.
  intros Hname Hext Hne. apply (R_write _ c (name ++ ext)%string).
  exact (components_file D dir name ext dir_path Hname Hext Hne).
Qed.

Lemma respects_remove name ext :
  has_char "/" name = false -> has_char "/" ext = false -> ext <> EmptyString ->
  respects R (remove_file (fmt_file dir name ext)).
Proof.
  intros Hname Hext Hne. apply (R_remove _ (name ++ ext)%string).
  exact (components_file D dir name ext dir_path Hname Hext Hne).
Qed.

Lemma respects_frame_at (h : heap) r : respects R (frame_at h r).
Proof.
  unfold frame_at. destruct (nth_error h r);
    [apply respects_ret | apply respects_raise]; exact R_refl.
Qed.

Lemma respects_dump_json name v :
  has_char "/" name = false ->
  respects R (dump_json (fmt_file dir name ".json") v).
Proof.
  intros Hname. unfold dump_json.
  apply (respects_bind R R_trans).
  - apply respects_write; [exact Hname | reflexivity | discriminate].
  - intros _. destruct (json_encode v).
    + apply respects_write; [exact Hname | reflexivity | discriminate].
    + apply respects_raise. exact R_refl.
Qed.

Lemma respects_save_entry h key output :
  has_char "/" key = false ->
  match output with
  | PDataDict d => Forall (fun io => has_char "/" (fst io) = false) d
  | _ => True
  end ->
  respects R (save_entry h dir key output).
Proof.
  intros Hkey Hinner. unfold save_entry.
  assert (Hcsv : forall name r, has_char "/" name = false ->
    respects R (df <- frame_at h r ;;
                write_file (fmt_file dir name ".csv") (to_csv df))).
  { intros name r Hname.
    apply (respects_bind R R_trans); [apply respects_frame_at|].
    intros df. apply respects_write; [exact Hname | reflexivity | discriminate]. }
  assert (Hjson : respects R
            (except_TypeError (dump_json (fmt_file dir key ".json") output)
                              (remove_file (fmt_file dir key ".json")))).
  { apply (respects_except R R_trans).
    - apply respects_dump_json. exact Hkey.
    - apply respects_remove; [exact Hkey | reflexivity | discriminate]. }
  apply (respects_bind R R_trans).
  - destruct output; try (apply respects_ret; exact R_refl).
    apply Hcsv. exact Hkey.
  - intros _. destruct output; try exact Hjson.
    apply (respects_for_each R R_refl R_trans).
    intros acc ko Hko. rewrite Forall_forall in Hinner.
    assert (Hfile : has_char "/" (key ++ "_" ++ fst ko) = false).
    { rewrite !has_char_append, Hkey, (Hinner ko Hko). reflexivity. }
    cbv zeta. destruct (snd ko); try (apply respects_ret; exact R_refl).
    + apply respects_dump_json. exact Hfile.
    + apply Hcsv. exact Hfile.
    + apply respects_dump_json. exact Hfile.
Qed.

End InDirectory.

Lemma kept_outside_write D s c f :
  components s = D ++ [f] -> respects (kept_outside D) (write_file s c).
Proof.
  intros Hs fs r fs' H q k Hq Hk.
  rewrite (kind_of_write_other q s c fs r fs'); [exact Hk | | exact H].
  rewrite Hs. intros Heq. exact (Hq _ (eq_sym Heq)).
Qed.

Lemma kept_outside_remove D s f :
  components s = D ++ [f] -> respects (kept_outside D) (remove_file s).
Proof.
  intros Hs fs r fs' H q k Hq Hk.
  rewrite (kind_of_remove_other q s fs r fs'); [exact Hk | | exact H].
  rewrite Hs. intros Heq. exact (Hq _ (eq_sym Heq)).
Qed.

Lemma last_exp_id_state name path fs : snd (_last_exp_id name path fs) = fs.
Proof.
  unfold _last_exp_id, bind.
  pose proof (listdir_state (components path) fs) as Hst.
  destruct (listdir (components path) fs) as [[dirs|e] fs2]; simpl in Hst;
    subst fs2; [|reflexivity].
  destruct (filter (contains name) dirs) as [|x l]; [reflexivity|].
  destruct (ints (x :: l)) as [[|i ids]|e]; reflexivity.
Qed.

Lemma find_node_In q fs n :
  find_node q fs = Some n -> In n (nodes fs) /\ node_path n = q.
Proof.
  unfold find_node. intros H. apply find_some in H. destruct H as [Hin Heq].
  apply path_eqb_eq in Heq. auto.
Qed.

(** X21: [save] neither removes nor overwrites: on a file system in which
    every node lies in a directory, and for a store whose keys hold no
    slash, every directory and every file that was there before the call is
    there afterwards, the files with the content they had, whether the call
    succeeds or raises and whatever name, id and base path it is given. *)
Theorem save_keeps_what_was_there :
  forall (h : heap) (self : DataDict) (exp_name : option string)
         (exp_id : option Z) (path : string) (fs fs1 : FS)
         (res : result unit),
    closed fs ->
    flat_keys self ->
    save h self exp_name exp_id path fs = (res, fs1) ->
    forall q k, kind_of q fs = Some k -> kind_of q fs1 = Some k.
Proof.
  intros h self exp_name exp_id path fs fs1 res Hclosed Hkeys H.
  unfold save in H.
  destruct (listdir_root fs) as (here & Hls & _).
  rewrite (bind_Ok _ _ _ _ _ Hls) in H.
  assert (Hbase : respects kept (if mem path here then ret tt else makedirs path)).
  { destruct (mem path here); [|apply makedirs_kept].
    intros a r b Hr. inversion Hr. apply kept_refl. }
  apply bind_cases in H. destruct H as [(e & H & _) | ([] & fs_a & Ha & H)];
    [exact (Hbase _ _ _ H)|].
  pose proof (Hbase _ _ _ Ha) as Hkept_a.
  apply bind_cases in H. destruct H as [(e & H & _) | (name & fs_n & Hn & H)].
  { assert (fs1 = fs_a); [|subst fs1; exact Hkept_a].
    destruct exp_name; [inversion H; reflexivity|].
    unfold lift in H. destruct (log_name h self); inversion H; reflexivity. }
  assert (fs_n = fs_a).
  { destruct exp_name; [inversion Hn; reflexivity|].
    unfold lift in Hn. destruct (log_name h self); inversion Hn; reflexivity. }
  subst fs_n.
  apply bind_cases in H. destruct H as [(e & H & _) | (id & fs_i & Hi & H)].
  { assert (fs1 = fs_a); [|subst fs1; exact Hkept_a].
    destruct exp_id; [inversion H; reflexivity|].
    apply bind_cases in H. destruct H as [(e' & H & _) | (i & fs2 & H & H2)].
    - pose proof (last_exp_id_state (replace " " "_" name) path fs_a) as Hst.
      rewrite H in Hst. exact Hst.
    - inversion H2. }
  assert (fs_i = fs_a).
  { destruct exp_id; [inversion Hi; reflexivity|].
    apply bind_cases in Hi. destruct Hi as [(e' & Hi & He) | (i & fs2 & Hi & H2)];
      [discriminate He|].
    pose proof (last_exp_id_state (replace " " "_" name) path fs_a) as Hst.
    rewrite Hi in Hst. simpl in Hst. inversion H2; subst. reflexivity. }
  subst fs_i.
  set (dir := fmt_dir path (replace " " "_" name) id) in *.
  apply bind_cases in H. destruct H as [(e & H & _) | ([] & fs_b & Hb & H)].
  { exact (kept_trans _ _ _ Hkept_a (makedirs_kept _ _ _ _ H)). }
  pose proof (makedirs_kept _ _ _ _ Hb) as Hkept_b.
  pose proof (makedirs_was_free _ _ _ Hb) as Hfree.
  assert (Hloop : kept_outside (components dir) fs_b fs1).
  { revert H.
    apply (respects_for_each (kept_outside (components dir))
             (kept_outside_refl _) (kept_outside_trans _)).
    intros acc kv Hkv. unfold flat_keys in Hkeys.
    rewrite Forall_forall in Hkeys. destruct (Hkeys kv Hkv) as [Hk Hinner].
    apply (respects_save_entry (components dir) dir eq_refl
             (kept_outside (components dir)) (kept_outside_refl _)
             (kept_outside_trans _) (kept_outside_write _)
             (kept_outside_remove _)); assumption. }
  intros q k Hq. apply Hloop.
  - intros f ->.
    assert (Hnode : exists n, In n (nodes fs) /\
                              node_path n = components dir ++ [f]).
    { unfold kind_of in Hq.
      destruct (components dir ++ [f]) as [|a p] eqn:E.
      - destruct (components dir); discriminate E.
      - destruct (find_node (a :: p) fs) as [n|] eqn:Hf; [|discriminate].
        exists n. exact (find_node_In _ _ _ Hf). }
    destruct Hnode as (n & Hin & Hpath).
    specialize (Hclosed n Hin). rewrite Hpath in Hclosed.
    unfold parent in Hclosed. rewrite removelast_last in Hclosed.
    apply is_dir_kind in Hclosed. apply Hkept_a in Hclosed. congruence.
  - apply Hkept_b, Hkept_a. exact Hq.
Qed.

Lemma save_keeps_what_was_there_witness :
  kind_of ["ap_output"; "test_run_1"; "log.json"]
          (snd (save example_heap whole_run None None "ap_output"
                     earlier_output))
  = Some (File (Json (JObj [("name", JStr "test run")]))).
Proof.
  apply (save_keeps_what_was_there example_heap whole_run None None "ap_output"
           earlier_output _
           (fst (save example_heap whole_run None None "ap_output"
                      earlier_output))).
  - intros n [<- | [<- | [<- | []]]]; reflexivity.
  - repeat apply Forall_cons; try apply Forall_nil;
      (split; [reflexivity|]); try exact I;
      repeat apply Forall_cons; try apply Forall_nil; reflexivity.
  - apply surjective_pairing.
  - reflexivity.
Defined.

(** ** The keys of a loaded store *)

Lemma dict_set_keys_In {A} k (v : A) d k' :
  In k' (dict_keys (dict_set k v d)) <-> k' = k \/ In k' (dict_keys d).
Proof.
  unfold dict_keys. induction d as [|[a x] d IH]; simpl.
  - split; [intros [H|[]]; left; auto | intros [H|[]]; left; auto].
  - destruct (String.eqb k a) eqn:E; simpl.
    + apply String.eqb_eq in E. subst a.
      split; [intros [H|H]; [left; auto | right; right; exact H]
             | intros [H|[H|H]]; [left; auto | left; exact H | right; exact H]].
    + rewrite IH.
      split; [intros [H|[H|H]]; auto | intros [H|[H|H]]; auto].
Qed.

Lemma dict_set_keys_NoDup {A} k (v : A) d :
  NoDup (dict_keys d) -> NoDup (dict_keys (dict_set k v d)).
Proof.
  unfold dict_keys. induction d as [|[a x] d IH]; simpl; intros Hnd.
  - constructor; [intros [] | constructor].
  - apply NoDup_cons_iff in Hnd. destruct Hnd as [Ha Hnd].
    destruct (String.eqb k a) eqn:E; simpl.
    + apply String.eqb_eq in E. subst a. constructor; assumption.
    + constructor; [|exact (IH Hnd)].
      intros Hin. apply (dict_set_keys_In k v d a) in Hin.
      destruct Hin as [Heq|Hin]; [|exact (Ha Hin)].
      subst a. rewrite String.eqb_refl in E. discriminate.
Qed.

Lemma set_sub_item_keys self name key v h self' h' :
  set_sub_item self name key v h = (Ok self', h') ->
  dict_has name self = true ->
  (forall k, In k (dict_keys self') <-> In k (dict_keys self)) /\
  (NoDup (dict_keys self) -> NoDup (dict_keys self')).
Proof.
  unfold set_sub_item, dict_has. intros H Hhas.
  destruct (dict_get name self) as [o|] eqn:Hget; [|discriminate].
  assert (Hname : In name (dict_keys self)).
  { apply in_map_iff. exists (name, o). split; [reflexivity|].
    exact (dict_get_In _ _ _ Hget). }
  assert (Hset : forall x,
    (forall k, In k (dict_keys (dict_set name x self)) <-> In k (dict_keys self)) /\
    (NoDup (dict_keys self) -> NoDup (dict_keys (dict_set name x self)))).
  { intros x. split; [|apply dict_set_keys_NoDup].
    intros k. rewrite dict_set_keys_In. split; [|auto].
    intros [-> | Hk]; assumption. }
  destruct o; try discriminate.
  - inversion H; subst. apply Hset.
  - apply bind_inv in H. destruct H as (u & h1 & _ & H). inversion H; subst.
    split; [reflexivity | auto].
  - inversion H; subst. apply Hset.
Qed.

Lemma put_loaded_keys self f v h self' h' :
  put_loaded self f v h = (Ok self', h') ->
  (forall k, In k (dict_keys self') <->
             k = top_key (slot_of f) \/ In k (dict_keys self)) /\
  (NoDup (dict_keys self) -> NoDup (dict_keys self')).
Proof.
  unfold put_loaded. destruct (slot_of f) as [key | name key]; simpl top_key.
  - intros H. inversion H; subst. split.
    + intros k. apply dict_set_keys_In.
    + apply dict_set_keys_NoDup.
  - destruct (dict_has name self) eqn:Hhas; intros H.
    + destruct (set_sub_item_keys _ _ _ _ _ _ _ H Hhas) as [Hk Hnd].
      split; [|exact Hnd]. intros k. rewrite Hk. split; [auto|].
      intros [-> | Hin]; [|exact Hin].
      unfold dict_has in Hhas.
      destruct (dict_get name self) as [o|] eqn:Hget; [|discriminate].
      apply in_map_iff. exists (name, o). split; [reflexivity|].
      exact (dict_get_In _ _ _ Hget).
    + assert (Hhas' : dict_has name (dict_set name (PDataDict []) self) = true).
      { unfold dict_has. rewrite dict_get_set_same. reflexivity. }
      destruct (set_sub_item_keys _ _ _ _ _ _ _ H Hhas') as [Hk Hnd].
      split.
      * intros k. rewrite Hk. apply dict_set_keys_In.
      * intros Hn. apply Hnd. apply dict_set_keys_NoDup. exact Hn.
Qed.

Lemma load_loop_keys fs dir files : forall self h self' h',
  for_each files self (load_step fs dir) h = (Ok self', h') ->
  (forall k, In k (dict_keys self') <->
             (exists f, In f files /\ top_key (slot_of f) = k) \/
             In k (dict_keys self)) /\
  (NoDup (dict_keys self) -> NoDup (dict_keys self')).
Proof.
  induction files as [|f files IH]; intros self h self' h' H; simpl in H.
  - inversion H; subst. split; [|auto].
    intros k. split; [auto|]. intros [(f & [] & _) | Hk]. exact Hk.
  - apply bind_inv in H. destruct H as (self1 & h1 & Hstep & H).
    rewrite load_step_put in Hstep.
    apply bind_inv in Hstep. destruct Hstep as (v & h0 & _ & Hput).
    destruct (put_loaded_keys _ _ _ _ _ _ Hput) as [Hk1 Hnd1].
    destruct (IH _ _ _ _ H) as [Hk Hnd].
    split; [|auto].
    intros k. rewrite Hk, Hk1. split.
    + intros [(g & Hg & Hs) | [Heq | Hin]].
      * left. exists g. split; [right; exact Hg | exact Hs].
      * left. exists f. split; [left; reflexivity | symmetry; exact Heq].
      * right. exact Hin.
    + intros [(g & [<- | Hg] & Hs) | Hin].
      * right. left. symmetry. exact Hs.
      * left. exists g. split; assumption.
      * right. right. exact Hin.
Qed.

(** X22: the store [load] returns has an entry for each file of the
    directory and no other: its keys are the names of the files without
    their extensions, with [variables] and [parameters] standing for the
    files named [variables_...] and [parameters_...], and no key comes
    twice. *)
Theorem load_has_the_keys_of_the_files :
  forall (fs : FS) (exp_name : string) (exp_id : Z) (path : string)
         (files : list string) (h h' : heap) (loaded : DataDict),
    exp_id <> 0%Z ->
    ls (components (fmt_dir path (replace " " "_" exp_name) exp_id ++ "/")%string)
       fs = Ok files ->
    load fs (Some exp_name) (Some exp_id) path h = (Ok loaded, h') ->
    (forall k, In k (dict_keys loaded) <->
               exists f, In f files /\ top_key (slot_of f) = k) /\
    NoDup (dict_keys loaded).
Proof.
  intros fs exp_name exp_id path files h h' loaded Hid Hls H.
  rewrite (load_explicit fs exp_name exp_id path files h Hid Hls) in H.
  destruct (load_loop_keys _ _ _ _ _ _ _ H) as [Hk Hnd].
  split.
  - intros k. rewrite Hk. split; [|auto]. intros [Hf | []]. exact Hf.
  - apply Hnd. constructor.
Qed.

Lemma load_has_the_keys_of_the_files_witness :
  (forall k,
      In k (dict_keys
              (match fst (load (snd (save example_heap whole_run (Some "run")
                                          (Some 1%Z) "out" (mkFS 0 [])))
                               (Some "run") (Some 1%Z) "out" []) with
               | Ok loaded => loaded
               | Raise _ => []
               end)) <->
      exists f, In f ["log.json"; "parameters_fixed.json"; "variables_Model.csv";
                      "variables_Agent.csv"; "measures.csv"] /\
                top_key (slot_of f) = k) /\
  NoDup (dict_keys
           (match fst (load (snd (save example_heap whole_run (Some "run")
                                       (Some 1%Z) "out" (mkFS 0 [])))
                            (Some "run") (Some 1%Z) "out" []) with
            | Ok loaded => loaded
            | Raise _ => []
            end)).
Proof.
  apply (load_has_the_keys_of_the_files
           (snd (save example_heap whole_run (Some "run") (Some 1%Z) "out"
                      (mkFS 0 [])))
           "run" 1 "out" _ []
           (snd (load (snd (save example_heap whole_run (Some "run") (Some 1%Z)
                                 "out" (mkFS 0 [])))
                      (Some "run") (Some 1%Z) "out" []))).
  - discriminate.
  - vm_compute. reflexivity.
  - vm_compute. reflexivity.
Defined.

(** ** Saving and loading by name *)

Lemma child_name_deeper P x f n :
  node_path n = (P ++ [x]) ++ [f] -> child_name P n = None.
Proof.
  intros Hn. destruct (child_name P n) as [g|] eqn:E; [|reflexivity].
  apply child_name_spec in E. rewrite Hn in E.
  apply (f_equal (@List.length string)) in E.
  rewrite !length_app in E. simpl in E. lia.
Qed.

Lemma children_remove_other P p clk clk' l :
  (forall g, p <> P ++ [g]) ->
  children P (mkFS clk (filter (fun m => negb (path_eqb (node_path m) p)) l))
  = children P (mkFS clk' l).
Proof.
  intros Hp. unfold children. simpl. induction l as [|m l IH]; [reflexivity|].
  simpl. destruct (path_eqb (node_path m) p) eqn:E; simpl.
  - apply path_eqb_eq in E.
    destruct (child_name P m) as [g|] eqn:Hcm.
    + apply child_name_spec in Hcm. exfalso. apply (Hp g). congruence.
    + exact IH.
  - rewrite IH. reflexivity.
Qed.

Lemma same_children_write P x s c f :
  components s = (P ++ [x]) ++ [f] ->
  respects (same_children P) (write_file s c).
Proof.
  intros Hs fs r fs'. unfold write_file, same_children. rewrite Hs.
  destruct fs as [clk l].
  destruct (kind_of ((P ++ [x]) ++ [f]) (mkFS clk l)) as [[|c0]|].
  - intros H. inversion H. reflexivity.
  - intros H. inversion H. apply children_put_other.
    apply (child_name_deeper P x f). reflexivity.
  - destruct (is_dir (parent ((P ++ [x]) ++ [f])) (mkFS clk l));
      intros H; inversion H; [|reflexivity].
    rewrite (children_put_other P _ _ clk).
    + apply children_touch.
    + apply (child_name_deeper P x f). reflexivity.
Qed.

Lemma same_children_remove P x s f :
  components s = (P ++ [x]) ++ [f] ->
  respects (same_children P) (remove_file s).
Proof.
  intros Hs fs r fs'. unfold remove_file, same_children. rewrite Hs.
  destruct fs as [clk l].
  destruct (kind_of ((P ++ [x]) ++ [f]) (mkFS clk l)) as [[|c0]|];
    intros H; inversion H; try reflexivity.
  rewrite (children_touch P _ _ _ clk).
  apply children_remove_other. intros g Heq.
  apply (f_equal (@List.length string)) in Heq.
  rewrite !length_app in Heq. simpl in Heq. lia.
Qed.

Lemma children_mkdir_child P f fs fs' :
  mkdir (P ++ [f]) fs = (Ok tt, fs') ->
  children P fs' = children P fs ++ [(f, Dir)].
Proof.
  unfold mkdir. destruct fs as [clk l].
  destruct (kind_of (P ++ [f]) (mkFS clk l)) eqn:Hk; [discriminate|].
  destruct (is_dir (parent (P ++ [f])) (mkFS clk l)); [|discriminate].
  intros H. inversion H.
  rewrite (children_put P f (mkNode (P ++ [f]) Dir (tick (mkFS clk l))) _ clk)
    by reflexivity.
  rewrite (children_touch P _ _ clk clk). simpl node_kind.
  apply dict_set_fresh. rewrite <- kind_of_child. exact Hk.
Qed.

Lemma children_makedirs_child P f s fs fs' :
  components s = P ++ [f] ->
  makedirs s fs = (Ok tt, fs') ->
  children P fs' = children P fs ++ [(f, Dir)].
Proof.
  intros Hs. unfold makedirs. rewrite Hs.
  destruct (P ++ [f]) as [|a p] eqn:E; [destruct P; discriminate|].
  rewrite <- E. destruct (kind_of (P ++ [f]) fs); [discriminate|].
  intros H. apply bind_inv in H. destruct H as ([] & fs2 & Hmp & Hmk).
  rewrite (children_mkdir_child P f fs2 fs' Hmk). f_equal.
  unfold parent in Hmp. rewrite removelast_last in Hmp.
  apply (children_make_parents P P [] fs (Ok tt) fs2); [|exact Hmp].
  simpl. lia.
Qed.

Lemma prefix_self p s : prefix p (p ++ s) = true.
Proof.
  induction p as [|a p IH]; [reflexivity|].
  simpl. rewrite Ascii.eqb_refl, IH. reflexivity.
Qed.

Lemma contains_self p s : contains p (p ++ s) = true.
Proof.
  destruct (p ++ s)%string as [|a t] eqn:E.
  - pose proof (prefix_self p s) as H. rewrite E in H. simpl. rewrite H.
    reflexivity.
  - pose proof (prefix_self p s) as H. rewrite E in H.
    cbn [contains]. rewrite H. reflexivity.
Qed.

Lemma ints_app l d zs z :
  ints l = Ok zs -> py_int (last_part "_" d) = Some z ->
  ints (l ++ [d]) = Ok (zs ++ [z]).
Proof.
  revert zs. induction l as [|s l IH]; intros zs Hl Hd; simpl in *.
  - inversion Hl. rewrite Hd. reflexivity.
  - destruct (py_int (last_part "_" s)) as [y|]; [|discriminate].
    destruct (ints l) as [ys|e]; [|discriminate].
    inversion Hl; subst zs. rewrite (IH ys eq_refl Hd). reflexivity.
Qed.

Lemma maximum_app z zs y : maximum z (zs ++ [y]) = Z.max (maximum z zs) y.
Proof. unfold maximum. rewrite fold_left_app. reflexivity. Qed.

(** What [_last_exp_id] computes on a directory whose matching names end in
    integers. *)
Lemma last_exp_id_run name path fs dirs :
  ls (components path) fs = Ok dirs ->
  (forall d, In d dirs -> contains name d = true ->
             py_int (last_part "_" d) <> None) ->
  exists zs,
    ints (filter (contains name) dirs) = Ok zs /\
    _last_exp_id name path fs
    = (Ok match zs with [] => 0%Z | i :: ids => maximum i ids end, fs).
Proof.
  intros Hls Hparse. apply ls_listdir in Hls.
  destruct (ints_total (filter (contains name) dirs)) as (ids & Hids & Hlen & _).
  { intros d Hd. apply filter_In in Hd. destruct Hd. auto. }
  exists ids. split; [exact Hids|].
  unfold _last_exp_id. rewrite (bind_Ok _ _ _ _ _ Hls).
  destruct (filter (contains name) dirs) as [|d0 ds] eqn:E.
  - destruct ids; [reflexivity | discriminate].
  - unfold bind, lift. rewrite Hids. destruct ids; reflexivity.
Qed.

Lemma persistable_flat_keys h S : persistable h S -> flat_keys S.
Proof.
  intros [_ Hall]. unfold flat_keys. rewrite Forall_forall in *.
  intros [k v] Hkv. specialize (Hall (k, v) Hkv). simpl.
  unfold persistable_entry in Hall. simpl in Hall.
  destruct v;
    try (destruct Hall as [Hk _]; split;
         [exact (proj1 (plain_key_spec k Hk)) | exact I]).
  destruct Hall as (Hk & _ & _ & Hinner). split.
  - exact (nested_key_no_slash k Hk).
  - rewrite Forall_forall in *. intros io Hio.
    destruct (Hinner io Hio) as [Hplain _].
    exact (proj1 (plain_key_spec _ Hplain)).
Qed.

(** The base directory after [save]: the new directory is listed last. *)
Lemma save_lists_new_directory h S exp_name exp_id path fs fs1 dirs :
  flat_keys S ->
  has_char "/" (replace " " "_" exp_name) = false ->
  listed path fs ->
  ls (components path) fs = Ok dirs ->
  save h S (Some exp_name) (Some exp_id) path fs = (Ok tt, fs1) ->
  ls (components path) fs1
  = Ok (dirs ++ [(replace " " "_" exp_name ++ "_" ++ string_of_Z exp_id)%string]).
Proof.
  intros Hkeys Hname Hlisted Hls H.
  set (name := replace " " "_" exp_name) in *.
  set (leaf := (name ++ "_" ++ string_of_Z exp_id)%string).
  set (P := components path) in *.
  assert (Hleaf : components leaf = [leaf]).
  { apply components_single.
    - unfold leaf. rewrite !has_char_append, Hname.
      rewrite (has_char_string_of_Z "/" exp_id eq_refl); [reflexivity|].
      discriminate.
    - unfold leaf. apply append_not_empty. discriminate. }
  assert (HD : components (fmt_dir path name exp_id) = P ++ [leaf]).
  { unfold fmt_dir. rewrite components_app. fold leaf. rewrite Hleaf.
    reflexivity. }
  destruct (listdir_root fs) as (here & Hhere & Hmem).
  apply Hmem in Hlisted. unfold save in H.
  rewrite (bind_Ok _ _ _ _ _ Hhere), Hlisted in H.
  cbv [bind ret] in H. fold name in H.
  destruct (makedirs (fmt_dir path name exp_id) fs) as [[[]|e] fs_b] eqn:Hmk;
    [|discriminate].
  assert (Hdir : is_dir P fs = true).
  { unfold ls, listdir in Hls. unfold is_dir. fold P in Hls.
    destruct (kind_of P fs) as [[|c]|]; [reflexivity | discriminate..]. }
  assert (Hch_b : children P fs_b = children P fs ++ [(leaf, Dir)]).
  { exact (children_makedirs_child P leaf _ fs fs_b HD Hmk). }
  assert (Hloop : same_children P fs_b fs1).
  { revert H.
    apply (respects_for_each (same_children P)).
    - intros a. reflexivity.
    - intros a b c Hab Hbc. unfold same_children in *. congruence.
    - intros acc kv Hkv.
      unfold flat_keys in Hkeys. rewrite Forall_forall in Hkeys.
      destruct (Hkeys kv Hkv) as [Hk Hinner].
      apply (respects_save_entry (P ++ [leaf]) (fmt_dir path name exp_id) HD
               (same_children P)).
      + intros a. reflexivity.
      + intros a b c Hab Hbc. unfold same_children in *. congruence.
      + intros s c f Hs. exact (same_children_write P leaf s c f Hs).
      + intros s f Hs. exact (same_children_remove P leaf s f Hs).
      + exact Hk.
      + exact Hinner. }
  assert (Hdir1 : is_dir P fs1 = true).
  { destruct (preserving_makedirs _ _ _ _ Hmk) as [Hd _].
    assert (Hg : grows fs_b fs1).
    { revert H. apply preserving_for_each. intros b a.
      apply preserving_save_entry. }
    apply (proj1 Hg). apply Hd. exact Hdir. }
  rewrite (ls_children P fs1 Hdir1). unfold same_children in Hloop.
  rewrite Hloop, Hch_b, map_app.
  rewrite (ls_children P fs Hdir) in Hls. inversion Hls. reflexivity.
Qed.

(** What [_last_exp_id] finds does not depend on the order of the
    listing: it is the largest of the integers the matching names end in. *)
Lemma last_exp_id_any_order name path fs l m :
  ls (components path) fs = Ok l ->
  (forall d, In d l -> contains name d = true ->
             exists z, py_int (last_part "_" d) = Some z /\ (z <= m)%Z) ->
  (exists d, In d l /\ contains name d = true /\
             py_int (last_part "_" d) = Some m) ->
  _last_exp_id name path fs = (Ok m, fs).
Proof.
  intros Hls Hall (d & Hd & Hc & Hm).
  destruct (last_exp_id_run name path fs l Hls) as (zs & Hzs & Hrun).
  { intros d' Hd' Hc'. destruct (Hall d' Hd' Hc') as (z & Hz & _). congruence. }
  rewrite Hrun. f_equal. f_equal.
  assert (Hin : In m zs).
  { destruct (ints_total (filter (contains name) l)) as (zs' & Hzs' & _ & Hcomp).
    - intros d' Hd'. apply filter_In in Hd'. destruct Hd' as [Hd' Hc'].
      destruct (Hall d' Hd' Hc') as (z & Hz & _). congruence.
    - rewrite Hzs in Hzs'. inversion Hzs'; subst zs'.
      apply (Hcomp d m); [|exact Hm]. apply filter_In. split; assumption. }
  destruct zs as [|i ids]; [contradiction|].
  apply Z.le_antisymm.
  - destruct (ints_sound _ _ Hzs _ (maximum_in i ids)) as (d' & Hd' & Hz').
    apply filter_In in Hd'. destruct Hd' as [Hd' Hc'].
    destruct (Hall d' Hd' Hc') as (z & Hz & Hle).
    rewrite Hz in Hz'. inversion Hz'; subst z. exact Hle.
  - apply maximum_ge. exact Hin.
Qed.



(** ** [DataDict.arrange_measures] *)

(** X24: the measures of several runs joined with their parameters.  When
    the stored measures have a single index level and the parameter table
    of [_combine_pars] has several rows under the same keys,
    [arrange_measures] (with [index=True]) returns a new table that has
    the columns of the measures followed by those of the parameters and,
    row by row, the cells of the two side by side under the key of the
    run. *)
Theorem arrange_measures_joins_the_parameters :
  forall (self : DataDict) (ps : par_selector) (h h1 : heap) (rm rp : loc)
         (m p : DataFrame),
    (forall ks, ps <> ParNames ks) ->
    dict_get "measures" self = Some (PFrame rm) ->
    nth_error h rm = Some m ->
    _combine_pars self (match ps with ParStatic => false | _ => true end)
                  (match ps with ParVaried => false | _ => true end) h
      = (Ok (PFrame rp), h1) ->
    nth_error h1 rp = Some p ->
    (1 < List.length (rows p))%nat ->
    (List.length (index_names m) <= 1)%nat ->
    keys_eqb (map fst (rows m)) (map fst (rows p)) = true ->
    exists joined,
      arrange_measures self None (Some All) (Some ps) All All true h
        = (Ok (PFrame (List.length h1)), h1 ++ [joined]) /\
      columns joined = columns m ++ columns p /\
      rows joined = map (fun ab => (fst (fst ab), snd (fst ab) ++ snd (snd ab)))
                        (combine (rows m) (rows p)).
Proof.
  intros self ps h h1 rm rp m p Hps Hm Hrm Hpars Hrp Hrows Hlevels Hkeys.
  assert (Hrm1 : nth_error h1 rm = Some m).
  { rewrite <- Hrm.
    destruct (keeps_combine_pars (List.length h) (fun _ => False) self _ _
                h _ h1 (Nat.le_refl _) Hpars) as (_ & Hkeep & _).
    apply Hkeep; [|intros []]. apply nth_error_Some. congruence. }
  assert (Hlt : (1 <? List.length (rows p))%nat = true)
    by (apply Nat.ltb_lt; exact Hrows).
  assert (Hle : (1 <? List.length (index_names m))%nat = false)
    by (apply Nat.ltb_ge; exact Hlevels).
  exists (mkDF (if Nat.eqb (List.length (index_names m))
                            (List.length (index_names p))
                then unanimous_names [index_names m; index_names p]
                else index_names m)
               (columns m ++ columns p)
               (map (fun ab => (fst (fst ab), snd (fst ab) ++ snd (snd ab)))
                    (combine (rows m) (rows p)))).
  split; [|split; reflexivity].
  unfold arrange_measures, arrange.
  cbv [bind ret]. unfold getattr. rewrite Hm. cbv [lift ret].
  rewrite Hpars.
  assert (Hsel : match ps with
                 | ParNames ks =>
                     bind (as_frame TypeError (PFrame rp))
                          (fun r => bind (fresh r (select_columns ks))
                                         (fun r' => ret (PFrame r')))
                 | _ => ret (PFrame rp)
                 end h1 = (Ok (PFrame rp), h1)).
  { destruct ps; try reflexivity. exfalso. exact (Hps l eq_refl). }
  cbv [bind ret] in Hsel. rewrite Hsel.
  unfold combine_vars_measures. cbv [ret].
  unfold combine_with_pars. cbv [bind ret as_frame deref].
  rewrite Hrp, Hlt, Hrm1, Hle, Hrp.
  unfold concat_axis1. rewrite Hkeys. cbv [lift ret alloc].
  reflexivity.
Qed.

Lemma arrange_measures_joins_the_parameters_witness :
  exists joined,
    arrange_measures
      [("log", PDict [("name", PStr "test")]);
       ("parameters", PFrame 0); ("measures", PFrame 1)]
      None (Some All) (Some ParVaried) All All true
      [mkDF [None] ["a"] [([PInt 0], [PInt 10]); ([PInt 1], [PInt 20])];
       mkDF [Some "run_id"] ["final"] [([PInt 0], [PInt 7]); ([PInt 1], [PInt 9])]]
    = (Ok (PFrame 4),
       [mkDF [None] ["a"] [([PInt 0], [PInt 10]); ([PInt 1], [PInt 20])];
        mkDF [Some "run_id"] ["final"] [([PInt 0], [PInt 7]); ([PInt 1], [PInt 9])];
        mkDF [None] ["a"] [([PInt 0], [PInt 10]); ([PInt 1], [PInt 20])];
        mkDF [Some "run_id"] ["a"] [([PInt 0], [PInt 10]); ([PInt 1], [PInt 20])]]
       ++ [joined]) /\
    columns joined = ["final"] ++ ["a"] /\
    rows joined
    = map (fun ab : (list pyobj * list pyobj) * (list pyobj * list pyobj) =>
             (fst (fst ab), snd (fst ab) ++ snd (snd ab)))
          (combine [([PInt 0], [PInt 7]); ([PInt 1], [PInt 9])]
                   [([PInt 0], [PInt 10]); ([PInt 1], [PInt 20])]).
Proof.
  apply (arrange_measures_joins_the_parameters
           [("log", PDict [("name", PStr "test")]);
       ("parameters", PFrame 0); ("measures", PFrame 1)] ParVaried
           [mkDF [None] ["a"] [([PInt 0], [PInt 10]); ([PInt 1], [PInt 20])];
            mkDF [Some "run_id"] ["final"]
                 [([PInt 0], [PInt 7]); ([PInt 1], [PInt 9])]]
           [mkDF [None] ["a"] [([PInt 0], [PInt 10]); ([PInt 1], [PInt 20])];
            mkDF [Some "run_id"] ["final"]
                 [([PInt 0], [PInt 7]); ([PInt 1], [PInt 9])];
            mkDF [None] ["a"] [([PInt 0], [PInt 10]); ([PInt 1], [PInt 20])];
            mkDF [Some "run_id"] ["a"]
                 [([PInt 0], [PInt 10]); ([PInt 1], [PInt 20])]]
           1 3
           (mkDF [Some "run_id"] ["final"]
                 [([PInt 0], [PInt 7]); ([PInt 1], [PInt 9])])
           (mkDF [Some "run_id"] ["a"]
                 [([PInt 0], [PInt 10]); ([PInt 1], [PInt 20])])).
  - intros ks. discriminate.
  - reflexivity.
  - reflexivity.
  - reflexivity.
  - reflexivity.
  - simpl. lia.
  - simpl. lia.
  - reflexivity.
Defined.

(** ** Loading the latest experiment *)

Lemma find_touch_other q p t l :
  p <> q ->
  find (fun n => path_eqb (node_path n) q) (touch p t l)
  = find (fun n => path_eqb (node_path n) q) l.
Proof.
  intros Hne. induction l as [|m l IH]; simpl; [reflexivity|].
  destruct (path_eqb (node_path m) p) eqn:Ep; simpl.
  - apply path_eqb_eq in Ep. rewrite Ep, (path_eqb_neq _ _ Hne). exact IH.
  - destruct (path_eqb (node_path m) q); [reflexivity | exact IH].
Qed.

Lemma find_touch_self p t l n :
  find (fun m => path_eqb (node_path m) p) l = Some n ->
  find (fun m => path_eqb (node_path m) p) (touch p t l)
  = Some (mkNode (node_path n) (node_kind n) t).
Proof.
  induction l as [|m l IH]; simpl; [discriminate|].
  destruct (path_eqb (node_path m) p) eqn:E; simpl; rewrite E.
  - intros H. inversion H. reflexivity.
  - exact IH.
Qed.

Lemma find_put_self n l :
  find (fun m => path_eqb (node_path m) (node_path n)) (put_node n l) = Some n.
Proof.
  induction l as [|m l IH]; simpl.
  - rewrite path_eqb_refl. reflexivity.
  - destruct (path_eqb (node_path m) (node_path n)) eqn:E; simpl.
    + rewrite path_eqb_refl. reflexivity.
    + rewrite E. exact IH.
Qed.

Lemma parent_child (D : path) f : parent (D ++ [f]) = D.
Proof. unfold parent. apply removelast_last. Qed.

Lemma longer_differs (q p : path) :
  (List.length p < List.length q)%nat -> p <> q.
Proof. intros Hlen Heq. subst. lia. Qed.

(** *** The other entries of the base directory *)

Lemma same_node_refl q fs : same_node q fs fs.
Proof. reflexivity. Qed.

Lemma same_node_trans q a b c :
  same_node q a b -> same_node q b c -> same_node q a c.
Proof. unfold same_node. congruence. Qed.

Lemma same_node_write q D s c f :
  q <> D -> q <> D ++ [f] -> components s = D ++ [f] ->
  respects (same_node q) (write_file s c).
Proof.
  intros HD Hf Hs fs r fs'. unfold write_file, same_node, find_node.
  rewrite Hs, parent_child. destruct fs as [clk l].
  destruct (kind_of (D ++ [f]) (mkFS clk l)) as [[|c0]|].
  - intros H. inversion H. reflexivity.
  - intros H. inversion H. simpl. apply find_put_other. simpl. congruence.
  - destruct (is_dir D (mkFS clk l)); intros H; inversion H; [|reflexivity].
    simpl. rewrite find_put_other by (simpl; congruence).
    apply find_touch_other. congruence.
Qed.

Lemma same_node_remove q D s f :
  q <> D -> q <> D ++ [f] -> components s = D ++ [f] ->
  respects (same_node q) (remove_file s).
Proof.
  intros HD Hf Hs fs r fs'. unfold remove_file, same_node, find_node.
  rewrite Hs, parent_child. destruct fs as [clk l].
  destruct (kind_of (D ++ [f]) (mkFS clk l)) as [[|c0]|];
    intros H; inversion H; try reflexivity.
  simpl. rewrite find_touch_other by congruence.
  apply find_filter_other. congruence.
Qed.

Lemma same_node_mkdir q p :
  q <> p -> q <> parent p -> respects (same_node q) (mkdir p).
Proof.
  intros Hp Hpp fs r fs'. unfold mkdir, same_node, find_node.
  destruct fs as [clk l].
  destruct (kind_of p (mkFS clk l)); [intros H; inversion H; reflexivity|].
  destruct (is_dir (parent p) (mkFS clk l)); intros H; inversion H;
    [|reflexivity].
  simpl. rewrite find_put_other by (simpl; congruence).
  apply find_touch_other. congruence.
Qed.

Lemma same_node_make_parents q todo : forall done,
  (List.length (done ++ todo) < List.length q)%nat ->
  respects (same_node q) (make_parents done todo).
Proof.
  induction todo as [|c todo IH]; intros done Hlen; simpl.
  - intros fs r fs' H. inversion H. reflexivity.
  - rewrite length_app in Hlen. simpl in Hlen.
    apply (respects_bind (same_node q) (same_node_trans q)).
    + intros fs r fs' H.
      destruct (kind_of (done ++ [c]) fs) as [[|c0]|];
        try (inversion H; reflexivity).
      revert H. apply same_node_mkdir.
      * apply not_eq_sym, longer_differs. rewrite length_app. simpl. lia.
      * rewrite parent_child. apply not_eq_sym, longer_differs. lia.
    + intros _. apply IH. rewrite <- app_assoc, length_app. simpl. lia.
Qed.

(** *** The clock *)

Lemma clock_mkdir p fs r fs' :
  mkdir p fs = (r, fs') -> (clock fs <= clock fs')%nat.
Proof.
  unfold mkdir. destruct (kind_of p fs); [intros H; inversion H; lia|].
  destruct (is_dir (parent p) fs); intros H; inversion H; simpl;
    unfold tick; lia.
Qed.

Lemma clock_make_parents todo : forall done fs r fs',
  make_parents done todo fs = (r, fs') -> (clock fs <= clock fs')%nat.
Proof.
  induction todo as [|c todo IH]; intros done fs r fs' H; simpl in H.
  - inversion H. lia.
  - apply bind_cases in H.
    assert (Hstep : forall r2 fs2,
              match kind_of (done ++ [c]) fs with
              | Some Dir => (Ok tt, fs)
              | Some (File _) => (Raise NotADirectoryError, fs)
              | None => mkdir (done ++ [c]) fs
              end = (r2, fs2) -> (clock fs <= clock fs2)%nat).
    { intros r2 fs2 H2. destruct (kind_of (done ++ [c]) fs) as [[|c0]|];
        try (inversion H2; lia).
      exact (clock_mkdir _ _ _ _ H2). }
    destruct H as [(e & H & _) | (u & fs2 & H & H2)].
    + exact (Hstep _ _ H).
    + pose proof (Hstep _ _ H). pose proof (IH _ _ _ _ H2). lia.
Qed.

(** *** The new directory *)

Lemma newer_mkdir T D fs fs' :
  (T <= clock fs)%nat -> mkdir D fs = (Ok tt, fs') -> newer_than T D fs'.
Proof.
  intros HT. unfold mkdir. destruct (kind_of D fs); [discriminate|].
  destruct (is_dir (parent D) fs); [|discriminate].
  intros H. inversion H. unfold newer_than, find_node. simpl. split.
  - unfold tick. lia.
  - exists (mkNode D Dir (tick fs)). split.
    + exact (find_put_self (mkNode D Dir (tick fs)) _).
    + simpl. unfold tick. lia.
Qed.

Lemma stays_newer_refl T D fs : stays_newer T D fs fs.
Proof. intros H. exact H. Qed.

Lemma stays_newer_trans T D a b c :
  stays_newer T D a b -> stays_newer T D b c -> stays_newer T D a c.
Proof. unfold stays_newer. auto. Qed.

Lemma stays_newer_write T D s c f :
  components s = D ++ [f] -> respects (stays_newer T D) (write_file s c).
Proof.
  intros Hs fs r fs'. unfold write_file. rewrite Hs, parent_child.
  assert (Hne : D ++ [f] <> D).
  { apply not_eq_sym, longer_differs. rewrite length_app. simpl. lia. }
  destruct (kind_of (D ++ [f]) fs) as [[|c0]|].
  - intros H. inversion H. apply stays_newer_refl.
  - intros H. inversion H. intros (HT & n & Hn & Hlt).
    unfold newer_than, find_node. simpl. split; [unfold tick; lia|].
    exists n. split; [|exact Hlt].
    rewrite find_put_other by (simpl; exact Hne). exact Hn.
  - destruct (is_dir D fs); intros H; inversion H; [|apply stays_newer_refl].
    intros (HT & n & Hn & Hlt).
    unfold newer_than, find_node. simpl. split; [unfold tick; lia|].
    exists (mkNode (node_path n) (node_kind n) (tick fs)). split.
    + rewrite find_put_other by (simpl; exact Hne).
      apply find_touch_self. exact Hn.
    + simpl. unfold tick. lia.
Qed.

Lemma stays_newer_remove T D s f :
  components s = D ++ [f] -> respects (stays_newer T D) (remove_file s).
Proof.
  intros Hs fs r fs'. unfold remove_file. rewrite Hs, parent_child.
  assert (Hne : D ++ [f] <> D).
  { apply not_eq_sym, longer_differs. rewrite length_app. simpl. lia. }
  destruct (kind_of (D ++ [f]) fs) as [[|c0]|];
    intros H; inversion H; try apply stays_newer_refl.
  intros (HT & n & Hn & Hlt).
  unfold newer_than, find_node. simpl. split; [unfold tick; lia|].
  exists (mkNode (node_path n) (node_kind n) (tick fs)). split.
  - apply find_touch_self. rewrite find_filter_other by exact Hne. exact Hn.
  - simpl. unfold tick. lia.
Qed.

(** The times in the base directory after [save]: the new directory was
    modified after the time of the call, the entries that were there keep
    their nodes. *)
Lemma save_times h S exp_name exp_id path fs fs1 :
  flat_keys S ->
  has_char "/" (replace " " "_" exp_name) = false ->
  listed path fs ->
  save h S (Some exp_name) (Some exp_id) path fs = (Ok tt, fs1) ->
  let leaf := (replace " " "_" exp_name ++ "_" ++ string_of_Z exp_id)%string in
  components leaf = [leaf] /\
  newer_than (clock fs) (components path ++ [leaf]) fs1 /\
  forall d, kind_of (components path ++ [d]) fs <> None ->
            same_node (components path ++ [d]) fs fs1.
Proof.
  intros Hkeys Hname Hlisted H.
  set (name := replace " " "_" exp_name) in *.
  set (leaf := (name ++ "_" ++ string_of_Z exp_id)%string).
  set (P := components path) in *.
  cbv zeta.
  assert (Hleaf : components leaf = [leaf]).
  { apply components_single.
    - unfold leaf. rewrite !has_char_append, Hname.
      rewrite (has_char_string_of_Z "/" exp_id eq_refl); [reflexivity|].
      discriminate.
    - unfold leaf. apply append_not_empty. discriminate. }
  assert (HD : components (fmt_dir path name exp_id) = P ++ [leaf]).
  { unfold fmt_dir. rewrite components_app. fold leaf. rewrite Hleaf.
    reflexivity. }
  destruct (listdir_root fs) as (here & Hhere & Hmem).
  apply Hmem in Hlisted. unfold save in H.
  rewrite (bind_Ok _ _ _ _ _ Hhere), Hlisted in H.
  cbv [bind ret] in H. fold name in H.
  destruct (makedirs (fmt_dir path name exp_id) fs) as [[[]|e] fs_b] eqn:Hmk;
    [|discriminate].
  pose proof (makedirs_was_free _ _ _ Hmk) as Hfree. rewrite HD in Hfree.
  assert (Hloop : forall R : FS -> FS -> Prop,
            (forall a, R a a) -> (forall a b c, R a b -> R b c -> R a c) ->
            (forall s c f, components s = (P ++ [leaf]) ++ [f] ->
                           respects R (write_file s c)) ->
            (forall s f, components s = (P ++ [leaf]) ++ [f] ->
                         respects R (remove_file s)) ->
            R fs_b fs1).
  { intros R Rrefl Rtrans Rwrite Rremove. revert H.
    apply (respects_for_each R Rrefl Rtrans).
    intros acc kv Hkv.
    unfold flat_keys in Hkeys. rewrite Forall_forall in Hkeys.
    destruct (Hkeys kv Hkv) as [Hk Hinner].
    apply (respects_save_entry (P ++ [leaf]) (fmt_dir path name exp_id) HD
             R Rrefl Rtrans Rwrite Rremove); assumption. }
  unfold makedirs in Hmk. rewrite HD in Hmk.
  destruct (P ++ [leaf]) as [|a p] eqn:E; [destruct P; discriminate|].
  rewrite <- E in *. rewrite Hfree in Hmk.
  apply bind_inv in Hmk. destruct Hmk as ([] & fs2 & Hmp & Hmd).
  rewrite parent_child in Hmp.
  split; [exact Hleaf|]. split.
  - apply (Hloop (stays_newer (clock fs) (P ++ [leaf]))).
    + apply stays_newer_refl.
    + apply stays_newer_trans.
    + intros s c f Hs. exact (stays_newer_write _ _ s c f Hs).
    + intros s f Hs. exact (stays_newer_remove _ _ s f Hs).
    + apply (newer_mkdir (clock fs) (P ++ [leaf]) fs2 fs_b); [|exact Hmd].
      exact (clock_make_parents _ _ _ _ _ Hmp).
  - intros d Hd.
    assert (Hne : P ++ [d] <> P ++ [leaf]).
    { intros Heq. rewrite Heq in Hd. contradiction. }
    assert (Hdeeper : forall f, P ++ [d] <> (P ++ [leaf]) ++ [f]).
    { intros f. apply longer_differs. rewrite !length_app. simpl. lia. }
    apply (same_node_trans _ fs fs2);
      [|apply (same_node_trans _ fs2 fs_b)].
    + revert Hmp. apply same_node_make_parents.
      simpl. rewrite length_app. simpl. lia.
    + revert Hmd. apply same_node_mkdir; [exact Hne|].
      rewrite parent_child. apply not_eq_sym, longer_differs.
      rewrite length_app. simpl. lia.
    + apply Hloop.
      * apply same_node_refl.
      * apply same_node_trans.
      * intros s c f Hs.
        exact (same_node_write _ _ s c f Hne (Hdeeper f) Hs).
      * intros s f Hs.
        exact (same_node_remove _ _ s f Hne (Hdeeper f) Hs).
Qed.

(** *** The name of the latest experiment *)

Lemma concat_split_on c s :
  String.concat (String c EmptyString) (split_on c s) = s.
Proof.
  induction s as [|a s IH]; [reflexivity|].
  simpl split_on. pose proof (split_on_nonempty c s) as Hne.
  destruct (Ascii.eqb_spec a c) as [-> | Hac].
  - destruct (split_on c s) as [|w ws]; [contradiction|].
    simpl in *. rewrite IH. reflexivity.
  - destruct (split_on c s) as [|w ws]; [contradiction|].
    destruct ws as [|x xs]; simpl in *; rewrite IH; reflexivity.
Qed.

Lemma before_last_app c s t :
  has_char c t = false -> before_last c (s ++ String c t) = s.
Proof.
  intros Ht. unfold before_last.
  rewrite split_on_app, (split_on_single _ _ Ht), rev_app_distr.
  simpl. pose proof (split_on_nonempty c s) as Hne.
  destruct (rev (split_on c s)) as [|x front] eqn:E.
  - apply (f_equal (@rev string)) in E. rewrite rev_involutive in E.
    contradiction.
  - rewrite <- E, rev_involutive. apply concat_split_on.
Qed.

Lemma replace_space_cons a s :
  replace_from " " "_" 0 (String a s)
  = if Ascii.eqb " " a then String "_" (replace_from " " "_" 0 s)
    else String a (replace_from " " "_" 0 s).
Proof.
  change (replace_from " " "_" 0 (String a s))
    with (if Ascii.eqb " " a && true
          then String "_" (replace_from " " "_" 0 s)
          else String a (replace_from " " "_" 0 s)).
  rewrite andb_true_r. reflexivity.
Qed.

Lemma replace_space_twice s :
  replace " " "_" (replace " " "_" s) = replace " " "_" s.
Proof.
  unfold replace. induction s as [|a s IH]; [reflexivity|].
  rewrite replace_space_cons. destruct (Ascii.eqb " " a) eqn:E;
    rewrite replace_space_cons.
  - change (Ascii.eqb " " "_") with false. cbv iota. rewrite IH. reflexivity.
  - rewrite E, IH. reflexivity.
Qed.

Lemma latest_last l : forall best x t,
  (snd best < t)%nat -> Forall (fun y => (snd y < t)%nat) l ->
  latest best (l ++ [(x, t)]) = x.
Proof.
  induction l as [|a l IH]; intros best x t Hb Hall; simpl.
  - apply Nat.ltb_lt in Hb. rewrite Hb. reflexivity.
  - inversion Hall; subst. apply IH; [|assumption].
    destruct (snd best <? snd a)%nat; assumption.
Qed.

Lemma getmtime_child path d fs n :
  components d = [d] ->
  find_node (components path ++ [d]) fs = Some n ->
  getmtime (path ++ "/" ++ d) fs = Ok (mtime n).
Proof.
  intros Hd Hn. unfold getmtime. rewrite components_app, Hd.
  destruct (components path ++ [d]) as [|a p] eqn:E;
    [destruct (components path); discriminate|].
  rewrite Hn. reflexivity.
Qed.

Lemma mtimes_saved fs path T leaf n dirs :
  components leaf = [leaf] ->
  find_node (components path ++ [leaf]) fs = Some n ->
  (forall d, In d dirs ->
     components d = [d] /\
     exists m, find_node (components path ++ [d]) fs = Some m /\
               (mtime m <= T)%nat) ->
  exists l, mtimes fs path (dirs ++ [leaf]) = Ok (l ++ [(leaf, mtime n)]) /\
            Forall (fun y => (snd y <= T)%nat) l.
Proof.
  intros Hleaf Hn. induction dirs as [|d dirs IH]; intros Hall.
  - exists []. cbn [app mtimes].
    rewrite (getmtime_child path leaf fs n Hleaf Hn).
    split; [reflexivity | constructor].
  - destruct (Hall d (or_introl eq_refl)) as (Hd & m & Hm & Hle).
    destruct IH as (l & Hl & Hfor).
    { intros d' Hd'. apply Hall. right. exact Hd'. }
    exists ((d, mtime m) :: l). cbn [app mtimes].
    rewrite (getmtime_child path d fs m Hd Hm), Hl.
    split; [reflexivity|]. constructor; [exact Hle | exact Hfor].
Qed.

Lemma load_latest fs id path h0 :
  load fs None id path h0
  = match latest_experiment fs path with
    | Ok n => load fs (Some n) id path h0
    | Raise e => (Raise e, h0)
    end.
Proof.
  unfold load, _load, bind, lift, ret.
  destruct (latest_experiment fs path); reflexivity.
Qed.

Lemma load_same_name fs n n' id path h0 :
  replace " " "_" n' = replace " " "_" n ->
  load fs (Some n') id path h0 = load fs (Some n) id path h0.
Proof.
  intros H. cbv beta iota zeta delta [load _load bind ret]. rewrite H. reflexivity.
Qed.

(** X25: [load] without a name takes what was saved last.  After a
    successful [save] under a name, into a base directory that is listed
    in the working directory and whose entries were all modified before
    the call, a [load] that is given no name loads what a [load] with that
    name does, whatever id it is given: the directory that [save] made is
    the one modified last, and its name without the id is the name. *)
Theorem load_without_name_takes_last_saved :
  forall (h : heap) (S : DataDict) (exp_name path : string)
         (exp_id : option Z) (fs fs1 : FS) (dirs : list string),
    stamped fs ->
    flat_keys S ->
    has_char "/" (replace " " "_" exp_name) = false ->
    listed path fs ->
    ls (components path) fs = Ok dirs ->
    Forall (fun d => components d = [d]) dirs ->
    save h S (Some exp_name) exp_id path fs = (Ok tt, fs1) ->
    forall (id : option Z) (h0 : heap),
      load fs1 None id path h0 = load fs1 (Some exp_name) id path h0.
Proof.
  intros h S exp_name path exp_id fs fs1 dirs Hst Hkeys Hname Hlisted Hls
         Hplain Hsave id h0.
  set (name := replace " " "_" exp_name) in *.
  (* the id of the new directory *)
  assert (Hid : exists i, save h S (Some exp_name) (Some i) path fs
                          = (Ok tt, fs1)).
  { destruct exp_id as [i|]; [exists i; exact Hsave|].
    destruct (listdir_root fs) as (here & Hhere & Hmem).
    pose proof (proj2 (Hmem path) Hlisted) as Hin.
    pose proof (last_exp_id_state name path fs) as Hstate.
    destruct (_last_exp_id name path fs) as [[i|e] fs2] eqn:Hrun;
      simpl in Hstate; subst fs2.
    - exists (i + 1)%Z. rewrite <- Hsave. unfold save. cbv [bind ret].
      rewrite Hhere, Hin. fold name. rewrite Hrun. reflexivity.
    - exfalso. unfold save in Hsave. cbv [bind ret] in Hsave.
      rewrite Hhere, Hin in Hsave. fold name in Hsave. rewrite Hrun in Hsave.
      discriminate. }
  destruct Hid as (i & Hsave').
  destruct (save_times h S exp_name i path fs fs1 Hkeys Hname Hlisted Hsave')
    as (Hleaf & (_ & n & Hn & Hnew) & Hsame).
  pose proof (save_lists_new_directory h S exp_name i path fs fs1 dirs
                Hkeys Hname Hlisted Hls Hsave') as Hls1.
  fold name in Hleaf, Hn, Hsame, Hls1.
  set (leaf := (name ++ "_" ++ string_of_Z i)%string) in *.
  (* the entries that were there *)
  assert (Hdir : is_dir (components path) fs = true).
  { unfold ls, listdir in Hls. unfold is_dir.
    destruct (kind_of (components path) fs) as [[|c]|];
      [reflexivity | discriminate..]. }
  assert (Hold : forall d, In d dirs ->
            components d = [d] /\
            exists m, find_node (components path ++ [d]) fs1 = Some m /\
                      (mtime m <= clock fs)%nat).
  { intros d Hd. rewrite Forall_forall in Hplain. split; [exact (Hplain d Hd)|].
    assert (Hk : kind_of (components path ++ [d]) fs <> None).
    { rewrite kind_of_child. intros Hnone.
      apply dict_get_None_not_key in Hnone. apply Hnone.
      rewrite (ls_children _ _ Hdir) in Hls. inversion Hls as [Heq].
      unfold dict_keys. rewrite Heq. exact Hd. }
    rewrite (Hsame d Hk).
    unfold kind_of in Hk.
    destruct (components path ++ [d]) as [|a p] eqn:E;
      [destruct (components path); discriminate|].
    destruct (find_node (a :: p) fs) as [m|] eqn:Hm; [|contradiction].
    exists m. split; [reflexivity|].
    apply Hst. exact (proj1 (find_node_In _ _ _ Hm)). }
  (* the latest of them *)
  assert (Hlatest : latest_experiment fs1 path = Ok name).
  { unfold latest_experiment. rewrite Hls1.
    destruct (mtimes_saved fs1 path (clock fs) leaf n dirs Hleaf Hn Hold)
      as (l & Hl & Hfor).
    rewrite Hl.
    assert (Hlt : Forall (fun y : string * nat => (snd y < mtime n)%nat) l).
    { apply (Forall_impl _ (P := fun y : string * nat => (snd y <= clock fs)%nat));
        [|exact Hfor].
      intros y Hy. lia. }
    assert (Hpick : match l ++ [(leaf, mtime n)] with
                    | [] => Raise ValueError
                    | x :: l' => Ok (before_last "_" (latest x l'))
                    end = Ok (before_last "_" leaf)).
    { destruct l as [|x l']; [reflexivity|]. simpl. f_equal. f_equal.
      inversion Hlt; subst. apply latest_last; assumption. }
    rewrite Hpick. f_equal. unfold leaf.
    change (name ++ "_" ++ string_of_Z i)%string
      with (name ++ String "_" (string_of_Z i))%string.
    apply before_last_app.
    apply has_char_string_of_Z; [reflexivity | discriminate]. }
  rewrite load_latest, Hlatest.
  apply load_same_name. apply replace_space_twice.
Qed.

Lemma load_without_name_takes_last_saved_witness :
  load (snd (save example_heap whole_run (Some "test run") None "ap_output"
                  earlier_output))
       None None "ap_output" []
  = load (snd (save example_heap whole_run (Some "test run") None "ap_output"
                    earlier_output))
         (Some "test run") None "ap_output" [].
Proof.
  apply (load_without_name_takes_last_saved
           example_heap whole_run "test run" "ap_output" None
           earlier_output _ ["test_run_1"]).
  - intros n [<- | [<- | [<- | []]]]; simpl; lia.
  - repeat apply Forall_cons; try apply Forall_nil;
      (split; [reflexivity|]); try exact I;
      repeat apply Forall_cons; try apply Forall_nil; reflexivity.
  - reflexivity.
  - eexists. split; [left; reflexivity | reflexivity].
  - reflexivity.
  - repeat constructor.
  - vm_compute. reflexivity.
Defined.

(** X26: [load] without a name needs an experiment to choose from.  Where
    the base directory is there but holds no entry, the call raises
    [ValueError] (the maximum of no modification times), not the
    [FileNotFoundError] of a name that is not found, and reads nothing. *)
Theorem load_without_name_in_empty_directory :
  forall (fs : FS) (path : string) (id : option Z) (h0 : heap),
    is_dir (components path) fs = true ->
    children (components path) fs = [] ->
    load fs None id path h0 = (Raise ValueError, h0).
Proof.
  intros fs path id h0 Hdir Hempty.
  rewrite load_latest. unfold latest_experiment.
  rewrite (ls_children _ _ Hdir), Hempty. reflexivity.
Qed.

Lemma load_without_name_in_empty_directory_witness :
  load (mkFS 1 [mkNode ["ap_output"] Dir 1]) None None "ap_output" []
  = (Raise ValueError, []).
Proof.
  apply (load_without_name_in_empty_directory
           (mkFS 1 [mkNode ["ap_output"] Dir 1]) "ap_output" None []).
  - reflexivity.
  - reflexivity.
Defined.
